(* ===== verification/_CoqProject ===== *)
-Q . S2P
Prelude.v
Decimal.v
DecimalBits.v
Dfp754D64.v
Dfp754D32.v
Dfp754Spec.v
Dfp754Print.v
Dfp754Dpd.v
Dfp754D32Spec.v
Memrchr.v
Hash.v
Btree.v
BtreeLeaf.v
BtreeUsed.v
BtreeIter.v
BtreeSide.v
BtreeCursor.v
BtreeOps.v
BtreeMap.v
BtreeTree.v
BtreeHide.v
BtreeSight.v
BtreeKids.v
BtreeGrow.v
BtreeThread.v
BtreeHalves.v
BtreeSplit.v
BtreePut.v
BtreeGrown.v
BtreeLively.v
BtreeStates.v
BtreeStateOps.v
BtreeUnwind.v
Books.v
BtreeTheorems.v
BtreePuts.v
BooksLoops.v
BooksSpec.v
BooksAdd.v
BooksGrown.v
BooksAny.v
BooksHistory.v
BooksStock.v
BooksExamples.v
Xquo.v
XquoSpec.v
XquoLines.v
Book2book.v
Desks.v
Book2bookSpec.v
Book2bookPrint.v
Book2bookUnwind.v
Book2bookRun.v
Booksnap.v
BooksnapSpec.v
BooksnapPrint.v
BooksnapDiff.v
BooksnapClock.v
BooksnapAny.v
BooksnapRun.v
Tests.v
