(* ===== verification/Prelude.v ===== *)
(** * books: a library for aggregated limit order books -- verification

    The program (C, under src/src/) keeps the limit order books of financial
    instruments.  A book has two sides, asks and bids; a side is a B+tree from
    prices to quantities with the time of the last change.  Two tools are built
    on the library: book2book converts streams of quotes into other book
    flavours, booksnap prints the books at regular times.

    ** The parts and how they interact

    - Prices and quantities are decimal floating point numbers.  dfp754_d64.c
      and dfp754_d32.c convert them from and to strings, round them to the
      quantum of another number and take them apart.
    - btree.c is the tree: nodes of 63 keys with a spare cell, leaves chained in
      order.  Levels are deleted by zeroing their quantity; the word [used] of a
      leaf has a bit per cell that may hold a level, and iterators clear the
      bits of the cells they find empty.
    - books.c is the book: it adds quotes (levels, changes, top-of-book quotes,
      trades, clearing), expires levels and answers queries, all by iterating
      over the trees.
    - xquo.c parses and prints: times, sides and whole quote lines, with
      memrchr.c to find the last tab.
    - hash.c hashes instrument names; the tools keep one book per hash.
    - book2book.c and booksnap.c: option handling, the table of books, the loop
      over the lines of standard input, and the printers.

    ** The files

    - [Prelude]: machine integers, arrays, loops, automation.
    - [Decimal]: the C type [_Decimal64] (and [_Decimal32]): numbers with their
      exponents, comparison, rounded arithmetic, and the BID encoding
      ([bits64], [bobs64]).  This is the language, not the program.
      [DecimalBits]: the encoding as a codec between words and values, for any
      width of exponent and coefficient, and its two instances.
    - [Dfp754D64], [Dfp754D32]: dfp754_d64.c/.h and dfp754_d32.c/.h, one
      definition per function, both the BID and the DPD variants; loops over
      strings are structural, [round_bcd64] has fuel 18 and [round_bcd32] 10
      (more shifts than a mantissa has digits: a mantissa that is still being
      shifted then is zero, and the loop has no end).
      [Dfp754Spec], [Dfp754Print], [Dfp754Dpd], [Dfp754D32Spec]: their theorems.
    - [Memrchr], [Hash]: memrchr.c and hash.c with their theorems.
    - [Btree]: btree.c/.h and btree_val.h.  Nodes live in a heap (a finite map
      from addresses to nodes and the next free address), so that the pointers
      handed out by [btree_put] and the [next] pointers alias as in C.  A
      function returns [None] for undefined behaviour or when it does not
      return.  Recursion over the height has fuel [height_fuel], one more than
      the number of nodes, which no path without repetition exceeds.  What
      [__builtin_ctzll(0)] returns is a parameter, [ctz0].
      [BtreeLeaf]: a leaf as a list of entries, [leaf_get] and [leaf_add];
      [BtreeUsed]: the word [used] under [leaf_add]; [BtreeIter], [BtreeSide]:
      chains of leaves and iterators over them, writes to cells;
      [BtreeCursor]: the class [Cursor], the contract of the iterator that
      books.c relies on, and its instance; [BtreeOps], [BtreeMap],
      [BtreeTree]: the operations, a leaf as a finite map, trees with search
      order.  [BtreeHide]: iterators over leaves with any [used] words see the
      levels whose bits are set, by a simulation, and the class [Tended] of what
      may be known of the rest of the heap meanwhile; [BtreeSight]: which levels
      of a leaf a put uncovers or hides.
      Growing trees: [BtreeKids], the children of an inner node around an
      opening; [BtreeGrow], trees with the list of their nodes; [BtreeThread],
      the chain through the leaves of a tree, strays included; [BtreeHalves],
      [BtreeSplit], the halves of a node, [node_split] and [root_split];
      [BtreePut], [twig_add]; [BtreeGrown], the invariant [grown] and the
      operations that keep it; [BtreeLively], [grown] together with the chain;
      [BtreeStates], [BtreeStateOps]: [side_state], what a side of any size
      stores and what it shows, and the operations on it; [BtreeUnwind]: putting
      the level an iterator shows.  [BtreeTheorems], [BtreePuts]: the properties
      of btree.c.
    - [Books]: books.c/.h; loops over a side have fuel [cells_fuel], one more
      than 64 cells per node, and are proved never to use it up.
      [BooksLoops]: every loop against the contract [Cursor] and the reference
      definitions it computes; [BooksSpec]: the classes [Shown] and [Clearable],
      what queries and changes need of a book, their theorems for any instance,
      and the instance [book_at], sides of any number of leaves with their bits
      set; [BooksAdd]: [quote_step], the abstract machine, and that [book_add]
      implements it while the sides are single leaves; [BooksGrown]: level
      quotes on sides of any height.  [BooksAny]: books of any size and history
      ([book_state]), abstractly the levels each side stores and shows
      ([abook]), the machine [big_step] for every quote, and [book_add] as its
      implementation; [BooksHistory]: from making to freeing, queries and expiry
      on such books; [BooksStock]: any number of them in one heap.
      [BooksExamples]: instances.
    - [Xquo], [XquoSpec], [XquoLines]: xquo.c/.h, well-formed lines, then any line.
    - [Book2book], [Booksnap]: the tools as step functions on lines, with
      standard output as a list of bytes.  [Desks]: the table of instruments
      both keep, and the search in it.  [Book2bookSpec], [BooksnapSpec]: one
      book at a time; [Book2bookPrint], [BooksnapPrint]: what the printers and
      snappers write, as functions of the levels; [BooksnapDiff]: the changes
      that the snapper [-3] reports; [Book2bookUnwind]: levels
      taken off one by one; [BooksnapClock]: the clock of a run;
      [Book2bookRun], [BooksnapAny]: whole runs; [BooksnapRun]: snapshots of all
      books until a quote, rejected lines.
      [Tests]: runs of the models against expected output from test/*.clit.

    ** What the theorems show

    - [BooksAdd], [BooksSpec]: adding quotes is a run of the abstract machine
      over two finite maps ([book_add_correct], [book_build_correct],
      [book_build_visible]); trades, clearing and expiry change the levels as
      the reference definitions say; all queries and the public iterator compute
      functions of the levels, return and leave the book alone.
    - [BtreeTheorems]: on single leaves and chains of leaves, put, get, rem, clr,
      top and iteration refine the finite map; exactly when [leaf_add] loses
      sight of a level ([btree_put_visible], [btree_put_hides]); a split of the
      root clears the [used] words ([root_split_invisible]).
    - [BtreePuts]: trees of any height.  [node_split] in all its cases keeps the
      order and every level ([node_split_correct]); [btree_put] and a store to
      the cell it returns update the finite map ([btree_put_tree_correct]),
      except when the leaf was split on the way and the cell moved
      ([btree_put_loses]); a sequence of puts does so with exactly these losses
      ([puts_correct]); [btree_rem] and [free_btree].  Each says which nodes are touched.
    - [BooksAny], [BooksHistory]: on books of any size [book_add] implements
      [big_step] for all quotes ([book_add_any_correct]): what is stored, what is
      shown, and exactly what may be lost; a book that is made, fed with any
      quotes, asked anything and freed does as the machine says
      ([book_history_correct]).
    - [Dfp754Spec], [Dfp754Print], [Dfp754Dpd], [Dfp754D32Spec], [DecimalBits]:
      round trips of declets, of the BID parts, of the encodings, of printing and
      reading prices of both widths, and of the 64-bit DPD words; exactness of
      quantisation; how the rounding of a 16th digit fails.
    - [XquoSpec], [XquoLines], [Memrchr], [Hash]: parsing of well-formed lines,
      and of any line column by column ([read_xquo_line]); which lines are
      rejected; the round trip of times and how long they print; the
      side letters; [memrchr] against its specification for every alignment;
      totality of the hash.
    - [Book2bookSpec], [Book2bookRun]: how the book of an instrument is found or
      made; a run of book2book, whatever the mode, the instruments named and the
      quotes, is a run of the machine [conv] on the table of instruments
      ([b2b_run_correct]): parser, hash, table, trees, printers and freeing
      composed.
    - [BooksnapAny]: the same for booksnap, with its clock and the copies that
      [-3] compares with, for all nine snappers ([snap_run_correct]).
      [BooksnapDiff]: what that comparison writes while no level vanishes
      ([snap3_correct]), and that it misses levels when one does
      ([snap3_skips]).  [BooksnapSpec], [BooksnapRun]: where the
      metronome stops; what a snapshot of all books prints under [-2]
      ([snap_all_correct]); that each quote is waited for, with snapshots at exactly
      the times of the schedule of stamps or intervals ([snap_until_correct]); that
      rejected lines change nothing in either tool ([rejected_line_ignored]).

    ** What is not modelled

    Failing allocations, input and output as such, the generated option parser
    (its results are the records [b2b_args] and [snap_args]), payloads of NaNs,
    the choice between BID and DPD at configuration time (both are defined; the
    books use BID), and freeing of memory other than tree nodes.

    ** Where the theorems stop

    What iterators meet on trees of any height depends on the [used] words, which
    [node_split], [root_split] and [leaf_add] do not keep; the theorems for books of
    any size therefore have two sets of levels, stored and shown, and need
    [__builtin_ctzll(0)], which its documentation leaves undefined, to be 63 or more (it
    is 64 where the compiler emits TZCNT; for level quotes under [-2] and [-3] any
    value does).  [big_step] leaves open which stored levels a split hides, and
    whether a put is lost on a side of 62 levels or more; a side that has always
    had fewer loses nothing.  Unwinding under [-2] and [-3] is described for sides
    that were never split.  Runs of booksnap need times that do not wrap around.
    What [-3] writes when levels have vanished is what the code does with its copies
    ([shot]), with no reference definition.  Of the DPD functions those for 64 bits
    that read and print have theorems, the others definitions and examples. *)

From Stdlib Require Import ZArith Lia.
From stdpp Require Import prelude list gmap.
From stdpp Require Import options.

Local Open Scope Z_scope.

(** ** Machine integers *)

(** Unsigned wrap-around at the widths the program uses. *)
Definition u8 (x : Z) : Z := x mod 2 ^ 8.
Definition u32 (x : Z) : Z := x mod 2 ^ 32.
Definition u64 (x : Z) : Z := x mod 2 ^ 64.

(** [ctz p] counts the trailing zeros of a positive number. *)
Fixpoint pos_ctz (p : positive) : nat :=
  match p with
  | xO q => S (pos_ctz q)
  | _ => O
  end.

(** ** Loops *)

(** [for (; cnt > 0 && p i; i++, cnt--)]: the index at which the scan stops;
    [None] when evaluating the condition is undefined. *)
Fixpoint scan_up (cnt : nat) (p : nat -> option bool) (i : nat) : option nat :=
  match cnt with
  | O => Some i
  | S c => b ← p i; if (b : bool) then scan_up c p (S i) else Some i
  end.

(** ** Arrays *)

(** [memmove]/[memcpy] of [c] cells from offset [s] of [src] to offset [d] of
    [dst]; [None] when a cell outside of either array is touched. *)
Definition memmove {A} (d s c : nat) (dst src : list A) : option (list A) :=
  if decide (d + c <= length dst ∧ s + c <= length src)%nat
  then Some (take d dst ++ take c (drop s src) ++ drop (d + c) dst)
  else None.

(** Array store; [None] outside of the array. *)
Definition store {A} (i : nat) (x : A) (l : list A) : option (list A) :=
  if decide (i < length l)%nat then Some (<[i := x]> l) else None.

(** [memset] of the cells from [i] up to the end of the array. *)
Definition fill {A} (i : nat) (x : A) (l : list A) : list A :=
  take i l ++ replicate (length l - i) x.

(** ** Automation *)

(** One step of a computation in the option monad, without unfolding anything
    else. *)
Ltac bstep := cbn [mbind option_bind fst snd].

(** Run the computation of hypothesis [H] whose first step is known. *)
Tactic Notation "brun" constr(H) := rewrite H; bstep.

(** Linear arithmetic over the lengths of arrays that were cut and pasted. *)
Create Rewrite HintDb lens.
#[export] Hint Rewrite @length_app @length_take @length_drop @length_replicate
  @length_insert @length_fmap @length_seq : lens.
Ltac len := autorewrite with lens; lia.
Ltac len_all := repeat progress (autorewrite with lens in *; cbn [length] in *).

(** Sequences as right-nested pieces, in the goal; a mapped sequence in a
    hypothesis as its pieces. *)
Ltac app_norm := repeat (progress simpl || rewrite <- app_assoc).
Ltac map_pieces Hx :=
  repeat (rewrite fmap_app in Hx || rewrite fmap_cons in Hx); cbn [fst snd] in Hx.

(** ** Generic lemmas *)

Lemma NoDup_perm {A} (l l' : list A) : l ≡ₚ l' -> NoDup l -> NoDup l'.
Proof. by intros ->. Qed.

Section arrays.
Context {A : Type}.
Implicit Types l dst src : list A.

Lemma memmove_Some d s c dst src dst' :
  memmove d s c dst src = Some dst' ->
  length dst' = length dst ∧
  ∀ j, dst' !! j = if decide (d <= j < d + c)%nat
                   then src !! (s + (j - d))%nat else dst !! j.
Proof.
  unfold memmove. case_decide as H; [|done]. intros [= <-]. split.
  - len.
  - intros j. destruct (decide (j < d)%nat) as [Hj|Hj].
    { rewrite lookup_app_l by len.
      rewrite lookup_take_lt by lia. case_decide; [lia|done]. }
    rewrite lookup_app_r; rewrite length_take; [|lia].
    rewrite Nat.min_l by lia.
    destruct (decide (j < d + c)%nat) as [Hj'|Hj'].
    + rewrite lookup_app_l by len.
      rewrite lookup_take_lt, lookup_drop by lia.
      case_decide; [f_equal; lia|lia].
    + rewrite lookup_app_r; rewrite length_take, length_drop; [|lia].
      rewrite lookup_drop. case_decide; [lia|]. f_equal; lia.
Qed.

Lemma memmove_is_Some d s c dst src :
  (d + c <= length dst)%nat -> (s + c <= length src)%nat ->
  ∃ dst', memmove d s c dst src = Some dst'.
Proof. intros. unfold memmove. rewrite decide_True by lia. eauto. Qed.

Lemma store_Some i x l l' :
  store i x l = Some l' -> (i < length l)%nat ∧ l' = <[i := x]> l.
Proof. unfold store. case_decide; naive_solver. Qed.

Lemma store_lt i x l : (i < length l)%nat -> store i x l = Some (<[i := x]> l).
Proof. intros. unfold store. by rewrite decide_True. Qed.

Lemma memmove_0 d s l l' : memmove d s 0 l l = Some l' -> l' = l.
Proof.
  unfold memmove. case_decide; [|done]. intros [= <-].
  simpl. rewrite Nat.add_0_r. apply take_drop.
Qed.

(** Making room at [i], the cell [nul] to its right being spare. *)
Lemma room_right l i nul x :
  (i <= nul)%nat -> (nul < length l)%nat ->
  ∃ l1, memmove (i + 1) (i + 0) (nul - i) l l = Some l1 ∧ length l1 = length l ∧
        store i x l1 = Some (take i l ++ x :: take (nul - i) (drop i l) ++ drop (nul + 1) l).
Proof.
  intros Hi Hn. unfold memmove. rewrite decide_True by lia.
  eexists. split; [done|].
  assert (length (take (i + 1) l ++ take (nul - i) (drop (i + 0) l) ++
                  drop (i + 1 + (nul - i)) l) = length l) as Hl.
  { len. }
  split; [done|]. unfold store. rewrite Hl, decide_True by lia. f_equal.
  rewrite insert_take_drop by (rewrite Hl; lia). rewrite Nat.add_0_r.
  f_equal.
  - rewrite take_app_le by len. rewrite take_take. f_equal; lia.
  - f_equal. rewrite drop_app_ge by len.
    rewrite length_take. replace (S i - (i + 1) `min` length l)%nat with 0%nat by lia.
    rewrite drop_0. f_equal. f_equal. lia.
Qed.

(** Making room in front of [i], the cell [nul] to its left being spare. *)
Lemma room_left l i nul x :
  (nul < i)%nat -> (i <= length l)%nat ->
  ∃ l1, memmove (nul + 0) (nul + 1) (i - 1 - nul) l l = Some l1 ∧ length l1 = length l ∧
        store (i - 1) x l1 = Some (take nul l ++ take (i - 1 - nul) (drop (nul + 1) l) ++
                                   x :: drop i l).
Proof.
  intros Hi Hn. unfold memmove. rewrite decide_True by lia.
  eexists. split; [done|].
  assert (length (take (nul + 0) l ++ take (i - 1 - nul) (drop (nul + 1) l) ++
                  drop (nul + 0 + (i - 1 - nul)) l) = length l) as Hl.
  { len. }
  split; [done|]. unfold store. rewrite Hl, decide_True by lia. f_equal.
  rewrite insert_take_drop by (rewrite Hl; lia). rewrite Nat.add_0_r.
  rewrite app_assoc, (app_assoc (take nul l)).
  set (h := take nul l ++ take (i - 1 - nul) (drop (nul + 1) l)).
  assert (length h = i - 1)%nat as Hh.
  { unfold h. len. }
  rewrite take_app_le, take_ge by lia. f_equal. f_equal.
  rewrite drop_app_ge, Hh, drop_drop by lia. f_equal. lia.
Qed.

(** [memmove] and [store] on arrays given in pieces. *)
Lemma memmove_mid l1 m1 r1 l2 m2 r2 d s c dst src :
  dst = l1 ++ m1 ++ r1 -> src = l2 ++ m2 ++ r2 ->
  length l1 = d -> length m1 = c -> length l2 = s -> length m2 = c ->
  memmove d s c dst src = Some (l1 ++ m2 ++ r1).
Proof.
  intros -> -> <- Hm <- <-. unfold memmove. rewrite decide_True by len.
  rewrite take_app_length, drop_app_length, take_app_length. do 3 f_equal.
  rewrite app_assoc. apply drop_app_length'. len.
Qed.

Lemma store_mid l1 y r1 i x l :
  l = l1 ++ y :: r1 -> length l1 = i -> store i x l = Some (l1 ++ x :: r1).
Proof.
  intros -> <-. unfold store. rewrite decide_True by (rewrite length_app; simpl; lia).
  by rewrite insert_app_r_alt, Nat.sub_diag.
Qed.

Lemma length_fill i x l : (i <= length l)%nat -> length (fill i x l) = length l.
Proof. intros. unfold fill. len. Qed.

Lemma lookup_fill i x l j :
  (i <= length l)%nat ->
  fill i x l !! j = if decide (j < i)%nat then l !! j
                    else if decide (j < length l)%nat then Some x else None.
Proof.
  intros Hi. unfold fill. case_decide.
  - rewrite lookup_app_l by len. by rewrite lookup_take_lt.
  - rewrite lookup_app_r; rewrite length_take; [|lia].
    rewrite Nat.min_l by lia. case_decide.
    + apply lookup_replicate_2. lia.
    + apply lookup_ge_None_2. len.
Qed.
End arrays.

(** A scan stops at the first index that fails the condition. *)
Lemma scan_up_Some cnt p i j :
  scan_up cnt p i = Some j ->
  (i <= j <= i + cnt)%nat ∧ (∀ x, (i <= x < j)%nat -> p x = Some true) ∧
  ((j < i + cnt)%nat -> p j = Some false).
Proof.
  revert i. induction cnt as [|c IH]; intros i; simpl.
  - intros [= <-]. repeat split; try lia; intros; lia.
  - destruct (p i) as [[]|] eqn:E; simpl; [| |done].
    + intros (?&H2&H3)%IH. repeat split; try lia.
      * intros x ?. destruct (decide (x = i)) as [->|]; [done|]. apply H2; lia.
      * intros. apply H3; lia.
    + intros [= <-]. repeat split; try done; try lia; intros; lia.
Qed.

Lemma scan_up_intro cnt p i j :
  (i <= j <= i + cnt)%nat ->
  (∀ x, (i <= x < j)%nat -> p x = Some true) ->
  ((j < i + cnt)%nat -> p j = Some false) ->
  scan_up cnt p i = Some j.
Proof.
  revert i. induction cnt as [|c IH]; intros i Hj Ht Hf; simpl.
  { f_equal; lia. }
  destruct (decide (i = j)) as [->|].
  - rewrite Hf by lia. done.
  - rewrite Ht by lia. simpl. apply IH; [lia| |].
    + intros; apply Ht; lia.
    + intros; apply Hf; lia.
Qed.

Lemma scan_up_total cnt p i :
  (∀ x, (i <= x < i + cnt)%nat -> is_Some (p x)) -> is_Some (scan_up cnt p i).
Proof.
  revert i. induction cnt as [|c IH]; intros i H; simpl; [by eexists|].
  destruct (H i) as [b Hb]; [lia|]. rewrite Hb; simpl.
  destruct b; [|by eexists]. apply IH. intros; apply H; lia.
Qed.
