(* ===== verification/Decimal.v ===== *)
(** * Decimal floating point: the C types [_Decimal64] and [_Decimal32]

    The program computes with the decimal types of the language (ISO/IEC TR
    24732, IEEE 754-2008).  Their values, their comparisons and their
    correctly rounded arithmetic (round half to even, the default mode) are
    defined here, together with the BID interchange encoding that [bits64] and
    [bobs64] of src/src/dfp754_d64.h expose.  NaN payloads and the sign of a
    NaN are not represented. *)

From Stdlib Require Import ZArith Lia.
From stdpp Require Import prelude list.
From stdpp Require Import options.
From S2P Require Import Prelude.

Local Open Scope Z_scope.

(** ** Values *)

(** [DFin s m e] is [(-1)^s * m * 10^e]; the cohort member (the exponent) is
    part of the value, as printing and [quantize] look at it. *)
Inductive dec :=
  | DNan
  | DInf (s : bool)
  | DFin (s : bool) (m e : Z).

#[export] Instance dec_eq_dec : EqDecision dec.
Proof. solve_decision. Defined.

(** A decimal format: digits of precision and the range of the exponent of
    the coefficient's least digit. *)
Record dfmt := mk_dfmt { prec : Z; emin : Z; emax : Z }.
Definition d64fmt : dfmt := mk_dfmt 16 (-398) 369.
Definition d32fmt : dfmt := mk_dfmt 7 (-101) 90.

(** Values representable in a format. *)
Definition dwf (f : dfmt) (x : dec) : Prop :=
  match x with
  | DFin _ m e => 0 <= m < 10 ^ prec f ∧ emin f <= e <= emax f
  | _ => True
  end.

Definition signed (s : bool) (m : Z) : Z := if s then - m else m.

(** ** Comparisons *)

(** The position of a value on the number line in units of [10^-398], the
    least positive [_Decimal64]; infinities lie beyond every finite value and
    a NaN lies nowhere. *)
Definition drank (x : dec) : option Z :=
  match x with
  | DNan => None
  | DInf s => Some (signed s (10 ^ 800))
  | DFin s m e => Some (signed s (m * 10 ^ (e + 398)))
  end.

Definition dlt (a b : dec) : bool :=
  match drank a, drank b with Some x, Some y => x <? y | _, _ => false end.
Definition dle (a b : dec) : bool :=
  match drank a, drank b with Some x, Some y => x <=? y | _, _ => false end.
Definition deq (a b : dec) : bool :=
  match drank a, drank b with Some x, Some y => x =? y | _, _ => false end.
Definition dgt (a b : dec) : bool := dlt b a.
Definition dge (a b : dec) : bool := dle b a.
(** [a != b] holds of unordered operands. *)
Definition dne (a b : dec) : bool := negb (deq a b).

Definition is_nan (x : dec) : bool := match x with DNan => true | _ => false end.
Definition is_inf (x : dec) : bool := match x with DInf _ => true | _ => false end.

(** The literals [0.df] and [0.dd]. *)
Definition dzero : dec := DFin false 0 0.
(** A decimal as a condition: [if (x)]. *)
Definition dtrue (x : dec) : bool := dne x dzero.

(** ** Rounding and arithmetic *)

Fixpoint ndigits_fuel (f : nat) (c : Z) : Z :=
  match f with
  | O => 0
  | S f => if c <=? 0 then 0 else 1 + ndigits_fuel f (c / 10)
  end.
(** The number of decimal digits of [c]; a digit takes more than three bits. *)
Definition ndigits (c : Z) : Z := ndigits_fuel (Z.to_nat (Z.log2 c / 3 + 1)) c.

(** [c / 10^d] rounded half to even, [sticky] telling of a non-zero
    remainder below [c]. *)
Definition round_half_even (c d : Z) (sticky : bool) : Z :=
  let q := c / 10 ^ d in
  let r := 2 * (c mod 10 ^ d) in
  let up := match r ?= 10 ^ d with
            | Lt => false
            | Gt => true
            | Eq => sticky || Z.odd q
            end in
  if up then q + 1 else q.

(** The value [(-1)^s * c * 10^e] (plus a little when [sticky]) in format [f]. *)
Definition dround (f : dfmt) (s : bool) (c e : Z) (sticky : bool) : dec :=
  let d := Z.max 0 (Z.max (ndigits c - prec f) (emin f - e)) in
  let c1 := if d =? 0 then c else round_half_even c d sticky in
  let '(c2, e2) := if c1 =? 10 ^ prec f
                   then (10 ^ (prec f - 1), e + d + 1) else (c1, e + d) in
  if e2 <=? emax f then DFin s c2 e2
  else if c2 =? 0 then DFin s 0 (emax f)
  else if ndigits c2 + (e2 - emax f) <=? prec f
       then DFin s (c2 * 10 ^ (e2 - emax f)) (emax f)
       else DInf s.

Definition dneg (x : dec) : dec :=
  match x with
  | DNan => DNan
  | DInf s => DInf (negb s)
  | DFin s m e => DFin (negb s) m e
  end.

Definition dadd_f (f : dfmt) (a b : dec) : dec :=
  match a, b with
  | DNan, _ | _, DNan => DNan
  | DInf s, DInf t => if Bool.eqb s t then DInf s else DNan
  | DInf s, _ => DInf s
  | _, DInf t => DInf t
  | DFin s m e, DFin t n g =>
    let x := Z.min e g in
    let c := signed s (m * 10 ^ (e - x)) + signed t (n * 10 ^ (g - x)) in
    let sg := if c =? 0 then s && t else c <? 0 in
    dround f sg (Z.abs c) x false
  end.

Definition dmul_f (f : dfmt) (a b : dec) : dec :=
  match a, b with
  | DNan, _ | _, DNan => DNan
  | DInf s, DInf t => DInf (xorb s t)
  | DInf s, DFin t n _ => if n =? 0 then DNan else DInf (xorb s t)
  | DFin s m _, DInf t => if m =? 0 then DNan else DInf (xorb s t)
  | DFin s m e, DFin t n g => dround f (xorb s t) (m * n) (e + g) false
  end.

(** Drop trailing zeros of an exact quotient up to the ideal exponent. *)
Fixpoint strip0 (fuel : nat) (c e ideal : Z) : Z * Z :=
  match fuel with
  | O => (c, e)
  | S fuel => if (e <? ideal) && (c mod 10 =? 0) then strip0 fuel (c / 10) (e + 1) ideal
              else (c, e)
  end.

Definition ddiv_f (f : dfmt) (a b : dec) : dec :=
  match a, b with
  | DNan, _ | _, DNan => DNan
  | DInf s, DInf t => DNan
  | DInf s, DFin t _ _ => DInf (xorb s t)
  | DFin s _ _, DInf t => DFin (xorb s t) 0 (emin f)
  | DFin s m e, DFin t n g =>
    let sg := xorb s t in
    if n =? 0 then (if m =? 0 then DNan else DInf sg)
    else if m =? 0 then dround f sg 0 (e - g) false
    else
      let k := Z.max 0 (prec f + 1 + ndigits n - ndigits m) in
      let q := m * 10 ^ k / n in
      if m * 10 ^ k mod n =? 0
      then let '(c, x) := strip0 (Z.to_nat k) q (e - g - k) (e - g) in
           dround f sg c x false
      else dround f sg q (e - g - k) true
  end.

(** The operators on [_Decimal64]; a [_Decimal32] operand is converted first,
    which is exact. *)
Definition dadd := dadd_f d64fmt.
Definition dsub (a b : dec) : dec := dadd a (dneg b).
Definition dmul := dmul_f d64fmt.
Definition ddiv := ddiv_f d64fmt.

(** The cast to a narrower format. *)
Definition dcast (f : dfmt) (x : dec) : dec :=
  match x with
  | DFin s m e => dround f s m e false
  | _ => x
  end.

(** ** The BID encoding of [_Decimal64] *)

(** [bits64] of src/src/dfp754_d64.h. *)
Definition bits64 (x : dec) : Z :=
  match x with
  | DNan => 0x7c00000000000000
  | DInf s => Z.lor (Z.shiftl (Z.b2z s) 63) 0x7800000000000000
  | DFin s m e =>
    let E := e + 398 in
    if m <? 2 ^ 53 then Z.shiftl (Z.b2z s) 63 + Z.shiftl E 53 + m
    else Z.shiftl (Z.b2z s) 63 + Z.shiftl 3 61 + Z.shiftl E 51 + (m - 2 ^ 53)
  end.

(** [bobs64] of src/src/dfp754_d64.h: what a bit pattern means; coefficients
    that do not fit in 16 digits are read as zero. *)
Definition bobs64 (u : Z) : dec :=
  let s := Z.testbit u 63 in
  if Z.shiftr (Z.land u 0x7c00000000000000) 58 =? 31 then DNan
  else if Z.shiftr (Z.land u 0x7c00000000000000) 58 =? 30 then DInf s
  else
    let '(m, E) :=
      if Z.land (Z.shiftr u 61) 3 =? 3
      then (2 ^ 53 + Z.land u (Z.ones 51), Z.land (Z.shiftr u 51) (Z.ones 10))
      else (Z.land u (Z.ones 53), Z.land (Z.shiftr u 53) (Z.ones 10)) in
    DFin s (if m <? 10 ^ 16 then m else 0) (E - 398).

(** ** The BID encoding of [_Decimal32] *)

(** [bits32] of src/src/dfp754_d32.h. *)
Definition bits32 (x : dec) : Z :=
  match x with
  | DNan => 0x7c000000
  | DInf s => Z.lor (Z.shiftl (Z.b2z s) 31) 0x78000000
  | DFin s m e =>
    let E := e + 101 in
    if m <? 2 ^ 23 then Z.shiftl (Z.b2z s) 31 + Z.shiftl E 23 + m
    else Z.shiftl (Z.b2z s) 31 + Z.shiftl 3 29 + Z.shiftl E 21 + (m - 2 ^ 23)
  end.

(** [bobs32] of src/src/dfp754_d32.h. *)
Definition bobs32 (u : Z) : dec :=
  let s := Z.testbit u 31 in
  if Z.shiftr (Z.land u 0x7c000000) 26 =? 31 then DNan
  else if Z.shiftr (Z.land u 0x7c000000) 26 =? 30 then DInf s
  else
    let '(m, E) :=
      if Z.land (Z.shiftr u 29) 3 =? 3
      then (2 ^ 23 + Z.land u (Z.ones 21), Z.land (Z.shiftr u 21) (Z.ones 8))
      else (Z.land u (Z.ones 23), Z.land (Z.shiftr u 23) (Z.ones 8)) in
    DFin s (if m <? 10 ^ 7 then m else 0) (E - 101).

(** ** Lemmas *)

Example dadd_ex : dadd (DFin false 100 (-2)) (DFin false 9 0) = DFin false 1000 (-2).
Proof. reflexivity. Qed.
Example dround_ex : dadd (DFin false 9999999999999999 0) (DFin false 5 (-1)) = DFin false 1000000000000000 1.
Proof. reflexivity. Qed.
Example ddiv_ex : ddiv (DFin false 2 0) (DFin false 3 0) = DFin false 6666666666666667 (-16).
Proof. reflexivity. Qed.
Example ddiv_ex2 : ddiv (DFin false 210000 (-2)) (DFin false 200 (-2)) = DFin false 1050 0.
Proof. vm_compute. reflexivity. Qed.
Example bits_ex : bobs64 (bits64 (DFin true 9999999999999999 (-2))) = DFin true 9999999999999999 (-2).
Proof. vm_compute. reflexivity. Qed.
Example memset_nan : bobs64 (2 ^ 64 - 1) = DNan.
Proof. reflexivity. Qed.
