(* ===== verification/DecimalBits.v ===== *)
(** * The bit patterns of decimals

    A word of [p] low bits, [k] bits above them and a sign; the BID encodings
    of [_Decimal64] and [_Decimal32] in these terms: every representable value
    survives encoding and decoding, and every word decodes to a representable
    value. *)

From Stdlib Require Import ZArith Lia.
From stdpp Require Import prelude list.
From stdpp Require Import options.
From S2P Require Import Prelude Decimal.

Local Open Scope Z_scope.

(** ** Cutting words *)

Lemma land_ones_mod x k : 0 <= k -> Z.land x (Z.ones k) = x mod 2 ^ k.
Proof. intros. by apply Z.land_ones. Qed.

Lemma cut_high a b j : 0 <= j -> 0 <= b < 2 ^ j -> Z.shiftr (a * 2 ^ j + b) j = a.
Proof.
  intros Hj Hb. rewrite Z.shiftr_div_pow2, Z.add_comm, Z.div_add, Z.div_small by lia. lia.
Qed.

Lemma cut_low a b j : 0 <= j -> 0 <= b < 2 ^ j -> Z.land (a * 2 ^ j + b) (Z.ones j) = b.
Proof.
  intros Hj Hb. rewrite land_ones_mod, Z.add_comm, Z_mod_plus_full by lia. by apply Z.mod_small.
Qed.

Lemma lxor_disjoint a b k :
  0 <= k -> 0 <= a < 2 ^ k -> 0 <= b -> Z.lxor (b * 2 ^ k) a = b * 2 ^ k + a.
Proof.
  intros Hk Ha Hb. rewrite <- Z.add_nocarry_lxor; [done|].
  apply Z.bits_inj'. intros j Hj. rewrite Z.land_spec, Z.bits_0.
  destruct (Z.lt_ge_cases j k).
  - by rewrite Z.mul_pow2_bits_low by lia.
  - rewrite <- (Z.mod_small a (2 ^ k)) by done. rewrite Z.mod_pow2_bits_high by lia.
    apply andb_false_r.
Qed.

(** ** Words *)

Definition word_bits (p k s x m : Z) : Z := s * 2 ^ (p + k) + x * 2 ^ p + m.

Section word.
Variables p k s x m : Z.
Hypothesis Hp : 0 <= p.
Hypothesis Hk : 0 <= k.
Hypothesis Hs : s = 0 ∨ s = 1.
Hypothesis Hx : 0 <= x < 2 ^ k.
Hypothesis Hm : 0 <= m < 2 ^ p.
#[local] Set Default Proof Using "All".

Lemma word_split : word_bits p k s x m = (s * 2 ^ k + x) * 2 ^ p + m.
Proof. unfold word_bits. rewrite Z.pow_add_r by done. ring. Qed.

Lemma word_high : Z.shiftr (word_bits p k s x m) p = s * 2 ^ k + x.
Proof. rewrite word_split. by apply cut_high. Qed.

Lemma word_low : Z.land (word_bits p k s x m) (Z.ones p) = m.
Proof. rewrite word_split. by apply cut_low. Qed.

(** The [c] bits below the sign. *)
Lemma word_top c :
  0 <= c <= k -> Z.land (Z.shiftr (word_bits p k s x m) (p + (k - c))) (Z.ones c) = x / 2 ^ (k - c).
Proof.
  intros Hc. rewrite <- Z.shiftr_shiftr, word_high by lia.
  assert (2 ^ k = 2 ^ c * 2 ^ (k - c)) as E by (rewrite <- Z.pow_add_r by lia; f_equal; lia).
  assert (0 < 2 ^ (k - c)) by (apply Z.pow_pos_nonneg; lia).
  rewrite Z.shiftr_div_pow2, E, Z.mul_assoc, Z.div_add_l by lia.
  apply cut_low; [lia|]. split; [apply Z.div_pos; lia|]. apply Z.div_lt_upper_bound; nia.
Qed.

Lemma word_sign : Z.testbit (word_bits p k s x m) (p + k) = (s =? 1).
Proof.
  rewrite Z.add_comm, <- Z.shiftr_spec, word_high by lia.
  replace k with (0 + k) at 2 by lia. rewrite <- Z.shiftr_spec, cut_high by lia.
  by destruct Hs as [-> | ->].
Qed.

Lemma word_bits_bound : 0 <= word_bits p k s x m < 2 * 2 ^ (p + k).
Proof. unfold word_bits. rewrite Z.pow_add_r by done. destruct Hs as [-> | ->]; nia. Qed.
End word.

(** Every word is made of these fields. *)
Lemma word_of p k u :
  0 <= p -> 0 <= k -> 0 <= u < 2 * 2 ^ (p + k) ->
  ∃ s x m, u = word_bits p k s x m ∧ (s = 0 ∨ s = 1) ∧ 0 <= x < 2 ^ k ∧ 0 <= m < 2 ^ p.
Proof.
  intros Hp Hk Hu. assert (0 < 2 ^ p) by (apply Z.pow_pos_nonneg; lia).
  assert (0 < 2 ^ k) by (apply Z.pow_pos_nonneg; lia). rewrite Z.pow_add_r in Hu by done.
  exists (u / 2 ^ p / 2 ^ k), (u / 2 ^ p mod 2 ^ k), (u mod 2 ^ p). split_and!; try apply Z.mod_pos_bound; try done.
  - unfold word_bits. rewrite Z.pow_add_r by done.
    pose proof (Z.div_mod u (2 ^ p)). pose proof (Z.div_mod (u / 2 ^ p) (2 ^ k)). nia.
  - assert (0 <= u / 2 ^ p / 2 ^ k < 2); [|lia].
    split; [repeat apply Z.div_pos; lia|]. apply Z.div_lt_upper_bound; [done|].
    apply Z.div_lt_upper_bound; lia.
Qed.

(** The test for the two bits that announce a large coefficient. *)
Lemma top_two_set b j :
  0 <= j -> (Z.land b (3 * 2 ^ j) =? 3 * 2 ^ j) = (Z.land (Z.shiftr b j) 3 =? 3).
Proof.
  intros Hj. assert (Z.land b (3 * 2 ^ j) = Z.land (Z.shiftr b j) 3 * 2 ^ j) as ->.
  { rewrite <- !Z.shiftl_mul_pow2 by done. apply Z.bits_inj'. intros i Hi.
    rewrite Z.land_spec, !Z.shiftl_spec by done. destruct (Z.lt_ge_cases i j).
    - by rewrite !(Z.testbit_neg_r _ (i - j)), andb_false_r by lia.
    - rewrite Z.land_spec, Z.shiftr_spec by lia. do 2 f_equal. lia. }
  assert (0 < 2 ^ j) by (apply Z.pow_pos_nonneg; lia).
  destruct (Z.eqb_spec (Z.land (Z.shiftr b j) 3) 3) as [->|]; [by rewrite Z.eqb_refl|].
  apply Z.eqb_neq. nia.
Qed.

(** ** The encoding in general *)

(** [p] bits of a small coefficient, [k] bits of exponent; coefficients of [lim]
    and more count as zero. *)
Section codec.
Variables p k lim bias : Z.
Hypothesis Hp : 3 <= p.
Hypothesis Hk : 5 <= k.
Hypothesis Hlim : 2 ^ p <= lim <= 2 ^ p + 2 ^ (p - 2).
#[local] Set Default Proof Using "All".

Definition small_word (s ex m : Z) : Z := word_bits p k s ex m.
Definition large_word (s ex r : Z) : Z := word_bits (p - 2) (k + 2) s (3 * 2 ^ k + ex) r.

Definition coef_word (s ex m : Z) : Z :=
  if m <? 2 ^ p then small_word s ex m else large_word s ex (m - 2 ^ p).

Definition decode (u : Z) : dec :=
  let s := Z.testbit u (p + k) in
  let f := Z.land (Z.shiftr u (p + (k - 5))) 31 in
  if f =? 31 then DNan
  else if f =? 30 then DInf s
  else
    let '(m, E) :=
      if Z.land (Z.shiftr u (p + (k - 2))) 3 =? 3
      then (2 ^ p + Z.land u (Z.ones (p - 2)), Z.land (Z.shiftr u (p - 2)) (Z.ones k))
      else (Z.land u (Z.ones p), Z.land (Z.shiftr u p) (Z.ones k)) in
    DFin s (if m <? lim then m else 0) (E - bias).

Lemma pow_split a b : 0 <= a -> 0 <= b -> 2 ^ (a + b) = 2 ^ a * 2 ^ b.
Proof. intros. by apply Z.pow_add_r. Qed.

Lemma k_pows : 2 ^ k = 4 * 2 ^ (k - 2) ∧ 2 ^ k = 32 * 2 ^ (k - 5) ∧ 2 ^ k = 8 * 2 ^ (k - 3) ∧ 0 < 2 ^ (k - 5).
Proof.
  pose proof (pow_split 2 (k - 2)) as H2. pose proof (pow_split 5 (k - 5)) as H5.
  pose proof (pow_split 3 (k - 3)) as H3.
  replace (2 + (k - 2)) with k in H2 by lia. replace (5 + (k - 5)) with k in H5 by lia.
  replace (3 + (k - 3)) with k in H3 by lia.
  split_and!; [apply H2; lia|apply H5; lia|apply H3; lia|apply Z.pow_pos_nonneg; lia].
Qed.

Lemma p_pows : 2 ^ p = 4 * 2 ^ (p - 2) ∧ 0 < 2 ^ (p - 2).
Proof.
  pose proof (pow_split 2 (p - 2)) as H2. replace (2 + (p - 2)) with p in H2 by lia.
  split; [apply H2; lia|apply Z.pow_pos_nonneg; lia].
Qed.

Section fields.
Variables s ex : Z.
Hypothesis Hs : s = 0 ∨ s = 1.
Hypothesis Hex : 0 <= ex < 3 * 2 ^ (k - 2).

Lemma small_facts m :
  0 <= m < 2 ^ p ->
  let u := small_word s ex m in
  Z.land u (Z.ones p) = m ∧ Z.land (Z.shiftr u p) (Z.ones k) = ex ∧
  Z.testbit u (p + k) = (s =? 1) ∧
  (Z.land (Z.shiftr u (p + (k - 2))) 3 =? 3) = false ∧
  0 <= Z.land (Z.shiftr u (p + (k - 5))) 31 < 24.
Proof.
  intros Hm u. unfold u, small_word. destruct k_pows as (H2 & H5 & H3 & H0).
  pose proof (word_top p k s ex m) as Ht. split_and!.
  - apply word_low; lia.
  - rewrite word_high by lia. apply cut_low; lia.
  - apply word_sign; lia.
  - change 3 with (Z.ones 2). rewrite Ht by lia. apply Z.eqb_neq. change (Z.ones 2) with 3.
    assert (ex / 2 ^ (k - 2) < 3); [|lia]. apply Z.div_lt_upper_bound; lia.
  - change 31 with (Z.ones 5). rewrite Ht by lia. apply Z.div_pos; lia.
  - change 31 with (Z.ones 5). rewrite Ht by lia. apply Z.div_lt_upper_bound; lia.
Qed.

Lemma large_facts r :
  0 <= r < 2 ^ (p - 2) ->
  let u := large_word s ex r in
  Z.land u (Z.ones (p - 2)) = r ∧ Z.land (Z.shiftr u (p - 2)) (Z.ones k) = ex ∧
  Z.testbit u (p + k) = (s =? 1) ∧
  (Z.land (Z.shiftr u (p + (k - 2))) 3 =? 3) = true ∧
  0 <= Z.land (Z.shiftr u (p + (k - 5))) 31 < 30.
Proof.
  intros Hr u. unfold u, large_word. destruct k_pows as (H2 & H5 & H3 & H0).
  assert (0 <= 3 * 2 ^ k + ex < 2 ^ (k + 2)) as Hx by (rewrite (pow_split k 2) by lia; lia).
  pose proof (word_top (p - 2) (k + 2) s (3 * 2 ^ k + ex) r) as Ht. split_and!.
  - apply word_low; lia.
  - rewrite word_high by lia. rewrite pow_split by lia.
    replace (s * (2 ^ k * 2 ^ 2) + (3 * 2 ^ k + ex)) with ((s * 4 + 3) * 2 ^ k + ex) by lia.
    apply cut_low; lia.
  - replace (p + k) with (p - 2 + (k + 2)) by lia. apply word_sign; lia.
  - specialize (Ht ltac:(lia) ltac:(lia) Hs Hx Hr 2 ltac:(lia)). change (Z.ones 2) with 3 in Ht.
    replace (p + (k - 2)) with (p - 2 + (k + 2 - 2)) by lia. rewrite Ht.
    replace (k + 2 - 2) with k by lia. rewrite Z.div_add_l, Z.div_small by lia. done.
  - specialize (Ht ltac:(lia) ltac:(lia) Hs Hx Hr 5 ltac:(lia)). change (Z.ones 5) with 31 in Ht.
    replace (p + (k - 5)) with (p - 2 + (k + 2 - 5)) by lia. rewrite Ht. apply Z.div_pos; [lia|].
    apply Z.pow_pos_nonneg; lia.
  - specialize (Ht ltac:(lia) ltac:(lia) Hs Hx Hr 5 ltac:(lia)). change (Z.ones 5) with 31 in Ht.
    replace (p + (k - 5)) with (p - 2 + (k + 2 - 5)) by lia. rewrite Ht.
    replace (k + 2 - 5) with (k - 3) by lia. apply Z.div_lt_upper_bound; lia.
Qed.

Lemma decode_small m : 0 <= m < 2 ^ p -> decode (small_word s ex m) = DFin (s =? 1) m (ex - bias).
Proof.
  intros Hm. destruct (small_facts m Hm) as (H1 & H2 & H3 & H4 & H5).
  unfold decode. rewrite H4, H3, H2, H1.
  destruct (Z.eqb_spec (Z.land (Z.shiftr (small_word s ex m) (p + (k - 5))) 31) 31); [lia|].
  destruct (Z.eqb_spec (Z.land (Z.shiftr (small_word s ex m) (p + (k - 5))) 31) 30); [lia|].
  by destruct (Z.ltb_spec m lim); [|lia].
Qed.

Lemma decode_large r :
  0 <= r < 2 ^ (p - 2) ->
  decode (large_word s ex r) = DFin (s =? 1) (if 2 ^ p + r <? lim then 2 ^ p + r else 0) (ex - bias).
Proof.
  intros Hr. destruct (large_facts r Hr) as (H1 & H2 & H3 & H4 & H5).
  unfold decode. rewrite H4, H3, H2, H1.
  destruct (Z.eqb_spec (Z.land (Z.shiftr (large_word s ex r) (p + (k - 5))) 31) 31); [lia|].
  destruct (Z.eqb_spec (Z.land (Z.shiftr (large_word s ex r) (p + (k - 5))) 31) 30); [lia|].
  done.
Qed.

Lemma decode_coef m :
  0 <= m < 2 ^ p + 2 ^ (p - 2) ->
  decode (coef_word s ex m) = DFin (s =? 1) (if m <? lim then m else 0) (ex - bias).
Proof.
  intros Hm. unfold coef_word. destruct (Z.ltb_spec m (2 ^ p)).
  - rewrite decode_small by lia. by rewrite (proj2 (Z.ltb_lt _ _)) by lia.
  - rewrite decode_large by lia. by replace (2 ^ p + (m - 2 ^ p)) with m by lia.
Qed.
End fields.

(** What a word can decode to. *)
Lemma decode_cases u :
  0 <= u < 2 * 2 ^ (p + k) ->
  decode u = DNan ∨ (∃ s, decode u = DInf s) ∨
  ∃ s m ex, decode u = DFin s m (ex - bias) ∧ 0 <= m < lim ∧ 0 <= ex < 3 * 2 ^ (k - 2).
Proof.
  intros Hu. destruct (word_of p k u) as (s & x & m & -> & Hs & Hx & Hm); [lia..|].
  destruct k_pows as (H2 & H5 & H3 & H0). destruct p_pows as [Hpp Hp0].
  destruct (Z.lt_ge_cases x (3 * 2 ^ (k - 2))) as [Hlt|Hge].
  { right; right. exists (s =? 1), m, x. fold (small_word s x m). rewrite decode_small by lia.
    split; [done|lia]. }
  assert (Z.land (Z.shiftr (word_bits p k s x m) (p + (k - 5))) 31 = x / 2 ^ (k - 5)) as E5.
  { apply (word_top p k s x m) with (c := 5); lia. }
  destruct (decide (x / 2 ^ (k - 5) = 31)) as [Ht|H31].
  { left. unfold decode. by rewrite E5, Ht. }
  destruct (decide (x / 2 ^ (k - 5) = 30)) as [Ht|H30].
  { right; left. exists (Z.testbit (word_bits p k s x m) (p + k)). unfold decode. by rewrite E5, Ht. }
  right; right. assert (x / 2 ^ (k - 5) < 32) by (apply Z.div_lt_upper_bound; lia).
  assert (x < 30 * 2 ^ (k - 5)) as Hx'.
  { destruct (Z.lt_ge_cases x (30 * 2 ^ (k - 5))) as [|Hxx]; [done|].
    assert (30 <= x / 2 ^ (k - 5)) by (apply Z.div_le_lower_bound; lia). lia. }
  set (y := x - 3 * 2 ^ (k - 2)). set (q := m / 2 ^ (p - 2)). set (r := m mod 2 ^ (p - 2)).
  assert (0 <= q < 4) as Hq.
  { unfold q. split; [apply Z.div_pos; lia|]. apply Z.div_lt_upper_bound; lia. }
  assert (0 <= r < 2 ^ (p - 2)) as Hr by (apply Z.mod_pos_bound; lia).
  assert (m = q * 2 ^ (p - 2) + r) as Em by (unfold q, r; pose proof (Z.div_mod m (2 ^ (p - 2))); lia).
  assert (word_bits p k s x m = large_word s (4 * y + q) r) as ->.
  { unfold large_word, word_bits. replace (p - 2 + (k + 2)) with (p + k) by lia.
    rewrite Em, Hpp. replace x with (y + 3 * 2 ^ (k - 2)) by (unfold y; lia). rewrite H2. ring. }
  exists (s =? 1), (if 2 ^ p + r <? lim then 2 ^ p + r else 0), (4 * y + q).
  assert (0 <= 4 * y + q < 3 * 2 ^ (k - 2)) as He by (unfold y; lia).
  rewrite decode_large by done. split; [done|]. split; [|done].
  destruct (Z.ltb_spec (2 ^ p + r) lim); lia.
Qed.

(** *** Reading the fields *)

Definition big_word (u : Z) : bool := Z.land u (3 * 2 ^ (p + (k - 2))) =? 3 * 2 ^ (p + (k - 2)).
Definition mant_word (u : Z) : Z :=
  if big_word u then Z.lxor (2 ^ p) (Z.land u (Z.ones (p - 2))) else Z.land u (Z.ones p).
Definition exp_word (u : Z) : Z :=
  Z.land (if negb (big_word u) then Z.shiftr u p else Z.shiftr u (p - 2)) (Z.ones k).

Lemma coef_fields s ex m :
  s = 0 ∨ s = 1 -> 0 <= ex < 3 * 2 ^ (k - 2) -> 0 <= m < 2 ^ p + 2 ^ (p - 2) ->
  mant_word (coef_word s ex m) = m ∧ exp_word (coef_word s ex m) = ex ∧
  Z.testbit (coef_word s ex m) (p + k) = (s =? 1).
Proof.
  intros Hs Hex Hm. unfold mant_word, exp_word, big_word, coef_word. destruct p_pows as [Hpp Hp0].
  rewrite !top_two_set by lia. destruct (Z.ltb_spec m (2 ^ p)).
  - destruct (small_facts s ex Hs Hex m) as (H1 & H2 & H3 & -> & _); [lia|]. done.
  - destruct (large_facts s ex Hs Hex (m - 2 ^ p)) as (H1 & H2 & H3 & -> & _); [lia|].
    split_and!; [|done|done]. rewrite H1, <- (Z.mul_1_l (2 ^ p)), lxor_disjoint; lia.
Qed.

Lemma coef_bound s ex m :
  s = 0 ∨ s = 1 -> 0 <= ex < 3 * 2 ^ (k - 2) -> 0 <= m < 2 ^ p + 2 ^ (p - 2) ->
  0 <= coef_word s ex m < 2 * 2 ^ (p + k) ∧ (coef_word s ex m = 0 -> ex = 0).
Proof.
  intros Hs Hex Hm. unfold coef_word. destruct p_pows as [Hpp Hp0]. destruct k_pows as (H2 & _).
  assert (0 < 2 ^ (p + k)) by (apply Z.pow_pos_nonneg; lia).
  destruct (Z.ltb_spec m (2 ^ p)).
  - split; [apply word_bits_bound; lia|]. unfold small_word, word_bits. nia.
  - split.
    + replace (p + k) with (p - 2 + (k + 2)) by lia.
      apply word_bits_bound; rewrite ?(pow_split k 2) by lia; lia.
    + unfold large_word, word_bits. replace (p - 2 + (k + 2)) with (p + k) by lia. nia.
Qed.

(** *** Assembling *)

Lemma lxor_word s x m :
  s = 0 ∨ s = 1 -> 0 <= x < 2 ^ k -> 0 <= m < 2 ^ p ->
  Z.lxor (Z.lxor (s * 2 ^ (p + k)) (x * 2 ^ p)) m = small_word s x m.
Proof.
  intros Hs Hx Hm. unfold small_word. rewrite word_split, (Z.add_comm p), pow_split, Z.mul_assoc by lia.
  assert (Z.lxor (s * 2 ^ k * 2 ^ p) (x * 2 ^ p) = (s * 2 ^ k + x) * 2 ^ p) as ->.
  { rewrite <- !(Z.shiftl_mul_pow2 _ p), <- Z.shiftl_lxor by lia. by rewrite lxor_disjoint by lia. }
  apply lxor_disjoint; lia.
Qed.

Lemma lxor_large_word s ex r :
  s = 0 ∨ s = 1 -> 0 <= ex < 3 * 2 ^ (k - 2) -> 0 <= r < 2 ^ (p - 2) ->
  Z.lxor (Z.lxor (Z.lxor (s * 2 ^ (p + k)) (3 * 2 ^ (p + (k - 2)))) (ex * 2 ^ (p - 2))) r = large_word s ex r.
Proof.
  intros Hs Hx Hr. destruct k_pows as (H2 & _). unfold large_word.
  assert (0 <= 3 * 2 ^ k + ex < 2 ^ (k + 2)) by (rewrite (pow_split k 2) by lia; lia).
  rewrite word_split by lia.
  rewrite <- (lxor_disjoint r (s * 2 ^ (k + 2) + (3 * 2 ^ k + ex))) by lia. f_equal.
  replace (p + k) with (k + 2 + (p - 2)) by lia. replace (p + (k - 2)) with (k + (p - 2)) by lia.
  rewrite !(pow_split _ (p - 2)), !Z.mul_assoc by lia.
  rewrite <- !(Z.shiftl_mul_pow2 _ (p - 2)), <- !Z.shiftl_lxor by lia. f_equal.
  replace (s * 2 ^ (k + 2)) with (s * 4 * 2 ^ k) by (rewrite (pow_split k 2) by lia; lia).
  rewrite <- !(Z.shiftl_mul_pow2 _ k), <- Z.shiftl_lxor, !(Z.shiftl_mul_pow2 _ k) by lia.
  replace (Z.lxor (s * 4) 3) with (s * 4 + 3) by (by destruct Hs as [-> | ->]).
  rewrite lxor_disjoint by lia. lia.
Qed.

(** The bit that tells a large coefficient. *)
Lemma coef_large m :
  0 <= m < 2 ^ p + 2 ^ (p - 2) ->
  (Z.land m (2 ^ p) =? 0) = (m <? 2 ^ p) ∧ (2 ^ p <= m -> Z.land m (Z.ones (p - 2)) = m - 2 ^ p) ∧
  (m < 2 ^ p -> Z.land m (Z.ones p) = m).
Proof.
  intros Hm. destruct p_pows as [Hpp Hp0].
  assert (∀ a, 0 <= a < 2 ^ p -> Z.land (2 ^ p) a = 0) as Hdis.
  { intros a Ha. apply Z.bits_inj'. intros j Hj. rewrite Z.land_spec, Z.bits_0, Z.pow2_bits_eqb by lia.
    destruct (Z.eqb_spec p j) as [<-|]; [|done].
    rewrite <- (Z.mod_small a (2 ^ p)) by done. by rewrite Z.mod_pow2_bits_high by lia. }
  split_and!.
  - destruct (Z.ltb_spec m (2 ^ p)); [by rewrite Z.land_comm, Hdis by lia|].
    apply Z.eqb_neq. replace m with (1 * 2 ^ p + (m - 2 ^ p)) by lia.
    rewrite <- (lxor_disjoint (m - 2 ^ p) 1 p) by lia. rewrite Z.mul_1_l. intros H0.
    apply (f_equal (λ u, Z.testbit u p)) in H0.
    rewrite Z.land_spec, Z.lxor_spec, Z.bits_0, Z.pow2_bits_true in H0 by lia.
    rewrite <- (Z.mod_small (m - 2 ^ p) (2 ^ p)), Z.mod_pow2_bits_high in H0 by lia. done.
  - intros Hge. rewrite land_ones_mod by lia. replace m with (m - 2 ^ p + 4 * 2 ^ (p - 2)) at 1 by lia.
    rewrite Z_mod_plus_full. apply Z.mod_small. lia.
  - intros Hlt. rewrite land_ones_mod by lia. apply Z.mod_small. lia.
Qed.

(** [assemble_bid] in terms of words of [p + k + 1] bits. *)
Definition assemble_word (m ex s : Z) : Z :=
  let wrap x := x mod (2 * 2 ^ (p + k)) in
  let u := wrap (Z.shiftl s (p + k)) in
  if negb (Z.land m (2 ^ p) =? 0) then
    let u := Z.lxor u (3 * 2 ^ (p + (k - 2))) in
    let u := Z.lxor u (wrap (Z.shiftl ex (p - 2))) in
    Z.lxor u (Z.land m (Z.ones (p - 2)))
  else
    let u := Z.lxor u (wrap (Z.shiftl ex p)) in
    Z.lxor u (Z.land m (Z.ones p)).

Lemma assemble_coef m ex s :
  0 <= m < 2 ^ p + 2 ^ (p - 2) -> 0 <= ex < 3 * 2 ^ (k - 2) ->
  assemble_word m ex s = coef_word (s mod 2) ex m.
Proof.
  intros Hm Hex. destruct (coef_large m Hm) as (Hbig & Hl & Hsm).
  destruct p_pows as [Hpp Hp0]. destruct k_pows as (H2 & _).
  assert (0 < 2 ^ (p + k)) by (apply Z.pow_pos_nonneg; lia).
  unfold assemble_word, coef_word. rewrite Hbig, !Z.shiftl_mul_pow2 by lia.
  rewrite (Z.mul_mod_distr_r s 2) by lia.
  assert (s mod 2 = 0 ∨ s mod 2 = 1) by (pose proof (Z.mod_pos_bound s 2); lia).
  destruct (Z.ltb_spec m (2 ^ p)); cbn [negb].
  - rewrite Hsm, (Z.mod_small (ex * 2 ^ p)) by (rewrite ?(pow_split p k) by lia; nia).
    apply lxor_word; lia.
  - rewrite Hl, (Z.mod_small (ex * 2 ^ (p - 2))) by (rewrite ?(pow_split p k) by lia; nia).
    apply lxor_large_word; lia.
Qed.
End codec.

(** ** The two formats *)

Lemma b2z_bit s : Z.b2z s = 0 ∨ Z.b2z s = 1.
Proof. destruct s; auto. Qed.
Lemma b2z_eq1 s : (Z.b2z s =? 1) = s.
Proof. by destruct s. Qed.

Lemma bobs64_decode u : bobs64 u = decode 53 10 (10 ^ 16) 398 u.
Proof. unfold bobs64, decode. by rewrite Z.shiftr_land. Qed.

Lemma bobs32_decode u : bobs32 u = decode 23 8 (10 ^ 7) 101 u.
Proof. unfold bobs32, decode. by rewrite Z.shiftr_land. Qed.

Lemma bits64_coef s m e : bits64 (DFin s m e) = coef_word 53 10 (Z.b2z s) (e + 398) m.
Proof.
  cbn [bits64]. unfold coef_word, small_word, large_word, word_bits.
  rewrite !Z.shiftl_mul_pow2 by lia. change (2 ^ 53) with 9007199254740992.
  destruct (m <? 9007199254740992); lia.
Qed.

Lemma bits32_coef s m e : bits32 (DFin s m e) = coef_word 23 8 (Z.b2z s) (e + 101) m.
Proof.
  cbn [bits32]. unfold coef_word, small_word, large_word, word_bits.
  rewrite !Z.shiftl_mul_pow2 by lia. change (2 ^ 23) with 8388608.
  destruct (m <? 8388608); lia.
Qed.

(** Every word decodes to a representable value. *)
Lemma encoding_wf64 u : 0 <= u < 2 ^ 64 -> dwf d64fmt (bobs64 u).
Proof.
  intros Hu. rewrite bobs64_decode.
  destruct (decode_cases 53 10 (10 ^ 16) 398 ltac:(lia) ltac:(lia) ltac:(lia) u)
    as [-> |[[s ->]|(s & m & ex & -> & Hm & Hex)]]; [lia|done|done|cbn; lia].
Qed.

Lemma encoding_wf32 u : 0 <= u < 2 ^ 32 -> dwf d32fmt (bobs32 u).
Proof.
  intros Hu. rewrite bobs32_decode.
  destruct (decode_cases 23 8 (10 ^ 7) 101 ltac:(lia) ltac:(lia) ltac:(lia) u)
    as [-> |[[s ->]|(s & m & ex & -> & Hm & Hex)]]; [lia|done|done|cbn; lia].
Qed.

(** The encodings of both formats: every word decodes to a representable
    value, and every representable value (NaN payloads aside) has a word that
    decodes to it - coefficients of all 16, or 7, digits included. *)
Theorem encoding_correct :
  (∀ u, 0 <= u < 2 ^ 64 -> dwf d64fmt (bobs64 u)) ∧
  (∀ x, dwf d64fmt x -> 0 <= bits64 x < 2 ^ 64 ∧ bobs64 (bits64 x) = x) ∧
  (∀ u, 0 <= u < 2 ^ 32 -> dwf d32fmt (bobs32 u)) ∧
  (∀ x, dwf d32fmt x -> 0 <= bits32 x < 2 ^ 32 ∧ bobs32 (bits32 x) = x).
Proof.
  split_and!.
  - apply encoding_wf64.
  - intros [|[]|s m e]; [done..|]. intros [Hm He]. cbn in Hm, He. rewrite bits64_coef. split.
    + apply (coef_bound 53 10 (10 ^ 16) 398); try lia. apply b2z_bit.
    + rewrite bobs64_decode, decode_coef; [|lia..|apply b2z_bit|lia|lia].
      rewrite b2z_eq1, (proj2 (Z.ltb_lt _ _)) by lia. f_equal. lia.
  - apply encoding_wf32.
  - intros [|[]|s m e]; [done..|]. intros [Hm He]. cbn in Hm, He. rewrite bits32_coef. split.
    + apply (coef_bound 23 8 (10 ^ 7) 101); try lia. apply b2z_bit.
    + rewrite bobs32_decode, decode_coef; [|lia..|apply b2z_bit|lia|lia].
      rewrite b2z_eq1, (proj2 (Z.ltb_lt _ _)) by lia. f_equal. lia.
Qed.

Lemma encoding_correct_witness :
  bobs64 (bits64 (DFin true 9999999999999999 369)) = DFin true 9999999999999999 369 ∧
  bobs32 (bits32 (DFin false 9999999 90)) = DFin false 9999999 90 ∧
  dwf d64fmt (bobs64 (2 ^ 64 - 2 ^ 59)).
Proof.
  destruct encoding_correct as (H1 & H2 & _ & H4). split_and!.
  - apply (H2 (DFin true 9999999999999999 369)). simpl. lia.
  - apply (H4 (DFin false 9999999 90)). simpl. lia.
  - apply (H1 (2 ^ 64 - 2 ^ 59)). lia.
Defined.
