(* ===== verification/Dfp754D64.v ===== *)
(** * dfp754_d64.c: parsing, printing and quantising [_Decimal64]

    Both encodings the file supports are modelled: BID (the build on x86,
    [HAVE_DFP754_BID_LITERALS]), whose functions take and return [_Decimal64]
    values, and DPD ([HAVE_DFP754_DPD_LITERALS]), whose functions work on the
    bit patterns that [bits64] and [bobs64] stand for under that encoding.
    Strings are lists of bytes; the end of a list is the terminating NUL. *)

From Stdlib Require Import ZArith Lia.
From stdpp Require Import prelude list.
From stdpp Require Import options.
From S2P Require Import Prelude Decimal.

Local Open Scope Z_scope.

(** ** Characters *)

Definition U (x : Z) : Z := u8 (x - 48).
Definition C (x : Z) : Z := x + 48.

(** [*sp], [0] at the end of the string. *)
Definition peek (sp : list Z) : Z := hd 0 sp.
Definition is_digit (c : Z) : bool := (48 <=? c) && (c <=? 57).
(** [*sp >= '5' && *sp <= '9'] *)
Definition is_upper_digit (c : Z) : bool := (53 <=? c) && (c <=? 57).

(** ** Declets *)

Definition pack_declet (x : Z) : Z :=
  let c := 0 in
  let d0 := Z.land x 0xf in
  let '(d0, c) := if 8 <=? d0 then (Z.land d0 1, Z.lor c 1) else (d0, c) in
  let x := Z.shiftr x 4 in
  let d1 := Z.land x 0xf in
  let '(d1, c) := if 8 <=? d1 then (Z.land d1 1, Z.lor c 2) else (d1, c) in
  let x := Z.shiftr x 4 in
  let d2 := Z.land x 0xf in
  let '(d2, c) := if 8 <=? d2 then (Z.land d2 1, Z.lor c 4) else (d2, c) in
  let res := Z.lor (Z.lor (Z.shiftl d2 7) (Z.shiftl d1 4)) d0 in
  match c with
  | 0 => res
  | 1 => Z.lor res (Z.shiftl 4 1)
  | 2 =>
    let res := Z.land res (u32 (Z.lnot 14)) in
    Z.lor res (Z.lor (Z.shiftl 5 1) (Z.shiftl (Z.land d0 6) 4))
  | 3 => Z.lor res (Z.lor (Z.shiftl 4 4) (Z.shiftl 7 1))
  | 4 =>
    let res := Z.land res (u32 (Z.lnot 14)) in
    Z.lor res (Z.lor (Z.shiftl (Z.land d0 6) 7) (Z.shiftl 6 1))
  | 5 =>
    let res := Z.land res (u32 (Z.lnot 96)) in
    Z.lor res (Z.lor (Z.lor (Z.shiftl (Z.land d1 6) 7) (Z.shiftl 2 4)) (Z.shiftl 7 1))
  | 6 =>
    let res := Z.land res (u32 (Z.lnot 14)) in
    Z.lor res (Z.lor (Z.shiftl (Z.land d0 6) 7) (Z.shiftl 7 1))
  | 7 => Z.lor res (Z.lor (Z.shiftl 6 4) (Z.shiftl 7 1))
  | _ => 0
  end.

Definition unpack_trivial (x : Z) : Z :=
  Z.lor (Z.lor (Z.land x 0xf) (Z.land x 0x70)) (Z.shiftl (Z.land x 0x380) 1).

Definition unpack_declet (x : Z) : Z :=
  if Z.land x 8 =? 0 then unpack_trivial x
  else
    match Z.land (Z.shiftr x 1) 7 with
    | 4 => unpack_trivial x
    | 5 =>
      Z.lor (Z.lor (Z.shiftl (Z.land x 0x380) 1)
                   (Z.lor (Z.shiftl 8 4) (Z.land x 0x10)))
            (Z.lor (Z.shiftr (Z.land x 0x60) 4) (Z.land x 1))
    | 6 =>
      Z.lor (Z.lor (Z.lor (Z.shiftl 8 8) (Z.shiftl (Z.land x 0x80) 1))
                   (Z.land x 0x70))
            (Z.lor (Z.shiftr (Z.land x 0x300) 7) (Z.land x 1))
    | 7 =>
      match Z.land (Z.shiftr x 5) 3 with
      | 2 =>
        Z.lor (Z.lor (Z.shiftl (Z.land x 0x380) 1)
                     (Z.lor (Z.shiftl 8 4) (Z.land x 0x10)))
              (Z.lor (Z.shiftl 8 0) (Z.land x 1))
      | 1 =>
        Z.lor (Z.lor (Z.lor (Z.shiftl 8 8) (Z.shiftl (Z.land x 0x80) 1))
                     (Z.lor (Z.shiftr (Z.land x 0x300) 3) (Z.land x 0x10)))
              (Z.lor (Z.shiftl 8 0) (Z.land x 1))
      | 0 =>
        Z.lor (Z.lor (Z.lor (Z.shiftl 8 8) (Z.shiftl (Z.land x 0x80) 1))
                     (Z.lor (Z.shiftl 8 4) (Z.land x 0x10)))
              (Z.lor (Z.shiftr (Z.land x 0x300) 7) (Z.land x 1))
      | 3 =>
        Z.lor (Z.lor (Z.lor (Z.shiftl 8 8) (Z.shiftl (Z.land x 0x80) 1))
                     (Z.lor (Z.shiftl 8 4) (Z.land x 0x10)))
              (Z.lor (Z.shiftl 8 0) (Z.land x 1))
      | _ => 0
      end
    | _ => 0
    end.

(** ** Binary coded decimals *)

(** [bcd64_t]: digits in nibbles, exponent, sign (non-zero for negative). *)
Record bcd64_t := mk_bcd64 { mant : Z; expo : Z; sign : Z }.

(** ** The BID accessors *)

Definition BIG64 : Z := 0x6000000000000000.

Definition sign_bid64 (x : dec) : Z :=
  if Z.testbit (bits64 x) 63 then -1 else 0.

Definition mant_bid64 (x : dec) : Z :=
  let b := bits64 x in
  if Z.land b BIG64 =? BIG64
  then Z.lxor (Z.shiftl 4 51) (Z.land b 0x7ffffffffffff)
  else Z.land b 0x1fffffffffffff.

Definition quantexpbid64 (x : dec) : Z :=
  let b := bits64 x in
  if b =? 0 then 0
  else
    let tmp := if negb (Z.land b BIG64 =? BIG64) then Z.shiftr b 53 else Z.shiftr b 51 in
    Z.land tmp 0x3ff - 398.

Definition quantexpd64 : dec -> Z := quantexpbid64.

Definition assemble_bid (m ex s : Z) : dec :=
  let u := u64 (Z.shiftl s 63) in
  if negb (Z.land m (Z.shiftl 1 53) =? 0) then
    let u := Z.lxor u (Z.shiftl 3 61) in
    let u := Z.lxor u (u64 (Z.shiftl ex 51)) in
    bobs64 (Z.lxor u (Z.land m 0x7ffffffffffff))
  else
    let u := Z.lxor u (u64 (Z.shiftl ex 53)) in
    bobs64 (Z.lxor u (Z.land m 0x1fffffffffffff)).

(** One step of the mirroring of nibbles: swap the fields of width [w]. *)
Definition swap_fields (hi lo w b : Z) : Z :=
  Z.lxor (Z.shiftr (Z.land b hi) w) (Z.shiftl (Z.land b lo) w).

Definition mirror64 (b : Z) : Z :=
  let b := swap_fields 0xffffffff00000000 0x00000000ffffffff 32 b in
  let b := swap_fields 0xffff0000ffff0000 0x0000ffff0000ffff 16 b in
  let b := swap_fields 0xff00ff00ff00ff00 0x00ff00ff00ff00ff 8 b in
  swap_fields 0xf0f0f0f0f0f0f0f0 0x0f0f0f0f0f0f0f0f 4 b.

(** [for (i = cnt; i > 0; b >>= 4, i--) m = m * 10 + (b & 0xf);] *)
Fixpoint bcd_accum (cnt : nat) (b m : Z) : Z :=
  match cnt with
  | O => m
  | S cnt => bcd_accum cnt (Z.shiftr b 4) (u64 (u64 (m * 10) + Z.land b 0xf))
  end.

Definition bcd64tobid (b : bcd64_t) : dec :=
  let bm := Z.shiftr (mirror64 (mant b)) 4 in
  let m := bcd_accum 15 bm 0 in
  assemble_bid m (u64 (expo b + 398)) (u64 (sign b)).

Definition bcd64todpd (b : bcd64_t) : Z :=
  let m := mant b in
  let u := u64 (Z.shiftl (u64 (sign b)) 63) in
  let rex := u32 (expo b + 398) in
  let u := Z.lxor u (pack_declet (Z.land m 0xfff)) in
  let m := Z.shiftr m 12 in
  let u := Z.lxor u (Z.shiftl (pack_declet (Z.land m 0xfff)) 10) in
  let m := Z.shiftr m 12 in
  let u := Z.lxor u (Z.shiftl (pack_declet (Z.land m 0xfff)) 20) in
  let m := Z.shiftr m 12 in
  let u := Z.lxor u (Z.shiftl (pack_declet (Z.land m 0xfff)) 30) in
  let m := Z.shiftr m 12 in
  let u := Z.lxor u (Z.shiftl (pack_declet (Z.land m 0xfff)) 40) in
  let m := Z.shiftr m 12 in
  let rex :=
    if 8 <=? m then
      let rex := Z.lxor (Z.shiftl (Z.land rex 0x300) 1) (Z.land rex 0xff) in
      Z.lxor rex 0x1800
    else Z.lxor (Z.shiftl (Z.land rex 0x300) 3) (Z.land rex 0xff) in
  let u := Z.lxor u (u64 (Z.shiftl rex 50)) in
  Z.lxor u (Z.shiftl (Z.land m 7) 58).

(** The loop of [round_bcd64]: the mantissa shifted to the first digit that
    takes the round-off, that digit rounded, and the shift.  [None] when the
    loop is still running after [fuel] iterations.  The sum is unsigned. *)
Fixpoint round_loop64 (fuel : nat) (mant roff sh : Z) : option (Z * Z * Z) :=
  match fuel with
  | O => None
  | S fuel =>
    let x := u64 (Z.land mant 0xf + roff) in
    if 9 <? x then round_loop64 fuel (Z.shiftr mant 4) roff (sh + 4)
    else Some (mant, x, sh)
  end.

(** 16 nibbles and the round-off position above them bound the loop whenever
    it terminates. *)
Definition round_fuel64 : nat := 18.

(** [~0b1111U] is an [unsigned int]: as a mask it has no bits above 31. *)
Definition round_bcd64 (mant roff : Z) : option Z :=
  '(mant, x, sh) ← round_loop64 round_fuel64 mant roff 0;
  let mant := Z.lxor (Z.land mant (u32 (Z.lnot 0xf))) x in
  Some (u64 (Z.shiftl mant sh)).

Fixpoint skip_zeros (sp : list Z) : list Z :=
  match sp with
  | c :: sp' => if c =? 48 then skip_zeros sp' else sp
  | [] => []
  end.

(** Skip digits, counting them. *)
Fixpoint skip_digits (sp : list Z) (cnt : Z) : list Z * Z :=
  match sp with
  | c :: sp' => if is_digit c then skip_digits sp' (cnt + 1) else (sp, cnt)
  | [] => ([], cnt)
  end.

(** Pick up at most [nd] digits into the mantissa: the rest of the string,
    the mantissa and the digits still free. *)
Fixpoint take_digits (sp : list Z) (mant : Z) (nd : nat) : list Z * Z * nat :=
  match sp, nd with
  | c :: sp', S nd' =>
    if is_digit c then take_digits sp' (Z.lor (u64 (Z.shiftl mant 4)) (U c)) nd'
    else (sp, mant, nd)
  | _, _ => (sp, mant, nd)
  end.

(** The value and the rest of the string ([*on]). *)
Definition strtobcd64 (src : list Z) : option (bcd64_t * list Z) :=
  let '(sp, sgn) :=
    if peek src =? 45 then (tl src, 1)
    else if peek src =? 43 then (tl src, 0) else (src, 0) in
  let sp := skip_zeros sp in
  let '(sp, mant, nd) := take_digits sp 0 15 in
  let roff := Z.b2z (is_upper_digit (peek sp)) in
  let '(sp, expo) := skip_digits sp 0 in
  let '(sp, mant, expo, roff) :=
    if (peek sp =? 46) && (0 <? nd)%nat then
      let '(sp, mant, nd') := take_digits (tl sp) mant nd in
      let roff := roff + Z.b2z (is_upper_digit (peek sp)) in
      ((skip_digits sp 0).1, mant, expo - Z.of_nat (nd - nd'), roff)
    else if peek sp =? 46 then
      let roff := roff + Z.b2z (is_upper_digit (peek sp)) in
      ((skip_digits (tl sp) 0).1, mant, expo, roff)
    else (sp, mant, expo, roff) in
  mant ← if negb (roff =? 0) then round_bcd64 mant (if sgn =? 0 then 1 else -1)
         else Some mant;
  Some (mk_bcd64 mant expo sgn, sp).

(** ** Printing *)

(** The loops of [bcd64tostr] write backwards; [room] is [ep - bp] and [out]
    what has been written, the latest character first -- which is the order
    the final reversal produces. *)
Fixpoint tostr_frac (room : nat) (mant expo : Z) (out : list Z) :
    nat * Z * Z * list Z :=
  match room with
  | O => (room, mant, expo, out)
  | S room' => if expo <? 0
               then tostr_frac room' (Z.shiftr mant 4) (expo + 1) (C (Z.land mant 0xf) :: out)
               else (room, mant, expo, out)
  end.

Fixpoint tostr_zeros (room : nat) (expo : Z) (out : list Z) : nat * list Z :=
  match room with
  | O => (room, out)
  | S room' => if 0 <? expo then tostr_zeros room' (expo - 1) (48 :: out) else (room, out)
  end.

Fixpoint tostr_int (room : nat) (mant : Z) (out : list Z) : nat * list Z :=
  match room with
  | O => (room, out)
  | S room' => if mant =? 0 then (room, out)
               else tostr_int room' (Z.shiftr mant 4) (C (Z.land mant 0xf) :: out)
  end.

Definition push (x : Z) (room : nat) (out : list Z) : nat * list Z :=
  match room with O => (room, out) | S room' => (room', x :: out) end.

(** The characters written; their number is the function's result. *)
Definition bcd64tostr (bsz : nat) (b : bcd64_t) : list Z :=
  let '(room, m, e, out) := tostr_frac bsz (mant b) (expo b) [] in
  let '(room, out) := match out with [] => (room, out) | _ => push 46 room out end in
  let '(room, out) := tostr_zeros room e out in
  let '(room, out) := if negb (m =? 0) then tostr_int room m out else push 48 room out in
  let '(room, out) := if negb (sign b =? 0) then push 45 room out else (room, out) in
  out.

(** Re-encode a binary mantissa as BCD, 16 digits. *)
Fixpoint bcd_encode (cnt : nat) (m bcdm : Z) : Z :=
  match cnt with
  | O => bcdm
  | S cnt =>
    let bcdm := Z.shiftr bcdm 4 in
    let digit := m mod 10 in
    let m := m / 10 in
    bcd_encode cnt m (Z.lxor bcdm (u64 (Z.shiftl digit 60)))
  end.

Definition bid64tostr (bsz : nat) (x : dec) : list Z :=
  let e := quantexpbid64 x in
  let m := mant_bid64 x in
  let s := if negb (m =? 0) then sign_bid64 x else 0 in
  bcd64tostr bsz (mk_bcd64 (bcd_encode 16 m 0) e s).

Definition d64tostr (bsz : nat) (x : dec) : list Z :=
  if is_nan x then take (Nat.min 3 bsz) [110; 97; 110]
  else if is_inf x then
    if dlt x dzero then take (Nat.min 4 bsz) [45; 105; 110; 102]
    else take (Nat.min 3 bsz) [105; 110; 102]
  else bid64tostr bsz x.

(** ** Parsing *)

Definition strtobid64 (src : list Z) : option (dec * list Z) :=
  '(b, on) ← strtobcd64 src; Some (bcd64tobid b, on).

Definition strtod64 (src : list Z) : option (dec * list Z) := strtobid64 src.

Definition strtodpd64 (src : list Z) : option (Z * list Z) :=
  '(b, on) ← strtobcd64 src; Some (bcd64todpd b, on).

(** ** Quantising *)

(** [for (; ex < er; ex++) m = m / 10 + (m % 10 >= 5);] *)
Fixpoint quant_trunc (cnt : nat) (m : Z) : Z :=
  match cnt with
  | O => m
  | S cnt => quant_trunc cnt (m / 10 + Z.b2z (5 <=? m mod 10))
  end.

(** [for (; m < lim && ex > er; ex--) m *= 10;] *)
Fixpoint quant_expand (cnt : nat) (lim m ex er : Z) : Z * Z :=
  match cnt with
  | O => (m, ex)
  | S cnt => if (m <? lim) && (er <? ex)
             then quant_expand cnt lim (m * 10) (ex - 1) er else (m, ex)
  end.

Definition quantizebid64 (x r : dec) : dec :=
  let er := quantexpbid64 r in
  let ex := quantexpbid64 x in
  let m := mant_bid64 x in
  let m := quant_trunc (Z.to_nat (er - ex)) m in
  let ex := Z.max ex er in
  let '(m, ex) := quant_expand (Z.to_nat (ex - er)) 100000000000000 m ex er in
  assemble_bid m (u64 (ex + 398)) (u64 (sign_bid64 x)).

Definition quantized64 (x r : dec) : dec := quantizebid64 x r.

(** [x * 10^n] by patching the exponent field. *)
Definition scalbnbid64 (x : dec) (n : Z) : dec :=
  let b := bits64 x in
  let u :=
    if Z.land b BIG64 =? BIG64 then
      let u := Z.land (Z.shiftr b 51) 0x3ff in
      let u := Z.lxor u (u64 (u + n)) in
      Z.shiftl (Z.land u 0x3ff) 51
    else
      let u := Z.land (Z.shiftr b 53) 0x3ff in
      let u := Z.lxor u (u64 (u + n)) in
      Z.shiftl (Z.land u 0x3ff) 53 in
  bobs64 (Z.lxor b u).

Definition scalbnd64 : dec -> Z -> dec := scalbnbid64.

Definition decompd64 (x : dec) : bcd64_t :=
  mk_bcd64 (mant_bid64 x) (quantexpbid64 x) (sign_bid64 x).

(** ** The DPD side, on bit patterns *)

Definition sign_dpd64 (b : Z) : Z := if Z.testbit b 63 then -1 else 0.

Definition mant_dpd64 (b : Z) : Z :=
  let res := Z.land b 0x3ffffffffffff in
  let b := Z.shiftr b 58 in
  if Z.land b 0x18 =? 0x18
  then Z.lxor res (Z.shiftl (Z.lor (Z.land b 1) 8) 50)
  else Z.lxor res (Z.shiftl (Z.land b 7) 50).

Definition quantexpdpd64 (b : Z) : Z :=
  let b := Z.shiftr b 50 in
  if b =? 0 then 0
  else
    let tmp := if negb (Z.land b 0x1800 =? 0x1800)
               then Z.lor (Z.shiftr (Z.land b 0x1800) 3) (Z.land b 0xff)
               else Z.lor (Z.shiftr (Z.land b 0x300) 1) (Z.land b 0xff) in
    tmp - 398.

(** The five declets of a mantissa unpacked behind the digit(s) [top]. *)
Definition unpack_declets64 (top m : Z) : Z :=
  let b := Z.lxor top (unpack_declet (Z.land (Z.shiftr m 40) 0x3ff)) in
  let b := u64 (Z.shiftl b 12) in
  let b := Z.lxor b (unpack_declet (Z.land (Z.shiftr m 30) 0x3ff)) in
  let b := u64 (Z.shiftl b 12) in
  let b := Z.lxor b (unpack_declet (Z.land (Z.shiftr m 20) 0x3ff)) in
  let b := u64 (Z.shiftl b 12) in
  let b := Z.lxor b (unpack_declet (Z.land (Z.shiftr m 10) 0x3ff)) in
  let b := u64 (Z.shiftl b 12) in
  Z.lxor b (unpack_declet (Z.land (Z.shiftr m 0) 0x3ff)).

Definition dpd64tostr (bsz : nat) (x : Z) : list Z :=
  let e := quantexpdpd64 x in
  let m := mant_dpd64 x in
  if negb (m =? 0) then
    bcd64tostr bsz (mk_bcd64 (unpack_declets64 (Z.shiftl (Z.shiftr m 50) 12) m) e (sign_dpd64 x))
  else bcd64tostr bsz (mk_bcd64 m e 0).

(** [for (; ex < er; ex++) b = (b >> 4) + ((b & 0xf) >= 5);] *)
Fixpoint bcd_trunc (cnt : nat) (b : Z) : Z :=
  match cnt with
  | O => b
  | S cnt => bcd_trunc cnt (Z.shiftr b 4 + Z.b2z (5 <=? Z.land b 0xf))
  end.

(** [for (i = 0; (b & 0xf) >= 10; b >>= 4, b++, i++);] then [b <<= 4 * i]. *)
Fixpoint bcd_carry (fuel : nat) (b i : Z) : option Z :=
  match fuel with
  | O => None
  | S fuel => if 10 <=? Z.land b 0xf then bcd_carry fuel (Z.shiftr b 4 + 1) (i + 1)
              else Some (u64 (Z.shiftl b (4 * i)))
  end.

Fixpoint bcd_expand (cnt : nat) (lim b ex er : Z) : Z * Z :=
  match cnt with
  | O => (b, ex)
  | S cnt => if (b <? lim) && (er <? ex)
             then bcd_expand cnt lim (u64 (Z.shiftl b 4)) (ex - 1) er else (b, ex)
  end.

Definition quantizedpd64 (x r : Z) : option Z :=
  let er := quantexpdpd64 r in
  let ex := quantexpdpd64 x in
  let m := mant_dpd64 x in
  let b := unpack_declets64 (Z.shiftr (Z.land m 0x3c000000000000) 8) m in
  let b := bcd_trunc (Z.to_nat (er - ex)) b in
  let ex := Z.max ex er in
  b ← bcd_carry 18 b 0;
  let '(b, ex) := bcd_expand (Z.to_nat (ex - er)) 0x100000000000000 b ex er in
  Some (bcd64todpd (mk_bcd64 b ex (sign_dpd64 x))).

Definition scalbndpd64 (b n : Z) : Z :=
  let u :=
    if Z.land b BIG64 =? BIG64 then
      let u := Z.lxor (Z.land (Z.shiftr b 50) 0xff) (Z.land (Z.shiftr b 51) 0x300) in
      let u := Z.lxor u (u64 (u + n)) in
      u64 (Z.shiftl (Z.lxor (Z.land u 0xff) (Z.shiftl (Z.land u 0x300) 1)) 50)
    else
      let u := Z.lxor (Z.land (Z.shiftr b 50) 0xff) (Z.land (Z.shiftr b 53) 0x300) in
      let u := Z.lxor u (u64 (u + n)) in
      u64 (Z.shiftl (Z.lxor (Z.land u 0xff) (Z.shiftl (Z.land u 0x300) 3)) 50) in
  Z.lxor b u.
