(* ===== verification/Dfp754D32.v ===== *)
(** * dfp754_d32.c: parsing, printing and quantising [_Decimal32]

    The narrow sibling of dfp754_d64.c: seven digits, a 32-bit encoding, a bias
    of 101.  BID functions work on values, DPD functions on bit patterns.  The
    declet routines and the character loops of the two files have the same text,
    so the definitions of [Dfp754D64] serve both. *)

From Stdlib Require Import ZArith Lia.
From stdpp Require Import prelude list.
From stdpp Require Import options.
From S2P Require Import Prelude Decimal Dfp754D64.

Local Open Scope Z_scope.

(** This file's own copies of the declet routines. *)
Definition pack_declet32 : Z -> Z := pack_declet.
Definition unpack_declet32 : Z -> Z := unpack_declet.

(** [bcd32_t]. *)
Record bcd32_t := mk_bcd32 { mant32 : Z; expo32 : Z; sign32 : Z }.

(** ** The BID accessors *)

Definition BIG32 : Z := 0x60000000.

Definition sign_bid32 (x : dec) : Z :=
  if Z.testbit (bits32 x) 31 then -1 else 0.

Definition mant_bid32 (x : dec) : Z :=
  let b := bits32 x in
  if Z.land b BIG32 =? BIG32
  then Z.lxor (Z.shiftl 4 21) (Z.land b 0x1fffff)
  else Z.land b 0x7fffff.

Definition quantexpbid32 (x : dec) : Z :=
  let b := bits32 x in
  if b =? 0 then 0
  else
    let tmp := if negb (Z.land b BIG32 =? BIG32) then Z.shiftr b 23 else Z.shiftr b 21 in
    Z.land tmp 0xff - 101.

Definition quantexpd32 : dec -> Z := quantexpbid32.

Definition assemble_bid32 (m ex s : Z) : dec :=
  let u := u32 (Z.shiftl s 31) in
  if negb (Z.land m (Z.shiftl 1 23) =? 0) then
    let u := Z.lxor u (Z.shiftl 3 29) in
    let u := Z.lxor u (u32 (Z.shiftl ex 21)) in
    bobs32 (Z.lxor u (Z.land m 0x1fffff))
  else
    let u := Z.lxor u (u32 (Z.shiftl ex 23)) in
    bobs32 (Z.lxor u (Z.land m 0x7fffff)).

Definition mirror32 (b : Z) : Z :=
  let b := swap_fields 0xffff0000 0x0000ffff 16 b in
  let b := swap_fields 0xff00ff00 0x00ff00ff 8 b in
  swap_fields 0xf0f0f0f0 0x0f0f0f0f 4 b.

Fixpoint bcd_accum32 (cnt : nat) (b m : Z) : Z :=
  match cnt with
  | O => m
  | S cnt => bcd_accum32 cnt (Z.shiftr b 4) (u32 (u32 (m * 10) + Z.land b 0xf))
  end.

Definition bcd32tobid (b : bcd32_t) : dec :=
  let bm := Z.shiftr (mirror32 (mant32 b)) 4 in
  let m := bcd_accum32 7 bm 0 in
  assemble_bid32 m (u32 (expo32 b + 101)) (u32 (sign32 b)).

Definition bcd32todpd (b : bcd32_t) : Z :=
  let m := mant32 b in
  let u := u32 (Z.shiftl (u32 (sign32 b)) 31) in
  let rex := u32 (expo32 b + 101) in
  let u := Z.lor u (pack_declet32 (Z.land m 0xfff)) in
  let m := Z.shiftr m 12 in
  let u := Z.lor u (Z.shiftl (pack_declet32 (Z.land m 0xfff)) 10) in
  let m := Z.shiftr m 12 in
  let rex :=
    if 8 <=? m then
      let rex := Z.lor (Z.shiftl (Z.land rex 0xc0) 1) (Z.land rex 0x3f) in
      Z.lor rex 0x600
    else Z.lor (Z.shiftl (Z.land rex 0xc0) 3) (Z.land rex 0x3f) in
  let u := Z.lor u (u32 (Z.shiftl rex 20)) in
  Z.lor u (Z.shiftl (Z.land m 7) 26).

(** ** Parsing *)

Fixpoint round_loop32 (fuel : nat) (mant roff sh : Z) : option (Z * Z * Z) :=
  match fuel with
  | O => None
  | S fuel =>
    let x := u32 (Z.land mant 0xf + roff) in
    if 9 <? x then round_loop32 fuel (Z.shiftr mant 4) roff (sh + 4)
    else Some (mant, x, sh)
  end.

(** Eight nibbles and the position above bound the loop whenever it ends. *)
Definition round_fuel32 : nat := 10.

Definition round_bcd32 (mant roff : Z) : option Z :=
  '(mant, x, sh) ← round_loop32 round_fuel32 mant roff 0;
  let mant := Z.lor (Z.land mant (u32 (Z.lnot 0xf))) x in
  Some (u32 (Z.shiftl mant sh)).

(** Pick up at most [nd] digits into a 32-bit mantissa. *)
Fixpoint take_digits32 (sp : list Z) (mant : Z) (nd : nat) : list Z * Z * nat :=
  match sp, nd with
  | c :: sp', S nd' =>
    if is_digit c then take_digits32 sp' (Z.lor (u32 (Z.shiftl mant 4)) (U c)) nd'
    else (sp, mant, nd)
  | _, _ => (sp, mant, nd)
  end.

Definition strtobcd32 (src : list Z) : option (bcd32_t * list Z) :=
  let '(sp, sgn) :=
    if peek src =? 45 then (tl src, 1)
    else if peek src =? 43 then (tl src, 0) else (src, 0) in
  let sp := skip_zeros sp in
  let '(sp, mant, nd) := take_digits32 sp 0 7 in
  let roff := Z.b2z (is_upper_digit (peek sp)) in
  let '(sp, expo) := skip_digits sp 0 in
  let '(sp, mant, expo, roff) :=
    if (peek sp =? 46) && (0 <? nd)%nat then
      let '(sp, mant, nd') := take_digits32 (tl sp) mant nd in
      let roff := roff + Z.b2z (is_upper_digit (peek sp)) in
      ((skip_digits sp 0).1, mant, expo - Z.of_nat (nd - nd'), roff)
    else if peek sp =? 46 then
      let roff := roff + Z.b2z (is_upper_digit (peek sp)) in
      ((skip_digits (tl sp) 0).1, mant, expo, roff)
    else (sp, mant, expo, roff) in
  mant ← if negb (roff =? 0) then round_bcd32 mant (if sgn =? 0 then 1 else -1)
         else Some mant;
  Some (mk_bcd32 mant expo sgn, sp).

Definition strtobid32 (src : list Z) : option (dec * list Z) :=
  '(b, on) ← strtobcd32 src; Some (bcd32tobid b, on).

Definition strtod32 (src : list Z) : option (dec * list Z) := strtobid32 src.

Definition strtodpd32 (src : list Z) : option (Z * list Z) :=
  '(b, on) ← strtobcd32 src; Some (bcd32todpd b, on).

(** ** Printing *)

Definition bcd32tostr (bsz : nat) (mant e s : Z) : list Z :=
  let '(room, m, e, out) := tostr_frac bsz mant e [] in
  let '(room, out) := match out with [] => (room, out) | _ => push 46 room out end in
  let '(room, out) := tostr_zeros room e out in
  let '(room, out) := if negb (m =? 0) then tostr_int room m out else push 48 room out in
  let '(room, out) := if negb (s =? 0) then push 45 room out else (room, out) in
  out.

(** [for (i = 0; i < 7U; i++, bcdm >>= 4U)]: the shift comes last. *)
Fixpoint bcd_encode32 (cnt : nat) (m bcdm : Z) : Z :=
  match cnt with
  | O => bcdm
  | S cnt =>
    let digit := m mod 10 in
    let m := m / 10 in
    let bcdm := Z.lxor bcdm (u32 (Z.shiftl digit 28)) in
    bcd_encode32 cnt m (Z.shiftr bcdm 4)
  end.

Definition bid32tostr (bsz : nat) (x : dec) : list Z :=
  let e := quantexpbid32 x in
  let m := mant_bid32 x in
  let s := if negb (m =? 0) then sign_bid32 x else 0 in
  bcd32tostr bsz (bcd_encode32 7 m 0) e s.

Definition d32tostr (bsz : nat) (x : dec) : list Z :=
  if is_nan x then take (Nat.min 3 bsz) [110; 97; 110]
  else if is_inf x then
    if dlt x dzero then take (Nat.min 4 bsz) [45; 105; 110; 102]
    else take (Nat.min 3 bsz) [105; 110; 102]
  else bid32tostr bsz x.

(** ** Quantising and scaling *)

Definition quantizebid32 (x r : dec) : dec :=
  let er := quantexpbid32 r in
  let ex := quantexpbid32 x in
  let m := mant_bid32 x in
  let m := quant_trunc (Z.to_nat (er - ex)) m in
  let ex := Z.max ex er in
  let '(m, ex) := quant_expand (Z.to_nat (ex - er)) 1000000 m ex er in
  assemble_bid32 m (u32 (ex + 101)) (u32 (sign_bid32 x)).

Definition quantized32 (x r : dec) : dec := quantizebid32 x r.

Definition scalbnbid32 (x : dec) (n : Z) : dec :=
  let b := bits32 x in
  let u :=
    if Z.land b BIG32 =? BIG32 then
      let u := Z.land (Z.shiftr b 21) 0xff in
      let u := Z.lxor u (u32 (u + n)) in
      Z.shiftl (Z.land u 0xff) 21
    else
      let u := Z.land (Z.shiftr b 23) 0xff in
      let u := Z.lxor u (u32 (u + n)) in
      Z.shiftl (Z.land u 0xff) 23 in
  bobs32 (Z.lxor b u).

Definition scalbnd32 : dec -> Z -> dec := scalbnbid32.

Definition decompd32 (x : dec) : bcd32_t :=
  mk_bcd32 (mant_bid32 x) (quantexpbid32 x) (sign_bid32 x).

(** ** The DPD side, on bit patterns *)

Definition sign_dpd32 (b : Z) : Z := if Z.testbit b 31 then -1 else 0.

Definition mant_dpd32 (b : Z) : Z :=
  let res := Z.land b 0xfffff in
  let b := Z.shiftr b 26 in
  if Z.land b 0x18 =? 0x18
  then Z.lxor res (Z.shiftl (Z.lor (Z.land b 1) 8) 20)
  else Z.lxor res (Z.shiftl (Z.land b 7) 20).

Definition quantexpdpd32 (b : Z) : Z :=
  let b := Z.shiftr b 20 in
  if b =? 0 then 0
  else
    let tmp := if negb (Z.land b 0x600 =? 0x600)
               then Z.lor (Z.shiftr (Z.land b 0x600) 3) (Z.land b 0x3f)
               else Z.lor (Z.shiftr (Z.land b 0x180) 1) (Z.land b 0x3f) in
    tmp - 101.

(** The top digit and the two declets of a mantissa, unpacked. *)
Definition unpack_declets32 (m : Z) : Z :=
  let b := Z.shiftr (Z.land m 0xf00000) 8 in
  let b := Z.lor b (unpack_declet32 (Z.land (Z.shiftr m 10) 0x3ff)) in
  let b := u32 (Z.shiftl b 12) in
  Z.lor b (unpack_declet32 (Z.land (Z.shiftr m 0) 0x3ff)).

Definition dpd32tostr (bsz : nat) (x : Z) : list Z :=
  let e := quantexpdpd32 x in
  let m := mant_dpd32 x in
  if negb (m =? 0) then bcd32tostr bsz (unpack_declets32 m) e (sign_dpd32 x)
  else bcd32tostr bsz m e 0.

(** [for (i = 0U; (b & 0xfU) >= 10U; b >>= 4U, b++, i++); b <<= 4U * i;] *)
Fixpoint bcd_carry32 (fuel : nat) (b i : Z) : option Z :=
  match fuel with
  | O => None
  | S fuel => if 10 <=? Z.land b 0xf then bcd_carry32 fuel (Z.shiftr b 4 + 1) (i + 1)
              else Some (u32 (Z.shiftl b (4 * i)))
  end.

Fixpoint bcd_expand32 (cnt : nat) (lim b ex er : Z) : Z * Z :=
  match cnt with
  | O => (b, ex)
  | S cnt => if (b <? lim) && (er <? ex)
             then bcd_expand32 cnt lim (u32 (Z.shiftl b 4)) (ex - 1) er else (b, ex)
  end.

Definition quantizedpd32 (x r : Z) : option Z :=
  let er := quantexpdpd32 r in
  let ex := quantexpdpd32 x in
  let b := unpack_declets32 (mant_dpd32 x) in
  let b := bcd_trunc (Z.to_nat (er - ex)) b in
  let ex := Z.max ex er in
  b ← bcd_carry32 10 b 0;
  let '(b, ex) := bcd_expand32 (Z.to_nat (ex - er)) 0x1000000 b ex er in
  Some (bcd32todpd (mk_bcd32 b ex (sign_dpd32 x))).

Definition scalbndpd32 (b n : Z) : Z :=
  let u :=
    if Z.land b BIG32 =? BIG32 then
      let u := Z.lxor (Z.land (Z.shiftr b 20) 0x3f) (Z.land (Z.shiftr b 21) 0xc0) in
      let u := Z.lxor u (u32 (u + n)) in
      u32 (Z.shiftl (Z.lor (Z.land u 0x3f) (Z.shiftl (Z.land u 0xc0) 1)) 20)
    else
      let u := Z.lxor (Z.land (Z.shiftr b 20) 0x3f) (Z.land (Z.shiftr b 23) 0xc0) in
      let u := Z.lxor u (u32 (u + n)) in
      u32 (Z.shiftl (Z.lor (Z.land u 0x3f) (Z.shiftl (Z.land u 0xc0) 3)) 20) in
  Z.lxor b u.

(** ** Examples *)

Example strtod32_ex : strtod32 [45; 49; 46; 50; 51; 53; 9] = Some (DFin true 1235 (-3), [9]).
Proof. vm_compute. reflexivity. Qed.
Example d32tostr_ex : d32tostr 32 (DFin true 1235 (-3)) = [45; 49; 46; 50; 51; 53].
Proof. vm_compute. reflexivity. Qed.
Example strtod32_round : strtod32 [49; 50; 51; 52; 53; 54; 55; 56] = Some (DFin false 1234568 1, []).
Proof. vm_compute. reflexivity. Qed.
Example dpd32_ex :
  option_map (fun r => dpd32tostr 32 r.1) (strtodpd32 [45; 57; 55; 46; 50; 51; 53]) =
  Some [45; 57; 55; 46; 50; 51; 53].
Proof. vm_compute. reflexivity. Qed.
