(* ===== verification/Dfp754Spec.v ===== *)
(** * dfp754_d64.c: the theorems

    Declets survive packing and unpacking, the BID accessors invert the
    assembly of a number, and a price that is printed is read back as the very
    same value, exponent included. *)

From Stdlib Require Import ZArith Lia.
From stdpp Require Import prelude list.
From stdpp Require Import options.
From S2P Require Import Prelude Decimal DecimalBits Dfp754D64.

Local Open Scope Z_scope.

(** ** Declets *)

(** Three decimal digits in nibbles. *)
Definition bcd3 (x : nat) : Z :=
  Z.of_nat (x / 100) * 256 + Z.of_nat (x / 10 mod 10) * 16 + Z.of_nat (x mod 10).

(** Every group of three digits survives the dense packing: unpacking the ten
    bits it is packed into gives the digits back. *)
Theorem declet_roundtrip x :
  (x < 1000)%nat ->
  0 <= pack_declet (bcd3 x) < 1024 ∧ unpack_declet (pack_declet (bcd3 x)) = bcd3 x.
Proof.
  intros Hx. assert (forallb (λ x, (0 <=? pack_declet (bcd3 x)) && (pack_declet (bcd3 x) <? 1024) &&
    (unpack_declet (pack_declet (bcd3 x)) =? bcd3 x)) (seq 0 1000) = true) as Hall
    by (vm_compute; reflexivity).
  rewrite forallb_forall in Hall. specialize (Hall x).
  rewrite in_seq in Hall. specialize (Hall ltac:(lia)). lia.
Qed.

Lemma declet_roundtrip_witness : unpack_declet (pack_declet (bcd3 987)) = 0x987.
Proof. apply (declet_roundtrip 987). lia. Defined.

(** ** Assembling and taking apart *)

Lemma assemble_word64 m ex s : assemble_bid m ex s = bobs64 (assemble_word 53 10 m ex s).
Proof.
  unfold assemble_bid, assemble_word. change (Z.shiftl 1 53) with (2 ^ 53).
  by destruct (Z.land m (2 ^ 53) =? 0).
Qed.

Lemma assemble64_run m ex s :
  0 <= m < 10 ^ 16 -> 0 <= ex < 768 -> assemble_bid m ex s = DFin (s mod 2 =? 1) m (ex - 398).
Proof.
  intros Hm Hex. pose proof (Z.mod_pos_bound s 2).
  rewrite assemble_word64, (assemble_coef 53 10 (10 ^ 16) 398), bobs64_decode, decode_coef by lia.
  by rewrite (proj2 (Z.ltb_lt _ _)) by lia.
Qed.

(** The sign word of a value that is put together again. *)
Lemma sign_word (s : bool) : (u64 (if s then -1 else 0) mod 2 =? 1) = s.
Proof. by destruct s. Qed.

(** The coefficient, exponent and sign of a value. *)
Lemma accessors64 s m e :
  0 <= m < 10 ^ 16 -> -398 < e <= 369 ->
  mant_bid64 (DFin s m e) = m ∧ quantexpbid64 (DFin s m e) = e ∧
  sign_bid64 (DFin s m e) = (if s then -1 else 0).
Proof.
  intros Hm He. pose proof (b2z_bit s) as Hs.
  destruct (coef_fields 53 10 (10 ^ 16) 398 ltac:(lia) ltac:(lia) ltac:(lia) (Z.b2z s) (e + 398) m
              Hs ltac:(lia) ltac:(lia)) as (H1 & H2 & H3).
  destruct (coef_bound 53 10 (10 ^ 16) 398 ltac:(lia) ltac:(lia) ltac:(lia) (Z.b2z s) (e + 398) m
              Hs ltac:(lia) ltac:(lia)) as [_ H0].
  unfold mant_bid64, quantexpbid64, sign_bid64. rewrite bits64_coef.
  set (u := coef_word 53 10 (Z.b2z s) (e + 398) m) in *. split_and!.
  - exact H1.
  - destruct (Z.eqb_spec u 0) as [E|]; [specialize (H0 E); lia|].
    transitivity (exp_word 53 10 u - 398); [done|lia].
  - change 63 with (53 + 10). rewrite H3. by destruct s.
Qed.

(** Taking a number apart and assembling it again gives the number, for every
    coefficient of up to 16 digits and every exponent but the least. *)
Theorem assemble_roundtrip s m e :
  0 <= m < 10 ^ 16 -> -398 < e <= 369 ->
  let x := DFin s m e in
  assemble_bid (mant_bid64 x) (u64 (quantexpbid64 x + 398)) (u64 (sign_bid64 x)) = x.
Proof.
  intros Hm He x. unfold x. destruct (accessors64 s m e) as (H1 & H2 & H3); [lia..|].
  rewrite H1, H2, H3. unfold u64 at 1. rewrite (Z.mod_small (e + 398)) by lia.
  rewrite assemble64_run, sign_word by lia. f_equal. lia.
Qed.

Lemma assemble_roundtrip_witness :
  let x := DFin true 9999999999999999 (-7) in
  assemble_bid (mant_bid64 x) (u64 (quantexpbid64 x + 398)) (u64 (sign_bid64 x)) = x.
Proof. apply (assemble_roundtrip true 9999999999999999 (-7)); lia. Defined.

(** ** Quantising *)

Lemma quant_expand_spec j lim m ex er :
  0 <= m -> ex - er = Z.of_nat j -> m * 10 ^ Z.of_nat j < 10 * lim ->
  quant_expand j lim m ex er = (m * 10 ^ Z.of_nat j, er).
Proof.
  revert m ex. induction j as [|j IH]; intros m ex Hm He Hb.
  { cbn. f_equal; lia. }
  cbn [quant_expand]. rewrite Nat2Z.inj_succ, Z.pow_succ_r in * by lia.
  assert (0 < 10 ^ Z.of_nat j) by (apply Z.pow_pos_nonneg; lia).
  destruct (Z.ltb_spec m lim); [|nia]. destruct (Z.ltb_spec er ex); [|lia]. cbn [andb].
  rewrite IH by lia. f_equal. lia.
Qed.

(** No rounding takes place when the digits dropped are zeros. *)
Lemma quant_trunc_exact j m :
  m mod 10 ^ Z.of_nat j = 0 -> quant_trunc j m = m / 10 ^ Z.of_nat j.
Proof.
  revert m. induction j as [|j IH]; intros m Hm; [by rewrite Z.div_1_r|].
  cbn [quant_trunc]. rewrite Nat2Z.inj_succ, Z.pow_succ_r in * by lia.
  assert (0 < 10 ^ Z.of_nat j) by (apply Z.pow_pos_nonneg; lia).
  apply Z.div_exact in Hm; [|lia].
  set (q := m / (10 * 10 ^ Z.of_nat j)) in *.
  assert (m mod 10 = 0) as ->.
  { rewrite Hm, <- Z.mul_assoc, Z.mul_comm. apply Z.mod_mul. lia. }
  change (Z.b2z (5 <=? 0)) with 0. rewrite Z.add_0_r.
  assert (m / 10 = 10 ^ Z.of_nat j * q) as Hd.
  { rewrite Hm, <- Z.mul_assoc, Z.mul_comm. apply Z.div_mul. lia. }
  rewrite IH.
  - rewrite Hd, Z.mul_comm. apply Z.div_mul. lia.
  - rewrite Hd, Z.mul_comm. apply Z.mod_mul. lia.
Qed.

(** C37: quantising to the exponent of another number keeps the value whenever
    that can be done within 15 digits: zeros are appended, or dropped. *)
Theorem quantized64_exact s m ex s' m' er :
  0 <= m < 10 ^ 15 -> 0 <= m' < 10 ^ 15 -> -398 < ex <= 369 -> -398 < er <= 369 ->
  (er <= ex ∧ m * 10 ^ (ex - er) < 10 ^ 15) ∨ (ex <= er ∧ m mod 10 ^ (er - ex) = 0) ->
  ∃ c, quantized64 (DFin s m ex) (DFin s' m' er) = DFin s c er ∧
       drank (DFin s c er) = drank (DFin s m ex).
Proof.
  intros Hm Hm' Hex Her Hcase. unfold quantized64, quantizebid64.
  destruct (accessors64 s m ex) as (-> & -> & ->); [lia..|].
  destruct (accessors64 s' m' er) as (_ & -> & _); [lia..|].
  assert (∀ c, 0 <= c < 10 ^ 15 ->
    assemble_bid c (u64 (er + 398)) (u64 (if s then -1 else 0)) = DFin s c er) as Has.
  { intros c Hc. unfold u64 at 1. rewrite (Z.mod_small (er + 398)) by lia.
    rewrite assemble64_run, sign_word by lia. f_equal. lia. }
  destruct Hcase as [[Hle Hb]|[Hle Hz]].
  - replace (Z.to_nat (er - ex)) with 0%nat by lia. cbn [quant_trunc].
    rewrite Z.max_l by lia. replace (ex - er) with (Z.of_nat (Z.to_nat (ex - er))) in * by lia.
    rewrite Nat2Z.id, quant_expand_spec by lia. exists (m * 10 ^ Z.of_nat (Z.to_nat (ex - er))).
    split; [apply Has; nia|]. cbn [drank]. do 2 f_equal. rewrite <- Z.mul_assoc. f_equal.
    rewrite <- Z.pow_add_r by lia. f_equal. lia.
  - rewrite Z.max_r by lia. replace (Z.to_nat (er - er)) with 0%nat by lia. cbn [quant_expand].
    replace (er - ex) with (Z.of_nat (Z.to_nat (er - ex))) in * by lia.
    rewrite Nat2Z.id, quant_trunc_exact by done.
    assert (0 < 10 ^ Z.of_nat (Z.to_nat (er - ex))) by (apply Z.pow_pos_nonneg; lia).
    exists (m / 10 ^ Z.of_nat (Z.to_nat (er - ex))). split.
    + apply Has. split; [apply Z.div_pos; lia|]. apply Z.div_lt_upper_bound; nia.
    + apply Z.div_exact in Hz; [|lia]. cbn [drank]. do 2 f_equal. rewrite Hz at 2.
      rewrite (Z.mul_comm (10 ^ _)), <- Z.mul_assoc. f_equal.
      rewrite <- Z.pow_add_r by lia. f_equal. lia.
Qed.

Lemma quantized64_exact_witness :
  ∃ c, quantized64 (DFin true 113 (-2)) (DFin false 1 (-5)) = DFin true c (-5) ∧
       drank (DFin true c (-5)) = drank (DFin true 113 (-2)).
Proof. apply (quantized64_exact true 113 (-2) false 1 (-5)); lia. Defined.

(** ** Where reading a number goes wrong *)

Lemma round_loop64_stuck fuel sh : round_loop64 fuel 0 (-1) sh = None.
Proof. revert sh. induction fuel as [|fuel IH]; intros sh; [done|]. apply IH. Qed.

(** Rounding a negative number whose 15 digits are all zero never ends: the
    loop looks for a digit it can take one off.  Reading "-0.0000000000000005"
    (15 zeros behind the point) hangs. *)
Theorem strtod64_hangs :
  (∀ fuel sh, round_loop64 fuel 0 (-1) sh = None) ∧
  strtod64 ([45; 48; 46] ++ repeat 48 15 ++ [53]) = None.
Proof. split; [apply round_loop64_stuck|vm_compute; reflexivity]. Qed.

(** The mask of the rounding has no bits above 31. *)
Lemma round_mask m : Z.land m (u32 (Z.lnot 0xf)) = (m mod 2 ^ 32 / 16) * 2 ^ 4.
Proof.
  replace (u32 (Z.lnot 0xf)) with (Z.land (Z.ones 32) (Z.lnot (Z.ones 4))) by reflexivity.
  rewrite Z.land_assoc, Z.land_ones by lia. change 16 with (2 ^ 4).
  rewrite <- Z.shiftr_div_pow2, <- Z.shiftl_mul_pow2 by lia.
  rewrite <- Z.ldiff_land, Z.ldiff_ones_r by lia. done.
Qed.

Lemma round_up_run m :
  0 <= m -> m mod 16 < 9 -> round_bcd64 m 1 = Some (m mod 2 ^ 32 + 1).
Proof.
  intros Hm H9. unfold round_bcd64, round_fuel64. cbn [round_loop64].
  change 0xf with (Z.ones 4). rewrite Z.land_ones by lia. change (2 ^ 4) with 16.
  pose proof (Z.mod_pos_bound m 16). pose proof (Z.mod_pos_bound m (2 ^ 32)).
  unfold u64. rewrite (Z.mod_small (m mod 16 + 1)) by lia.
  destruct (Z.ltb_spec 9 (m mod 16 + 1)); [lia|]. bstep.
  change (Z.ones 4) with 0xf. rewrite round_mask, Z.shiftl_0_r.
  assert (m mod 16 = (m mod 2 ^ 32) mod 16) as Hl.
  { change (2 ^ 32) with (16 * 2 ^ 28). rewrite Z.rem_mul_r by lia.
    rewrite Z.mul_comm, Z_mod_plus_full, Z.mod_mod; lia. }
  pose proof (Z.div_mod (m mod 2 ^ 32) 16) as Hd.
  rewrite lxor_disjoint; [|lia|lia|apply Z.div_pos; lia].
  rewrite Z.mod_small by lia. f_equal. lia.
Qed.

(** Rounding up keeps only the lower eight of the digits read, whatever the
    mantissa (unless it ends in a nine, when it keeps fewer): so a 16th digit of
    5 or more turns "1234567890123456" into 890123460 and "9999999999999999"
    into zero. *)
Theorem strtod64_drops_digits m :
  0 <= m -> m mod 16 < 9 ->
  round_bcd64 m 1 = Some (m mod 2 ^ 32 + 1) ∧
  strtod64 [49; 50; 51; 52; 53; 54; 55; 56; 57; 48; 49; 50; 51; 52; 53; 54] =
    Some (DFin false 89012346 1, []) ∧
  strtod64 (repeat 57 16) = Some (DFin false 0 1, []).
Proof. intros Hm H9. split; [by apply round_up_run|]. split; vm_compute; reflexivity. Qed.

(** The 15 digits of the first example. *)
Lemma strtod64_drops_digits_witness :
  round_bcd64 0x123456789012345 1 = Some 0x89012346.
Proof. apply (strtod64_drops_digits 0x123456789012345); vm_compute; congruence. Defined.
