(* ===== verification/Dfp754Print.v ===== *)
(** * dfp754_d64.c: printing and reading back

    Coefficients are followed through their binary coded form: [bcdn j m] packs
    the [j] lowest digits of [m] into nibbles, [digs j m] is their text. *)

From Stdlib Require Import ZArith Lia.
From stdpp Require Import prelude list.
From stdpp Require Import options.
From S2P Require Import Prelude Decimal DecimalBits Dfp754D64 Dfp754Spec.

Local Open Scope Z_scope.

(** ** Digits *)

Fixpoint bcdn (j : nat) (m : Z) : Z :=
  match j with
  | O => 0
  | S j => m mod 10 + 16 * bcdn j (m / 10)
  end.

Fixpoint digs (j : nat) (m : Z) : list Z :=
  match j with
  | O => []
  | S j => digs j (m / 10) ++ [C (m mod 10)]
  end.

Lemma mod10_bound m : 0 <= m mod 10 < 10.
Proof. apply Z.mod_pos_bound. lia. Qed.

Lemma bcdn_bound j m : 0 <= bcdn j m < 16 ^ Z.of_nat j.
Proof.
  revert m. induction j as [|j IH]; intros m; [simpl; lia|]. cbn [bcdn].
  rewrite Nat2Z.inj_succ, Z.pow_succ_r by lia. specialize (IH (m / 10)).
  pose proof (mod10_bound m). lia.
Qed.

Lemma bcdn_low j m : Z.land (bcdn (S j) m) 0xf = m mod 10.
Proof.
  change 0xf with (Z.ones 4). rewrite Z.land_ones by lia. cbn [bcdn]. change (2 ^ 4) with 16.
  rewrite Z.mul_comm, Z_mod_plus_full. pose proof (mod10_bound m). apply Z.mod_small. lia.
Qed.

Lemma bcdn_shift j m : Z.shiftr (bcdn (S j) m) 4 = bcdn j (m / 10).
Proof.
  rewrite Z.shiftr_div_pow2 by lia. cbn [bcdn]. change (2 ^ 4) with 16.
  rewrite Z.mul_comm, Z.div_add, Z.div_small by (pose proof (mod10_bound m); lia). lia.
Qed.

Lemma bcdn_0 j : bcdn j 0 = 0.
Proof. induction j as [|j IH]; [done|]. cbn [bcdn]. rewrite Z.div_0_l, IH by lia. done. Qed.

Lemma bcdn_zero j m : 0 <= m < 10 ^ Z.of_nat j -> bcdn j m = 0 -> m = 0.
Proof.
  revert m. induction j as [|j IH]; intros m Hm H0; [simpl in Hm; lia|].
  cbn [bcdn] in H0. rewrite Nat2Z.inj_succ, Z.pow_succ_r in Hm by lia.
  pose proof (mod10_bound m). pose proof (bcdn_bound j (m / 10)).
  assert (m / 10 = 0) as Hd.
  { apply IH; [|lia]. split; [apply Z.div_pos; lia|apply Z.div_lt_upper_bound; lia]. }
  pose proof (Z.div_mod m 10). lia.
Qed.

(** Extra digits above the number are zero. *)
Lemma bcdn_ext j k m :
  (j <= k)%nat -> 0 <= m < 10 ^ Z.of_nat j -> bcdn k m = bcdn j m.
Proof.
  revert k m. induction j as [|j IH]; intros k m Hk Hm.
  - replace m with 0 by (simpl in Hm; lia). by rewrite !bcdn_0.
  - destruct k as [|k]; [lia|]. cbn [bcdn]. f_equal. f_equal. apply IH; [lia|].
    rewrite Nat2Z.inj_succ, Z.pow_succ_r in Hm by lia.
    split; [apply Z.div_pos; lia|apply Z.div_lt_upper_bound; lia].
Qed.

(** ** Encoding *)

Lemma bcd_encode_spec cnt k m x :
  (cnt + k = 16)%nat -> 0 <= x < 16 ^ Z.of_nat k ->
  bcd_encode cnt m (x * 16 ^ Z.of_nat cnt) = x + 16 ^ Z.of_nat k * bcdn cnt m.
Proof.
  revert k m x. induction cnt as [|cnt IH]; intros k m x Hk Hx.
  { cbn. lia. }
  cbn [bcd_encode].
  assert (Z.shiftr (x * 16 ^ Z.of_nat (S cnt)) 4 = x * 16 ^ Z.of_nat cnt) as ->.
  { rewrite Z.shiftr_div_pow2, Nat2Z.inj_succ, Z.pow_succ_r by lia. change (2 ^ 4) with 16.
    replace (x * (16 * 16 ^ Z.of_nat cnt)) with (x * 16 ^ Z.of_nat cnt * 16) by lia.
    by rewrite Z.div_mul. }
  assert (16 ^ Z.of_nat (cnt + k) = 2 ^ 60) as Hp.
  { replace (cnt + k)%nat with 15%nat by lia. reflexivity. }
  rewrite Nat2Z.inj_add, Z.pow_add_r in Hp by lia.
  pose proof (mod10_bound m).
  assert (0 < 16 ^ Z.of_nat cnt) by (apply Z.pow_pos_nonneg; lia).
  assert (Z.lxor (x * 16 ^ Z.of_nat cnt) (u64 (Z.shiftl (m mod 10) 60)) =
          (x + m mod 10 * 16 ^ Z.of_nat k) * 16 ^ Z.of_nat cnt) as ->.
  { rewrite Z.shiftl_mul_pow2 by lia. unfold u64. rewrite Z.mod_small by lia.
    rewrite Z.lxor_comm, lxor_disjoint by nia. rewrite <- Hp. ring. }
  rewrite (IH (S k)); [|lia|].
  - cbn [bcdn]. rewrite Nat2Z.inj_succ, Z.pow_succ_r by lia. lia.
  - rewrite Nat2Z.inj_succ, Z.pow_succ_r by lia. nia.
Qed.

Lemma bcd_encode_bcdn m : bcd_encode 16 m 0 = bcdn 16 m.
Proof.
  pose proof (bcd_encode_spec 16 0 m 0 eq_refl ltac:(simpl; lia)) as He.
  rewrite Z.mul_0_l in He. rewrite He. change (16 ^ Z.of_nat 0) with 1. lia.
Qed.

(** ** Printing *)

Lemma digs_length j m : length (digs j m) = j.
Proof. revert m. induction j as [|j IH]; intros m; [done|]. cbn. rewrite length_app, IH. simpl. lia. Qed.

Lemma tostr_frac_spec k room j m out :
  (k <= room)%nat -> (k <= j)%nat ->
  tostr_frac room (bcdn j m) (- Z.of_nat k) out =
  ((room - k)%nat, bcdn (j - k) (m / 10 ^ Z.of_nat k), 0, digs k m ++ out).
Proof.
  revert room j m out. induction k as [|k IH]; intros room j m out Hr Hj.
  - simpl. rewrite Z.div_1_r, !Nat.sub_0_r. by destruct room.
  - destruct room as [|room]; [lia|]. destruct j as [|j]; [lia|].
    cbn [tostr_frac]. destruct (Z.ltb_spec (- Z.of_nat (S k)) 0); [|lia].
    rewrite bcdn_low, bcdn_shift. replace (- Z.of_nat (S k) + 1) with (- Z.of_nat k) by lia.
    rewrite IH by lia. cbn [digs]. rewrite <- app_assoc.
    rewrite Nat2Z.inj_succ, Z.pow_succ_r, Z.div_div by lia. done.
Qed.

(** The number of digits. *)
Fixpoint ndig (fuel : nat) (m : Z) : nat :=
  match fuel with
  | O => 0
  | S fuel => if m =? 0 then 0 else S (ndig fuel (m / 10))
  end.

Lemma div10_lt j m : 0 <= m < 10 ^ Z.of_nat (S j) -> 0 <= m / 10 < 10 ^ Z.of_nat j.
Proof.
  intros Hm. rewrite Nat2Z.inj_succ, Z.pow_succ_r in Hm by lia.
  split; [apply Z.div_pos; lia|apply Z.div_lt_upper_bound; lia].
Qed.

Lemma ndig_bound j m : 0 <= m < 10 ^ Z.of_nat j -> m < 10 ^ Z.of_nat (ndig j m).
Proof.
  revert m. induction j as [|j IH]; intros m Hm; [simpl in *; lia|]. cbn [ndig].
  destruct (Z.eqb_spec m 0) as [->|]; [simpl; lia|].
  specialize (IH _ (div10_lt _ _ Hm)). rewrite Nat2Z.inj_succ, Z.pow_succ_r by lia.
  pose proof (Z.div_mod m 10). pose proof (mod10_bound m). lia.
Qed.

Lemma ndig_lower j m : 0 < m < 10 ^ Z.of_nat j -> 10 ^ (Z.of_nat (ndig j m) - 1) <= m.
Proof.
  revert m. induction j as [|j IH]; intros m Hm; [simpl in Hm; lia|]. cbn [ndig].
  destruct (Z.eqb_spec m 0) as [->|]; [lia|].
  rewrite Nat2Z.inj_succ. replace (Z.succ (Z.of_nat (ndig j (m / 10))) - 1)
    with (Z.of_nat (ndig j (m / 10))) by lia.
  destruct (decide (m / 10 = 0)) as [Hz|Hnz].
  - rewrite Hz. destruct j; simpl; lia.
  - pose proof (div10_lt j m ltac:(lia)).
    assert (0 < Z.of_nat (ndig j (m / 10))) as Hpos.
    { destruct j as [|j]; [simpl in *; lia|]. cbn [ndig].
      destruct (Z.eqb_spec (m / 10) 0); [done|lia]. }
    specialize (IH (m / 10) ltac:(lia)).
    replace (Z.of_nat (ndig j (m / 10))) with (Z.succ (Z.of_nat (ndig j (m / 10)) - 1)) by lia.
    rewrite Z.pow_succ_r by lia. pose proof (Z.div_mod m 10). pose proof (mod10_bound m). lia.
Qed.

Lemma ndig_le j m : (ndig j m <= j)%nat.
Proof.
  revert m. induction j as [|j IH]; intros m; [done|]. cbn [ndig].
  destruct (m =? 0); [lia|]. specialize (IH (m / 10)). lia.
Qed.

Lemma tostr_int_spec j room m out :
  0 <= m < 10 ^ Z.of_nat j -> (j < room)%nat ->
  tostr_int room (bcdn j m) out = ((room - ndig j m)%nat, digs (ndig j m) m ++ out).
Proof.
  revert room m out. induction j as [|j IH]; intros room m out Hm Hr.
  - destruct room; [lia|]. simpl. done.
  - destruct room as [|room]; [lia|]. cbn [tostr_int ndig].
    destruct (Z.eqb_spec (bcdn (S j) m) 0) as [H0|H0].
    + rewrite (bcdn_zero _ _ Hm H0). done.
    + destruct (Z.eqb_spec m 0) as [->|]; [by rewrite bcdn_0 in H0|].
      rewrite bcdn_low, bcdn_shift, IH by (try apply div10_lt; done || lia).
      cbn [digs]. by rewrite <- app_assoc.
Qed.

(** The text of a number with [k] decimals. *)
Definition text (s : bool) (m : Z) (k : nat) : list Z :=
  let w := m / 10 ^ Z.of_nat k in
  (if s && negb (m =? 0) then [45] else []) ++
  (if w =? 0 then [48] else digs (ndig 16 w) w) ++
  (if (k =? 0)%nat then [] else 46 :: digs k m).

Lemma bcd64tostr_text s m k bsz sg :
  0 <= m < 10 ^ 16 -> (k <= 15)%nat -> (36 <= bsz)%nat ->
  sg = (if s && negb (m =? 0) then -1 else 0) ->
  bcd64tostr bsz (mk_bcd64 (bcdn 16 m) (- Z.of_nat k) sg) = text s m k.
Proof.
  intros Hm Hk Hb ->. unfold bcd64tostr. cbn [mant expo sign].
  rewrite tostr_frac_spec by lia. rewrite app_nil_r.
  set (w := m / 10 ^ Z.of_nat k).
  assert (0 < 10 ^ Z.of_nat k) as Hpk by (apply Z.pow_pos_nonneg; lia).
  assert (0 <= w < 10 ^ Z.of_nat (16 - k)) as Hw.
  { unfold w. split; [apply Z.div_pos; lia|]. apply Z.div_lt_upper_bound; [lia|].
    rewrite <- Z.pow_add_r by lia. replace (Z.of_nat k + Z.of_nat (16 - k)) with 16 by lia. lia. }
  assert (match digs k m with
          | [] => ((bsz - k)%nat, digs k m)
          | _ :: _ => push 46 (bsz - k) (digs k m) end =
          ((bsz - k - if (k =? 0)%nat then 0 else 1)%nat,
           if (k =? 0)%nat then [] else 46 :: digs k m)) as Hdot.
  { pose proof (digs_length k m) as Hdl. destruct (digs k m) as [|c l] eqn:Hd.
    - simpl in Hdl. subst k. simpl. f_equal. lia.
    - simpl in Hdl. destruct (Nat.eqb_spec k 0); [lia|]. unfold push.
      destruct (bsz - k)%nat as [|r] eqn:Hr; [lia|]. f_equal. lia. }
  rewrite Hdot. set (tail := if (k =? 0)%nat then [] else 46 :: digs k m).
  set (room := (bsz - k - if (k =? 0)%nat then 0 else 1)%nat).
  assert (19 <= room)%nat as Hroom by (unfold room; destruct (k =? 0)%nat; lia).
  assert (tostr_zeros room 0 tail = (room, tail)) as -> by (destruct room; done).
  assert (bcdn (16 - k) w =? 0 = (w =? 0)) as ->.
  { destruct (Z.eqb_spec w 0) as [->|]; [by rewrite bcdn_0|]. apply Z.eqb_neq.
    intros H0. by apply (bcdn_zero _ _ Hw) in H0. }
  assert (ndig (16 - k) w = ndig 16 w) as Hnd.
  { assert (∀ a b x, (a <= b)%nat -> 0 <= x < 10 ^ Z.of_nat a -> ndig a x = ndig b x) as Hg.
    { induction a as [|a IH]; intros b x Hab Hx.
      - replace x with 0 by (simpl in Hx; lia). by destruct b.
      - destruct b as [|b]; [lia|]. cbn [ndig]. destruct (x =? 0); [done|].
        f_equal. apply IH; [lia|by apply div10_lt]. }
    apply Hg; [lia|done]. }
  unfold text. fold w. fold tail.
  assert (∃ r2, (if negb (w =? 0) then tostr_int room (bcdn (16 - k) w) tail
                 else push 48 room tail) =
    (r2, (if w =? 0 then [48] else digs (ndig 16 w) w) ++ tail) ∧ (0 < r2)%nat) as (r2 & -> & Hr2).
  { destruct (Z.eqb_spec w 0) as [_|_]; cbn [negb].
    - unfold push. destruct room as [|r]; [lia|]. exists r. split; [done|lia].
    - rewrite tostr_int_spec by (done || lia). rewrite Hnd. eexists. split; [done|].
      pose proof (ndig_le 16 w). lia. }
  destruct (s && negb (m =? 0)); cbn [Z.eqb negb]; [|done].
  unfold push. destruct r2; [lia|done].
Qed.

Lemma d64tostr_text s m k bsz :
  0 <= m < 10 ^ 15 -> (k <= 15)%nat -> (36 <= bsz)%nat ->
  d64tostr bsz (DFin s m (- Z.of_nat k)) = text s m k.
Proof.
  intros Hm Hk Hb. unfold d64tostr, bid64tostr. cbn [is_nan is_inf].
  destruct (accessors64 s m (- Z.of_nat k)) as (-> & -> & ->); [lia..|].
  rewrite bcd_encode_bcdn. apply bcd64tostr_text; [lia..|].
  by destruct s, (m =? 0).
Qed.

(** ** Reading *)

Lemma u_c d : 0 <= d < 10 -> U (C d) = d.
Proof. intros. unfold U, C, u8. replace (d + 48 - 48) with d by lia. apply Z.mod_small. lia. Qed.

Lemma is_digit_C d : 0 <= d < 10 -> is_digit (C d) = true.
Proof. intros. unfold is_digit, C. lia. Qed.

Lemma lor_nibble x d : 0 <= x -> 0 <= d < 10 -> Z.lor (x * 16) d = x * 16 + d.
Proof.
  intros Hx Hd. rewrite <- Z.lxor_lor; [by apply (lxor_disjoint d x 4); lia|].
  apply Z.bits_inj'. intros j Hj. rewrite Z.land_spec, Z.bits_0. change 16 with (2 ^ 4).
  destruct (Z.lt_ge_cases j 4).
  - by rewrite Z.mul_pow2_bits_low by lia.
  - rewrite <- (Z.mod_small d (2 ^ 4)) by lia. rewrite Z.mod_pow2_bits_high by lia.
    apply andb_false_r.
Qed.

Lemma take_digs j m rest acc nd :
  0 <= acc -> (acc + 1) * 16 ^ Z.of_nat j <= 2 ^ 60 ->
  take_digits (digs j m ++ rest) acc (j + nd) =
  take_digits rest (acc * 16 ^ Z.of_nat j + bcdn j m) nd.
Proof.
  revert m rest nd. induction j as [|j IH]; intros m rest nd Ha Hb.
  { simpl. f_equal. lia. }
  rewrite Nat2Z.inj_succ, Z.pow_succ_r in Hb by lia.
  assert (0 < 16 ^ Z.of_nat j) by (apply Z.pow_pos_nonneg; lia).
  cbn [digs bcdn]. rewrite <- app_assoc. replace (S j + nd)%nat with (j + S nd)%nat by lia.
  rewrite IH by (done || nia). cbn [app take_digits].
  pose proof (mod10_bound m). rewrite is_digit_C, u_c by done.
  pose proof (bcdn_bound j (m / 10)).
  rewrite Z.shiftl_mul_pow2 by lia. change (2 ^ 4) with 16. unfold u64.
  rewrite Z.mod_small by nia. rewrite lor_nibble by nia. f_equal.
  rewrite Nat2Z.inj_succ, Z.pow_succ_r by lia. ring.
Qed.

(** What follows a number in a line. *)
Definition ends_num (rest : list Z) : Prop := is_digit (peek rest) = false ∧ peek rest ≠ 46.

Lemma take_digits_stop sp acc nd :
  is_digit (peek sp) = false -> take_digits sp acc nd = (sp, acc, nd).
Proof. destruct sp as [|c sp]; [done|]. destruct nd; [done|]. simpl. by intros ->. Qed.

Lemma skip_digits_stop sp cnt : is_digit (peek sp) = false -> skip_digits sp cnt = (sp, cnt).
Proof. destruct sp as [|c sp]; [done|]. simpl. by intros ->. Qed.

Lemma upper_digit_no c : is_digit c = false -> is_upper_digit c = false.
Proof. unfold is_digit, is_upper_digit. lia. Qed.

Lemma bcdn_app j k m :
  bcdn k m + 16 ^ Z.of_nat k * bcdn j (m / 10 ^ Z.of_nat k) = bcdn (k + j) m.
Proof.
  revert m. induction k as [|k IH]; intros m.
  { rewrite Z.div_1_r. cbn [bcdn Nat.add]. change (16 ^ Z.of_nat 0) with 1. lia. }
  cbn [bcdn Nat.add]. rewrite <- IH, Nat2Z.inj_succ, !Z.pow_succ_r, Z.div_div by lia. ring.
Qed.

(** The first digit of a number is not zero. *)
Lemma digs_head j w rest :
  10 ^ Z.of_nat j <= w < 10 ^ Z.of_nat (S j) ->
  ∃ c l, digs (S j) w ++ rest = c :: l ∧ is_digit c = true ∧ c ≠ 48 ∧ c ≠ 45 ∧ c ≠ 43.
Proof.
  revert w rest. induction j as [|j IH]; intros w rest Hw.
  - simpl in Hw. simpl. assert (w mod 10 = w) as -> by (apply Z.mod_small; lia).
    exists (C w), rest. unfold C, is_digit. split_and!; [done|lia..].
  - assert (10 ^ Z.of_nat j <= w / 10 < 10 ^ Z.of_nat (S j)) as Hw'.
    { rewrite !Nat2Z.inj_succ, !Z.pow_succ_r in Hw by lia.
      rewrite Nat2Z.inj_succ, Z.pow_succ_r by lia.
      split; [apply Z.div_le_lower_bound; lia|apply Z.div_lt_upper_bound; lia]. }
    change (digs (S (S j)) w) with (digs (S j) (w / 10) ++ [C (w mod 10)]).
    rewrite <- app_assoc. apply IH, Hw'.
Qed.

Lemma skip_zeros_stop sp : peek sp ≠ 48 -> skip_zeros sp = sp.
Proof. destruct sp as [|c sp]; [done|]. simpl. intros. by destruct (Z.eqb_spec c 48). Qed.

(** The body that [strtobcd64] and [strtobcd32] share: at most [N] digits are
    picked up by [take]. *)
Definition read_text (take : list Z -> Z -> nat -> list Z * Z * nat)
    (round : Z -> Z -> option Z) (N : nat) (src : list Z) : option (Z * Z * Z * list Z) :=
  let '(sp, sgn) :=
    if peek src =? 45 then (tl src, 1)
    else if peek src =? 43 then (tl src, 0) else (src, 0) in
  let sp := skip_zeros sp in
  let '(sp, mant, nd) := take sp 0 N in
  let roff := Z.b2z (is_upper_digit (peek sp)) in
  let '(sp, expo) := skip_digits sp 0 in
  let '(sp, mant, expo, roff) :=
    if (peek sp =? 46) && (0 <? nd)%nat then
      let '(sp, mant, nd') := take (tl sp) mant nd in
      let roff := roff + Z.b2z (is_upper_digit (peek sp)) in
      ((skip_digits sp 0).1, mant, expo - Z.of_nat (nd - nd'), roff)
    else if peek sp =? 46 then
      let roff := roff + Z.b2z (is_upper_digit (peek sp)) in
      ((skip_digits (tl sp) 0).1, mant, expo, roff)
    else (sp, mant, expo, roff) in
  mant ← if negb (roff =? 0) then round mant (if sgn =? 0 then 1 else -1) else Some mant;
  Some (mant, expo, sgn, sp).

(** What [take] does with the digits of a number. *)
Definition takes (take : list Z -> Z -> nat -> list Z * Z * nat) (N : nat) : Prop :=
  (∀ j m rest acc nd, 0 <= acc -> (acc + 1) * 16 ^ Z.of_nat j <= 16 ^ Z.of_nat N ->
     take (digs j m ++ rest) acc (j + nd)%nat = take rest (acc * 16 ^ Z.of_nat j + bcdn j m) nd) ∧
  ∀ sp acc nd, is_digit (peek sp) = false -> take sp acc nd = (sp, acc, nd).

Section reading.
Variables (take : list Z -> Z -> nat -> list Z * Z * nat) (round : Z -> Z -> option Z) (N : nat).
Hypothesis Htake : takes take N.
Hypothesis HN : (N <= 15)%nat.
Variables (s : bool) (m : Z) (k : nat) (rest : list Z).
Hypothesis Hm : 0 <= m < 10 ^ Z.of_nat N.
Hypothesis Hk : (k <= N)%nat.
Hypothesis Hs : m = 0 -> s = false.
Hypothesis Hend : ends_num rest.

#[local] Set Default Proof Using "All".

Let w := m / 10 ^ Z.of_nat k.
Let a := ndig 16 w.
Let tail := (if (k =? 0)%nat then [] else 46 :: digs k m) ++ rest.

Lemma pow_k : 0 < 10 ^ Z.of_nat k.
Proof. apply Z.pow_pos_nonneg; lia. Qed.

Lemma w_bound : 0 <= w < 10 ^ Z.of_nat 16.
Proof.
  pose proof pow_k. unfold w. split; [apply Z.div_pos; lia|].
  apply Z.div_lt_upper_bound; [lia|].
  assert (10 ^ Z.of_nat N <= 10 ^ 15) by (apply Z.pow_le_mono_r; lia).
  change (10 ^ Z.of_nat 16) with (10 ^ 15 * 10). nia.
Qed.

Lemma a_k : (a + k <= N)%nat.
Proof.
  pose proof w_bound as Hw. pose proof pow_k as Hp.
  destruct (decide (w = 0)) as [Hz|Hnz].
  { unfold a. rewrite Hz. simpl. lia. }
  pose proof (ndig_lower 16 w ltac:(lia)) as Hl. fold a in Hl.
  destruct (decide (a + k <= N)%nat) as [|Hgt]; [done|exfalso].
  assert (10 ^ Z.of_nat N <= m); [|lia].
  assert (w * 10 ^ Z.of_nat k <= m) as Hwm.
  { unfold w. rewrite Z.mul_comm. apply Z.mul_div_le. lia. }
  assert (0 <= Z.of_nat a - 1).
  { destruct a eqn:Ha; [|lia]. unfold a in Ha. cbn [ndig] in Ha.
    destruct (Z.eqb_spec w 0); [done|lia]. }
  transitivity (10 ^ (Z.of_nat a - 1) * 10 ^ Z.of_nat k); [|nia].
  rewrite <- Z.pow_add_r by lia. apply Z.pow_le_mono_r; lia.
Qed.

Lemma tail_no_digit : is_digit (peek tail) = false.
Proof. unfold tail. destruct (k =? 0)%nat; simpl; [apply Hend|done]. Qed.

Lemma w_a : w < 10 ^ Z.of_nat a.
Proof. apply ndig_bound, w_bound. Qed.

(** The whole part, with its leading zero skipped. *)
Lemma skip_whole :
  skip_zeros ((if w =? 0 then [48] else digs a w) ++ tail) = digs a w ++ tail ∧
  peek ((if w =? 0 then [48] else digs a w) ++ tail) ≠ 45 ∧
  peek ((if w =? 0 then [48] else digs a w) ++ tail) ≠ 43.
Proof.
  destruct (Z.eqb_spec w 0) as [Hz|Hnz].
  - assert (a = 0%nat) as Ha by (unfold a; by rewrite Hz).
    rewrite Ha. simpl. split; [|done]. apply skip_zeros_stop. pose proof tail_no_digit as Hd.
    intros H48. by rewrite H48 in Hd.
  - pose proof w_bound as Hw. pose proof (ndig_lower 16 w ltac:(lia)) as Hl. fold a in Hl.
    pose proof w_a as Hu. destruct a as [|j] eqn:Ha; [simpl in Hu; lia|].
    destruct (digs_head j w tail) as (c & l & -> & Hc & H48 & H45 & H43).
    { split; [|done]. by replace (Z.of_nat j) with (Z.of_nat (S j) - 1) by lia. }
    simpl. by destruct (Z.eqb_spec c 48).
Qed.

Lemma read_text_run :
  read_text take round N (text s m k ++ rest) = Some (bcdn N m, - Z.of_nat k, Z.b2z s, rest).
Proof.
  destruct skip_whole as (Hskip & H45 & H43). pose proof a_k as Hak.
  pose proof w_a as Hwa. pose proof pow_k as Hpk.
  assert (text s m k ++ rest =
    (if s then [45] else []) ++ (if w =? 0 then [48] else digs a w) ++ tail) as ->.
  { unfold text. fold w. fold a. rewrite <- !app_assoc. f_equal.
    destruct s; [|done]. destruct (Z.eqb_spec m 0) as [H0|]; [|done]. by specialize (Hs H0). }
  unfold read_text. destruct Htake as [Hdigs Hstop].
  assert ((if peek ((if s then [45] else []) ++ (if w =? 0 then [48] else digs a w) ++ tail) =? 45
           then (tl ((if s then [45] else []) ++ (if w =? 0 then [48] else digs a w) ++ tail), 1)
           else if peek ((if s then [45] else []) ++ (if w =? 0 then [48] else digs a w) ++ tail) =? 43
           then (tl ((if s then [45] else []) ++ (if w =? 0 then [48] else digs a w) ++ tail), 0)
           else ((if s then [45] else []) ++ (if w =? 0 then [48] else digs a w) ++ tail, 0)) =
          ((if w =? 0 then [48] else digs a w) ++ tail, Z.b2z s)) as ->.
  { destruct s; [done|]. rewrite app_nil_l.
    destruct (Z.eqb_spec (peek ((if w =? 0 then [48] else digs a w) ++ tail)) 45); [done|].
    by destruct (Z.eqb_spec (peek ((if w =? 0 then [48] else digs a w) ++ tail)) 43). }
  rewrite Hskip. replace N with (a + (N - a))%nat at 1 by lia.
  assert (16 ^ Z.of_nat a <= 16 ^ Z.of_nat N) by (apply Z.pow_le_mono_r; lia).
  rewrite Hdigs, Z.mul_0_l, Z.add_0_l by lia.
  pose proof tail_no_digit as Hnd. rewrite Hstop by done.
  rewrite upper_digit_no, skip_digits_stop by done. cbn [Z.b2z].
  destruct Hend as [He1 He2]. unfold tail in *. destruct (Nat.eqb_spec k 0) as [Hk0|Hk0].
  - rewrite app_nil_l. destruct (Z.eqb_spec (peek rest) 46) as [?|_]; [done|].
    cbn [andb]. change (negb (0 =? 0)) with false. cbv iota. bstep.
    assert (w = m) as Hwm by (unfold w; rewrite Hk0; apply Z.div_1_r).
    replace (- Z.of_nat k) with 0 by lia. do 4 f_equal. rewrite Hwm, <- (bcdn_ext a N m); [done|lia|].
    split; [lia|]. by rewrite <- Hwm at 1.
  - cbn [app peek hd]. change (46 =? 46) with true.
    destruct (Nat.ltb_spec 0 (N - a)) as [_|?]; [|lia]. cbn [andb tl].
    replace (N - a)%nat with (k + (N - a - k))%nat by lia.
    pose proof (bcdn_bound a w) as Hbw.
    assert (16 ^ Z.of_nat a * 16 ^ Z.of_nat k <= 16 ^ Z.of_nat N).
    { rewrite <- Z.pow_add_r by lia. apply Z.pow_le_mono_r; lia. }
    assert (0 < 16 ^ Z.of_nat k) by (apply Z.pow_pos_nonneg; lia).
    rewrite Hdigs by nia. rewrite Hstop, upper_digit_no, skip_digits_stop by done.
    cbn [Z.b2z fst]. change (negb (0 + 0 =? 0)) with false. cbv iota. bstep.
    replace (0 - _) with (- Z.of_nat k) by lia. do 4 f_equal.
    rewrite Z.mul_comm, Z.add_comm. unfold w. rewrite bcdn_app.
    rewrite <- (bcdn_ext (k + a) N m); [done|lia|]. split; [lia|].
    rewrite Nat2Z.inj_add, Z.pow_add_r by lia.
    pose proof (Z.mul_succ_div_gt m (10 ^ Z.of_nat k) ltac:(lia)) as Hgt.
    change (m / 10 ^ Z.of_nat k) with w in Hgt. nia.
Qed.
End reading.

Lemma takes64 : takes take_digits 15.
Proof. split; [apply take_digs|apply take_digits_stop]. Qed.

Lemma strtobcd64_read src :
  strtobcd64 src =
  '(m, e, s, sp) ← read_text take_digits round_bcd64 15 src; Some (mk_bcd64 m e s, sp).
Proof.
  unfold strtobcd64, read_text. repeat case_match; simplify_eq; bstep; try done;
    by destruct (round_bcd64 _ _).
Qed.

(** ** From nibbles back to a coefficient *)

(** [swap_fields] on bits. *)
Definition swap_bits (hi lo w : Z) (f : Z -> bool) (j : Z) : bool :=
  xorb (Z.testbit hi (j + w) && f (j + w)) ((w <=? j) && (Z.testbit lo (j - w) && f (j - w))).

Lemma swap_fields_testbit hi lo w b f j :
  0 <= w -> (∀ x, 0 <= x -> Z.testbit b x = f x) -> 0 <= j ->
  Z.testbit (swap_fields hi lo w b) j = swap_bits hi lo w f j.
Proof.
  intros Hw Hf Hj. unfold swap_fields, swap_bits.
  rewrite Z.lxor_spec, Z.shiftr_spec, Z.shiftl_spec, Z.land_spec, Hf, andb_comm by lia. f_equal.
  destruct (Z.leb_spec w j); [|by rewrite Z.testbit_neg_r by lia].
  by rewrite Z.land_spec, Hf, andb_comm by lia.
Qed.

Definition mirror_bits (f : Z -> bool) : Z -> bool :=
  swap_bits 0xf0f0f0f0f0f0f0f0 0x0f0f0f0f0f0f0f0f 4
    (swap_bits 0xff00ff00ff00ff00 0x00ff00ff00ff00ff 8
      (swap_bits 0xffff0000ffff0000 0x0000ffff0000ffff 16
        (swap_bits 0xffffffff00000000 0x00000000ffffffff 32 f))).

Lemma mirror_bits_spec f j :
  (j < 64)%nat -> mirror_bits f (Z.of_nat j) = f (60 - 4 * (Z.of_nat j / 4) + Z.of_nat j mod 4).
Proof.
  intros Hj.
  do 64 (destruct j as [|j];
    [vm_compute; match goal with |- context [f ?n] => destruct (f n) end; reflexivity|]).
  lia.
Qed.

(** [mirror64] reverses the nibbles. *)
Lemma mirror64_testbit b j :
  (j < 64)%nat ->
  Z.testbit (mirror64 b) (Z.of_nat j) = Z.testbit b (60 - 4 * (Z.of_nat j / 4) + Z.of_nat j mod 4).
Proof.
  intros Hj. rewrite <- (mirror_bits_spec (Z.testbit b)) by done. unfold mirror64, mirror_bits.
  do 4 (apply swap_fields_testbit; [lia|intros ? ?|try done; lia]). done.
Qed.

(** The [i]-th nibble. *)
Definition nib (b : Z) (i : nat) : Z := Z.land (Z.shiftr b (4 * Z.of_nat i)) 0xf.

Lemma nib_testbit b i j : 0 <= j -> Z.testbit (nib b i) j = (j <? 4) && Z.testbit b (4 * Z.of_nat i + j).
Proof.
  intros Hj. unfold nib. change 0xf with (Z.ones 4). rewrite Z.land_spec, Z.shiftr_spec by lia.
  rewrite Z.testbit_ones by lia. replace (j + 4 * Z.of_nat i) with (4 * Z.of_nat i + j) by lia.
  rewrite andb_comm. f_equal. lia.
Qed.

Lemma nib_mirror b i : (i < 16)%nat -> nib (mirror64 b) i = nib b (15 - i).
Proof.
  intros Hi. apply Z.bits_inj'. intros j Hj. rewrite !nib_testbit by done.
  destruct (Z.ltb_spec j 4); [|done]. cbn [andb].
  replace (4 * Z.of_nat i + j) with (Z.of_nat (4 * i + Z.to_nat j)) by lia.
  rewrite mirror64_testbit by lia. f_equal.
  replace (Z.of_nat (4 * i + Z.to_nat j)) with (j + Z.of_nat i * 4) by lia.
  rewrite Z.div_add, Z.div_small, Z_mod_plus_full, Z.mod_small by lia. lia.
Qed.

Lemma nib_bcdn n i m : (i < n)%nat -> nib (bcdn n m) i = m / 10 ^ Z.of_nat i mod 10.
Proof.
  revert n m. induction i as [|i IH]; intros [|n] m Hi; [lia| |lia|].
  - unfold nib. rewrite Z.shiftr_0_r, bcdn_low, Z.div_1_r. done.
  - unfold nib. replace (4 * Z.of_nat (S i)) with (4 + 4 * Z.of_nat i) by lia.
    rewrite <- Z.shiftr_shiftr, bcdn_shift by lia.
    specialize (IH n (m / 10) ltac:(lia)). unfold nib in IH. rewrite IH.
    rewrite Z.div_div, <- Z.pow_succ_r, <- Nat2Z.inj_succ by lia. done.
Qed.

(** Accumulating digits, most significant first. *)
Lemma bcd_accum_spec cnt b m :
  0 <= m < 10 ^ 15 ->
  (∀ i, (i < cnt)%nat -> nib b i = m / 10 ^ Z.of_nat (cnt - 1 - i) mod 10) ->
  bcd_accum cnt b (m / 10 ^ Z.of_nat cnt) = m.
Proof.
  intros Hm. revert b. induction cnt as [|cnt IH]; intros b Hn.
  { simpl. by rewrite Z.div_1_r. }
  cbn [bcd_accum].
  assert (Z.land b 0xf = m / 10 ^ Z.of_nat cnt mod 10) as ->.
  { specialize (Hn 0%nat ltac:(lia)). unfold nib in Hn. rewrite Z.shiftr_0_r in Hn.
    by replace (S cnt - 1 - 0)%nat with cnt in Hn by lia. }
  assert (0 < 10 ^ Z.of_nat cnt) by (apply Z.pow_pos_nonneg; lia).
  assert (0 <= m / 10 ^ Z.of_nat cnt <= m) as Hq.
  { split; [apply Z.div_pos; lia|]. apply Z.div_le_upper_bound; nia. }
  assert (m / 10 ^ Z.of_nat (S cnt) = m / 10 ^ Z.of_nat cnt / 10) as ->.
  { rewrite Nat2Z.inj_succ, Z.pow_succ_r, Z.div_div by lia. f_equal. lia. }
  pose proof (Z.div_mod (m / 10 ^ Z.of_nat cnt) 10 ltac:(lia)) as Hdm.
  pose proof (mod10_bound (m / 10 ^ Z.of_nat cnt)).
  unfold u64. rewrite (Z.mod_small (_ * 10) (2 ^ 64)), (Z.mod_small (_ + _) (2 ^ 64)) by lia.
  replace (m / 10 ^ Z.of_nat cnt / 10 * 10 + m / 10 ^ Z.of_nat cnt mod 10)
    with (m / 10 ^ Z.of_nat cnt) by lia.
  apply IH. intros i Hi. specialize (Hn (S i) ltac:(lia)).
  replace (S cnt - 1 - S i)%nat with (cnt - 1 - i)%nat in Hn by lia. rewrite <- Hn.
  unfold nib. rewrite Z.shiftr_shiftr by lia. do 2 f_equal. lia.
Qed.

Lemma bcd64tobid_bcdn s m e :
  0 <= m < 10 ^ 15 -> -398 <= e <= 369 ->
  bcd64tobid (mk_bcd64 (bcdn 15 m) e (Z.b2z s)) = DFin s m e.
Proof.
  intros Hm He. unfold bcd64tobid. cbn [mant expo sign].
  assert (bcd_accum 15 (Z.shiftr (mirror64 (bcdn 15 m)) 4) 0 = m) as ->.
  { pose proof (bcd_accum_spec 15 (Z.shiftr (mirror64 (bcdn 15 m)) 4) m Hm) as Ha.
    rewrite (Z.div_small m (10 ^ Z.of_nat 15)) in Ha by done. apply Ha.
    intros i Hi. unfold nib. rewrite Z.shiftr_shiftr by lia.
    replace (4 + 4 * Z.of_nat i) with (4 * Z.of_nat (S i)) by lia.
    fold (nib (mirror64 (bcdn 15 m)) (S i)). rewrite nib_mirror, nib_bcdn by lia.
    done. }
  unfold u64. rewrite (Z.mod_small (e + 398)) by lia.
  rewrite (Z.mod_small (Z.b2z s)) by (destruct s; simpl; lia).
  rewrite assemble64_run by lia. f_equal; [by destruct s|lia].
Qed.

(** C33: a price printed with [d64tostr] and read back with [strtod64] is the same
    value, with the same number of decimals, and reading stops right behind it: for
    all coefficients of up to 15 digits and up to 15 decimals. *)
Theorem d64tostr_roundtrip s m k bsz rest :
  0 <= m < 10 ^ 15 -> (k <= 15)%nat -> (m = 0 -> s = false) -> (36 <= bsz)%nat ->
  ends_num rest ->
  strtod64 (d64tostr bsz (DFin s m (- Z.of_nat k)) ++ rest) =
    Some (DFin s m (- Z.of_nat k), rest).
Proof.
  intros Hm Hk Hs Hb He. rewrite d64tostr_text by done. unfold strtod64, strtobid64.
  rewrite strtobcd64_read.
  rewrite (read_text_run _ round_bcd64 15 takes64) by (done || lia). bstep.
  by rewrite bcd64tobid_bcdn by lia.
Qed.

Lemma d64tostr_roundtrip_witness :
  strtod64 (d64tostr 64 (DFin true 100205 (-4)) ++ [9; 49]) = Some (DFin true 100205 (-4), [9; 49]).
Proof.
  apply (d64tostr_roundtrip true 100205 4 64 [9; 49]); [lia..|discriminate|lia|].
  split; [reflexivity|discriminate].
Defined.
