(* ===== verification/Dfp754Dpd.v ===== *)
(** * dfp754_d64.c: decimals in declets

    The DPD words: what [bcd64todpd] puts together, the accessors take apart; a price
    that is read into a word is printed as the same text. *)

From Stdlib Require Import ZArith Lia.
From stdpp Require Import prelude list.
From stdpp Require Import options.
From S2P Require Import Prelude Decimal DecimalBits Dfp754D64 Dfp754Spec Dfp754Print.

Local Open Scope Z_scope.

(** ** Declets of a coefficient *)

Lemma bcdn3 v : 0 <= v -> bcdn 3 v = bcd3 (Z.to_nat (v mod 1000)).
Proof.
  intros Hv. pose proof (Z.mod_pos_bound v 1000 ltac:(lia)) as Hb. unfold bcd3.
  rewrite !Nat2Z.inj_mod, !Nat2Z.inj_div, Z2Nat.id by lia. cbn [bcdn].
  change (Z.of_nat 10) with 10. change (Z.of_nat 100) with 100.
  rewrite Z.div_div by lia. change (10 * 10) with 100.
  Z.div_mod_to_equations. lia.
Qed.

Definition declet (v : Z) : Z := pack_declet (bcdn 3 v).

Lemma declet_ok v : 0 <= v -> 0 <= declet v < 1024 ∧ unpack_declet (declet v) = bcdn 3 v.
Proof.
  intros Hv. unfold declet. rewrite bcdn3 by done. pose proof (Z.mod_pos_bound v 1000 ltac:(lia)).
  apply declet_roundtrip. lia.
Qed.

Lemma bcdn_land j v : Z.land (bcdn (3 + j) v) 0xfff = bcdn 3 v.
Proof.
  change 0xfff with (Z.ones 12). rewrite Z.land_ones, <- bcdn_app by lia.
  change (16 ^ Z.of_nat 3) with (2 ^ 12). rewrite Z.mul_comm, Z.mod_add by lia.
  apply Z.mod_small, (bcdn_bound 3).
Qed.

Lemma bcdn_shiftr j v : Z.shiftr (bcdn (3 + j) v) 12 = bcdn j (v / 1000).
Proof.
  rewrite Z.shiftr_div_pow2, <- bcdn_app by lia. change (16 ^ Z.of_nat 3) with (2 ^ 12).
  rewrite Z.mul_comm, Z.div_add, (Z.div_small (bcdn 3 v)) by (lia || apply (bcdn_bound 3)). done.
Qed.

Lemma bcdn_lead v : 0 <= v < 8 * 10 ^ 15 -> bcdn 1 (v / 1000 / 1000 / 1000 / 1000 / 1000) = v / 10 ^ 15.
Proof.
  intros Hv. cbn [bcdn]. rewrite !Z.div_div by lia. change (1000 * (1000 * (1000 * (1000 * 1000)))) with (10 ^ 15).
  assert (0 <= v / 10 ^ 15 < 8) by (split; [apply Z.div_pos; lia|apply Z.div_lt_upper_bound; lia]).
  rewrite Z.mod_small; lia.
Qed.

(** ** Fields of a word *)

(** Sign, the exponent's two high bits, the leading digit, the rest of the
    exponent. *)
Definition head_word (S h t l : Z) : Z := ((S * 4 + h) * 8 + t) * 256 + l.

(** Five declets. *)
Definition tail_word (v : Z) : Z :=
  (((declet (v / 1000 / 1000 / 1000 / 1000) * 1024 + declet (v / 1000 / 1000 / 1000)) * 1024 +
    declet (v / 1000 / 1000)) * 1024 + declet (v / 1000)) * 1024 + declet v.

Definition dpd_word (S h t l v : Z) : Z := head_word S h t l * 2 ^ 50 + tail_word v.

Lemma tail_bound v : 0 <= v -> 0 <= tail_word v < 2 ^ 50.
Proof.
  intros Hv. unfold tail_word. assert (∀ w, 0 <= w -> 0 <= w / 1000) as Hd by (intros; apply Z.div_pos; lia).
  pose proof (proj1 (declet_ok v Hv)). pose proof (proj1 (declet_ok _ (Hd _ Hv))).
  pose proof (proj1 (declet_ok _ (Hd _ (Hd _ Hv)))). pose proof (proj1 (declet_ok _ (Hd _ (Hd _ (Hd _ Hv))))).
  pose proof (proj1 (declet_ok _ (Hd _ (Hd _ (Hd _ (Hd _ Hv)))))). change (2 ^ 50) with (1024 * 1024 * 1024 * 1024 * 1024). lia.
Qed.

(** One more field below. *)
Lemma horner a b k : 0 <= k -> 0 <= a -> 0 <= b < 2 ^ k -> a * 2 ^ k + b = Z.lxor (Z.shiftl a k) b.
Proof. intros. rewrite Z.shiftl_mul_pow2 by done. by rewrite lxor_disjoint. Qed.

(** The fields as the code puts them together. *)
Lemma word_xor S h t l d4 d3 d2 d1 d0 :
  0 <= S -> 0 <= h < 4 -> 0 <= t < 8 -> 0 <= l < 256 ->
  0 <= d4 < 1024 -> 0 <= d3 < 1024 -> 0 <= d2 < 1024 -> 0 <= d1 < 1024 -> 0 <= d0 < 1024 ->
  head_word S h t l * 2 ^ 50 + ((((d4 * 1024 + d3) * 1024 + d2) * 1024 + d1) * 1024 + d0) =
  Z.lxor (Z.lxor (Z.lxor (Z.lxor (Z.lxor (Z.lxor (Z.lxor (Z.shiftl S 63) d0) (Z.shiftl d1 10)) (Z.shiftl d2 20))
    (Z.shiftl d3 30)) (Z.shiftl d4 40)) (Z.shiftl (Z.lxor (Z.shiftl h 11) l) 50)) (Z.shiftl t 58).
Proof.
  intros HS Hh Ht Hl H4 H3 H2 H1 H0. unfold head_word.
  assert (∀ a b, 0 <= a -> 0 <= b < 1024 -> a * 1024 + b = Z.lxor (Z.shiftl a 10) b) as E by (intros; by apply (horner a b 10)).
  pose proof (horner (((S * 4 + h) * 8 + t) * 256 + l) ((((d4 * 1024 + d3) * 1024 + d2) * 1024 + d1) * 1024 + d0) 50) as ->;
    [|lia..|change (2 ^ 50) with (1024 * 1024 * 1024 * 1024 * 1024); lia].
  pose proof (horner ((S * 4 + h) * 8 + t) l 8 ltac:(lia) ltac:(lia) Hl) as E1. change (2 ^ 8) with 256 in E1.
  pose proof (horner (S * 4 + h) t 3 ltac:(lia) ltac:(lia) Ht) as E2. change (2 ^ 3) with 8 in E2.
  pose proof (horner S h 2 ltac:(lia) ltac:(lia) Hh) as E3. change (2 ^ 2) with 4 in E3.
  rewrite E1, E2, E3, (E _ d0), (E _ d1), (E _ d2), (E d4 d3) by lia.
  rewrite !Z.shiftl_lxor, !Z.shiftl_shiftl by lia.
  repeat match goal with |- context [Z.shiftl ?a (?x + ?y)] =>
    let z := eval vm_compute in (x + y) in change (Z.shiftl a (x + y)) with (Z.shiftl a z) end.
  apply Z.bits_inj'. intros j _. rewrite !Z.lxor_spec.
  repeat match goal with |- context [Z.testbit ?a ?b] => generalize (Z.testbit a b) end.
  intros [] [] [] [] [] [] [] [] []; reflexivity.
Qed.

(** The exponent's bits, checked one by one. *)
Definition exp_ok (x : Z) : bool :=
  (Z.lxor (Z.shiftl (Z.land x 0x300) 3) (Z.land x 0xff) =? Z.lxor (Z.shiftl (x / 256) 11) (x mod 256)) &&
  (0 <=? Z.lxor (Z.shiftl (x / 256) 11) (x mod 256)) && (Z.lxor (Z.shiftl (x / 256) 11) (x mod 256) <? 2 ^ 13).

Lemma exp_fields x :
  0 <= x < 768 ->
  Z.lxor (Z.shiftl (Z.land x 0x300) 3) (Z.land x 0xff) = Z.lxor (Z.shiftl (x / 256) 11) (x mod 256) ∧
  0 <= Z.lxor (Z.shiftl (x / 256) 11) (x mod 256) < 2 ^ 13.
Proof.
  intros Hx. assert (forallb (λ n, exp_ok (Z.of_nat n)) (seq 0 768) = true) as Hall by (vm_compute; reflexivity).
  rewrite forallb_forall in Hall. specialize (Hall (Z.to_nat x)). rewrite in_seq, Z2Nat.id in Hall by lia.
  specialize (Hall ltac:(lia)). unfold exp_ok in Hall. lia.
Qed.

(** A coefficient of 16 digits, the first up to 7, goes into these fields. *)
Lemma bcd64todpd_word s m e :
  0 <= m < 8 * 10 ^ 15 -> -398 <= e <= 369 ->
  bcd64todpd (mk_bcd64 (bcdn 16 m) e (Z.b2z s)) =
  dpd_word (Z.b2z s) ((e + 398) / 256) (m / 10 ^ 15) ((e + 398) mod 256) m.
Proof.
  intros Hm He. unfold bcd64todpd. cbn [mant expo sign].
  rewrite (bcdn_shiftr 13), (bcdn_land 13), (bcdn_shiftr 10), (bcdn_land 10), (bcdn_shiftr 7), (bcdn_land 7),
    (bcdn_shiftr 4), (bcdn_land 4), (bcdn_shiftr 1), (bcdn_land 1). cbv zeta.
  fold (declet m) (declet (m / 1000)) (declet (m / 1000 / 1000)) (declet (m / 1000 / 1000 / 1000))
    (declet (m / 1000 / 1000 / 1000 / 1000)).
  rewrite bcdn_lead by done.
  assert (0 <= m / 10 ^ 15 < 8) as Ht by (split; [apply Z.div_pos; lia|apply Z.div_lt_upper_bound; lia]).
  rewrite (proj2 (Z.leb_gt _ _)) by lia. change 7 with (Z.ones 3). rewrite (Z.land_ones (m / 10 ^ 15)), (Z.mod_small _ (2 ^ 3)) by lia.
  unfold u32. rewrite (Z.mod_small (e + 398)) by lia. destruct (exp_fields (e + 398)) as [-> Hx]; [lia|].
  set (r := Z.lxor (Z.shiftl ((e + 398) / 256) 11) _) in *.
  assert (u64 (Z.shiftl r 50) = Z.shiftl r 50) as ->.
  { unfold u64. rewrite Z.shiftl_mul_pow2 by lia. apply Z.mod_small. lia. }
  assert (u64 (Z.shiftl (u64 (Z.b2z s)) 63) = Z.shiftl (Z.b2z s) 63) as -> by (by destruct s).
  unfold dpd_word, tail_word, r. rewrite word_xor; [done|..].
  - by destruct s.
  - split; [apply Z.div_pos; lia|apply Z.div_lt_upper_bound; lia].
  - done.
  - apply Z.mod_pos_bound. lia.
  - apply declet_ok. do 4 (apply Z.div_pos; [|lia]). lia.
  - apply declet_ok. do 3 (apply Z.div_pos; [|lia]). lia.
  - apply declet_ok. do 2 (apply Z.div_pos; [|lia]). lia.
  - apply declet_ok. apply Z.div_pos; lia.
  - apply declet_ok. lia.
Qed.

(** ** Taking a word apart *)

(** What the accessors see in the upper 14 bits, checked one by one; words
    with both of the two high exponent bits set are left out. *)
Definition head_ok (b : Z) : bool :=
  (b / 2048 mod 4 =? 3) ||
  negb (Z.land (Z.shiftr b 8) 0x18 =? 0x18) && (Z.land (Z.shiftr b 8) 7 =? b / 256 mod 8) &&
  negb (Z.land b 0x1800 =? 0x1800) &&
  (Z.lor (Z.shiftr (Z.land b 0x1800) 3) (Z.land b 0xff) =? b / 2048 mod 4 * 256 + b mod 256) &&
  Bool.eqb (Z.testbit b 13) (8192 <=? b).

Lemma head_checked b : 0 <= b < 2 ^ 14 -> head_ok b = true.
Proof.
  intros Hb. assert (forallb (λ n, head_ok (Z.of_nat n)) (seq 0 (Z.to_nat (2 ^ 14))) = true) as Hall
    by (vm_compute; reflexivity).
  rewrite forallb_forall in Hall. specialize (Hall (Z.to_nat b)). rewrite in_seq, Z2Nat.id in Hall by lia.
  apply Hall. lia.
Qed.

Lemma dpd_accessors (s : bool) h t l v :
  0 <= h < 3 -> 0 <= t < 8 -> 0 <= l < 256 -> 0 <= v ->
  let x := dpd_word (Z.b2z s) h t l v in
  mant_dpd64 x = t * 2 ^ 50 + tail_word v ∧ sign_dpd64 x = (if s then -1 else 0) ∧
  (h * 256 + l ≠ 0 -> quantexpdpd64 x = h * 256 + l - 398) ∧ 0 <= x < 2 ^ 64.
Proof.
  intros Hh Ht Hl Hv x. pose proof (tail_bound v Hv) as Hb. unfold x, dpd_word. clear x.
  set (hd := head_word (Z.b2z s) h t l). assert (hd = Z.b2z s * 8192 + h * 2048 + t * 256 + l) as Hhd
    by (unfold hd, head_word; lia).
  assert (0 <= hd < 2 ^ 14) as Hhb by (destruct s; cbn [Z.b2z] in Hhd; lia).
  assert (hd / 2048 mod 4 = h ∧ hd / 256 mod 8 = t ∧ hd mod 256 = l) as (E1 & E2 & E3).
  { clear -Hhd Hh Ht Hl. destruct s; cbn [Z.b2z] in Hhd; split_and!; Z.div_mod_to_equations; lia. }
  pose proof (head_checked hd Hhb) as Hok. unfold head_ok in Hok. rewrite E1, E2, E3 in Hok.
  rewrite (proj2 (Z.eqb_neq h 3)) in Hok by lia. cbn [orb] in Hok.
  apply andb_true_iff in Hok as [[[[Hlo Htop]%andb_true_iff Hlx]%andb_true_iff Hex]%andb_true_iff Hsg].
  assert (Z.shiftr (hd * 2 ^ 50 + tail_word v) 50 = hd) as Hs50.
  { rewrite Z.shiftr_div_pow2, Z.div_add_l, Z.div_small by lia. lia. }
  split_and!; [| | |lia|nia].
  - unfold mant_dpd64. replace 58 with (50 + 8) by lia. rewrite <- Z.shiftr_shiftr, Hs50 by lia.
    apply negb_true_iff in Hlo. rewrite Hlo. apply Z.eqb_eq in Htop. rewrite Htop.
    change 0x3ffffffffffff with (Z.ones 50). rewrite Z.land_ones, Z.add_comm, Z.mod_add, Z.mod_small by lia.
    rewrite Z.lxor_comm. symmetry. apply horner; lia.
  - unfold sign_dpd64. change 63 with (13 + 50). rewrite <- Z.shiftr_spec, Hs50 by lia.
    apply Bool.eqb_prop in Hsg. rewrite Hsg. destruct s; cbn [Z.b2z] in Hhd.
    + by rewrite (proj2 (Z.leb_le _ _)) by lia.
    + by rewrite (proj2 (Z.leb_gt _ _)) by lia.
  - intros Hnz. unfold quantexpdpd64. rewrite Hs50, (proj2 (Z.eqb_neq _ _)) by lia. cbv zeta.
    rewrite Hlx. apply Z.eqb_eq in Hex. lia.
Qed.

(** One declet of a word. *)
Lemma word_field a b : 0 <= b < 1024 -> Z.land (a * 1024 + b) 0x3ff = b ∧ Z.shiftr (a * 1024 + b) 10 = a.
Proof.
  intros Hb. change 0x3ff with (Z.ones 10). rewrite Z.land_ones, Z.shiftr_div_pow2 by lia. change (2 ^ 10) with 1024.
  split; Z.div_mod_to_equations; lia.
Qed.

Lemma word_fields t d4 d3 d2 d1 d0 :
  0 <= d4 < 1024 -> 0 <= d3 < 1024 -> 0 <= d2 < 1024 -> 0 <= d1 < 1024 -> 0 <= d0 < 1024 ->
  let m := t * 2 ^ 50 + ((((d4 * 1024 + d3) * 1024 + d2) * 1024 + d1) * 1024 + d0) in
  Z.land (Z.shiftr m 40) 0x3ff = d4 ∧ Z.land (Z.shiftr m 30) 0x3ff = d3 ∧ Z.land (Z.shiftr m 20) 0x3ff = d2 ∧
  Z.land (Z.shiftr m 10) 0x3ff = d1 ∧ Z.land (Z.shiftr m 0) 0x3ff = d0.
Proof.
  intros H4 H3 H2 H1 H0 m.
  assert (m = ((((t * 1024 + d4) * 1024 + d3) * 1024 + d2) * 1024 + d1) * 1024 + d0) as ->
    by (unfold m; change (2 ^ 50) with (1024 * 1024 * 1024 * 1024 * 1024); lia).
  assert (∀ a b k, 0 <= b < 1024 -> 0 <= k -> Z.shiftr (a * 1024 + b) (10 + k) = Z.shiftr a k) as Hs
    by (intros a b k Hb Hk; by rewrite <- Z.shiftr_shiftr, (proj2 (word_field a b Hb)) by lia).
  split_and!.
  - rewrite (Hs _ d0 30), (Hs _ d1 20), (Hs _ d2 10), (Hs _ d3 0) by lia. by apply word_field.
  - rewrite (Hs _ d0 20), (Hs _ d1 10), (Hs _ d2 0) by lia. by apply word_field.
  - rewrite (Hs _ d0 10), (Hs _ d1 0) by lia. by apply word_field.
  - rewrite (Hs _ d0 0) by lia. by apply word_field.
  - by apply word_field.
Qed.

(** One more declet unpacked. *)
Lemma unpack_step a w :
  0 <= a < 2 ^ 52 -> 0 <= w -> Z.lxor (u64 (Z.shiftl a 12)) (unpack_declet (declet w)) = a * 4096 + bcdn 3 w.
Proof.
  intros Ha Hw. rewrite (proj2 (declet_ok w Hw)). unfold u64.
  rewrite Z.shiftl_mul_pow2, Z.mod_small by lia. apply (lxor_disjoint _ a 12); [lia|exact (bcdn_bound 3 w)|lia].
Qed.

Lemma bcdn_top j v : bcdn (3 + j) v = bcdn j (v / 1000) * 4096 + bcdn 3 v.
Proof. rewrite <- bcdn_app. change (16 ^ Z.of_nat 3) with 4096. change (10 ^ Z.of_nat 3) with 1000. lia. Qed.

(** The five declets and the leading digit unpacked: the digits again. *)
Lemma unpack_tail v :
  0 <= v < 8 * 10 ^ 15 ->
  unpack_declets64 (Z.shiftl (v / 10 ^ 15) 12) (v / 10 ^ 15 * 2 ^ 50 + tail_word v) = bcdn 16 v.
Proof.
  intros Hv. assert (∀ w, 0 <= w -> 0 <= w / 1000) as Hd by (intros; apply Z.div_pos; lia).
  assert (0 <= v / 10 ^ 15 < 8) as Ht by (split; [apply Z.div_pos; lia|apply Z.div_lt_upper_bound; lia]).
  pose proof (bcdn_lead v Hv) as Hlead.
  unfold tail_word. set (t := v / 10 ^ 15) in *.
  set (v1 := v / 1000) in *. set (v2 := v1 / 1000) in *. set (v3 := v2 / 1000) in *. set (v4 := v3 / 1000) in *.
  assert (0 <= v1 ∧ 0 <= v2 ∧ 0 <= v3 ∧ 0 <= v4) as (H1 & H2 & H3 & H4) by (unfold v4, v3, v2, v1; auto 10 with lia).
  unfold unpack_declets64. cbv zeta.
  destruct (word_fields t (declet v4) (declet v3) (declet v2) (declet v1) (declet v)) as (-> & -> & -> & -> & ->);
    [by apply declet_ok..|apply declet_ok; lia|].
  assert (Z.shiftl t 12 = u64 (Z.shiftl t 12)) as ->.
  { unfold u64. rewrite Z.shiftl_mul_pow2, Z.mod_small by lia. done. }
  pose proof (bcdn_bound 3 v4). pose proof (bcdn_bound 3 v3). pose proof (bcdn_bound 3 v2). pose proof (bcdn_bound 3 v1).
  change (16 ^ Z.of_nat 3) with 4096 in *.
  rewrite (unpack_step t v4), (unpack_step _ v3), (unpack_step _ v2), (unpack_step _ v1), (unpack_step _ v)
    by (change (2 ^ 52) with (16 * 4096 * 4096 * 4096 * 4096); lia).
  assert (bcdn 16 v = bcdn 13 v1 * 4096 + bcdn 3 v) as -> by exact (bcdn_top 13 v).
  assert (bcdn 13 v1 = bcdn 10 v2 * 4096 + bcdn 3 v1) as -> by exact (bcdn_top 10 v1).
  assert (bcdn 10 v2 = bcdn 7 v3 * 4096 + bcdn 3 v2) as -> by exact (bcdn_top 7 v2).
  assert (bcdn 7 v3 = bcdn 4 v4 * 4096 + bcdn 3 v3) as -> by exact (bcdn_top 4 v3).
  assert (bcdn 4 v4 = bcdn 1 (v4 / 1000) * 4096 + bcdn 3 v4) as -> by exact (bcdn_top 1 v4).
  by rewrite Hlead.
Qed.

(** ** Round trips *)

(** A word put together from 16 digits, the first up to 7, has the sign, the
    exponent and the digits; the least exponent is read as 0. *)
Lemma bcd64todpd_read s m e :
  0 <= m < 8 * 10 ^ 15 -> -398 < e <= 369 ->
  let x := bcd64todpd (mk_bcd64 (bcdn 16 m) e (Z.b2z s)) in
  let u := mant_dpd64 x in
  0 <= x < 2 ^ 64 ∧ sign_dpd64 x = (if s then -1 else 0) ∧ quantexpdpd64 x = e ∧
  unpack_declets64 (Z.shiftl (Z.shiftr u 50) 12) u = bcdn 16 m ∧ (u = 0 -> m = 0).
Proof.
  intros Hm He x u. unfold u, x. rewrite bcd64todpd_word by lia.
  assert (0 <= m / 10 ^ 15 < 8) as Ht by (split; [apply Z.div_pos; lia|apply Z.div_lt_upper_bound; lia]).
  assert (0 <= (e + 398) / 256 < 3 ∧ 0 <= (e + 398) mod 256 < 256 ∧
          (e + 398) / 256 * 256 + (e + 398) mod 256 = e + 398) as (Hh & Hl & Hx) by (Z.div_mod_to_equations; lia).
  destruct (dpd_accessors s _ _ _ m Hh Ht Hl) as (-> & -> & He' & Hb); [lia|].
  rewrite He' by lia. pose proof (tail_bound m ltac:(lia)) as Htb.
  assert (Z.shiftr (m / 10 ^ 15 * 2 ^ 50 + tail_word m) 50 = m / 10 ^ 15) as ->.
  { rewrite Z.shiftr_div_pow2, Z.div_add_l, (Z.div_small (tail_word m)) by lia. lia. }
  split_and!; [lia|lia|done|lia|by apply unpack_tail|]. intros H0.
  assert (m / 10 ^ 15 = 0) as Ht0 by lia. pose proof (unpack_tail m Hm) as Hu. rewrite H0, Ht0 in Hu.
  apply (bcdn_zero 16); [lia|]. rewrite <- Hu. reflexivity.
Qed.

(** C34: the densely packed words: a price of up to 15 digits is read with
    [strtodpd64] as a 64-bit word, reading stops right behind it, and the word printed
    with [dpd64tostr] is the same text: sign, digits and number of decimals survive
    the packing into declets. *)
Theorem dpd64_roundtrip s m k bsz rest :
  0 <= m < 10 ^ 15 -> (k <= 15)%nat -> (m = 0 -> s = false) -> (36 <= bsz)%nat -> ends_num rest ->
  ∃ x, strtodpd64 (text s m k ++ rest) = Some (x, rest) ∧ 0 <= x < 2 ^ 64 ∧ dpd64tostr bsz x = text s m k.
Proof.
  intros Hm Hk Hs Hb He. unfold strtodpd64. rewrite strtobcd64_read.
  rewrite (read_text_run _ round_bcd64 15 takes64) by (done || lia). bstep.
  rewrite <- (bcdn_ext 15 16 m) by (done || lia).
  destruct (bcd64todpd_read s m (- Z.of_nat k)) as (Hw & Hsg & Hex & Hun & H0); [lia..|].
  eexists. split; [done|]. split; [done|]. unfold dpd64tostr. rewrite Hex, Hsg, Hun.
  destruct (Z.eqb_spec (mant_dpd64 (bcd64todpd (mk_bcd64 (bcdn 16 m) (- Z.of_nat k) (Z.b2z s)))) 0) as [Hz|Hz]; cbn [negb].
  - pose proof (bcd64tostr_text s 0 k bsz 0) as Ht. rewrite bcdn_0 in Ht. rewrite Hz, (H0 Hz).
    apply Ht; [lia..|]. by destruct s.
  - apply bcd64tostr_text; [lia..|]. destruct s; [|done]. destruct (Z.eqb_spec m 0) as [->|]; [|done].
    by specialize (Hs eq_refl).
Qed.

Lemma dpd64_roundtrip_witness :
  ∃ x, strtodpd64 (text true 100205 4 ++ [9; 49]) = Some (x, [9; 49]) ∧ dpd64tostr 64 x = [45; 49; 48; 46; 48; 50; 48; 53].
Proof.
  destruct (dpd64_roundtrip true 100205 4 64 [9; 49]) as (x & H1 & _ & H2);
    [lia|lia|discriminate|lia|split; [reflexivity|discriminate]|].
  exists x. split; [exact H1|exact H2].
Defined.

(** With a leading digit of 9 the exponent comes back wrong: -127 as 1. *)
Example large_exponent :
  quantexpdpd64 (bcd64todpd (mk_bcd64 (bcdn 16 9000000000000000) (-127) 0)) = 1.
Proof. vm_compute. reflexivity. Qed.
