(* ===== verification/Dfp754D32Spec.v ===== *)
(** * dfp754_d32.c: the theorems

    What holds of [_Decimal64] holds of [_Decimal32] with its seven digits:
    taking apart and assembling, printing and reading back.  The codec and the
    text of numbers are those of [DecimalBits] and [Dfp754Print]. *)

From Stdlib Require Import ZArith Lia.
From stdpp Require Import prelude list.
From stdpp Require Import options.
From S2P Require Import Prelude Decimal DecimalBits Dfp754D64 Dfp754D32 Dfp754Spec Dfp754Print.

Local Open Scope Z_scope.

(** ** Assembling and taking apart *)

Lemma assemble_word32 m ex s : assemble_bid32 m ex s = bobs32 (assemble_word 23 8 m ex s).
Proof.
  unfold assemble_bid32, assemble_word. change (Z.shiftl 1 23) with (2 ^ 23).
  by destruct (Z.land m (2 ^ 23) =? 0).
Qed.

Lemma assemble32_run m ex s :
  0 <= m < 10 ^ 7 -> 0 <= ex < 192 -> assemble_bid32 m ex s = DFin (s mod 2 =? 1) m (ex - 101).
Proof.
  intros Hm Hex. pose proof (Z.mod_pos_bound s 2).
  rewrite assemble_word32, (assemble_coef 23 8 (10 ^ 7) 101), bobs32_decode, decode_coef by lia.
  by rewrite (proj2 (Z.ltb_lt _ _)) by lia.
Qed.

Lemma accessors32 s m e :
  0 <= m < 10 ^ 7 -> -101 < e <= 90 ->
  mant_bid32 (DFin s m e) = m ∧ quantexpbid32 (DFin s m e) = e ∧
  sign_bid32 (DFin s m e) = (if s then -1 else 0).
Proof.
  intros Hm He. pose proof (b2z_bit s) as Hs.
  destruct (coef_fields 23 8 (10 ^ 7) 101 ltac:(lia) ltac:(lia) ltac:(lia) (Z.b2z s) (e + 101) m
              Hs ltac:(lia) ltac:(lia)) as (H1 & H2 & H3).
  destruct (coef_bound 23 8 (10 ^ 7) 101 ltac:(lia) ltac:(lia) ltac:(lia) (Z.b2z s) (e + 101) m
              Hs ltac:(lia) ltac:(lia)) as [_ H0].
  unfold mant_bid32, quantexpbid32, sign_bid32. rewrite bits32_coef.
  set (u := coef_word 23 8 (Z.b2z s) (e + 101) m) in *. split_and!.
  - exact H1.
  - destruct (Z.eqb_spec u 0) as [E|]; [specialize (H0 E); lia|].
    transitivity (exp_word 23 8 u - 101); [done|lia].
  - change 31 with (23 + 8). rewrite H3. by destruct s.
Qed.

(** ** Printing *)

Lemma bcd_encode32_spec cnt k m x :
  (cnt + k = 7)%nat -> 0 <= x < 16 ^ Z.of_nat k ->
  bcd_encode32 cnt m (x * 16 ^ Z.of_nat cnt) = x + 16 ^ Z.of_nat k * bcdn cnt m.
Proof.
  revert k m x. induction cnt as [|cnt IH]; intros k m x Hk Hx.
  { cbn. lia. }
  cbn [bcd_encode32]. pose proof (mod10_bound m).
  assert (16 ^ Z.of_nat (cnt + k) = 2 ^ 24) as Hp.
  { replace (cnt + k)%nat with 6%nat by lia. reflexivity. }
  rewrite Nat2Z.inj_add, Z.pow_add_r in Hp by lia.
  assert (0 < 16 ^ Z.of_nat cnt) by (apply Z.pow_pos_nonneg; lia).
  assert (Z.shiftr (Z.lxor (x * 16 ^ Z.of_nat (S cnt)) (u32 (Z.shiftl (m mod 10) 28))) 4 =
          (x + m mod 10 * 16 ^ Z.of_nat k) * 16 ^ Z.of_nat cnt) as ->.
  { rewrite Z.shiftl_mul_pow2 by lia. unfold u32. rewrite Z.mod_small by lia.
    rewrite Nat2Z.inj_succ, Z.pow_succ_r, Z.lxor_comm, lxor_disjoint by nia.
    rewrite Z.shiftr_div_pow2 by lia. change (2 ^ 28) with (2 ^ 24 * 2 ^ 4). change 16 with (2 ^ 4) at 1.
    rewrite <- Hp. symmetry. apply Z.div_unique_exact; [lia|ring]. }
  rewrite (IH (S k)); [|lia|].
  - cbn [bcdn]. rewrite Nat2Z.inj_succ, Z.pow_succ_r by lia. lia.
  - rewrite Nat2Z.inj_succ, Z.pow_succ_r by lia. nia.
Qed.

Lemma bcd_encode32_bcdn m : bcd_encode32 7 m 0 = bcdn 7 m.
Proof.
  pose proof (bcd_encode32_spec 7 0 m 0 eq_refl ltac:(simpl; lia)) as He.
  rewrite Z.mul_0_l in He. rewrite He. change (16 ^ Z.of_nat 0) with 1. lia.
Qed.

Lemma d32tostr_text s m k bsz :
  0 <= m < 10 ^ 7 -> (k <= 15)%nat -> (36 <= bsz)%nat ->
  d32tostr bsz (DFin s m (- Z.of_nat k)) = text s m k.
Proof.
  intros Hm Hk Hb. unfold d32tostr, bid32tostr. cbn [is_nan is_inf].
  destruct (accessors32 s m (- Z.of_nat k)) as (-> & -> & ->); [lia..|].
  rewrite bcd_encode32_bcdn, <- (bcdn_ext 7 16) by (simpl; lia).
  apply (bcd64tostr_text s m k bsz); [lia..|]. by destruct s, (m =? 0).
Qed.

(** ** Reading *)

Lemma take_digs32 j m rest acc nd :
  0 <= acc -> (acc + 1) * 16 ^ Z.of_nat j <= 16 ^ Z.of_nat 7 ->
  take_digits32 (digs j m ++ rest) acc (j + nd) =
  take_digits32 rest (acc * 16 ^ Z.of_nat j + bcdn j m) nd.
Proof.
  revert m rest nd. induction j as [|j IH]; intros m rest nd Ha Hb.
  { simpl. f_equal. lia. }
  rewrite Nat2Z.inj_succ, Z.pow_succ_r in Hb by lia. change (16 ^ Z.of_nat 7) with (2 ^ 28) in *.
  assert (0 < 16 ^ Z.of_nat j) by (apply Z.pow_pos_nonneg; lia).
  cbn [digs bcdn]. rewrite <- app_assoc. replace (S j + nd)%nat with (j + S nd)%nat by lia.
  rewrite IH by (done || nia). cbn [app take_digits32].
  pose proof (mod10_bound m). rewrite is_digit_C, u_c by done.
  pose proof (bcdn_bound j (m / 10)).
  rewrite Z.shiftl_mul_pow2 by lia. change (2 ^ 4) with 16. unfold u32.
  rewrite Z.mod_small by nia. rewrite lor_nibble by nia. f_equal.
  rewrite Nat2Z.inj_succ, Z.pow_succ_r by lia. ring.
Qed.

Lemma takes32 : takes take_digits32 7.
Proof.
  split; [apply take_digs32|]. intros sp acc nd. destruct sp as [|c sp]; [done|].
  destruct nd; [done|]. simpl. by intros ->.
Qed.

Lemma strtobcd32_read src :
  strtobcd32 src =
  '(m, e, s, sp) ← read_text take_digits32 round_bcd32 7 src; Some (mk_bcd32 m e s, sp).
Proof.
  unfold strtobcd32, read_text. repeat case_match; simplify_eq; bstep; try done;
    by destruct (round_bcd32 _ _).
Qed.

Definition mirror_bits32 (f : Z -> bool) : Z -> bool :=
  swap_bits 0xf0f0f0f0 0x0f0f0f0f 4
    (swap_bits 0xff00ff00 0x00ff00ff 8 (swap_bits 0xffff0000 0x0000ffff 16 f)).

Lemma mirror_bits32_spec f j :
  (j < 32)%nat -> mirror_bits32 f (Z.of_nat j) = f (28 - 4 * (Z.of_nat j / 4) + Z.of_nat j mod 4).
Proof.
  intros Hj.
  do 32 (destruct j as [|j];
    [vm_compute; match goal with |- context [f ?n] => destruct (f n) end; reflexivity|]).
  lia.
Qed.

Lemma nib_mirror32 b i : (i < 8)%nat -> nib (mirror32 b) i = nib b (7 - i).
Proof.
  intros Hi. apply Z.bits_inj'. intros j Hj. rewrite !nib_testbit by done.
  destruct (Z.ltb_spec j 4); [|done]. cbn [andb].
  replace (4 * Z.of_nat i + j) with (Z.of_nat (4 * i + Z.to_nat j)) by lia.
  assert (Z.testbit (mirror32 b) (Z.of_nat (4 * i + Z.to_nat j)) =
          mirror_bits32 (Z.testbit b) (Z.of_nat (4 * i + Z.to_nat j))) as ->.
  { unfold mirror32, mirror_bits32.
    do 3 (apply swap_fields_testbit; [lia|intros ? ?|try done; lia]). done. }
  rewrite mirror_bits32_spec by lia. f_equal.
  replace (Z.of_nat (4 * i + Z.to_nat j)) with (j + Z.of_nat i * 4) by lia.
  rewrite Z.div_add, Z.div_small, Z_mod_plus_full, Z.mod_small by lia. lia.
Qed.

(** Within 32 bits the accumulation is the one of 64 bits. *)
Lemma bcd_accum32_eq cnt b m :
  0 <= m -> (m + 16) * 16 ^ Z.of_nat cnt <= 2 ^ 32 -> bcd_accum32 cnt b m = bcd_accum cnt b m.
Proof.
  revert b m. induction cnt as [|cnt IH]; intros b m Hm Hb; [done|].
  rewrite Nat2Z.inj_succ, Z.pow_succ_r in Hb by lia. cbn [bcd_accum32 bcd_accum].
  assert (0 < 16 ^ Z.of_nat cnt) by (apply Z.pow_pos_nonneg; lia).
  change 0xf with (Z.ones 4). rewrite Z.land_ones by lia. pose proof (Z.mod_pos_bound b (2 ^ 4) ltac:(lia)).
  set (x := b mod 2 ^ 4) in *. assert (16 * (m + 16) <= 2 ^ 32) by nia.
  unfold u32, u64. rewrite !(Z.mod_small (m * 10)), !(Z.mod_small (m * 10 + x)) by lia.
  apply IH; [lia|]. assert (x <= 15) by lia. nia.
Qed.

Lemma bcd32tobid_bcdn s m e :
  0 <= m < 10 ^ 7 -> -101 <= e <= 90 ->
  bcd32tobid (mk_bcd32 (bcdn 7 m) e (Z.b2z s)) = DFin s m e.
Proof.
  intros Hm He. unfold bcd32tobid. cbn [mant32 expo32 sign32].
  assert (bcd_accum32 7 (Z.shiftr (mirror32 (bcdn 7 m)) 4) 0 = m) as ->.
  { rewrite bcd_accum32_eq by (simpl; lia).
    pose proof (bcd_accum_spec 7 (Z.shiftr (mirror32 (bcdn 7 m)) 4) m ltac:(lia)) as Ha.
    rewrite (Z.div_small m (10 ^ Z.of_nat 7)) in Ha by done. apply Ha.
    intros i Hi. unfold nib. rewrite Z.shiftr_shiftr by lia.
    replace (4 + 4 * Z.of_nat i) with (4 * Z.of_nat (S i)) by lia.
    fold (nib (mirror32 (bcdn 7 m)) (S i)). rewrite nib_mirror32, nib_bcdn by lia. done. }
  unfold u32. rewrite (Z.mod_small (e + 101)), (Z.mod_small (Z.b2z s)) by (destruct s; simpl; lia).
  rewrite assemble32_run by lia. f_equal; [by destruct s|lia].
Qed.

(** C35: the narrow prices: a [_Decimal32] of up to seven digits survives being
    taken apart and assembled, for either sign and every exponent but the least
    (-101); and with up to seven decimals - zero without a sign, a buffer of 36 bytes,
    and something behind the number that does not continue it - being printed and read
    back: value, number of decimals and where reading stops. *)
Theorem d32tostr_roundtrip s m :
  0 <= m < 10 ^ 7 ->
  (∀ e, -101 < e <= 90 -> let x := DFin s m e in
    assemble_bid32 (mant_bid32 x) (u32 (quantexpbid32 x + 101)) (u32 (sign_bid32 x)) = x) ∧
  (∀ k bsz rest, (k <= 7)%nat -> (m = 0 -> s = false) -> (36 <= bsz)%nat -> ends_num rest ->
    let x := DFin s m (- Z.of_nat k) in strtod32 (d32tostr bsz x ++ rest) = Some (x, rest)).
Proof.
  intros Hm. split.
  - intros e He x. unfold x. destruct (accessors32 s m e) as (H1 & H2 & H3); [lia..|].
    rewrite H1, H2, H3. unfold u32 at 1. rewrite Z.mod_small, assemble32_run by lia.
    f_equal; [by destruct s|lia].
  - intros k bsz rest Hk Hs Hb He x. unfold x.
    rewrite d32tostr_text by lia. unfold strtod32, strtobid32. rewrite strtobcd32_read.
    rewrite (read_text_run _ round_bcd32 7 takes32) by (done || lia). bstep.
    by rewrite bcd32tobid_bcdn by lia.
Qed.

Lemma d32tostr_roundtrip_witness :
  assemble_bid32 (mant_bid32 (DFin true 0 90)) 191 (u32 (sign_bid32 (DFin true 0 90))) = DFin true 0 90 ∧
  strtod32 (d32tostr 64 (DFin true 9999999 (-4)) ++ [9; 49]) = Some (DFin true 9999999 (-4), [9; 49]).
Proof.
  split.
  - apply (d32tostr_roundtrip true 0 ltac:(lia)). lia.
  - apply (d32tostr_roundtrip true 9999999 ltac:(lia)) with (k := 4%nat); [lia|discriminate|lia|].
    split; [reflexivity|discriminate].
Defined.
