(* ===== verification/Memrchr.v ===== *)
(** * memrchr.c: reverse search for a byte, a word at a time

    [memrchr addr s c n] searches the first [n] bytes of [s], which starts at
    address [addr], for the last byte equal to [c] and gives its index.  The
    address matters for the alignment of the word accesses only. *)

From Stdlib Require Import ZArith Lia.
From stdpp Require Import prelude list.
From stdpp Require Import options.
From S2P Require Import Prelude.

Local Open Scope Z_scope.

(** [sizeof(longword)], 64-bit words. *)
Definition WORD : nat := 8.

(** The word stored at [bs], least significant byte first. *)
Fixpoint le_word (bs : list Z) : Z :=
  match bs with
  | [] => 0
  | b :: bs => b + 256 * le_word bs
  end.

Definition repeated_one : Z :=
  let r := 0x01010101 in
  Z.lor r (u64 (Z.shiftl (Z.shiftl r 31) 1)).

Definition repeated_c (c : Z) : Z :=
  let r := Z.lor c (Z.shiftl c 8) in
  let r := Z.lor r (u64 (Z.shiftl r 16)) in
  Z.lor r (u64 (Z.shiftl (Z.shiftl r 31) 1)).

(** The test for a zero byte: [((w - ones) & ~w) & (ones << 7)]. *)
Definition zero_byte_test (w : Z) : Z :=
  Z.land (Z.land (u64 (w - repeated_one)) (u64 (Z.lnot w)))
         (u64 (Z.shiftl repeated_one 7)).

(** The byte loop down to an aligned address: the index found, or the
    remaining length. *)
Fixpoint align_loop (addr : Z) (s : list Z) (c : Z) (n : nat) : option (nat + nat) :=
  match n with
  | O => Some (inr O)
  | S m =>
    if (addr + Z.of_nat n) mod Z.of_nat WORD =? 0 then Some (inr n)
    else b ← s !! m; if b =? c then Some (inl m) else align_loop addr s c m
  end.

(** The word loop: the length that is left when a word may hold [c] or less
    than a word is left. *)
Fixpoint word_loop (fuel : nat) (s : list Z) (c : Z) (n : nat) : option nat :=
  match fuel with
  | O => None
  | S fuel =>
    if (WORD <=? n)%nat then
      let bs := take WORD (drop (n - WORD) s) in
      if (length bs =? WORD)%nat then
        let w := Z.lxor (le_word bs) (repeated_c c) in
        if negb (zero_byte_test w =? 0) then Some n
        else word_loop fuel s c (n - WORD)
      else None
    else Some n
  end.

(** [while (n-- > 0)] byte by byte. *)
Fixpoint byte_loop (s : list Z) (c : Z) (n : nat) : option (option nat) :=
  match n with
  | O => Some None
  | S m => b ← s !! m; if b =? c then Some (Some m) else byte_loop s c m
  end.

(** [None] when a byte outside of [s] is read. *)
Definition memrchr (addr : Z) (s : list Z) (c_in : Z) (n : nat) : option (option nat) :=
  let c := u8 c_in in
  r ← align_loop addr s c n;
  match r with
  | inl i => Some (Some i)
  | inr n => n ← word_loop (S n) s c n; byte_loop s c n
  end.

(** ** The zero-byte test *)

Definition byte (b : Z) : Prop := 0 <= b < 256.

Lemma testbit_byte_low b x j :
  byte b -> 0 <= j < 8 -> Z.testbit (b + 256 * x) j = Z.testbit b j.
Proof.
  intros Hb Hj. replace (b + 256 * x) with (b + x * 2 ^ 8) by lia.
  rewrite <- (Z.mod_pow2_bits_low (b + x * 2 ^ 8) 8), Z_mod_plus_full by lia.
  by rewrite Z.mod_pow2_bits_low by lia.
Qed.

Lemma testbit_byte_high b x j :
  byte b -> 0 <= j -> Z.testbit (b + 256 * x) (8 + j) = Z.testbit x j.
Proof.
  intros Hb Hj. replace (8 + j) with (j + 8) by lia.
  rewrite <- (Z.div_pow2_bits _ 8 j) by lia. change (2 ^ 8) with 256.
  replace (b + 256 * x) with (b + x * 256) by lia.
  by rewrite Z.div_add, Z.div_small by (unfold byte in *; lia).
Qed.

Lemma le_word_nonneg bs : Forall byte bs -> 0 <= le_word bs.
Proof. induction 1 as [|b bs Hb]; simpl; unfold byte in *; lia. Qed.

(** A word with a zero byte: at the lowest one the subtraction borrows. *)
Lemma zero_byte_bit bs :
  Forall byte bs -> 0 ∈ bs ->
  ∃ j, (j < length bs)%nat ∧
    Z.testbit (le_word bs - le_word (replicate (length bs) 1)) (8 * Z.of_nat j + 7) = true ∧
    Z.testbit (le_word bs) (8 * Z.of_nat j + 7) = false.
Proof.
  induction 1 as [|b bs Hb Hbs IH]; intros Hin; [by apply not_elem_of_nil in Hin|].
  cbn [length replicate le_word].
  destruct (decide (b = 0)) as [->|Hnz].
  - exists 0%nat. split_and!; [lia| |].
    + replace (0 + 256 * le_word bs - (1 + 256 * le_word (replicate (length bs) 1)))
        with (255 + 256 * (le_word bs - le_word (replicate (length bs) 1) - 1)) by lia.
      rewrite testbit_byte_low by (unfold byte; lia). reflexivity.
    + rewrite testbit_byte_low by (unfold byte; lia). reflexivity.
  - apply elem_of_cons in Hin as [?|Hin]; [done|].
    destruct (IH Hin) as (j & Hj & Ht & Hf). exists (S j). split_and!; [simpl; lia|..].
    + replace (b + 256 * le_word bs - (1 + 256 * le_word (replicate (length bs) 1)))
        with ((b - 1) + 256 * (le_word bs - le_word (replicate (length bs) 1))) by lia.
      replace (8 * Z.of_nat (S j) + 7) with (8 + (8 * Z.of_nat j + 7)) by lia.
      rewrite testbit_byte_high by (unfold byte in *; lia). done.
    + replace (8 * Z.of_nat (S j) + 7) with (8 + (8 * Z.of_nat j + 7)) by lia.
      rewrite testbit_byte_high by (unfold byte in *; lia). done.
Qed.

Lemma u64_bit x j : 0 <= j < 64 -> Z.testbit (u64 x) j = Z.testbit x j.
Proof. intros. unfold u64. by rewrite Z.mod_pow2_bits_low by lia. Qed.

(** The mask: bit 7 of every byte. *)
Lemma mask_bit j : (j < 8)%nat -> Z.testbit (u64 (Z.shiftl repeated_one 7)) (8 * Z.of_nat j + 7) = true.
Proof. intros Hj. do 8 (destruct j as [|j]; [reflexivity|]). lia. Qed.

Lemma zero_byte_test_found bs :
  Forall byte bs -> length bs = 8%nat -> 0 ∈ bs -> zero_byte_test (le_word bs) ≠ 0.
Proof.
  intros Hb Hl Hin Hz. destruct (zero_byte_bit bs Hb Hin) as (j & Hj & Ht & Hf).
  rewrite Hl in *. assert (le_word (replicate 8 1) = repeated_one) as Heq by reflexivity.
  assert (Z.testbit (zero_byte_test (le_word bs)) (8 * Z.of_nat j + 7) = true) as Hbit.
  { unfold zero_byte_test. rewrite !Z.land_spec, !u64_bit, mask_bit by lia.
    by rewrite <- Heq, Ht, Z.lnot_spec, Hf by lia. }
  by rewrite Hz, Z.bits_0 in Hbit.
Qed.

(** ** Comparing all bytes of a word with [c] at once *)

Lemma byte_lxor b c : byte b -> byte c -> byte (Z.lxor b c).
Proof.
  unfold byte. intros Hb Hc. split; [apply Z.lxor_nonneg; lia|].
  destruct (Z.eq_dec (Z.lxor b c) 0) as [->|]; [lia|].
  apply Z.log2_lt_pow2 with (b := 8); [|].
  - assert (0 <= Z.lxor b c) by (apply Z.lxor_nonneg; lia). lia.
  - pose proof (Z.log2_lxor b c).
    assert (∀ x, 0 <= x < 256 -> Z.log2 x < 8) as Hl.
    { intros x Hx. destruct (Z.eq_dec x 0) as [->|]; [reflexivity|].
      apply Z.log2_lt_pow2; lia. }
    pose proof (Hl b). pose proof (Hl c). lia.
Qed.

Lemma le_word_lxor bs c :
  Forall byte bs -> byte c ->
  Z.lxor (le_word bs) (le_word (replicate (length bs) c)) = le_word (Z.lxor c <$> bs).
Proof.
  intros Hb Hc. induction Hb as [|b bs Hb Hbs IH]; [done|].
  cbn [length replicate fmap list_fmap le_word]. rewrite <- IH. apply Z.bits_inj'. intros j Hj.
  rewrite Z.lxor_spec. destruct (Z.lt_ge_cases j 8).
  - rewrite !testbit_byte_low by (auto using byte_lxor). by rewrite Z.lxor_spec, xorb_comm.
  - replace j with (8 + (j - 8)) by lia.
    rewrite !testbit_byte_high by (auto using byte_lxor; lia). by rewrite Z.lxor_spec.
Qed.

Lemma repeated_c_word c : byte c -> repeated_c c = le_word (replicate 8 c).
Proof.
  intros Hc. assert (∀ n, (n < 256)%nat ->
    repeated_c (Z.of_nat n) =? le_word (replicate 8 (Z.of_nat n)) = true) as Hall.
  { assert (forallb (λ n, repeated_c (Z.of_nat n) =? le_word (replicate 8 (Z.of_nat n)))
              (seq 0 256) = true) as Hf by (vm_compute; reflexivity).
    rewrite forallb_forall in Hf. intros n Hn. apply Hf, in_seq. lia. }
  unfold byte in Hc. specialize (Hall (Z.to_nat c) ltac:(lia)).
  rewrite Z2Nat.id in Hall by lia. by apply Z.eqb_eq.
Qed.

(** A word that passes the test holds no [c]. *)
Lemma word_without bs c :
  Forall byte bs -> length bs = 8%nat -> byte c ->
  zero_byte_test (Z.lxor (le_word bs) (repeated_c c)) = 0 -> c ∉ bs.
Proof.
  intros Hb Hl Hc Hz Hin. rewrite repeated_c_word, <- Hl, le_word_lxor in Hz by done.
  revert Hz. apply zero_byte_test_found.
  - apply Forall_fmap. eapply Forall_impl; [exact Hb|]. intros. by apply byte_lxor.
  - by rewrite length_fmap.
  - apply list_elem_of_fmap. exists c. by rewrite Z.lxor_nilpotent.
Qed.

(** ** The search *)

(** What a reverse search for [c] in the first [n] bytes must return. *)
Definition last_index (s : list Z) (c : Z) (n : nat) (r : option nat) : Prop :=
  match r with
  | Some i => (i < n)%nat ∧ s !! i = Some c ∧ ∀ j, (i < j < n)%nat -> s !! j ≠ Some c
  | None => ∀ j, (j < n)%nat -> s !! j ≠ Some c
  end.

Lemma last_index_shrink s c n m r :
  (m <= n)%nat -> (∀ j, (m <= j < n)%nat -> s !! j ≠ Some c) ->
  last_index s c m r -> last_index s c n r.
Proof.
  intros Hm Hno. destruct r as [i|]; simpl.
  - intros (? & ? & Hj). split_and!; [lia|done|]. intros j ?.
    destruct (decide (j < m)%nat); [apply Hj|apply Hno]; lia.
  - intros Hj j ?. destruct (decide (j < m)%nat); [apply Hj|apply Hno]; lia.
Qed.

Lemma byte_loop_spec s c n :
  (n <= length s)%nat -> ∃ r, byte_loop s c n = Some r ∧ last_index s c n r.
Proof.
  induction n as [|m IH]; intros Hn; simpl; [by exists None; split; [|simpl; lia]|].
  destruct (lookup_lt_is_Some_2 s m) as [b Hb]; [lia|]. rewrite Hb. simpl.
  destruct (Z.eqb_spec b c) as [->|Hne].
  - exists (Some m). split; [done|]. simpl. split_and!; [lia|done|lia].
  - destruct (IH ltac:(lia)) as (r & Hr & Hl). exists r. split; [done|].
    apply (last_index_shrink s c (S m) m); [lia| |done].
    intros j Hj. replace j with m by lia. congruence.
Qed.

Lemma word_loop_spec fuel s c n :
  (n < fuel)%nat -> (n <= length s)%nat -> Forall byte s -> byte c ->
  ∃ m, word_loop fuel s c n = Some m ∧ (m <= n)%nat ∧
       ∀ j, (m <= j < n)%nat -> s !! j ≠ Some c.
Proof.
  revert n. induction fuel as [|fuel IH]; intros n Hf Hn Hs Hc; [lia|].
  cbn [word_loop]. unfold WORD. destruct (Nat.leb_spec 8 n) as [H8|H8].
  2: { exists n. split_and!; [done..|lia]. }
  set (bs := take 8 (drop (n - 8) s)).
  assert (length bs = 8)%nat as Hl by (unfold bs; rewrite length_take, length_drop; lia).
  rewrite Hl. cbn [Nat.eqb].
  destruct (Z.eqb_spec (zero_byte_test (Z.lxor (le_word bs) (repeated_c c))) 0) as [Hz|Hz];
    cbn [negb].
  2: { exists n. split_and!; [done..|lia]. }
  destruct (IH (n - 8)%nat) as (m & Hm & Hle & Hno); [lia..|done|done|].
  exists m. split_and!; [done|lia|]. intros j Hj.
  destruct (decide (j < n - 8)%nat); [apply Hno; lia|]. intros Heq.
  apply (word_without bs c); [|done..|].
  - unfold bs. by apply Forall_take, Forall_drop.
  - apply list_elem_of_lookup. exists (j - (n - 8))%nat. unfold bs.
    rewrite lookup_take_lt, lookup_drop by lia.
    by replace (n - 8 + (j - (n - 8)))%nat with j by lia.
Qed.

Lemma align_loop_spec addr s c n :
  (n <= length s)%nat ->
  ∃ r, align_loop addr s c n = Some r ∧
    match r with
    | inl i => last_index s c n (Some i)
    | inr m => (m <= n)%nat ∧ ∀ j, (m <= j < n)%nat -> s !! j ≠ Some c
    end.
Proof.
  induction n as [|m IH]; intros Hn; cbn [align_loop].
  { exists (inr 0%nat). split; [done|]. split; [lia|]. intros; lia. }
  destruct (_ =? 0). { exists (inr (S m)). split; [done|]. split; [lia|]. intros; lia. }
  destruct (lookup_lt_is_Some_2 s m) as [b Hb]; [lia|]. rewrite Hb. simpl.
  destruct (Z.eqb_spec b c) as [->|Hne].
  - exists (inl m). split; [done|]. split_and!; [lia|done|lia].
  - destruct (IH ltac:(lia)) as (r & Hr & Hl). exists r. split; [done|].
    assert (s !! m ≠ Some c) by congruence.
    destruct r as [i|k].
    + apply (last_index_shrink s c (S m) m (Some i)); [lia| |done].
      intros j Hj. by replace j with m by lia.
    + destruct Hl as [Hk Hno]. split; [lia|]. intros j Hj.
      destruct (decide (j = m)) as [->|]; [done|]. apply Hno. lia.
Qed.

Lemma memrchr_spec addr s c n :
  Forall byte s -> (n <= length s)%nat ->
  ∃ r, memrchr addr s c n = Some r ∧ last_index s (u8 c) n r.
Proof.
  intros Hs Hn. unfold memrchr. destruct (align_loop_spec addr s (u8 c) n Hn) as (r & Hr & Hl).
  brun Hr. destruct r as [i|m]; [eauto|]. destruct Hl as [Hm Hno].
  destruct (word_loop_spec (S m) s (u8 c) m) as (k & Hk & Hle & Hno2); [lia..|done| |].
  { unfold byte, u8. apply Z.mod_pos_bound. lia. }
  brun Hk. destruct (byte_loop_spec s (u8 c) k) as (r & Hr2 & Hl2); [lia|].
  exists r. split; [done|]. apply (last_index_shrink s (u8 c) n k); [lia| |done].
  intros j Hj. destruct (decide (j < m)%nat); [apply Hno2|apply Hno]; lia.
Qed.

(** C39: whatever the alignment of the buffer, [memrchr] finds the last byte equal
    to [c] among the first [n], or reports that there is none; it terminates and
    reads no byte outside of the buffer. *)
Theorem memrchr_correct addr s c n :
  Forall byte s -> (n <= length s)%nat ->
  ∃ r, memrchr addr s c n = Some r ∧
    match r with
    | Some i => (i < n)%nat ∧ s !! i = Some (u8 c) ∧
                ∀ j, (i < j < n)%nat -> s !! j ≠ Some (u8 c)
    | None => ∀ j, (j < n)%nat -> s !! j ≠ Some (u8 c)
    end.
Proof. apply memrchr_spec. Qed.

Lemma memrchr_correct_witness :
  ∃ r, memrchr 3 (repeat 7 20 ++ [9] ++ repeat 7 20) 9 41 = Some r ∧
    last_index (repeat 7 20 ++ [9] ++ repeat 7 20) 9 41 r.
Proof.
  destruct (memrchr_correct 3 (repeat 7 20 ++ [9] ++ repeat 7 20) 9 41) as (r & H1 & H2).
  - repeat (constructor; [unfold byte; lia|]). constructor.
  - simpl. lia.
  - exists r. exact (conj H1 H2).
Defined.
