(* ===== verification/Hash.v ===== *)
(** * hash.c: 32-bit xxHash of a byte string, seed 0

    The input is a list of bytes; reads are little endian.  Machine words are
    integers below [2^32] with the wrap-around written out. *)

From Stdlib Require Import ZArith Lia.
From stdpp Require Import prelude list.
From stdpp Require Import options.
From S2P Require Import Prelude.

Local Open Scope Z_scope.

Definition PRIME32_1 : Z := 2654435761.
Definition PRIME32_2 : Z := 2246822519.
Definition PRIME32_3 : Z := 3266489917.
Definition PRIME32_4 : Z := 668265263.
Definition PRIME32_5 : Z := 374761393.

Definition XXH_rotl32 (x r : Z) : Z := Z.lor (u32 (Z.shiftl x r)) (Z.shiftr x (32 - r)).

(** [XXH_read32]/[XXH_readLE32_align]: the four bytes at [p], little endian;
    [None] beyond the input. *)
Definition XXH_get32bits (p : list Z) : option Z :=
  match p with
  | a :: b :: c :: d :: _ =>
    Some (a + Z.shiftl b 8 + Z.shiftl c 16 + Z.shiftl d 24)
  | _ => None
  end.

(** One lane of the main loop. *)
Definition round32 (v : Z) (p : list Z) : option Z :=
  w ← XXH_get32bits p;
  let v := u32 (v + u32 (w * PRIME32_2)) in
  let v := XXH_rotl32 v 13 in
  Some (u32 (v * PRIME32_1)).

(** [do ... while (p <= limit)]: 16 bytes a turn, [limit] being 16 bytes
    before the end.  The lanes and the rest of the input. *)
Fixpoint stripes (fuel : nat) (p : list Z) (v1 v2 v3 v4 : Z) :
    option (Z * Z * Z * Z * list Z) :=
  match fuel with
  | O => None
  | S fuel =>
    v1 ← round32 v1 p;
    v2 ← round32 v2 (drop 4 p);
    v3 ← round32 v3 (drop 8 p);
    v4 ← round32 v4 (drop 12 p);
    let p := drop 16 p in
    if (16 <=? length p)%nat then stripes fuel p v1 v2 v3 v4
    else Some (v1, v2, v3, v4, p)
  end.

(** [while (p + 4 <= bEnd)]. *)
Fixpoint tail_words (fuel : nat) (p : list Z) (h32 : Z) : option (Z * list Z) :=
  match fuel with
  | O => None
  | S fuel =>
    if (4 <=? length p)%nat then
      w ← XXH_get32bits p;
      let h32 := u32 (h32 + u32 (w * PRIME32_3)) in
      tail_words fuel (drop 4 p) (u32 (XXH_rotl32 h32 17 * PRIME32_4))
    else Some (h32, p)
  end.

(** [while (p < bEnd)]. *)
Fixpoint tail_bytes (p : list Z) (h32 : Z) : Z :=
  match p with
  | [] => h32
  | b :: p =>
    let h32 := u32 (h32 + u32 (b * PRIME32_5)) in
    tail_bytes p (u32 (XXH_rotl32 h32 11 * PRIME32_1))
  end.

Definition avalanche (h32 : Z) : Z :=
  let h32 := Z.lxor h32 (Z.shiftr h32 15) in
  let h32 := u32 (h32 * PRIME32_2) in
  let h32 := Z.lxor h32 (Z.shiftr h32 13) in
  let h32 := u32 (h32 * PRIME32_3) in
  Z.lxor h32 (Z.shiftr h32 16).

Definition XXH32_endian_align (input : list Z) : option Z :=
  let len := length input in
  '(h32, p) ←
    if (16 <=? len)%nat then
      '(v1, v2, v3, v4, p) ←
        stripes len input (u32 (PRIME32_1 + PRIME32_2)) PRIME32_2 0 (u32 (- PRIME32_1));
      Some (u32 (XXH_rotl32 v1 1 + XXH_rotl32 v2 7 + XXH_rotl32 v3 12 + XXH_rotl32 v4 18), p)
    else Some (PRIME32_5, input);
  let h32 := u32 (h32 + u32 (Z.of_nat len)) in
  '(h32, p) ← tail_words (S len) p h32;
  Some (avalanche (tail_bytes p h32)).

(** [hash]: alignment and endianness select among equivalent reads. *)
Definition hash (input : list Z) : option Z := XXH32_endian_align input.

(** ** Published test vectors of XXH32 with seed 0 *)

Example hash_empty : hash [] = Some 0x02CC5D05.
Proof. vm_compute. reflexivity. Qed.
Example hash_a : hash [97] = Some 0x550D7456.
Proof. vm_compute. reflexivity. Qed.
Example hash_abc : hash [97; 98; 99] = Some 0x32D153FF.
Proof. vm_compute. reflexivity. Qed.

(** ** Totality and range *)

Definition word32 (x : Z) : Prop := 0 <= x < 2 ^ 32.

Lemma u32_word x : word32 (u32 x).
Proof. apply Z.mod_pos_bound. lia. Qed.

Lemma round32_total v p : (4 <= length p)%nat -> ∃ v', round32 v p = Some v' ∧ word32 v'.
Proof.
  intros Hl. unfold round32. destruct p as [|a [|b [|c [|d p]]]]; simpl in Hl; try lia.
  cbn [XXH_get32bits]. bstep. eexists. split; [done|]. apply u32_word.
Qed.

Lemma stripes_total fuel p v1 v2 v3 v4 :
  (16 <= length p)%nat -> (length p <= fuel)%nat ->
  ∃ w1 w2 w3 w4 r, stripes fuel p v1 v2 v3 v4 = Some (w1, w2, w3, w4, r) ∧ (length r < 16)%nat ∧
    (length r <= length p)%nat.
Proof.
  revert p v1 v2 v3 v4. induction fuel as [|fuel IH]; intros p v1 v2 v3 v4 Hl Hf; [lia|].
  cbn [stripes].
  destruct (round32_total v1 p) as (w1 & H1 & _); [lia|].
  destruct (round32_total v2 (drop 4 p)) as (w2 & H2 & _); [len|].
  destruct (round32_total v3 (drop 8 p)) as (w3 & H3 & _); [len|].
  destruct (round32_total v4 (drop 12 p)) as (w4 & H4 & _); [len|].
  brun H1. brun H2. brun H3. brun H4. rewrite length_drop.
  destruct (Nat.leb_spec 16 (length p - 16)).
  - destruct (IH (drop 16 p) w1 w2 w3 w4) as (x1 & x2 & x3 & x4 & r & Hr & ? & Hle);
      [len..|].
    exists x1, x2, x3, x4, r. rewrite length_drop in Hle. split_and!; [done|done|lia].
  - exists w1, w2, w3, w4, (drop 16 p). rewrite length_drop. split_and!; [done|lia..].
Qed.

Lemma tail_words_total fuel p h :
  (length p < fuel)%nat -> word32 h ->
  ∃ h' r, tail_words fuel p h = Some (h', r) ∧ word32 h' ∧ (length r < 4)%nat.
Proof.
  revert p h. induction fuel as [|fuel IH]; intros p h Hf Hh; [lia|]. cbn [tail_words].
  destruct (Nat.leb_spec 4 (length p)); [|eauto].
  destruct p as [|a [|b [|c [|d p]]]]; simpl in *; try lia.
  apply IH; [rewrite drop_0; lia|apply u32_word].
Qed.

Lemma tail_bytes_word p h : word32 h -> word32 (tail_bytes p h).
Proof. revert h. induction p as [|b p IH]; intros h Hh; [done|]. apply IH, u32_word. Qed.

Lemma lxor_shiftr_word h k : word32 h -> 0 <= k -> word32 (Z.lxor h (Z.shiftr h k)).
Proof.
  intros Hh Hk. assert (0 <= Z.lxor h (Z.shiftr h k)) as Hp.
  { apply Z.lxor_nonneg. rewrite Z.shiftr_nonneg. unfold word32 in *. lia. }
  split; [done|]. destruct (Z.eq_dec (Z.lxor h (Z.shiftr h k)) 0) as [->|]; [lia|].
  apply Z.log2_lt_pow2; [lia|].
  destruct (Z.lt_ge_cases (Z.log2 (Z.lxor h (Z.shiftr h k))) 32) as [|Hge]; [done|].
  pose proof (Z.bit_log2 (Z.lxor h (Z.shiftr h k)) ltac:(lia)) as Hb.
  assert (∀ j, 32 <= j -> Z.testbit h j = false) as Hhi.
  { intros j Hj. rewrite <- (Z.mod_small h (2 ^ 32)) by exact Hh.
    apply Z.mod_pow2_bits_high. lia. }
  rewrite Z.lxor_spec, Z.shiftr_spec, !Hhi in Hb by lia. done.
Qed.

Lemma hash_word input : ∃ v, hash input = Some v ∧ word32 v.
Proof.
  unfold hash, XXH32_endian_align.
  assert (∃ h32 p, (if (16 <=? length input)%nat then
      '(v1, v2, v3, v4, p) ←
        stripes (length input) input (u32 (PRIME32_1 + PRIME32_2)) PRIME32_2 0 (u32 (- PRIME32_1));
      Some (u32 (XXH_rotl32 v1 1 + XXH_rotl32 v2 7 + XXH_rotl32 v3 12 + XXH_rotl32 v4 18), p)
    else Some (PRIME32_5, input)) = Some (h32, p) ∧ (length p <= length input)%nat)
    as (h32 & p & Hs & Hl).
  { destruct (Nat.leb_spec 16 (length input)) as [H16|]; [|eauto].
    destruct (stripes_total (length input) input (u32 (PRIME32_1 + PRIME32_2)) PRIME32_2 0
                (u32 (- PRIME32_1)) H16) as (w1 & w2 & w3 & w4 & r & Hr & _ & Hle); [lia|].
    brun Hr. eauto. }
  brun Hs.
  destruct (tail_words_total (S (length input)) p (u32 (h32 + u32 (Z.of_nat (length input)))))
    as (h' & r & Hr & Hw & _); [lia|apply u32_word|].
  brun Hr. eexists. split; [done|]. unfold avalanche.
  apply lxor_shiftr_word; [apply u32_word|lia].
Qed.

(** C40: [hash] is total, its loops terminate, it reads no byte outside of the
    input and returns a 32-bit number. *)
Theorem hash_total input : ∃ v, hash input = Some v ∧ 0 <= v < 2 ^ 32.
Proof. apply hash_word. Qed.
