(* ===== verification/Btree.v ===== *)
(** * btree.c: the B+ tree of price levels

    The tree lives in a heap of nodes [struct btree_s]; children and the
    [next] links of the leaves are addresses into it, and a [btree_val_t*] is
    the address of a node together with an index into its [val] array.  The
    file is compiled for two key types ([BOOKSD32], [BOOKSD64]); the model is
    generic in the key type through the class [BKey]. *)

From Stdlib Require Import ZArith Lia.
From stdpp Require Import prelude list gmap.
From stdpp Require Import options.
From S2P Require Import Prelude Decimal.

Local Open Scope Z_scope.

(** ** Keys *)

(** What the tree uses of a key type: the place of a key on the number line
    (none for a NaN, which compares with nothing) and the value [memset(-1)]
    leaves behind, a NaN. *)
Class BKey (K : Type) := {
  krank : K -> option Z;
  knan : K;
  krank_nan : krank knan = None;
}.

Definition klt `{BKey K} (a b : K) : bool :=
  match krank a, krank b with Some x, Some y => x <? y | _, _ => false end.
Definition kgt `{BKey K} (a b : K) : bool := klt b a.
Definition keq `{BKey K} (a b : K) : bool :=
  match krank a, krank b with Some x, Some y => x =? y | _, _ => false end.
Definition kne `{BKey K} (a b : K) : bool := negb (keq a b).

(** ** Values *)

(** [btree_val_t]: a quantity and a time. *)
Record btree_val := mk_val { vq : dec; vt : Z }.

Definition btree_val_nil : btree_val := mk_val dzero 0.

Definition btree_val_nil_p (v : btree_val) : bool := dle (vq v) dzero.

(** ** Nodes and the heap *)

(** [btree_ual_t], a union of a value and a child. *)
Inductive btree_ual :=
  | Ual_v (v : btree_val)
  | Ual_t (t : option positive).

(** A zeroed union: as a value all bits zero. *)
Definition ual_zero : btree_ual := Ual_v (mk_val (bobs64 0) 0).

Definition ual_val (u : btree_ual) : option btree_val :=
  match u with Ual_v v => Some v | Ual_t _ => None end.
Definition ual_child (u : btree_ual) : option positive :=
  match u with Ual_t t => t | Ual_v _ => None end.

Record btree_s (K : Type) := mk_node {
  n : nat;
  innerp : bool;
  descp : bool;
  splitp : bool;
  used : Z;
  key : list K;
  val : list btree_ual;
  next : option positive;
}.
Arguments mk_node {K}.
Arguments n {K}. Arguments innerp {K}. Arguments descp {K}. Arguments splitp {K}.
Arguments used {K}. Arguments key {K}. Arguments val {K}. Arguments next {K}.

(** Field assignment. *)
Definition set_n {K} (x : nat) (t : btree_s K) : btree_s K :=
  mk_node x (innerp t) (descp t) (splitp t) (used t) (key t) (val t) (next t).
Definition set_innerp {K} (x : bool) (t : btree_s K) : btree_s K :=
  mk_node (n t) x (descp t) (splitp t) (used t) (key t) (val t) (next t).
Definition set_splitp {K} (x : bool) (t : btree_s K) : btree_s K :=
  mk_node (n t) (innerp t) (descp t) x (used t) (key t) (val t) (next t).
Definition set_used {K} (x : Z) (t : btree_s K) : btree_s K :=
  mk_node (n t) (innerp t) (descp t) (splitp t) x (key t) (val t) (next t).
Definition set_key {K} (x : list K) (t : btree_s K) : btree_s K :=
  mk_node (n t) (innerp t) (descp t) (splitp t) (used t) x (val t) (next t).
Definition set_val {K} (x : list btree_ual) (t : btree_s K) : btree_s K :=
  mk_node (n t) (innerp t) (descp t) (splitp t) (used t) (key t) x (next t).
Definition set_next {K} (x : option positive) (t : btree_s K) : btree_s K :=
  mk_node (n t) (innerp t) (descp t) (splitp t) (used t) (key t) (val t) x.

(** [countof(t->key)] and [countof(t->val)]. *)
Definition NKEY : nat := 64.
Definition NVAL : nat := 64.

(** The store: nodes by address, and the next address [calloc] hands out
    (an allocation that fails is not modelled). *)
Record heap (K : Type) := mk_heap { hnext : positive; hmem : gmap positive (btree_s K) }.
Arguments mk_heap {K}. Arguments hnext {K}. Arguments hmem {K}.

Definition empty_heap {K} : heap K := mk_heap 1 ∅.

Definition hget {K} (h : heap K) (p : positive) : option (btree_s K) := hmem h !! p.
Definition hset {K} (p : positive) (t : btree_s K) (h : heap K) : heap K :=
  mk_heap (hnext h) (<[p := t]> (hmem h)).
(** An update of the node at [p]. *)
Definition hupd {K} (p : positive) (f : btree_s K -> btree_s K) (h : heap K) : option (heap K) :=
  t ← hget h p; Some (hset p (f t) h).

(** A [btree_val_t*]: node and index. *)
Definition vptr : Type := positive * nat.

(** [*vp] and [*vp = v]. *)
Definition load {K} (h : heap K) (vp : vptr) : option btree_val :=
  t ← hget h vp.1; u ← val t !! vp.2; ual_val u.
Definition poke {K} (vp : vptr) (v : btree_val) (h : heap K) : option (heap K) :=
  t ← hget h vp.1; vs ← store vp.2 (Ual_v v) (val t); Some (hset vp.1 (set_val vs t) h).

(** Bounds on recursion depth and on the number of leaves: no acyclic
    structure exceeds them. *)
Definition height_fuel {K} (h : heap K) : nat := S (size (hmem h)).

Section btree.
Context `{BKey K}.

(** A fresh node as [make_btree] sets it up. *)
Definition node0 (descp : bool) : btree_s K :=
  mk_node 0 false descp false 0 (replicate NKEY knan) (replicate NVAL ual_zero) None.

Definition make_btree (h : heap K) (descp : bool) : heap K * positive :=
  let p := hnext h in
  (mk_heap (Pos.succ p) (<[p := node0 descp]> (hmem h)), p).

(** [t->val[i].t] as a pointer that is followed. *)
Definition child (t : btree_s K) (i : nat) : option positive :=
  u ← val t !! i; ual_child u.

(** [t->val[i].v]. *)
Definition cell (t : btree_s K) (i : nat) : option btree_val :=
  u ← val t !! i; ual_val u.

(** Is [btree_val_nil_p(t->val[i].v)]. *)
Definition cell_nil (t : btree_s K) (i : nat) : option bool :=
  v ← cell t i; Some (btree_val_nil_p v).

Fixpoint node_free_p (fuel : nat) (h : heap K) (p : positive) : option bool :=
  match fuel with
  | O => None
  | S fuel =>
    t ← hget h p;
    if negb (innerp t) then
      nul ← scan_up (n t) (cell_nil t) 0;
      Some (n t <=? nul)%nat
    else
      nul ← scan_up (S (n t)) (fun i => c ← child t i; node_free_p fuel h c) 0;
      Some (n t <? nul)%nat
  end.

(** The [switch (t->descp)] that finds the place of [k]. *)
Definition key_scan (t : btree_s K) (k : K) : option nat :=
  scan_up (n t)
    (fun i => ki ← key t !! i; Some (if descp t then klt k ki else kgt k ki)) 0.

Definition root_split (h : heap K) (rp : positive) : option (heap K) :=
  root ← hget h rp;
  let '(h, lp) := make_btree h (descp root) in
  let '(h, gp) := make_btree h (descp root) in
  let piv := (NKEY / 2 - 1)%nat in
  left ← hget h lp;
  lk ← memmove 0 0 (piv + 1) (key left) (key root);
  lv ← memmove 0 0 (piv + 1) (val left) (val root);
  let left := set_innerp (innerp root) (set_val lv (set_key lk left)) in
  let left := set_n (piv + (if innerp root then 0 else 1)) left in
  let left := set_next (Some gp) left in
  let h := hset lp left h in
  rght ← hget h gp;
  rk ← memmove 0 (piv + 1) (piv + 0) (key rght) (key root);
  rv ← memmove 0 (piv + 1) (piv + 1) (val rght) (val root);
  let rght := set_innerp (innerp root) (set_val rv (set_key rk rght)) in
  let rght := set_next None (set_n piv rght) in
  let h := hset gp rght h in
  kp ← key root !! piv;
  k0 ← store 0 kp (key root);
  v0 ← store 0 (Ual_t (Some lp)) (val root);
  v1 ← store 1 (Ual_t (Some gp)) v0;
  let root := set_val v1 (set_key (fill 1 knan k0) root) in
  let root := set_next None (set_innerp true (set_n 1 root)) in
  Some (hset rp root h).

(** The first part of [node_split]: a fresh sibling, or one hijacked from
    the parent's [nul]-th place. *)
Definition split_sibling (h : heap K) (prnt chld : btree_s K) (nul : nat) :
    option (heap K * positive) :=
  if (n prnt <? nul)%nat then Some (make_btree h (descp chld))
  else
    gp ← child prnt nul;
    rght ← hget h gp;
    if (0 <? nul)%nat then
      pv ← child prnt (nul - 1);
      h ← hupd pv (set_next (next rght)) h;
      Some (h, gp)
    else Some (h, gp).

(** The second part: make room next to [idx] in the parent, returning the
    adjusted index. *)
Definition split_room (prnt : btree_s K) (nul idx : nat) :
    option (btree_s K * nat) :=
  if (idx <? nul)%nat then
    ks ← memmove (idx + 1) (idx + 0) (nul - idx) (key prnt) (key prnt);
    vs ← memmove (idx + 1) (idx + 0) (nul - idx) (val prnt) (val prnt);
    Some (set_val vs (set_key ks prnt), idx)
  else if (nul <? idx)%nat then
    ks ← memmove (nul + 0) (nul + 1) (idx - nul) (key prnt) (key prnt);
    vs ← memmove (nul + 0) (nul + 1) (idx - nul) (val prnt) (val prnt);
    Some (set_val vs (set_key ks prnt), idx - 1)%nat
  else Some (prnt, idx).

(** The last part: move the upper half of [chld] over to [rght]. *)
Definition split_shift (h : heap K) (cp gp : positive) : option (heap K) :=
  let piv := (NKEY / 2 - 1)%nat in
  chld ← hget h cp;
  rght ← hget h gp;
  rk ← memmove 0 (piv + 1) (piv + 0) (key rght) (key chld);
  rv ← memmove 0 (piv + 1) (piv + 1) (val rght) (val chld);
  let rght := set_key (fill piv knan rk) (set_val rv rght) in
  let rght := set_innerp (innerp chld) rght in
  let rght := set_n piv (set_next (next chld) rght) in
  let h := hset gp rght h in
  chld ← hget h cp;
  let cn := (piv + (if innerp chld then 0 else 1))%nat in
  let chld := set_next (Some gp) (set_n cn chld) in
  let chld := set_key (fill cn knan (key chld)) chld in
  Some (hset cp chld h).

Definition node_split (fuel : nat) (h : heap K) (pp : positive) (idx : nat) :
    option (heap K) :=
  let piv := (NKEY / 2 - 1)%nat in
  prnt ← hget h pp;
  cp ← child prnt idx;
  chld ← hget h cp;
  nul ← scan_up (S (n prnt))
          (fun i => c ← child prnt i; b ← node_free_p fuel h c; Some (negb b)) 0;
  '(h, gp) ← split_sibling h prnt chld nul;
  '(prnt', idx) ← split_room prnt nul idx;
  kp ← key chld !! piv;
  ks ← store (idx + 0) kp (key prnt');
  vs ← store (idx + 1) (Ual_t (Some gp)) (val prnt');
  let prnt' := set_n (n prnt + (if n prnt <? nul then 1 else 0))%nat prnt' in
  let h := hset pp (set_val vs (set_key ks prnt')) h in
  split_shift h cp gp.

Definition leaf_get (t : btree_s K) (k : K) : option (option nat) :=
  i ← key_scan t k;
  ki ← key t !! i;
  if kne k ki then Some None else Some (Some i).

Fixpoint twig_get (fuel : nat) (h : heap K) (p : positive) (k : K) :
    option (option vptr) :=
  match fuel with
  | O => None
  | S fuel =>
    t ← hget h p;
    i ← key_scan t k;
    c ← child t i;
    ct ← hget h c;
    if negb (innerp ct) then
      r ← leaf_get ct k; Some (option_map (pair c) r)
    else twig_get fuel h c k
  end.

(** The bits of [used] from [lo] on, [len] of them, in place. *)
Definition used_mask (u : Z) (lo len : nat) : Z :=
  Z.shiftl (Z.land (Z.shiftr u (Z.of_nat lo)) (u64 (Z.shiftl 1 (Z.of_nat len) - 1)))
           (Z.of_nat lo).

(** The [used] word after cells [i..nul-1] moved up by one: their bits are
    toggled off where they were and toggled on one place up. *)
Definition used_right (u : Z) (i nul : nat) : Z :=
  let msk := u64 (used_mask u i (nul - i)) in
  let u := Z.lxor u msk in
  let msk := u64 (Z.shiftl msk 1) in
  Z.lxor u msk.

(** The [used] word after cells [nul+1..i-1] moved down by one. *)
Definition used_left (u : Z) (nul i : nat) : Z :=
  let msk := u64 (used_mask u nul (i - nul)) in
  let u := Z.lxor u msk in
  let msk := Z.shiftr msk 1 in
  Z.lxor u msk.

(** Make room in a leaf for a key at [i], given the spare cell [nul]; the
    index of the new cell comes back. *)
Definition leaf_room (t : btree_s K) (nul i : nat) : option (btree_s K * nat) :=
  if (i <? nul)%nat then
    let u := used_right (used t) i nul in
    ks ← memmove (i + 1) (i + 0) (nul - i) (key t) (key t);
    vs ← memmove (i + 1) (i + 0) (nul - i) (val t) (val t);
    Some (set_used u (set_val vs (set_key ks t)), i)
  else if (nul <? i)%nat then
    let u := used_left (used t) nul i in
    let i := (i - 1)%nat in
    ks ← memmove (nul + 0) (nul + 1) (i - nul) (key t) (key t);
    vs ← memmove (nul + 0) (nul + 1) (i - nul) (val t) (val t);
    Some (set_used u (set_val vs (set_key ks t)), i)
  else Some (t, i).

(** The node after the call, the index of the cell returned, [*splitp]. *)
Definition leaf_add (t : btree_s K) (k : K) : option (btree_s K * nat * bool) :=
  i ← key_scan t k;
  ki ← key t !! i;
  '(t, i) ←
    if keq k ki then Some (t, i)
    else
      nul ← scan_up (n t) (fun j => b ← cell_nil t j; Some (negb b)) 0;
      '(t, i) ← leaf_room t nul i;
      let t := set_n (n t + (if nul <? n t then 0 else 1))%nat t in
      ks ← store i k (key t);
      vs ← store i (Ual_v btree_val_nil) (val t);
      Some (set_val vs (set_key ks t), i);
  let sp := (NKEY - 1 <=? n t)%nat in
  let t := set_used (Z.lor (used t) (Z.shiftl 1 (Z.of_nat i))) t in
  Some (t, i, sp).

Fixpoint twig_add (fuel : nat) (h : heap K) (p : positive) (k : K) :
    option (heap K * vptr * bool) :=
  match fuel with
  | O => None
  | S fuel =>
    t ← hget h p;
    i ← key_scan t k;
    c ← child t i;
    ct ← hget h c;
    '(h, r, sp) ←
      if negb (innerp ct) then
        '(ct, j, sp) ← leaf_add ct k; Some (hset c ct h, (c, j), sp)
      else twig_add fuel h c k;
    h ← if (sp : bool) then node_split fuel h p i else Some h;
    t ← hget h p;
    Some (h, r, (NKEY - 1 <=? n t)%nat)
  end.

Fixpoint free_btree (fuel : nat) (h : heap K) (p : positive) : option (heap K) :=
  match fuel with
  | O => None
  | S fuel =>
    t ← hget h p;
    h ← if innerp t
        then foldl (fun oh i => h ← oh; c ← child t i; free_btree fuel h c)
                   (Some h) (seq 0 (S (n t)))
        else Some h;
    Some (mk_heap (hnext h) (delete p (hmem h)))
  end.

Definition btree_get (h : heap K) (p : positive) (k : K) : option (option vptr) :=
  t ← hget h p;
  if negb (innerp t) then r ← leaf_get t k; Some (option_map (pair p) r)
  else twig_get (height_fuel h) h p k.

Definition btree_put (h : heap K) (p : positive) (k : K) : option (heap K * vptr) :=
  t ← hget h p;
  h ← if splitp t then root_split h p else Some h;
  t ← hget h p;
  '(h, vp, sp) ←
    if negb (innerp t) then
      '(t, i, sp) ← leaf_add t k; Some (hset p t h, (p, i), sp)
    else twig_add (height_fuel h) h p k;
  h ← hupd p (set_splitp sp) h;
  Some (h, vp).

Definition btree_rem (h : heap K) (p : positive) (k : K) : option (heap K * btree_val) :=
  r ← btree_get h p k;
  match r with
  | Some vp => w ← load h vp; h ← poke vp btree_val_nil h; Some (h, w)
  | None => Some (h, btree_val_nil)
  end.

(** [for (; t->innerp; t = t->val->t);] *)
Fixpoint leftmost (fuel : nat) (h : heap K) (p : positive) : option positive :=
  match fuel with
  | O => None
  | S fuel =>
    t ← hget h p;
    if innerp t then c ← child t 0; leftmost fuel h c else Some p
  end.

(** One leaf of [btree_clr]: every cell below [n] becomes nil. *)
Definition clr_leaf (t : btree_s K) : option (btree_s K) :=
  vs ← foldl (fun ovs i => vs ← ovs; store i (Ual_v btree_val_nil) vs)
             (Some (val t)) (seq 0 (n t));
  Some (set_val vs t).

Fixpoint clr_chain (fuel : nat) (h : heap K) (p : positive) : option (heap K) :=
  match fuel with
  | O => None
  | S fuel =>
    t ← hget h p;
    t' ← clr_leaf t;
    let h := hset p t' h in
    match next t' with
    | Some q => clr_chain fuel h q
    | None => Some h
    end
  end.

Definition btree_clr (h : heap K) (p : positive) : option (heap K) :=
  l ← leftmost (height_fuel h) h p;
  clr_chain (height_fuel h) h l.

Fixpoint top_chain (fuel : nat) (h : heap K) (p : positive) :
    option (option (K * vptr)) :=
  match fuel with
  | O => None
  | S fuel =>
    t ← hget h p;
    i ← scan_up (n t) (cell_nil t) 0;
    if (i <? n t)%nat then k ← key t !! i; Some (Some (k, (p, i)))
    else match next t with
         | Some q => top_chain fuel h q
         | None => Some None
         end
  end.

(** The key and cell of the first entry that is not nil. *)
Definition btree_top (h : heap K) (p : positive) : option (option (K * vptr)) :=
  l ← leftmost (height_fuel h) h p;
  top_chain (height_fuel h) h l.

(** ** Iteration *)

Record btree_iter := mk_iter {
  it_t : option positive;
  it_i : nat;
  it_k : K;
  it_v : option vptr;
}.

(** [{.t = t}]: the other members are zero. *)
Definition iter0 (k0 : K) (p : positive) : btree_iter := mk_iter (Some p) 0 k0 None.

(** What [__builtin_ctzll(0)] returns: the result is undefined, so it is a
    parameter of everything that iterates. *)
Variable ctz0 : nat.

Definition ctzll (u : Z) : nat :=
  match u with Zpos p => pos_ctz p | _ => ctz0 end.

(** The inner loop of [btree_iter_next] over the cells of one leaf: the leaf
    with its [used] bits pruned and the index of the live cell found. *)
Fixpoint iter_scan (fuel : nat) (t : btree_s K) (u : Z) (sh i : nat) :
    option (btree_s K * option nat) :=
  match fuel with
  | O => None
  | S fuel =>
    if (i <? n t)%nat then
      nil ← cell_nil t i;
      if negb nil then Some (t, Some i)
      else
        let b := Z.shiftl 1 (Z.of_nat i) in
        let t := set_used (Z.lxor (Z.lor (used t) b) b) t in
        let u := Z.shiftr u (Z.of_nat (sh + 1)) in
        let sh := ctzll u in
        iter_scan fuel t u sh (i + (sh + 1))
    else Some (t, None)
  end.

Fixpoint iter_chain (fuel : nat) (h : heap K) (p : positive) (it : btree_iter) :
    option (heap K * btree_iter * bool) :=
  match fuel with
  | O => None
  | S fuel =>
    t ← hget h p;
    let u := Z.shiftr (used t) (Z.of_nat (it_i it)) in
    let sh := ctzll u in
    '(t, r) ← iter_scan (S (n t)) t u sh (it_i it + sh);
    let h := hset p t h in
    match r with
    | Some i =>
      k ← key t !! i;
      Some (h, mk_iter (Some p) (i + 1) k (Some (p, i)), true)
    | None =>
      match next t with
      | Some q => iter_chain fuel h q (mk_iter (Some q) 0 (it_k it) (it_v it))
      | None => Some (h, mk_iter None 0 (it_k it) None, false)
      end
    end
  end.

Definition btree_iter_next (h : heap K) (it : btree_iter) :
    option (heap K * btree_iter * bool) :=
  match it_t it with
  | None => Some (h, mk_iter None (it_i it) (it_k it) None, false)
  | Some p =>
    t ← hget h p;
    l ← leftmost (height_fuel h) h p;
    let i := if innerp t then 0%nat else it_i it in
    iter_chain (height_fuel h) h l (mk_iter (Some l) i (it_k it) (it_v it))
  end.
End btree.

Arguments btree_iter : clear implicits.
Arguments mk_iter {K}. Arguments it_t {K}. Arguments it_i {K}.
Arguments it_k {K}. Arguments it_v {K}. Arguments iter0 {K}.

(** Fields of an updated node. *)
Ltac node := cbn [n innerp descp splitp used key val next set_n set_innerp set_splitp set_used
                  set_key set_val set_next node0].
