(* ===== verification/BtreeLeaf.v ===== *)
(** * Leaves of the tree: what [leaf_get] and [leaf_add] do

    A leaf is described by the list [E] of its entries.  [levels E], the
    entries that are not nil, is what a client sees; it is a finite map from
    price to value, kept in the order of the tree. *)

From Stdlib Require Import ZArith Lia.
From stdpp Require Import prelude list gmap sorting.
From stdpp Require Import options.
From S2P Require Import Prelude Decimal Btree.

Local Open Scope Z_scope.

Section leaf.
Context `{BKey K}.
#[local] Abbreviation entry := (K * btree_val)%type.
Implicit Types (E : list entry) (t : btree_s K) (k : K).

(** ** Order *)

(** A key's place in a tree with direction [d]. *)
Definition ord (d : bool) (k : K) : option Z :=
  z ← krank k; Some (if d then - z else z).

(** The key stops the descent of [k]: [t->descp ? k < ki : k > ki]. *)
Definition before (d : bool) (ki k : K) : bool :=
  if d then klt k ki else kgt k ki.

(** Keys are numbers and strictly ordered. *)
Inductive ksorted (d : bool) : option Z -> list K -> Prop :=
  | ksorted_nil b : ksorted d b []
  | ksorted_cons b k z ks :
    ord d k = Some z ->
    (∀ y, b = Some y -> y < z) ->
    ksorted d (Some z) ks ->
    ksorted d b (k :: ks).

(** ** Representation *)

Definition live (e : entry) : bool := negb (btree_val_nil_p e.2).

(** The price levels: the entries a client can see. *)
Definition levels (E : list entry) : list entry := filter (fun e => live e) E.

Record leaf_rep (d : bool) (t : btree_s K) (E : list entry) : Prop := {
  rep_leaf : innerp t = false;
  rep_desc : descp t = d;
  rep_n : n t = length E;
  rep_max : (length E <= 63)%nat;
  rep_key : key t = E.*1 ++ replicate (NKEY - length E) knan;
  rep_val : ∃ junk, val t = (Ual_v <$> E.*2) ++ junk ∧
                    (length E + length junk = NVAL)%nat;
}.

(** Every level has its bit set in the [used] word [u]. *)
Definition used_ok (u : Z) (E : list entry) : Prop :=
  0 <= u < 2 ^ 64 ∧
  ∀ i e, E !! i = Some e -> live e = true -> Z.testbit u (Z.of_nat i) = true.

(** ** Reference definitions *)

(** The first entry that can be reused is dropped. *)
Fixpoint drop_nil (E : list entry) : list entry :=
  match E with
  | [] => []
  | e :: E => if live e then e :: drop_nil E else E
  end.

(** The entries before [k]'s place. *)
Fixpoint place (d : bool) (k : K) (E : list entry) : nat :=
  match E with
  | [] => 0
  | e :: E => if before d e.1 k then S (place d k E) else 0
  end.

(** Is [k] at its place. *)
Definition home (d : bool) (k : K) (E : list entry) : bool :=
  match E !! place d k E with Some e => keq k e.1 | None => false end.

(** The first cell that can be reused, or the first unused one. *)
Fixpoint spare (E : list entry) : nat :=
  match E with
  | [] => 0
  | e :: E => if live e then S (spare E) else 0
  end.

(** The entries after [leaf_add], and the index of [k]'s cell. *)
Definition put_ents (d : bool) (k : K) (E : list entry) : list entry :=
  let i := place d k E in
  if home d k E then E
  else if forallb live (take i E)
       then take i E ++ (k, btree_val_nil) :: drop_nil (drop i E)
       else drop_nil (take i E) ++ (k, btree_val_nil) :: drop i E.

Definition put_idx (d : bool) (k : K) (E : list entry) : nat :=
  let i := place d k E in
  if home d k E then i
  else if forallb live (take i E) then i else (i - 1)%nat.

(** The finite map a list of levels stands for, by place on the number line. *)
Definition lmap (d : bool) (L : list entry) : gmap Z btree_val :=
  foldr (fun e m => match ord d e.1 with Some z => <[z := e.2]> m | None => m end) ∅ L.

(** ** Order lemmas *)

Lemma before_spec d ki k zi z :
  ord d ki = Some zi -> ord d k = Some z -> before d ki k = (zi <? z).
Proof.
  unfold ord, before, klt, kgt, klt.
  destruct (krank ki), (krank k); simpl; intros [= <-] [= <-]; destruct d; lia.
Qed.

Lemma before_nan_l d k : before d knan k = false.
Proof.
  unfold before, kgt, klt. rewrite krank_nan. destruct d, (krank k); done.
Qed.

Lemma keq_spec d k ki zi z :
  ord d ki = Some zi -> ord d k = Some z -> keq k ki = (z =? zi).
Proof.
  unfold ord, keq. destruct (krank ki), (krank k); simpl; intros [= <-] [= <-];
    destruct d; lia.
Qed.

Lemma keq_nan_r k : keq k knan = false.
Proof. unfold keq. rewrite krank_nan. by destruct (krank k). Qed.

Lemma ksorted_lb d b b' ks :
  ksorted d b ks -> (∀ y', b' = Some y' -> ∃ y, b = Some y ∧ y' <= y) -> ksorted d b' ks.
Proof.
  intros Hs Hb. destruct Hs as [|b k z ks Hk Hlt Hs]; econstructor; eauto.
  intros y' Hy'. destruct (Hb _ Hy') as (y & ? & ?). specialize (Hlt y ltac:(done)). lia.
Qed.

Lemma ksorted_None d b ks : ksorted d b ks -> ksorted d None ks.
Proof. intros. eapply ksorted_lb; eauto. done. Qed.

Lemma ksorted_app_inv d b ks1 ks2 :
  ksorted d b (ks1 ++ ks2) -> ksorted d b ks1 ∧ ksorted d None ks2.
Proof.
  revert b. induction ks1 as [|k ks1 IH]; simpl; intros b Hs.
  - split; [constructor|by eapply ksorted_None].
  - inversion Hs; subst. destruct (IH _ H5). split; [econstructor; eauto|done].
Qed.

Lemma ksorted_lookup d b ks i k :
  ksorted d b ks -> ks !! i = Some k ->
  ∃ z, ord d k = Some z ∧ (∀ y, b = Some y -> y < z).
Proof.
  revert b i. induction ks as [|k0 ks IH]; intros b i Hs Hi; [done|].
  inversion Hs; subst. destruct i as [|i]; simpl in Hi; simplify_eq; [eauto|].
  edestruct IH as (z' & ? & Hz); eauto. exists z'; split; [done|].
  intros y ->. specialize (Hz z ltac:(done)). specialize (H4 y ltac:(done)). lia.
Qed.

(** Inserting between neighbours that bound the key. *)
Lemma ksorted_insert d b ks1 ks2 k z :
  ord d k = Some z -> (∀ y, b = Some y -> y < z) ->
  ksorted d b (ks1 ++ ks2) ->
  (∀ x zx, x ∈ ks1 -> ord d x = Some zx -> zx < z) ->
  (∀ x zx, x ∈ ks2 -> ord d x = Some zx -> z < zx) ->
  ksorted d b (ks1 ++ k :: ks2).
Proof.
  intros Hk Hb Hs H1 H2. revert b Hb Hs. induction ks1 as [|k1 ks1 IH]; simpl; intros b Hb Hs.
  - econstructor; eauto. destruct Hs as [|b k2 z2 ks Hk2 Hlt Hs]; econstructor; eauto.
    intros y [= <-]. eapply H2; eauto. left.
  - inversion Hs; subst. econstructor; eauto. apply IH; auto.
    + intros. eapply H1; eauto. by right.
    + intros y [= <-]. eapply H1; eauto. left.
Qed.

Lemma ksorted_sublist d b ks ks' :
  ks' `sublist_of` ks -> ksorted d b ks -> ksorted d b ks'.
Proof.
  intros Hsub. revert b. induction Hsub; intros b Hs; [constructor| |].
  - inversion Hs; subst. econstructor; eauto.
  - inversion Hs; subst. apply IHHsub. eapply ksorted_lb; eauto.
    intros y' ->. eexists; split; [done|]. specialize (H4 y' ltac:(done)). lia.
Qed.

(** ** The place of a key *)

Lemma place_le d k E : (place d k E <= length E)%nat.
Proof. induction E as [|e E IH]; simpl; [done|]. case_match; lia. Qed.

Lemma place_before d k z E x zx :
  ord d k = Some z -> x ∈ (take (place d k E) E).*1 -> ord d x = Some zx -> zx < z.
Proof.
  intros Hk. induction E as [|e E IH]; simpl; [by intros ?%not_elem_of_nil|].
  destruct (before d e.1 k) eqn:Hb; simpl; [|by intros ?%not_elem_of_nil].
  intros [->|?]%elem_of_cons Hx; [|by apply IH].
  rewrite (before_spec _ _ _ _ _ Hx Hk) in Hb. lia.
Qed.

Lemma ksorted_bound d b ks x zx :
  ksorted d b ks -> x ∈ ks -> ord d x = Some zx -> ∀ y, b = Some y -> y < zx.
Proof.
  intros Hs Hx Hzx y ->. apply list_elem_of_lookup in Hx as [i Hi].
  edestruct @ksorted_lookup as (z & Hz & Hlt); eauto.
  rewrite Hz in Hzx. simplify_eq. eauto.
Qed.

Lemma place_after d b k z E x zx :
  ksorted d b E.*1 -> ord d k = Some z -> home d k E = false ->
  x ∈ (drop (place d k E) E).*1 -> ord d x = Some zx -> z < zx.
Proof.
  unfold home. intros Hs Hk. revert b Hs.
  induction E as [|e E IH]; simpl; intros b Hs Hh; [by intros ?%not_elem_of_nil|].
  inversion Hs as [|? ? ze ? He Hlt Hs']; subst.
  rewrite (before_spec _ _ _ _ _ He Hk) in *.
  destruct (ze <? z) eqn:Hb; simpl in *; [by eapply IH|].
  rewrite (keq_spec _ _ _ _ _ He Hk) in Hh.
  intros [->|Hx]%elem_of_cons Hzx; [rewrite He in Hzx; simplify_eq; lia|].
  pose proof (ksorted_bound _ _ _ _ _ Hs' Hx Hzx ze eq_refl). lia.
Qed.

Lemma home_spec d k E :
  home d k E = true ->
  ∃ e, E !! place d k E = Some e ∧ keq k e.1 = true.
Proof. unfold home. destruct (E !! place d k E); naive_solver. Qed.

(** ** [drop_nil] *)

Lemma drop_nil_levels E : levels (drop_nil E) = levels E.
Proof.
  unfold levels. induction E as [|e E IH]; simpl; [done|].
  rewrite filter_cons. destruct (live e) eqn:He; simpl.
  - rewrite filter_cons, He. simpl. by rewrite IH.
  - done.
Qed.

Lemma drop_nil_sublist E : drop_nil E `sublist_of` E.
Proof.
  induction E as [|e E IH]; simpl; [done|]. case_match; by constructor.
Qed.

Lemma drop_nil_length E :
  length (drop_nil E) = (length E - if forallb live E then 0 else 1)%nat.
Proof.
  induction E as [|e E IH]; simpl; [done|].
  destruct (live e); simpl; [|lia].
  rewrite IH. destruct (forallb live E) eqn:Hf; simpl; [lia|].
  destruct E; [done|]. simpl. lia.
Qed.

Lemma drop_nil_all E : forallb live E = true -> drop_nil E = E.
Proof.
  induction E as [|e E IH]; simpl; [done|].
  intros [-> ?]%andb_prop. f_equal. auto.
Qed.

(** The split of a list at its first nil entry. *)
Lemma drop_nil_split E j :
  (∀ x e, (x < j)%nat -> E !! x = Some e -> live e = true) ->
  (∀ e, E !! j = Some e -> live e = false) ->
  (j < length E)%nat ->
  drop_nil E = take j E ++ drop (S j) E.
Proof.
  revert j. induction E as [|e E IH]; simpl; intros j H1 H2 Hj; [lia|].
  destruct j as [|j]; simpl.
  - rewrite (H2 e) by done. by rewrite drop_0.
  - rewrite (H1 0%nat e) by (done || lia). f_equal. apply IH; [| |lia].
    + intros x e' Hx. apply (H1 (S x)). lia.
    + intros e'. apply H2.
Qed.

Lemma forallb_live_lookup E :
  forallb live E = true <-> ∀ x e, E !! x = Some e -> live e = true.
Proof.
  rewrite forallb_forall. setoid_rewrite <- list_elem_of_In.
  setoid_rewrite list_elem_of_lookup. naive_solver.
Qed.

Lemma sublist_fst (E E' : list entry) : E `sublist_of` E' -> E.*1 `sublist_of` E'.*1.
Proof. induction 1; simpl; by constructor. Qed.

(** ** What [put_ents] does to levels and order *)

Lemma levels_app E1 E2 : levels (E1 ++ E2) = levels E1 ++ levels E2.
Proof. apply filter_app. Qed.

Lemma levels_cons e E :
  levels (e :: E) = if live e then e :: levels E else levels E.
Proof. unfold levels. rewrite filter_cons. by destruct (live e). Qed.

Lemma levels_split i E : levels E = levels (take i E) ++ levels (drop i E).
Proof. by rewrite <- levels_app, take_drop. Qed.

Lemma put_ents_levels d k E :
  home d k E = false ->
  levels (put_ents d k E) = levels E.
Proof.
  intros Hh. unfold put_ents. rewrite Hh, (levels_split (place d k E) E).
  case_match; rewrite levels_app, levels_cons; simpl; by rewrite drop_nil_levels.
Qed.

Lemma put_ents_sorted d b k z E :
  ksorted d b E.*1 -> ord d k = Some z -> (∀ y, b = Some y -> y < z) ->
  ksorted d b (put_ents d k E).*1.
Proof.
  intros Hs Hk Hb. unfold put_ents. destruct (home d k E) eqn:Hh; [done|].
  set (i := place d k E) in *.
  assert (Hl : ∀ E1 E2, E1 `sublist_of` take i E -> E2 `sublist_of` drop i E ->
            ksorted d b (E1 ++ (k, btree_val_nil) :: E2).*1).
  { intros E1 E2 H1 H2. rewrite fmap_app, fmap_cons. simpl. eapply ksorted_insert; eauto.
    - rewrite <- fmap_app. eapply ksorted_sublist; [|exact Hs].
      apply sublist_fst. rewrite <- (take_drop i E). by apply sublist_app.
    - intros x zx Hx. apply (place_before d k z E x zx Hk).
      by apply (sublist_subseteq _ _ (sublist_fst _ _ H1)).
    - intros x zx Hx. apply (place_after d b k z E x zx Hs Hk Hh).
      by apply (sublist_subseteq _ _ (sublist_fst _ _ H2)). }
  case_match; apply Hl; auto using drop_nil_sublist.
Qed.

Lemma put_ents_length d k E :
  length (put_ents d k E) =
  (length E + if home d k E then 0 else if forallb live E then 1 else 0)%nat.
Proof.
  unfold put_ents. destruct (home d k E); [lia|].
  set (i := place d k E). assert (i <= length E)%nat by apply place_le.
  assert (forallb live E = forallb live (take i E) && forallb live (drop i E)) as ->
    by (by rewrite <- forallb_app, take_drop).
  destruct (forallb live (take i E)) eqn:H1; simpl.
  - rewrite length_app. simpl. rewrite drop_nil_length, length_take, length_drop.
    destruct (forallb live (drop i E)) eqn:H2; simpl; [lia|].
    assert (0 < length (drop i E))%nat; [|rewrite length_drop in *; lia].
    destruct (drop i E); [done|simpl; lia].
  - rewrite length_app. simpl. rewrite drop_nil_length, length_take, length_drop, H1.
    simpl. assert (0 < length (take i E))%nat; [|rewrite length_take in *; lia].
    destruct (take i E); [done|simpl; lia].
Qed.

(** [k]'s cell: nil if it is new, the level's value if [k] was home. *)
Lemma put_ents_lookup d k E :
  ∃ e, put_ents d k E !! put_idx d k E = Some e ∧
       if home d k E then E !! place d k E = Some e ∧ keq k e.1 = true
       else e = (k, btree_val_nil).
Proof.
  unfold put_ents, put_idx. destruct (home d k E) eqn:Hh.
  { apply home_spec in Hh as (e & ? & ?). eauto. }
  exists (k, btree_val_nil). split; [|done].
  set (i := place d k E). assert (i <= length E)%nat by apply place_le.
  destruct (forallb live (take i E)) eqn:H1.
  - rewrite lookup_app_r; rewrite length_take; [|lia].
    by replace (i - i `min` length E)%nat with 0%nat by lia.
  - rewrite lookup_app_r; rewrite drop_nil_length, H1, length_take; simpl; [|lia].
    by replace (i - 1 - (i `min` length E - 1))%nat with 0%nat by lia.
Qed.

(** ** The operations on a leaf *)

Lemma place_spec d k E :
  (∀ x, (x < place d k E)%nat -> ∃ e, E !! x = Some e ∧ before d e.1 k = true) ∧
  (∀ e, E !! place d k E = Some e -> before d e.1 k = false).
Proof.
  induction E as [|e E [IH1 IH2]]; simpl; [split; [lia|done]|].
  destruct (before d e.1 k) eqn:Hb; split; [| |lia|naive_solver]; [|done].
  intros [|x] Hx; simpl; [eauto|]. apply IH1. lia.
Qed.

Lemma rep_key_lookup d t E x :
  leaf_rep d t E ->
  (∀ e, E !! x = Some e -> key t !! x = Some e.1) ∧
  ((length E <= x < NKEY)%nat -> key t !! x = Some knan).
Proof.
  intros Hr. rewrite (rep_key _ _ _ Hr). split.
  - intros e He. rewrite lookup_app_l; [by rewrite list_lookup_fmap, He|].
    rewrite length_fmap. by eapply lookup_lt_Some.
  - intros. rewrite lookup_app_r; rewrite length_fmap; [|lia].
    apply lookup_replicate. split; [done|lia].
Qed.

Lemma rep_cell d t E x e :
  leaf_rep d t E -> E !! x = Some e -> cell t x = Some e.2.
Proof.
  intros Hr He. destruct (rep_val _ _ _ Hr) as (junk & Hv & _).
  unfold cell. rewrite Hv, lookup_app_l; [|rewrite !length_fmap; by eapply lookup_lt_Some].
  by rewrite !list_lookup_fmap, He.
Qed.

Lemma rep_cell_nil d t E x e :
  leaf_rep d t E -> E !! x = Some e -> cell_nil t x = Some (negb (live e)).
Proof.
  intros. unfold cell_nil. erewrite rep_cell by done. simpl.
  unfold live. by rewrite negb_involutive.
Qed.

Lemma key_scan_spec d t E k :
  leaf_rep d t E -> key_scan t k = Some (place d k E).
Proof.
  intros Hr. destruct (place_spec d k E) as [H1 H2].
  pose proof (place_le d k E). unfold key_scan. rewrite (rep_n _ _ _ Hr).
  rewrite (rep_desc _ _ _ Hr). apply scan_up_intro; [lia| |].
  - intros x [_ Hx]. destruct (H1 x Hx) as (e & He & Hb).
    rewrite (proj1 (rep_key_lookup _ _ _ x Hr) e He). simpl. by rewrite <- Hb.
  - simpl. intros Hlt. destruct (lookup_lt_is_Some_2 E (place d k E)) as [e He]; [lia|].
    rewrite (proj1 (rep_key_lookup _ _ _ _ Hr) e He). simpl. by rewrite <- (H2 e He).
Qed.

(** The key found at [k]'s place: an entry's, or the NaN behind the last. *)
Lemma key_at_place d t E k :
  leaf_rep d t E ->
  ∃ ki, key t !! place d k E = Some ki ∧ keq k ki = home d k E.
Proof.
  intros Hr. unfold home. destruct (E !! place d k E) as [e|] eqn:He.
  - exists e.1. split; [|done]. by apply (rep_key_lookup _ _ _ _ Hr).
  - apply lookup_ge_None in He. exists knan. split; [|apply keq_nan_r].
    pose proof (rep_max _ _ _ Hr). pose proof (place_le d k E).
    apply (rep_key_lookup _ _ _ _ Hr). unfold NKEY. lia.
Qed.

Lemma leaf_get_rep d t E k :
  leaf_rep d t E ->
  leaf_get t k = Some (if home d k E then Some (place d k E) else None).
Proof.
  intros Hr. unfold leaf_get. rewrite (key_scan_spec d t E k Hr). simpl.
  destruct (key_at_place d t E k Hr) as (ki & -> & Hki). simpl.
  unfold kne. rewrite Hki. by destruct (home d k E).
Qed.

(** ** Adding a key *)

Lemma spare_le E : (spare E <= length E)%nat.
Proof. induction E as [|e E IH]; simpl; [done|]. case_match; lia. Qed.

Lemma spare_spec E :
  (∀ x e, (x < spare E)%nat -> E !! x = Some e -> live e = true) ∧
  (∀ e, E !! spare E = Some e -> live e = false).
Proof.
  induction E as [|e E [IH1 IH2]]; simpl; [by split; [lia|]|].
  destruct (live e) eqn:He; split; [|done|lia|naive_solver].
  intros [|x] e' Hx; simpl; [naive_solver|]. apply IH1. lia.
Qed.

Lemma forallb_take_spare i E :
  (i <= length E)%nat -> forallb live (take i E) = (i <=? spare E)%nat.
Proof.
  revert i. induction E as [|e E IH]; intros [|i]; simpl; try done; try lia.
  intros Hi. rewrite IH by lia. destruct (live e); [|done].
  destruct (Nat.leb_spec i (spare E)), (Nat.leb_spec (S i) (S (spare E))); lia || done.
Qed.

(** What becomes of the entries around the spare cell. *)
Lemma drop_nil_right i E :
  (i <= spare E)%nat ->
  drop_nil (drop i E) = take (spare E - i) (drop i E) ++ drop (spare E + 1) E.
Proof.
  intros Hi. destruct (spare_spec E) as [H1 H2]. pose proof (spare_le E).
  destruct (decide (spare E = length E)) as [Heq|].
  - rewrite Heq, (drop_ge E (length E + 1)), app_nil_r by lia.
    rewrite take_ge by len. apply drop_nil_all.
    apply forallb_live_lookup. intros x e. rewrite lookup_drop. intros Hx.
    apply (H1 (i + x)%nat); [|done]. apply lookup_lt_Some in Hx. lia.
  - rewrite (drop_nil_split _ (spare E - i)).
    + f_equal. rewrite drop_drop. f_equal. lia.
    + intros x e Hx. rewrite lookup_drop. apply H1. lia.
    + intros e. rewrite lookup_drop. replace (i + (spare E - i))%nat with (spare E) by lia.
      apply H2.
    + len.
Qed.

Lemma drop_nil_left i E :
  (spare E < i)%nat -> (i <= length E)%nat ->
  drop_nil (take i E) = take (spare E) E ++ take (i - 1 - spare E) (drop (spare E + 1) E).
Proof.
  intros Hi Hl. destruct (spare_spec E) as [H1 H2].
  rewrite (drop_nil_split _ (spare E)).
  - f_equal.
    + rewrite take_take. f_equal. lia.
    + rewrite take_drop_commute. f_equal; [|f_equal]; f_equal; lia.
  - intros x e Hx. rewrite lookup_take_lt by lia. by apply H1.
  - intros e. rewrite lookup_take_lt by lia. apply H2.
  - len.
Qed.

(** The [used] word after [leaf_add]. *)
Definition put_used (d : bool) (k : K) (E : list entry) (u : Z) : Z :=
  let i := place d k E in
  let nul := spare E in
  let u := if home d k E then u
           else if (i <? nul)%nat then used_right u i nul
           else if (nul <? i)%nat then used_left u nul i else u in
  Z.lor u (Z.shiftl 1 (Z.of_nat (put_idx d k E))).

(** The arrays after room was made, the cells being [f <$> E] and [R]. *)
Lemma put_right {B} (f : entry -> B) E R x i :
  (i <= spare E)%nat ->
  take i ((f <$> E) ++ R) ++ x :: take (spare E - i) (drop i ((f <$> E) ++ R)) ++
    drop (spare E + 1) ((f <$> E) ++ R) =
  (take i (f <$> E) ++ x :: (f <$> drop_nil (drop i E))) ++
    (if (spare E <? length E)%nat then R else drop 1 R).
Proof.
  intros Hi. pose proof (spare_le E).
  rewrite <- app_assoc. simpl. rewrite take_app_le by len.
  do 2 f_equal. rewrite drop_nil_right by done. rewrite fmap_app, fmap_take, !fmap_drop.
  rewrite drop_app_le, take_app_le by len.
  rewrite <- app_assoc. f_equal.
  destruct (Nat.ltb_spec (spare E) (length E)).
  - by rewrite drop_app_le by len.
  - rewrite drop_app_ge by len.
    rewrite (drop_ge (f <$> E)) by len. simpl. f_equal.
    len.
Qed.

Lemma put_left {B} (f : entry -> B) E R x i :
  (spare E < i)%nat -> (i <= length E)%nat ->
  take (spare E) ((f <$> E) ++ R) ++
    take (i - 1 - spare E) (drop (spare E + 1) ((f <$> E) ++ R)) ++
    x :: drop i ((f <$> E) ++ R) =
  ((f <$> drop_nil (take i E)) ++ x :: drop i (f <$> E)) ++ R.
Proof.
  intros Hi Hl. rewrite drop_nil_left by done.
  rewrite fmap_app, !fmap_take, fmap_drop, <- !app_assoc. simpl.
  rewrite !take_app_le, !drop_app_le, take_app_le; rewrite ?length_drop, ?length_fmap; try lia.
  done.
Qed.

Lemma scan_nil_spec d t E :
  leaf_rep d t E ->
  scan_up (n t) (fun j => b ← cell_nil t j; Some (negb b)) 0 = Some (spare E).
Proof.
  intros Hr. destruct (spare_spec E) as [H1 H2]. pose proof (spare_le E).
  rewrite (rep_n _ _ _ Hr). apply scan_up_intro; [lia| |].
  - intros x [_ Hx]. destruct (lookup_lt_is_Some_2 E x) as [e He]; [lia|].
    rewrite (rep_cell_nil _ _ _ _ _ Hr He). simpl. by rewrite (H1 x e Hx He).
  - simpl. intros Hlt. destruct (lookup_lt_is_Some_2 E (spare E)) as [e He]; [done|].
    rewrite (rep_cell_nil _ _ _ _ _ Hr He). simpl. by rewrite (H2 e He).
Qed.

(** What the caller sees of the node apart from its entries. *)
Definition same_links (t t' : btree_s K) : Prop :=
  next t' = next t ∧ splitp t' = splitp t.

Lemma leaf_add_home d t E k :
  leaf_rep d t E -> home d k E = true ->
  ∃ t', leaf_add t k = Some (t', put_idx d k E, (63 <=? length (put_ents d k E))%nat) ∧
        leaf_rep d t' (put_ents d k E) ∧ same_links t t' ∧ used t' = put_used d k E (used t).
Proof.
  intros Hr Hh. unfold leaf_add. brun (key_scan_spec d t E k Hr).
  destruct (key_at_place d t E k Hr) as (ki & Hki & Hkeq). brun Hki.
  rewrite Hkeq, Hh. bstep.
  unfold put_idx, put_ents, put_used, put_idx. rewrite Hh.
  eexists. split_and!; [by rewrite (rep_n _ _ _ Hr)| |done..].
  destruct Hr as [? ? ? ? ? Hv]. by constructor.
Qed.

(** Room for a new key, as one step: the arrays after the stores. *)
(** What [leaf_room] and the two stores behind it leave. *)
Definition room_result (d : bool) (t : btree_s K) (E : list entry) (k : K) : Prop :=
  ∃ t1 ks vs, leaf_room t (spare E) (place d k E) = Some (t1, put_idx d k E) ∧
    store (put_idx d k E) k (key t1) = Some ks ∧
    store (put_idx d k E) (Ual_v btree_val_nil) (val t1) = Some vs ∧
    (n t1, innerp t1, descp t1, splitp t1, next t1) =
    (n t, innerp t, descp t, splitp t, next t) ∧
    Z.lor (used t1) (Z.shiftl 1 (Z.of_nat (put_idx d k E))) = put_used d k E (used t) ∧
    ks = (put_ents d k E).*1 ++ replicate (NKEY - length (put_ents d k E)) knan ∧
    ∃ junk, vs = (Ual_v <$> (put_ents d k E).*2) ++ junk ∧
            (length (put_ents d k E) + length junk = NVAL)%nat.

Lemma rep_lengths d t E :
  leaf_rep d t E -> length (key t) = 64%nat ∧ length (val t) = 64%nat.
Proof.
  intros Hr. destruct (rep_val _ _ _ Hr) as (junk & Hval & Hj). pose proof (rep_max _ _ _ Hr).
  split.
  - rewrite (rep_key _ _ _ Hr), length_app, length_fmap, length_replicate. unfold NKEY. lia.
  - rewrite Hval, length_app, !length_fmap. unfold NVAL in Hj. lia.
Qed.

Lemma put_fresh_length d k E :
  home d k E = false ->
  length (put_ents d k E) = (length E + if (length E <=? spare E)%nat then 1 else 0)%nat.
Proof.
  intros Hh. pose proof (put_ents_length d k E) as Hpl. rewrite Hh in Hpl.
  rewrite <- (take_ge E (length E)) in Hpl at 3 by done.
  by rewrite forallb_take_spare in Hpl by done.
Qed.

Lemma leaf_room_right d t E k :
  leaf_rep d t E -> (length E <= 62)%nat -> home d k E = false ->
  (place d k E <= spare E)%nat -> room_result d t E k.
Proof.
  intros Hr Hlen Hh Hcase. destruct (rep_lengths _ _ _ Hr) as [Hlk Hlv].
  pose proof (place_le d k E) as Hi. pose proof (spare_le E) as Hs.
  pose proof (rep_key _ _ _ Hr) as Hkey. destruct (rep_val _ _ _ Hr) as (junk & Hval & Hj).
  pose proof (put_fresh_length d k E Hh) as Hpl. unfold room_result, NVAL, NKEY in *.
  unfold put_used, put_idx, put_ents in *. rewrite Hh, forallb_take_spare in * by done.
  set (i := place d k E) in *.
  rewrite (proj2 (Nat.leb_le i (spare E))) in * by done.
  destruct (room_right (key t) i (spare E) k) as (k1 & Hk1 & Hlk1 & Hsk); [lia|lia|].
  destruct (room_right (val t) i (spare E) (Ual_v btree_val_nil))
    as (v1 & Hv1 & Hlv1 & Hsv); [lia|lia|].
  rewrite Hkey, (put_right fst) in Hsk by done.
  rewrite Hval, <- list_fmap_compose, (put_right (Ual_v ∘ snd)) in Hsv by done.
  set (t1 := set_used (if (i <? spare E)%nat then used_right (used t) i (spare E)
                       else used t) (set_val v1 (set_key k1 t))).
  exists t1. do 2 eexists. split_and!; [|exact Hsk|exact Hsv|done| | |].
  - unfold leaf_room. rewrite Hk1, Hv1. subst t1.
    destruct (Nat.ltb_spec i (spare E)); [done|].
    destruct (Nat.ltb_spec (spare E) i); [lia|].
    assert (spare E = i) as Heq by lia. rewrite Heq, Nat.sub_diag in *.
    apply memmove_0 in Hk1 as ->. apply memmove_0 in Hv1 as ->. by destruct t.
  - subst t1. cbn [used set_used set_val set_key].
    destruct (Nat.ltb_spec (spare E) i); [lia|done].
  - rewrite fmap_app, fmap_cons, fmap_take. f_equal. rewrite Hpl.
    destruct (Nat.ltb_spec (spare E) (length E)), (Nat.leb_spec (length E) (spare E));
      rewrite ?drop_replicate; f_equal; lia.
  - exists (if (spare E <? length E)%nat then junk else drop 1 junk). split.
    + by rewrite <- list_fmap_compose, fmap_app, fmap_cons, fmap_take.
    + rewrite Hpl. destruct (Nat.ltb_spec (spare E) (length E)),
        (Nat.leb_spec (length E) (spare E)); rewrite ?length_drop; lia.
Qed.

Lemma leaf_room_left d t E k :
  leaf_rep d t E -> (length E <= 62)%nat -> home d k E = false ->
  (spare E < place d k E)%nat -> room_result d t E k.
Proof.
  intros Hr Hlen Hh Hcase. destruct (rep_lengths _ _ _ Hr) as [Hlk Hlv].
  pose proof (place_le d k E) as Hi. pose proof (spare_le E) as Hs.
  pose proof (rep_key _ _ _ Hr) as Hkey. destruct (rep_val _ _ _ Hr) as (junk & Hval & Hj).
  pose proof (put_fresh_length d k E Hh) as Hpl. unfold room_result, NVAL, NKEY in *.
  unfold put_used, put_idx, put_ents in *. rewrite Hh, forallb_take_spare in * by done.
  set (i := place d k E) in *.
  rewrite (proj2 (Nat.leb_gt i (spare E))) in * by done.
  destruct (room_left (key t) i (spare E) k) as (k1 & Hk1 & Hlk1 & Hsk); [lia|lia|].
  destruct (room_left (val t) i (spare E) (Ual_v btree_val_nil))
    as (v1 & Hv1 & Hlv1 & Hsv); [lia|lia|].
  rewrite Hkey, (put_left fst) in Hsk by done.
  rewrite Hval, <- list_fmap_compose, (put_left (Ual_v ∘ snd)) in Hsv by done.
  exists (set_used (used_left (used t) (spare E) i) (set_val v1 (set_key k1 t))).
  do 2 eexists. split_and!; [|exact Hsk|exact Hsv|done| | |].
  - unfold leaf_room. destruct (Nat.ltb_spec i (spare E)); [lia|].
    destruct (Nat.ltb_spec (spare E) i); [|lia]. brun Hk1. by brun Hv1.
  - cbn [used set_used]. destruct (Nat.ltb_spec i (spare E)); [lia|].
    by destruct (Nat.ltb_spec (spare E) i); [|lia].
  - rewrite fmap_app, fmap_cons, fmap_drop. f_equal. rewrite Hpl.
    destruct (Nat.leb_spec (length E) (spare E)); f_equal; lia.
  - exists junk. split.
    + by rewrite <- list_fmap_compose, fmap_app, fmap_cons, fmap_drop.
    + rewrite Hpl. destruct (Nat.leb_spec (length E) (spare E)); lia.
Qed.

Lemma leaf_room_rep d t E k :
  leaf_rep d t E -> (length E <= 62)%nat -> home d k E = false -> room_result d t E k.
Proof.
  intros. destruct (Nat.leb_spec (place d k E) (spare E)).
  - by apply leaf_room_right.
  - by apply leaf_room_left.
Qed.

Lemma leaf_add_fresh d t E k :
  leaf_rep d t E -> (length E <= 62)%nat -> home d k E = false ->
  ∃ t', leaf_add t k = Some (t', put_idx d k E, (63 <=? length (put_ents d k E))%nat) ∧
        leaf_rep d t' (put_ents d k E) ∧ same_links t t' ∧ used t' = put_used d k E (used t).
Proof.
  intros Hr Hlen Hh. unfold leaf_add. brun (key_scan_spec d t E k Hr).
  destruct (key_at_place d t E k Hr) as (ki & Hki & Hkeq). brun Hki.
  rewrite Hkeq, Hh. brun (scan_nil_spec d t E Hr).
  destruct (leaf_room_rep d t E k Hr Hlen Hh)
    as (t1 & ks & vs & Hroom & Hks & Hvs & Hsame & Hu & Hk' & Hv').
  brun Hroom. cbn [key val set_n]. brun Hks. brun Hvs.
  injection Hsame as Hn Hin Hde Hsp Hnx.
  pose proof (put_ents_length d k E) as Hpl. rewrite Hh in Hpl.
  rewrite <- (take_ge E (length E)) in Hpl at 3 by done.
  rewrite forallb_take_spare in Hpl by done.
  assert (n t1 + (if (spare E <? n t1)%nat then 0 else 1) = length (put_ents d k E))%nat as Hn'.
  { rewrite Hpl, Hn, (rep_n _ _ _ Hr). pose proof (spare_le E).
    destruct (Nat.ltb_spec (spare E) (length E)), (Nat.leb_spec (length E) (spare E)); lia. }
  eexists. split_and!.
  - cbn [n used set_key set_val set_n set_used]. by rewrite Hn'.
  - destruct Hr as [? ? ? ? ? ?].
    constructor; cbn [innerp descp n key val set_key set_val set_n set_used];
      [congruence|congruence|done| |exact Hk'|exact Hv'].
    rewrite Hpl. destruct (_ <=? _)%nat; lia.
  - split; [exact Hnx|exact Hsp].
  - exact Hu.
Qed.

Lemma leaf_add_rep d t E k :
  leaf_rep d t E -> (length E <= 62)%nat ->
  ∃ t', leaf_add t k = Some (t', put_idx d k E, (63 <=? length (put_ents d k E))%nat) ∧
        leaf_rep d t' (put_ents d k E) ∧ same_links t t' ∧ used t' = put_used d k E (used t).
Proof.
  intros Hr Hlen. destruct (home d k E) eqn:Hh.
  - by apply leaf_add_home.
  - by apply leaf_add_fresh.
Qed.
End leaf.
