(* ===== verification/BtreeUsed.v ===== *)
(** * The [used] words: which cells an iterator will look at

    [btree_iter_next] skips over cells whose [used] bit is clear.  A leaf is
    iterated faithfully when every level has its bit set ([used_ok]);
    [leaf_add] moves the bits along with the cells, and this file says exactly
    when that keeps the invariant. *)

From Stdlib Require Import ZArith Lia.
From stdpp Require Import prelude list gmap.
From stdpp Require Import options.
From S2P Require Import Prelude Decimal Btree BtreeLeaf.

Local Open Scope Z_scope.

(** ** Bits of the masks *)

Lemma u64_testbit x j :
  0 <= j -> Z.testbit (u64 x) j = (j <? 64) && Z.testbit x j.
Proof.
  intros Hj. unfold u64. destruct (Z.ltb_spec j 64); simpl.
  - by rewrite Z.mod_pow2_bits_low by lia.
  - by rewrite Z.mod_pow2_bits_high by lia.
Qed.

Lemma testbit_high u j : 0 <= u < 2 ^ 64 -> 64 <= j -> Z.testbit u j = false.
Proof.
  intros Hu Hj. rewrite <- (Z.mod_small u (2 ^ 64)) by lia.
  apply Z.mod_pow2_bits_high. lia.
Qed.

Lemma used_mask_testbit u lo len j :
  0 <= u < 2 ^ 64 -> (len <= 63)%nat -> 0 <= j ->
  Z.testbit (used_mask u lo len) j =
  (Z.of_nat lo <=? j) && (j <? Z.of_nat lo + Z.of_nat len) && Z.testbit u j.
Proof.
  intros Hu Hl Hj. unfold used_mask. rewrite Z.shiftl_spec by lia.
  destruct (Z.leb_spec (Z.of_nat lo) j); simpl; [|rewrite Z.testbit_neg_r by lia; done].
  rewrite Z.land_spec, Z.shiftr_spec, u64_testbit by lia.
  replace (Z.shiftl 1 (Z.of_nat len) - 1) with (Z.ones (Z.of_nat len))
    by (rewrite Z.ones_equiv, Z.shiftl_1_l; lia).
  replace (j - Z.of_nat lo + Z.of_nat lo) with j by lia.
  rewrite Z.testbit_ones_nonneg by lia.
  destruct (Z.ltb_spec (j - Z.of_nat lo) (Z.of_nat len)),
    (Z.ltb_spec j (Z.of_nat lo + Z.of_nat len)), (Z.ltb_spec (j - Z.of_nat lo) 64);
    simpl; try lia; by destruct (Z.testbit u j).
Qed.

(** The word is a 64-bit word again. *)
Lemma land_bound a b : 0 <= a -> 0 <= Z.land a b.
Proof. intros. apply Z.land_nonneg. by left. Qed.

Lemma word_bound u : 0 <= u -> (∀ j, 64 <= j -> Z.testbit u j = false) -> 0 <= u < 2 ^ 64.
Proof.
  intros Hu Hb. split; [done|]. destruct (Z.eq_dec u 0) as [->|]; [lia|].
  apply Z.log2_lt_pow2; [lia|].
  destruct (Z.lt_ge_cases (Z.log2 u) 64) as [|Hge]; [done|].
  specialize (Hb _ Hge). rewrite Z.bit_log2 in Hb by lia. done.
Qed.

Ltac bit_cases :=
  repeat match goal with
    | |- context [?a <? ?b] => destruct (Z.ltb_spec a b)
    | |- context [?a <=? ?b] => destruct (Z.leb_spec a b)
    | |- context [?a =? ?b] => destruct (Z.eqb_spec a b)
    end; cbn [andb orb negb xorb]; try lia.

Lemma used_right_testbit u i nul j :
  0 <= u < 2 ^ 64 -> (i < nul <= 63)%nat -> 0 <= j ->
  Z.testbit (used_right u i nul) j =
  if (Z.of_nat i <=? j) && (j <? Z.of_nat nul) then (Z.of_nat i <? j) && Z.testbit u (j - 1)
  else if j =? Z.of_nat nul then xorb (Z.testbit u j) (Z.testbit u (j - 1))
  else Z.testbit u j.
Proof.
  intros Hu Hn Hj. unfold used_right.
  rewrite !Z.lxor_spec, !u64_testbit, Z.shiftl_spec by lia.
  destruct (Z.leb_spec 1 j).
  - rewrite u64_testbit, !used_mask_testbit by lia. bit_cases;
      destruct (Z.testbit u j), (Z.testbit u (j - 1)); try done; lia.
  - replace j with 0 by lia. rewrite !(fun a => Z.testbit_neg_r a (0 - 1) ltac:(lia)).
    rewrite used_mask_testbit by lia. bit_cases; by destruct (Z.testbit u 0).
Qed.

Lemma used_left_testbit u nul i j :
  0 <= u < 2 ^ 64 -> (nul < i <= 63)%nat -> 0 <= j ->
  Z.testbit (used_left u nul i) j =
  if (Z.of_nat nul <=? j) && (j <? Z.of_nat i)
  then (j <? Z.of_nat i - 1) && Z.testbit u (j + 1)
  else if j =? Z.of_nat nul - 1 then xorb (Z.testbit u j) (Z.testbit u (j + 1))
  else Z.testbit u j.
Proof.
  intros Hu Hn Hj. unfold used_left.
  rewrite !Z.lxor_spec, Z.shiftr_spec, !u64_testbit, !used_mask_testbit by lia.
  bit_cases; destruct (Z.testbit u j), (Z.testbit u (j + 1)); try done; lia.
Qed.

Lemma lxor_pos a b : 0 <= a -> 0 <= b -> 0 <= Z.lxor a b.
Proof. intros. apply Z.lxor_nonneg. lia. Qed.

Lemma u64_pos x : 0 <= u64 x.
Proof. apply Z.mod_pos_bound. lia. Qed.

Lemma used_right_bound u i nul :
  0 <= u < 2 ^ 64 -> (i < nul <= 63)%nat -> 0 <= used_right u i nul < 2 ^ 64.
Proof.
  intros Hu Hn. apply word_bound.
  - unfold used_right. apply lxor_pos; [apply lxor_pos|]; auto using u64_pos with lia.
  - intros j Hj. rewrite used_right_testbit by lia. bit_cases. by apply testbit_high.
Qed.

Lemma used_left_bound u nul i :
  0 <= u < 2 ^ 64 -> (nul < i <= 63)%nat -> 0 <= used_left u nul i < 2 ^ 64.
Proof.
  intros Hu Hn. apply word_bound.
  - unfold used_left. apply lxor_pos; [apply lxor_pos|apply Z.shiftr_nonneg];
      auto using u64_pos with lia.
  - intros j Hj. rewrite used_left_testbit by lia. bit_cases. by apply testbit_high.
Qed.

(** Setting a bit. *)
Lemma lor_bit_testbit u i j :
  0 <= i -> 0 <= j ->
  Z.testbit (Z.lor u (Z.shiftl 1 i)) j = Z.testbit u j || (j =? i).
Proof.
  intros. rewrite Z.lor_spec, Z.shiftl_1_l, Z.pow2_bits_eqb by lia.
  by rewrite (Z.eqb_sym i j).
Qed.

Lemma lor_bit_bound u i :
  0 <= u < 2 ^ 64 -> (i < 64)%nat -> 0 <= Z.lor u (Z.shiftl 1 (Z.of_nat i)) < 2 ^ 64.
Proof.
  intros Hu Hi. apply word_bound.
  - apply Z.lor_nonneg. split; [lia|]. apply Z.shiftl_nonneg. lia.
  - intros j Hj. rewrite lor_bit_testbit by lia.
    rewrite (testbit_high u) by lia. by bit_cases.
Qed.

Section used.
Context `{BKey K}.
#[local] Abbreviation entry := (K * btree_val)%type.
Implicit Types (E : list entry) (t : btree_s K) (k : K).

(** The spare cell that [leaf_add] is going to reuse carries no stale bit,
    or the cells that move do not touch it. *)
Definition used_safe (d : bool) (k : K) (E : list entry) (u : Z) : Prop :=
  home d k E = true ∨ place d k E = spare E ∨
  (spare E = 0%nat ∧ (0 < place d k E)%nat) ∨
  Z.testbit u (Z.of_nat (spare E)) = false.

#[export] Instance used_safe_dec d k E u : Decision (used_safe d k E u).
Proof. unfold used_safe. apply _. Defined.

(** The entries after [leaf_add], cell by cell. *)
Lemma put_ents_right d k E j :
  home d k E = false -> (place d k E <= spare E)%nat ->
  put_ents d k E !! j =
  if decide (j = place d k E) then Some (k, btree_val_nil)
  else if decide (place d k E < j <= spare E)%nat then E !! (j - 1)%nat else E !! j.
Proof.
  intros Hh Hle. pose proof (place_le d k E). pose proof (spare_le E).
  unfold put_ents. rewrite Hh, forallb_take_spare by done.
  set (i := place d k E) in *. destruct (Nat.leb_spec i (spare E)); [|lia].
  rewrite drop_nil_right by done.
  destruct (decide (j < i)%nat).
  { rewrite lookup_app_l by len. rewrite lookup_take_lt by done.
    by rewrite !decide_False by lia. }
  rewrite lookup_app_r; rewrite length_take; [|lia].
  rewrite Nat.min_l by lia. destruct (j - i)%nat as [|m] eqn:Hm; simpl.
  { by rewrite decide_True by lia. }
  rewrite decide_False by lia.
  destruct (decide (i < j <= spare E)%nat).
  - rewrite lookup_app_l by len.
    rewrite lookup_take_lt, lookup_drop by lia. f_equal. lia.
  - rewrite lookup_app_r; rewrite length_take, length_drop; [|lia].
    rewrite Nat.min_l, lookup_drop by lia. f_equal. lia.
Qed.

Lemma put_ents_left d k E j :
  home d k E = false -> (spare E < place d k E)%nat ->
  put_ents d k E !! j =
  if decide (j = place d k E - 1)%nat then Some (k, btree_val_nil)
  else if decide (spare E <= j < place d k E - 1)%nat then E !! (j + 1)%nat else E !! j.
Proof.
  intros Hh Hlt. pose proof (place_le d k E). pose proof (spare_le E).
  unfold put_ents. rewrite Hh, forallb_take_spare by done.
  set (i := place d k E) in *. destruct (Nat.leb_spec i (spare E)); [lia|].
  rewrite drop_nil_left by lia. rewrite <- app_assoc.
  destruct (decide (j < spare E)%nat).
  { rewrite lookup_app_l by len. rewrite lookup_take_lt by done.
    by rewrite !decide_False by lia. }
  rewrite lookup_app_r; rewrite length_take; [|lia]. rewrite Nat.min_l by lia.
  destruct (decide (j < i - 1)%nat).
  - rewrite lookup_app_l by len.
    rewrite lookup_take_lt, lookup_drop by lia.
    rewrite decide_False, decide_True by lia. f_equal. lia.
  - rewrite lookup_app_r; rewrite length_take, length_drop; [|lia].
    rewrite Nat.min_l by lia.
    destruct (j - spare E - (i - 1 - spare E))%nat as [|m] eqn:Hm; simpl.
    { by rewrite decide_True by lia. }
    rewrite !decide_False, lookup_drop by lia. f_equal. lia.
Qed.

Lemma put_used_bound d k E u :
  0 <= u < 2 ^ 64 -> (length E <= 62)%nat -> 0 <= put_used d k E u < 2 ^ 64.
Proof.
  intros Hu Hl. pose proof (place_le d k E). pose proof (spare_le E).
  unfold put_used. apply lor_bit_bound.
  - destruct (home d k E); [done|].
    destruct (Nat.ltb_spec (place d k E) (spare E)); [apply used_right_bound; lia|].
    destruct (Nat.ltb_spec (spare E) (place d k E)); [apply used_left_bound; lia|done].
  - unfold put_idx. destruct (home d k E); [lia|]. destruct (forallb _ _); lia.
Qed.

(** Which cells lie on the two sides of the spare one. *)
Lemma live_new k : live (k, btree_val_nil) = false.
Proof. done. Qed.

(** A spare cell without a stale bit: every level keeps its bit. *)
Lemma used_ok_put d k E u :
  used_ok u E -> (length E <= 62)%nat -> used_safe d k E u ->
  used_ok (put_used d k E u) (put_ents d k E).
Proof.
  intros [Hu Hok] Hl Hsafe. split; [by apply put_used_bound|].
  intros j e He Hlive. pose proof (place_le d k E). pose proof (spare_le E).
  unfold put_used. rewrite lor_bit_testbit by lia.
  destruct (home d k E) eqn:Hh.
  { unfold put_ents in He. rewrite Hh in He. by rewrite (Hok _ _ He Hlive). }
  destruct (Nat.ltb_spec (place d k E) (spare E)).
  - rewrite (put_ents_right d k E j Hh) in He by lia.
    rewrite used_right_testbit by lia.
    repeat case_decide; simplify_eq.
    + apply Hok in He; [|done]. replace (Z.of_nat (j - 1)) with (Z.of_nat j - 1) in He by lia.
      rewrite He, andb_true_r, xorb_true_r.
      assert (Z.of_nat j = Z.of_nat (spare E) -> Z.testbit u (Z.of_nat j) = false) as Hst.
      { intros ->. destruct Hsafe as [?|[?|[?|?]]]; [congruence|lia|lia|done]. }
      bit_cases; try done. by rewrite Hst.
    + apply Hok in He; [|done]. rewrite He. bit_cases; lia || done.
  - destruct (Nat.ltb_spec (spare E) (place d k E)).
    + rewrite (put_ents_left d k E j Hh) in He by lia.
      rewrite used_left_testbit by lia.
      repeat case_decide; simplify_eq.
      * apply Hok in He; [|done]. replace (Z.of_nat (j + 1)) with (Z.of_nat j + 1) in He by lia.
        rewrite He. bit_cases; done || lia.
      * apply Hok in He; [|done]. rewrite He.
        assert (Z.of_nat j = Z.of_nat (spare E) - 1 -> Z.testbit u (Z.of_nat j + 1) = false) as Hst.
        { intros Hjj. destruct Hsafe as [?|[?|[?|?]]]; [congruence|lia|lia|].
          by replace (Z.of_nat j + 1) with (Z.of_nat (spare E)) by lia. }
        bit_cases; try done; try lia. by rewrite Hst by lia.
    + rewrite (put_ents_right d k E j Hh) in He by lia.
      repeat case_decide; simplify_eq; [lia|].
      by rewrite (Hok _ _ He Hlive).
Qed.

(** Otherwise the level next to the spare cell loses its bit. *)
Lemma used_lost_put d k E u :
  used_ok u E -> (length E <= 62)%nat -> ¬ used_safe d k E u ->
  ∃ e j, E !! (spare E - 1)%nat = Some e ∧ live e = true ∧
         put_ents d k E !! j = Some e ∧
         Z.testbit (put_used d k E u) (Z.of_nat j) = false.
Proof.
  intros [Hu Hok] Hl Hunsafe. pose proof (place_le d k E). pose proof (spare_le E).
  unfold used_safe in Hunsafe.
  destruct (home d k E) eqn:Hh; [naive_solver|].
  destruct (Z.testbit u (Z.of_nat (spare E))) eqn:Hst; [|naive_solver].
  assert (0 < spare E)%nat as Hpos.
  { destruct (decide (spare E = 0%nat)) as [Hz|]; [|lia].
    destruct (decide (place d k E = 0%nat)); naive_solver lia. }
  destruct (lookup_lt_is_Some_2 E (spare E - 1)) as [e He]; [lia|].
  assert (live e = true) as Hlive.
  { eapply (proj1 (spare_spec E)); [|exact He]. lia. }
  pose proof (Hok _ _ He Hlive) as Hbit.
  exists e. destruct (decide (place d k E < spare E)%nat).
  - exists (spare E). split_and!; [done|done| |].
    + rewrite put_ents_right by (done || lia).
      rewrite decide_False, decide_True by lia. done.
    + unfold put_used, put_idx. rewrite Hh, lor_bit_testbit, forallb_take_spare by lia.
      destruct (Nat.ltb_spec (place d k E) (spare E)); [|lia].
      rewrite used_right_testbit by lia.
      replace (Z.of_nat (spare E) - 1) with (Z.of_nat (spare E - 1)) by lia.
      rewrite Hst, Hbit. destruct (Nat.leb_spec (place d k E) (spare E)); bit_cases; done || lia.
  - assert (spare E < place d k E)%nat by naive_solver lia.
    exists (spare E - 1)%nat. split_and!; [done|done| |].
    + rewrite put_ents_left by (done || lia). by rewrite !decide_False by lia.
    + unfold put_used, put_idx. rewrite Hh, lor_bit_testbit, forallb_take_spare by lia.
      destruct (Nat.ltb_spec (place d k E) (spare E)); [lia|].
      destruct (Nat.ltb_spec (spare E) (place d k E)); [|lia].
      rewrite used_left_testbit by lia.
      replace (Z.of_nat (spare E - 1) + 1) with (Z.of_nat (spare E)) by lia.
      rewrite Hst, Hbit. destruct (Nat.leb_spec (place d k E) (spare E)); bit_cases; done || lia.
Qed.
End used.
