(* ===== verification/BtreeIter.v ===== *)
(** * Iteration, [btree_top] and [btree_clr] over the chain of leaves

    The leaves hang together by their [next] links.  [chain] describes the
    leaves an address leads to; [btree_iter_next] walks them and yields the
    live cells in order, whatever [__builtin_ctzll(0)] returns, provided every
    level has its [used] bit set. *)

From Stdlib Require Import ZArith Lia.
From stdpp Require Import prelude list gmap.
From stdpp Require Import options.
From S2P Require Import Prelude Decimal Btree BtreeLeaf BtreeUsed.

Local Open Scope Z_scope.

(** ** Trailing zeros *)

Lemma pos_ctz_spec p :
  Z.testbit (Zpos p) (Z.of_nat (pos_ctz p)) = true ∧
  ∀ j, 0 <= j < Z.of_nat (pos_ctz p) -> Z.testbit (Zpos p) j = false.
Proof.
  induction p as [p IH|p [IH1 IH2]|]; [by split; [|simpl; lia]| |by split; [|simpl; lia]].
  cbn [pos_ctz]. rewrite Nat2Z.inj_succ, Pos2Z.inj_xO. split.
  - by rewrite Z.double_bits_succ.
  - intros j Hj. destruct (decide (j = 0)) as [->|]; [apply Z.testbit_even_0|].
    rewrite <- (Z.succ_pred j), Z.double_bits_succ. apply IH2. lia.
Qed.

Section iter.
Context `{BKey K}.
#[local] Abbreviation entry := (K * btree_val)%type.
Implicit Types (E : list entry) (t : btree_s K) (k : K) (h : heap K) (p q : positive).
Variable ctz0 : nat.

Lemma ctzll_spec u :
  0 <= u ->
  (u = 0 ∧ ctzll ctz0 u = ctz0) ∨
  (Z.testbit u (Z.of_nat (ctzll ctz0 u)) = true ∧
   ∀ j, 0 <= j < Z.of_nat (ctzll ctz0 u) -> Z.testbit u j = false).
Proof.
  destruct u as [|p|p]; [auto| |lia]. intros _. right. apply pos_ctz_spec.
Qed.

(** ** Live cells with their addresses *)

Fixpoint live_at (p : positive) (j : nat) (E : list entry) : list (vptr * entry) :=
  match E with
  | [] => []
  | e :: E => if live e then ((p, j), e) :: live_at p (S j) E else live_at p (S j) E
  end.

(** The live cells of leaf [p] from index [i] on. *)
Definition live_from (p : positive) (i : nat) (E : list entry) : list (vptr * entry) :=
  live_at p i (drop i E).

Lemma live_at_levels p j E : (live_at p j E).*2 = levels E.
Proof.
  revert j. induction E as [|e E IH]; intros j; simpl; [done|].
  rewrite levels_cons. destruct (live e); simpl; by rewrite IH.
Qed.

Lemma live_from_skip p i E :
  (∀ e, E !! i = Some e -> live e = false) -> live_from p i E = live_from p (S i) E.
Proof.
  unfold live_from. intros Hi. destruct (E !! i) as [e|] eqn:He.
  - rewrite (drop_S E e i He). simpl. by rewrite (Hi e eq_refl).
  - apply lookup_ge_None in He. by rewrite !drop_ge by lia.
Qed.

Lemma live_from_hit p i E e :
  E !! i = Some e -> live e = true ->
  live_from p i E = ((p, i), e) :: live_from p (S i) E.
Proof.
  intros He Hl. unfold live_from. rewrite (drop_S E e i He). simpl. by rewrite Hl.
Qed.

Lemma live_from_ge p i E : (length E <= i)%nat -> live_from p i E = [].
Proof. intros. unfold live_from. by rewrite drop_ge. Qed.

(** Dead cells in between can be skipped at once. *)
Lemma live_from_jump p i j E :
  (i <= j)%nat ->
  (∀ x e, (i <= x < j)%nat -> E !! x = Some e -> live e = false) ->
  live_from p i E = live_from p j E.
Proof.
  intros Hij Hd. induction Hij as [|j Hij IH]; [done|].
  rewrite IH by (intros x e ?; apply Hd; lia).
  apply live_from_skip. intros e. apply Hd. lia.
Qed.

(** ** One leaf *)

Lemma leaf_rep_set_used d t E u : leaf_rep d t E -> leaf_rep d (set_used u t) E.
Proof. intros [? ? ? ? ? ?]. by constructor. Qed.

Lemma clear_bit_testbit u i j :
  0 <= i -> 0 <= j ->
  Z.testbit (Z.lxor (Z.lor u (Z.shiftl 1 i)) (Z.shiftl 1 i)) j =
  Z.testbit u j && negb (j =? i).
Proof.
  intros. rewrite Z.lxor_spec, Z.lor_spec, Z.shiftl_1_l, Z.pow2_bits_eqb by lia.
  rewrite (Z.eqb_sym i j). by destruct (Z.testbit u j), (j =? i).
Qed.

Lemma used_ok_clear u i E :
  used_ok u E -> (i < 64)%nat -> (∀ e, E !! i = Some e -> live e = false) ->
  used_ok (Z.lxor (Z.lor u (Z.shiftl 1 (Z.of_nat i))) (Z.shiftl 1 (Z.of_nat i))) E.
Proof.
  intros [Hu Hok] Hi Hd. split.
  - apply word_bound.
    + apply lxor_pos; [apply lor_bit_bound; lia|]. apply Z.shiftl_nonneg. lia.
    + intros j Hj. rewrite clear_bit_testbit by lia. by rewrite testbit_high.
  - intros j e He Hl. rewrite clear_bit_testbit by lia. rewrite (Hok _ _ He Hl).
    destruct (Z.eqb_spec (Z.of_nat j) (Z.of_nat i)); [|done].
    replace j with i in He by lia. by rewrite (Hd _ He) in Hl.
Qed.

(** Cells below the next set bit are dead. *)
Lemma dead_below_ctz u0 i E x e :
  used_ok u0 E ->
  let sh := ctzll ctz0 (Z.shiftr u0 (Z.of_nat i)) in
  Z.shiftr u0 (Z.of_nat i) = 0 ∨ (x < i + sh)%nat ->
  (i <= x)%nat -> E !! x = Some e -> live e = false.
Proof.
  intros [Hu Hok] sh Hx Hi He. destruct (live e) eqn:Hl; [|done].
  specialize (Hok _ _ He Hl).
  assert (Z.testbit (Z.shiftr u0 (Z.of_nat i)) (Z.of_nat x - Z.of_nat i) = true) as Hb.
  { rewrite Z.shiftr_spec by lia. by replace (_ - _ + _) with (Z.of_nat x) by lia. }
  destruct (ctzll_spec (Z.shiftr u0 (Z.of_nat i))) as [[H0 _]|[_ Hlow]].
  - apply Z.shiftr_nonneg. lia.
  - by rewrite H0, Z.bits_0 in Hb.
  - destruct Hx as [H0|Hx]; [by rewrite H0, Z.bits_0 in Hb|].
    rewrite Hlow in Hb; [done|]. fold sh. lia.
Qed.

(** The inner loop finds the first live cell from [i] on, where [u0] is the
    [used] word the walk over this leaf started with, and clears bits of dead
    cells only. *)
Lemma iter_scan_spec fuel d t E u0 p i :
  leaf_rep d t E -> used_ok (used t) E -> used_ok u0 E ->
  let u := Z.shiftr u0 (Z.of_nat i) in
  let sh := ctzll ctz0 u in
  (0 < fuel)%nat -> (length E < fuel + (i + sh))%nat ->
  ∃ u' r, iter_scan ctz0 fuel t u sh (i + sh) = Some (set_used u' t, r) ∧ used_ok u' E ∧
    match r with
    | Some j => ∃ e, E !! j = Some e ∧ live e = true ∧ (i <= j)%nat ∧
                     live_from p i E = ((p, j), e) :: live_from p (S j) E
    | None => live_from p i E = []
    end.
Proof.
  revert t i. induction fuel as [|fuel IH]; intros t i Hr Hok Hok0 u sh Hf0 Hf; [lia|].
  pose proof (rep_max _ _ _ Hr) as Hmax.
  assert (Hdead : ∀ x e, (i <= x < i + sh)%nat -> E !! x = Some e -> live e = false).
  { intros x e Hx. apply (dead_below_ctz u0 i E x e Hok0); [right|]; subst sh u; lia. }
  cbn [iter_scan]. rewrite (rep_n _ _ _ Hr).
  destruct (Nat.ltb_spec (i + sh) (length E)) as [Hlt|Hge].
  - destruct (lookup_lt_is_Some_2 E (i + sh) Hlt) as [e He].
    brun (rep_cell_nil _ _ _ _ _ Hr He). rewrite negb_involutive.
    destruct (live e) eqn:Hl.
    + exists (used t), (Some (i + sh)%nat). split_and!; [by destruct t|done|].
      exists e. split_and!; [done|done|lia|].
      rewrite (live_from_jump p i (i + sh) E) by (auto; lia). by apply live_from_hit.
    + subst u. rewrite Z.shiftr_shiftr by lia.
      replace (Z.of_nat i + Z.of_nat (sh + 1)) with (Z.of_nat (i + sh + 1)) by lia.
      set (b := Z.shiftl 1 (Z.of_nat (i + sh))).
      set (t1 := set_used (Z.lxor (Z.lor (used t) b) b) t).
      edestruct (IH t1 (i + sh + 1)%nat) as (u' & r & Hs & Hu' & Hres);
        [by apply leaf_rep_set_used| |done|lia|lia|].
      { subst t1. cbn [used set_used]. apply used_ok_clear; [done|lia|].
        intros e' He'. by simplify_eq. }
      exists u', r. split_and!; [|done|].
      * replace (i + sh + (ctzll ctz0 (Z.shiftr u0 (Z.of_nat (i + sh + 1))) + 1))%nat
          with (i + sh + 1 + ctzll ctz0 (Z.shiftr u0 (Z.of_nat (i + sh + 1))))%nat by lia.
        rewrite Hs. by destruct t.
      * assert (live_from p i E = live_from p (i + sh + 1) E) as Heq.
        { apply live_from_jump; [lia|]. intros x e' Hx He'.
          destruct (decide (x = i + sh)%nat) as [->|]; [by simplify_eq|].
          apply (Hdead x); [lia|done]. }
        destruct r as [j|]; [|by rewrite Heq].
        destruct Hres as (e' & ? & ? & ? & ?). exists e'. split_and!; [done..|lia|congruence].
  - exists (used t), None. split_and!; [by destruct t|done|].
    rewrite (live_from_jump p i (i + sh) E) by (auto; lia). by apply live_from_ge.
Qed.

(** ** Chains of leaves *)

(** The leaves reached from [o] with their entries, all of which satisfy
    [Q]. *)
Inductive chain (d : bool) (Q : btree_s K -> list entry -> Prop) (h : heap K) :
    option positive -> list (positive * list entry) -> Prop :=
  | chain_end : chain d Q h None []
  | chain_leaf p t E C :
    hget h p = Some t -> leaf_rep d t E -> Q t E ->
    chain d Q h (next t) C ->
    chain d Q h (Some p) ((p, E) :: C).

Definition any_leaf (t : btree_s K) E : Prop := True.
Definition used_leaf (t : btree_s K) E : Prop := used_ok (used t) E.

(** The live cells of a chain, in order. *)
Definition cells (C : list (positive * list entry)) : list (vptr * entry) :=
  mjoin ((fun c => live_from c.1 0 c.2) <$> C).

(** The side of a book rooted at [p] has the leaves [C]. *)
Definition side (d : bool) Q (h : heap K) (p : positive)
    (C : list (positive * list entry)) : Prop :=
  NoDup C.*1 ∧
  ∃ l, leftmost (height_fuel h) h p = Some l ∧ chain d Q h (Some l) C.

Lemma chain_weaken d (Q Q' : btree_s K -> list entry -> Prop) h o C :
  (∀ t E, Q t E -> Q' t E) -> chain d Q h o C -> chain d Q' h o C.
Proof. intros HQ. induction 1; econstructor; eauto. Qed.

Lemma chain_fuel d Q h o C :
  chain d Q h o C -> NoDup C.*1 -> (length C <= size (hmem h))%nat.
Proof.
  intros Hc Hd. rewrite <- (length_fmap fst C), <- (size_list_to_set (C := gset positive)) by done.
  rewrite <- (size_dom (D := gset positive)). apply subseteq_size.
  intros p Hp%elem_of_list_to_set. apply elem_of_dom. clear Hd.
  induction Hc as [|p' t E C Ht]; simpl in Hp; [by apply not_elem_of_nil in Hp|].
  apply elem_of_cons in Hp as [->|]; [by exists t|auto].
Qed.

Lemma cells_cons p E C : cells ((p, E) :: C) = live_from p 0 E ++ cells C.
Proof. done. Qed.

(** ** Heaps that differ in [used] bits of dead cells only *)

Definition pruned_node (t t' : btree_s K) : Prop :=
  t' = set_used (used t') t ∧
  ∀ d E, leaf_rep d t E -> used_ok (used t) E -> used_ok (used t') E.

Definition pruned (h h' : heap K) : Prop :=
  hnext h' = hnext h ∧ ∀ p, option_relation pruned_node (λ _, False) (λ _, False)
                              (hget h p) (hget h' p).

#[export] Instance pruned_preorder : PreOrder pruned.
Proof.
  split.
  - intros h. split; [done|]. intros p. destruct (hget h p) as [t|]; simpl; [|done].
    split; [by destruct t|auto].
  - intros h1 h2 h3 [Hn1 H1] [Hn2 H2]. split; [congruence|]. intros p.
    specialize (H1 p). specialize (H2 p).
    destruct (hget h1 p) as [t1|], (hget h2 p) as [t2|], (hget h3 p) as [t3|]; try done.
    destruct H1 as [He1 Hu1], H2 as [He2 Hu2]. split; [|eauto using leaf_rep_set_used].
    + rewrite He2, He1. by destruct t1.
    + intros d E Hr Hu. apply (Hu2 d); [|by eapply Hu1].
      rewrite He1. by apply leaf_rep_set_used.
Qed.

Lemma pruned_get h h' p t :
  pruned h h' -> hget h p = Some t ->
  ∃ u, hget h' p = Some (set_used u t) ∧
       ∀ d E, leaf_rep d t E -> used_ok (used t) E -> used_ok u E.
Proof.
  intros [_ Hp] Ht. specialize (Hp p). rewrite Ht in Hp.
  destruct (hget h' p) as [t'|]; [|done]. destruct Hp as [He Hu].
  exists (used t'). rewrite <- He. eauto.
Qed.

Lemma pruned_get_inv h h' p t' :
  pruned h h' -> hget h' p = Some t' ->
  ∃ t u, hget h p = Some t ∧ t' = set_used u t.
Proof.
  intros [_ Hp] Ht. specialize (Hp p). rewrite Ht in Hp.
  destruct (hget h p) as [t|]; [|done]. destruct Hp as [He _]. eauto.
Qed.

Lemma pruned_dom h h' : pruned h h' -> dom (hmem h') = dom (hmem h).
Proof.
  intros Hp. apply set_eq. intros p. rewrite !elem_of_dom. split.
  - intros [t' Ht]. destruct (pruned_get_inv _ _ _ _ Hp Ht) as (t & ? & Ht1 & _). by exists t.
  - intros [t Ht]. destruct (pruned_get _ _ _ _ Hp Ht) as (u & Hu & _). by eexists.
Qed.

Lemma pruned_fuel h h' : pruned h h' -> height_fuel h' = height_fuel h.
Proof.
  intros Hp. unfold height_fuel. by rewrite <- !(size_dom (D := gset positive)), (pruned_dom h h').
Qed.

Lemma pruned_load h h' vp : pruned h h' -> load h' vp = load h vp.
Proof.
  intros Hp. unfold load. destruct (hget h vp.1) as [t|] eqn:Ht.
  - destruct (pruned_get _ _ _ _ Hp Ht) as (u & Hu & _). brun Hu. by destruct t.
  - destruct (hget h' vp.1) as [t'|] eqn:Ht'; [|done].
    destruct (pruned_get_inv _ _ _ _ Hp Ht') as (? & ? & ? & _). congruence.
Qed.

Lemma pruned_leftmost fuel h h' p :
  pruned h h' -> leftmost fuel h' p = leftmost fuel h p.
Proof.
  intros Hp. revert p. induction fuel as [|fuel IH]; intros p; [done|]. simpl.
  destruct (hget h p) as [t|] eqn:Ht.
  - destruct (pruned_get _ _ _ _ Hp Ht) as (u & Hu & _). brun Hu.
    assert (child (set_used u t) 0 = child t 0) as -> by by destruct t.
    change (innerp (set_used u t)) with (innerp t).
    destruct (innerp t); [|done]. destruct (child t 0); simpl; auto.
  - destruct (hget h' p) as [t'|] eqn:Ht'; [|done].
    destruct (pruned_get_inv _ _ _ _ Hp Ht') as (? & ? & ? & _). congruence.
Qed.

Lemma pruned_chain d Q h h' o C :
  (∀ t u E, leaf_rep d t E -> Q t E ->
     (used_ok (used t) E -> used_ok u E) -> Q (set_used u t) E) ->
  pruned h h' -> chain d Q h o C -> chain d Q h' o C.
Proof.
  intros HQ Hp. induction 1 as [|p t E C Ht Hr Hq Hc IH]; [constructor|].
  destruct (pruned_get _ _ _ _ Hp Ht) as (u & Hu & Hok).
  econstructor; [exact Hu|by apply leaf_rep_set_used|eauto|exact IH].
Qed.

Lemma pruned_side_used d h h' p C :
  pruned h h' -> side d used_leaf h p C -> side d used_leaf h' p C.
Proof.
  intros Hp (Hd & l & Hl & Hc). split; [done|]. exists l.
  rewrite (pruned_fuel _ _ Hp), (pruned_leftmost _ _ _ _ Hp). split; [done|].
  eapply pruned_chain; eauto. unfold used_leaf. eauto.
Qed.

(** Pruning one leaf. *)
Lemma leaf_rep_inj d d' t E E' : leaf_rep d t E -> leaf_rep d' t E' -> E = E'.
Proof.
  intros Hr Hr'. apply list_eq. intros x.
  assert (length E = length E') as Hl by by rewrite <- (rep_n _ _ _ Hr), (rep_n _ _ _ Hr').
  destruct (E !! x) as [[k v]|] eqn:He.
  - destruct (lookup_lt_is_Some_2 E' x) as [[k' v'] He'].
    { rewrite <- Hl. by eapply lookup_lt_Some. }
    pose proof (rep_cell _ _ _ _ _ Hr He). pose proof (rep_cell _ _ _ _ _ Hr' He').
    pose proof (proj1 (rep_key_lookup _ _ _ x Hr) _ He).
    pose proof (proj1 (rep_key_lookup _ _ _ x Hr') _ He'). simpl in *. congruence.
  - apply lookup_ge_None in He. symmetry. apply lookup_ge_None. lia.
Qed.

Lemma pruned_set h p d t E u :
  hget h p = Some t -> leaf_rep d t E -> used_ok u E ->
  pruned h (hset p (set_used u t) h).
Proof.
  intros Ht Hr Hu. split; [done|]. intros q. unfold hget, hset. simpl.
  destruct (decide (q = p)) as [->|Hne].
  - rewrite lookup_insert_eq. unfold hget in Ht. rewrite Ht. simpl. split; [done|].
    intros d' E' Hr' _. by rewrite <- (leaf_rep_inj _ _ _ _ _ Hr Hr').
  - rewrite lookup_insert_ne by done. destruct (hmem h !! q) as [t'|]; simpl; [|done].
    split; [by destruct t'|auto].
Qed.

(** ** The iterator *)

(** [it] has the cells [L] ahead of it. *)
Definition iter_at (d : bool) (h : heap K) (it : btree_iter K)
    (L : list (vptr * entry)) : Prop :=
  match it_t it with
  | None => L = []
  | Some p =>
    ∃ t l E C, hget h p = Some t ∧
      leftmost (height_fuel h) h p = Some l ∧
      NoDup (l :: C.*1) ∧ chain d used_leaf h (Some l) ((l, E) :: C) ∧
      L = live_from l (if innerp t then 0%nat else it_i it) E ++ cells C
  end.

Lemma leftmost_leaf h p t fuel :
  hget h p = Some t -> innerp t = false -> leftmost (S fuel) h p = Some p.
Proof. intros Ht Hi. simpl. brun Ht. by rewrite Hi. Qed.

(** Opening an iterator on a side. *)
Lemma iter_at_open d h p C k0 :
  side d used_leaf h p C -> iter_at d h (iter0 k0 p) (cells C).
Proof.
  intros (Hd & l & Hl & Hc). unfold iter_at. simpl.
  inversion Hc as [|l' t E C' Ht Hr Hq Hc']; subst.
  assert (∃ t0, hget h p = Some t0) as [t0 Ht0].
  { unfold height_fuel in Hl. simpl in Hl. destruct (hget h p); [eauto|done]. }
  exists t0, l, E, C'. split_and!; [done..|].
  rewrite cells_cons. by destruct (innerp t0).
Qed.

Lemma pruned_iter_at d h h' it L : pruned h h' -> iter_at d h it L -> iter_at d h' it L.
Proof.
  intros Hp. unfold iter_at. destruct (it_t it) as [p|]; [|done].
  intros (t & l & E & C & Ht & Hl & Hd & Hc & ->).
  destruct (pruned_get _ _ _ _ Hp Ht) as (u & Hu & _).
  exists (set_used u t), l, E, C. split_and!; [done| |done| |done].
  - by rewrite (pruned_fuel _ _ Hp), (pruned_leftmost _ _ _ _ Hp).
  - eapply pruned_chain; eauto. unfold used_leaf. eauto.
Qed.

(** [vp] is the live cell [e] of some leaf. *)
Definition live_vp (h : heap K) (vp : vptr) (e : entry) : Prop :=
  ∃ t d E, hget h vp.1 = Some t ∧ leaf_rep d t E ∧ E !! vp.2 = Some e ∧ live e = true.

Lemma live_vp_load h vp e : live_vp h vp e -> load h vp = Some e.2.
Proof.
  intros (t & d & E & Ht & Hr & He & _). unfold load. brun Ht.
  exact (rep_cell _ _ _ _ _ Hr He).
Qed.

(** What a successful or a final call of [btree_iter_next] leaves behind. *)
Definition next_post (d : bool) (h : heap K) (L : list (vptr * entry))
    (h' : heap K) (it' : btree_iter K) (b : bool) : Prop :=
  pruned h h' ∧
  match L with
  | [] => b = false ∧ it_v it' = None ∧ iter_at d h' it' []
  | (vp, e) :: L' => b = true ∧ it_v it' = Some vp ∧ it_k it' = e.1 ∧
                     live_vp h' vp e ∧ iter_at d h' it' L'
  end.

Lemma iter_chain_spec d fuel h p it E C :
  chain d used_leaf h (Some p) ((p, E) :: C) -> NoDup (p :: C.*1) ->
  (length C < fuel)%nat ->
  ∃ h' it' b, iter_chain ctz0 fuel h p it = Some (h', it', b) ∧
    next_post d h (live_from p (it_i it) E ++ cells C) h' it' b.
Proof.
  revert h p it E C. induction fuel as [|fuel IH]; intros h p it E C Hc Hd Hf; [lia|].
  inversion Hc as [|p' t E' C' Ht Hr Hq Hc']; subst.
  cbn [iter_chain]. brun Ht.
  pose proof (rep_n _ _ _ Hr) as Hn.
  destruct (iter_scan_spec (S (n t)) d t E (used t) p (it_i it)) as
    (u' & r & Hs & Hu' & Hres); [done..|lia|lia|].
  brun Hs.
  assert (Hp : pruned h (hset p (set_used u' t) h)) by by eapply pruned_set.
  assert (Hch : ∀ o C, chain d used_leaf h o C ->
            chain d used_leaf (hset p (set_used u' t) h) o C).
  { intros o C0. apply pruned_chain; [unfold used_leaf; eauto|done]. }
  assert (Hg : hget (hset p (set_used u' t) h) p = Some (set_used u' t)).
  { unfold hget, hset. simpl. by rewrite lookup_insert_eq. }
  destruct r as [j|].
  - destruct Hres as (e & He & Hl & Hj & Hlf).
    cbn [key set_used]. brun (proj1 (rep_key_lookup _ _ _ j Hr) _ He).
    do 3 eexists. split; [done|]. rewrite Hlf. simpl. split; [done|].
    split_and!; [done..| |].
    + exists (set_used u' t), d, E. by split_and!; [|apply leaf_rep_set_used|..].
    + unfold iter_at. simpl. exists (set_used u' t), p, E, C. cbn [innerp set_used].
      rewrite (rep_leaf _ _ _ Hr). split_and!; [done| |done|by apply Hch|].
      * apply (leftmost_leaf _ _ _ _ Hg). apply (rep_leaf _ _ _ Hr).
      * by rewrite Nat.add_1_r.
  - rewrite Hres. cbn [next set_used]. inversion Hc' as [Hnx|q t2 E2 C2 Ht2 Hr2 Hq2 Hc2]; subst.
    + do 3 eexists. split; [done|]. split; [done|]. by split_and!.
    + edestruct (IH (hset p (set_used u' t) h) q (mk_iter (Some q) 0 (it_k it) (it_v it)) E2 C2)
        as (h' & it' & b & Hi & Hp' & Hpost).
      * rewrite H0. by apply Hch.
      * by apply NoDup_cons in Hd as [_ Hd].
      * simpl in Hf. lia.
      * exists h', it', b. split; [done|]. split; [by etrans|done].
Qed.

Lemma iter_next_spec d h it L :
  iter_at d h it L ->
  ∃ h' it' b, btree_iter_next ctz0 h it = Some (h', it', b) ∧ next_post d h L h' it' b.
Proof.
  unfold iter_at, btree_iter_next. destruct (it_t it) as [p|].
  - intros (t & l & E & C & Ht & Hl & Hd & Hc & ->). brun Ht. brun Hl.
    edestruct (iter_chain_spec d (height_fuel h) h l) as (h' & it' & b & Hi & Hpost); eauto.
    pose proof (chain_fuel _ _ _ _ _ Hc Hd) as Hlen. unfold height_fuel. simpl in Hlen. lia.
  - intros ->. do 3 eexists. split; [done|]. split; [done|]. done.
Qed.
End iter.
