(* ===== verification/BtreeSide.v ===== *)
(** * Sides of a book: reading and writing cells through iterators

    A side is a chain of leaves under a root.  This file shows what storing to
    a cell does to a side and to an iterator under way, what [btree_top] and
    [btree_clr] do, and packs the laws of iteration into the class [Cursor],
    against which books.c is verified. *)

From Stdlib Require Import ZArith Lia.
From stdpp Require Import prelude list gmap.
From stdpp Require Import options.
From S2P Require Import Prelude Decimal Btree BtreeLeaf BtreeUsed BtreeIter.

Local Open Scope Z_scope.

Section side.
Context `{BKey K}.
#[local] Abbreviation entry := (K * btree_val)%type.
Implicit Types (E : list entry) (t : btree_s K) (k : K) (h : heap K) (p q : positive).
Implicit Types (C : list (positive * list entry)) (L : list (vptr * entry)).

(** ** Storing to a cell *)

Definition set_ent (v : btree_val) (e : entry) : entry := (e.1, v).

(** [*vp = v] on the entries of a chain. *)
Definition set_cell (vp : vptr) (v : btree_val) C : list (positive * list entry) :=
  (λ c, (c.1, if decide (c.1 = vp.1) then alter (set_ent v) vp.2 c.2 else c.2)) <$> C.

(** [*vp = v] on a list of live cells. *)
Definition revalue (vp : vptr) (v : btree_val) L : list (vptr * entry) :=
  omap (λ c, if decide (c.1 = vp)
             then if live (set_ent v c.2) then Some (vp, set_ent v c.2) else None
             else Some c) L.

Lemma set_cell_addr vp v C : (set_cell vp v C).*1 = C.*1.
Proof. unfold set_cell. rewrite <- list_fmap_compose. by apply list_fmap_ext. Qed.

Lemma revalue_app vp v L1 L2 :
  revalue vp v (L1 ++ L2) = revalue vp v L1 ++ revalue vp v L2.
Proof. apply omap_app. Qed.

Lemma revalue_id vp v L : vp ∉ L.*1 -> revalue vp v L = L.
Proof.
  induction L as [|c L IH]; [done|]. intros Hn. cbn [fmap list_fmap] in Hn.
  apply not_elem_of_cons in Hn as [Hc Hn]. unfold revalue in *. cbn [omap list_omap].
  rewrite decide_False by congruence. by rewrite IH.
Qed.

Lemma revalue_split vp v e L1 L2 :
  NoDup (L1 ++ (vp, e) :: L2).*1 ->
  revalue vp v (L1 ++ (vp, e) :: L2) =
  L1 ++ (if live (set_ent v e) then [(vp, set_ent v e)] else []) ++ L2.
Proof.
  rewrite fmap_app, fmap_cons. simpl. intros Hd.
  apply NoDup_app in Hd as (_ & Hd1 & Hd2). apply NoDup_cons in Hd2 as [Hd2 _].
  rewrite revalue_app, (revalue_id vp v L1).
  2: { intros Hin. apply (Hd1 _ Hin). left. }
  f_equal. unfold revalue. cbn [omap list_omap]. rewrite decide_True by done.
  cbn [snd]. destruct (live (set_ent v e)); simpl; [f_equal|]; by apply revalue_id.
Qed.

(** Cells of one leaf. *)
Lemma live_at_elem p j E c :
  c ∈ live_at p j E -> c.1.1 = p ∧ (j <= c.1.2)%nat ∧ E !! (c.1.2 - j)%nat = Some c.2 ∧
                       live c.2 = true.
Proof.
  revert j. induction E as [|e E IH]; simpl; intros j Hin; [by apply not_elem_of_nil in Hin|].
  destruct (live e) eqn:Hl; [apply elem_of_cons in Hin as [->|Hin]|].
  - simpl. rewrite Nat.sub_diag. eauto.
  - destruct (IH _ Hin) as (? & ? & He & ?). split_and!; [done|lia| |done].
    replace (c.1.2 - j)%nat with (S (c.1.2 - S j)) by lia. done.
  - destruct (IH _ Hin) as (? & ? & He & ?). split_and!; [done|lia| |done].
    replace (c.1.2 - j)%nat with (S (c.1.2 - S j)) by lia. done.
Qed.

Lemma live_at_revalue_ne p q i j v E :
  p ≠ q -> revalue (q, i) v (live_at p j E) = live_at p j E.
Proof.
  intros Hne. apply revalue_id. intros Hin.
  apply list_elem_of_fmap in Hin as (c & Hc & (? & _)%live_at_elem).
  destruct c as [[? ?] ?]; simpl in *; congruence.
Qed.

Lemma live_at_alter p j i v E :
  (∀ e, E !! i = Some e -> live e = true) ->
  live_at p j (alter (set_ent v) i E) = revalue (p, (j + i)%nat) v (live_at p j E).
Proof.
  revert i j. induction E as [|e E IH]; intros i j Hl; [done|].
  destruct i as [|i].
  - cbn [alter list_alter live_at]. rewrite (Hl e eq_refl).
    unfold revalue. cbn [omap list_omap]. rewrite decide_True by by rewrite Nat.add_0_r.
    fold (revalue (p, (j + 0)%nat) v (live_at p (S j) E)). cbn [snd].
    rewrite revalue_id.
    { rewrite Nat.add_0_r. by destruct (live (set_ent v e)). }
    intros Hin. apply list_elem_of_fmap in Hin as (c & Hc & (_ & Hge & _)%live_at_elem).
    destruct c as [[? ?] ?]; simplify_eq/=; lia.
  - cbn [alter list_alter live_at]. rewrite (IH i (S j)) by (intros e'; apply (Hl e')).
    replace (S j + i)%nat with (j + S i)%nat by lia.
    destruct (live e); [|done]. unfold revalue. cbn [omap list_omap].
    rewrite decide_False; [done|]. simpl. intros [= ?]. lia.
Qed.

Lemma live_from_alter p i x v E :
  (∀ e, E !! x = Some e -> live e = true) ->
  live_from p i (alter (set_ent v) x E) = revalue (p, x) v (live_from p i E).
Proof.
  intros Hl. unfold live_from. destruct (decide (x < i)%nat) as [Hx|Hx].
  - rewrite revalue_id.
    + f_equal. apply list_eq. intros y. rewrite !lookup_drop.
      by rewrite list_lookup_alter_ne by lia.
    + intros Hin. apply list_elem_of_fmap in Hin as (c & Hc & (_ & Hge & _)%live_at_elem).
      destruct c as [[? ?] ?]; simplify_eq/=; lia.
  - replace (drop i (alter (set_ent v) x E)) with (alter (set_ent v) (x - i)%nat (drop i E)).
    + rewrite live_at_alter; [by replace (i + (x - i))%nat with x by lia|].
      intros e. rewrite lookup_drop. replace (i + (x - i))%nat with x by lia. apply Hl.
    + apply list_eq. intros y. rewrite lookup_drop.
      destruct (decide (y = x - i)%nat) as [->|].
      * rewrite list_lookup_alter_eq, lookup_drop.
        replace (i + (x - i))%nat with x by lia. by rewrite list_lookup_alter_eq.
      * rewrite !list_lookup_alter_ne by lia. by rewrite lookup_drop.
Qed.

(** The cell [vp] of a chain is live wherever its leaf occurs. *)
Definition live_cell (vp : vptr) C : Prop :=
  ∀ E, (vp.1, E) ∈ C -> ∀ e, E !! vp.2 = Some e -> live e = true.

Lemma cells_set_cell vp v C :
  live_cell vp C -> cells (set_cell vp v C) = revalue vp v (cells C).
Proof.
  induction C as [|[p E] C IH]; [done|]. intros Hl.
  assert (live_cell vp C) as Hl' by (intros E' HE'; apply (Hl E'); by right).
  change (set_cell vp v ((p, E) :: C)) with
    ((p, if decide (p = vp.1) then alter (set_ent v) vp.2 E else E) :: set_cell vp v C).
  rewrite !cells_cons, revalue_app, <- IH by done. f_equal.
  destruct vp as [q x]. cbn [fst snd]. case_decide as Hpq.
  - subst. apply live_from_alter. apply (Hl E). left.
  - symmetry. apply live_at_revalue_ne. done.
Qed.

(** *** The heap after the store *)

Lemma leaf_rep_poke d t E x v e :
  leaf_rep d t E -> E !! x = Some e ->
  ∃ vs, store x (Ual_v v) (val t) = Some vs ∧
        leaf_rep d (set_val vs t) (alter (set_ent v) x E).
Proof.
  intros Hr He. destruct (rep_val _ _ _ Hr) as (junk & Hv & Hj).
  pose proof (lookup_lt_Some _ _ _ He) as Hx.
  unfold store. rewrite decide_True.
  2: { rewrite Hv, length_app, !length_fmap. lia. }
  eexists. split; [done|]. destruct Hr as [? ? Hn ? Hk ?].
  constructor; cbn [innerp descp n key val set_val]; rewrite ?length_alter; try done.
  - rewrite Hk. f_equal. apply list_eq. intros y. rewrite !list_lookup_fmap.
    destruct (decide (y = x)) as [->|];
      [rewrite list_lookup_alter_eq|by rewrite list_lookup_alter_ne].
    by destruct (E !! x).
  - exists junk. split; [|done]. rewrite Hv, insert_app_l by len.
    f_equal. apply list_eq. intros y. rewrite !list_lookup_fmap.
    destruct (decide (y = x)) as [->|].
    + rewrite list_lookup_insert_eq by len.
      by rewrite list_lookup_alter_eq, He.
    + by rewrite list_lookup_insert_ne, list_lookup_alter_ne, !list_lookup_fmap by done.
Qed.

(** A store only changes values of one leaf. *)
Definition poked (vp : vptr) (v : btree_val) (h h' : heap K) : Prop :=
  ∃ t vs, hget h vp.1 = Some t ∧ store vp.2 (Ual_v v) (val t) = Some vs ∧
          h' = hset vp.1 (set_val vs t) h.

Lemma poke_poked vp v h h' : poke vp v h = Some h' -> poked vp v h h'.
Proof.
  unfold poke, poked. destruct (hget h vp.1) as [t|]; [|done]. bstep.
  destruct (store _ _ _) as [vs|] eqn:Hs; [|done]. intros [= <-]. eauto.
Qed.

Lemma poked_get vp v h h' q t :
  poked vp v h h' -> hget h q = Some t ->
  ∃ vs, hget h' q = Some (set_val vs t) ∧
    if decide (q = vp.1) then store vp.2 (Ual_v v) (val t) = Some vs else vs = val t.
Proof.
  intros (t0 & vs & Ht0 & Hs & ->) Ht. unfold hget, hset in *. simpl.
  case_decide as Hq.
  - subst q. rewrite lookup_insert_eq. simplify_eq. eauto.
  - rewrite lookup_insert_ne by done. exists (val t). split; [|done].
    rewrite Ht. by destruct t.
Qed.

Lemma poked_fuel vp v h h' : poked vp v h h' -> height_fuel h' = height_fuel h.
Proof.
  intros (t & vs & Ht & _ & ->). unfold height_fuel, hset. simpl. f_equal.
  rewrite map_size_insert_Some; [done|]. by exists t.
Qed.

(** Following the leftmost children reads inner nodes only. *)
Lemma poked_leftmost fuel vp v h h' p l :
  poked vp v h h' -> (∀ t, hget h vp.1 = Some t -> innerp t = false) ->
  leftmost fuel h p = Some l -> leftmost fuel h' p = Some l.
Proof.
  intros Hp Hleaf. revert p. induction fuel as [|fuel IH]; intros p; [done|]. simpl.
  destruct (hget h p) as [t|] eqn:Ht; [|done]. bstep.
  destruct (poked_get _ _ _ _ _ _ Hp Ht) as (vs & Ht' & Hvs). brun Ht'.
  change (innerp (set_val vs t)) with (innerp t).
  destruct (innerp t) eqn:Hi; [|done].
  case_decide; [subst p; by rewrite (Hleaf _ Ht) in Hi|].
  subst vs. replace (set_val (val t) t) with t by by destruct t.
  destruct (child t 0); [|done]. apply IH.
Qed.

Lemma chain_poke d h h' o C vp v :
  poked vp v h h' -> live_cell vp C ->
  (∀ E, (vp.1, E) ∈ C -> (vp.2 < length E)%nat) ->
  chain d used_leaf h o C -> chain d used_leaf h' o (set_cell vp v C).
Proof.
  intros Hp Hl Hlen. induction 1 as [|p t E C Ht Hr Hq Hc IH]; [constructor|].
  destruct (poked_get _ _ _ _ _ _ Hp Ht) as (vs & Ht' & Hvs).
  assert (chain d used_leaf h' (next t) (set_cell vp v C)) as Hc'.
  { apply IH; intros E' HE'; [apply (Hl E')|apply (Hlen E')]; by right. }
  unfold set_cell. cbn [fmap list_fmap]. cbn [fst snd]. case_decide as Hpq.
  - subst p. destruct (lookup_lt_is_Some_2 E vp.2) as [e He].
    { apply (Hlen E). left. }
    destruct (leaf_rep_poke _ _ _ _ v _ Hr He) as (vs' & Hs & Hr').
    rewrite Hs in Hvs. simplify_eq.
    econstructor; [exact Ht'|done| |done].
    unfold used_leaf, used_ok in *. cbn [used set_val]. destruct Hq as [Hu Hok].
    split; [done|]. intros i e' He' Hle.
    destruct (decide (i = vp.2)) as [->|].
    + apply (Hok _ _ He). apply (Hl E); [left|done].
    + rewrite list_lookup_alter_ne in He' by done. by apply (Hok i e').
  - subst vs. replace (set_val (val t) t) with t in Ht' by by destruct t.
    by econstructor.
Qed.

(** Chains through the same address agree, so what is live in one is live in
    the other. *)
Lemma chain_get d Q h o C p E :
  chain d Q h o C -> (p, E) ∈ C -> ∃ t, hget h p = Some t ∧ leaf_rep d t E.
Proof.
  induction 1 as [|p' t E' C Ht Hr Hq Hc IH]; intros Hin; [by apply not_elem_of_nil in Hin|].
  apply elem_of_cons in Hin as [[= -> ->]|Hin]; eauto.
Qed.

Lemma live_vp_chain d Q h o C vp e :
  chain d Q h o C -> live_vp h vp e ->
  live_cell vp C ∧ ∀ E, (vp.1, E) ∈ C -> (vp.2 < length E)%nat.
Proof.
  intros Hc (t & d' & E & Ht & Hr & He & Hl).
  assert (∀ E', (vp.1, E') ∈ C -> E' = E) as HE.
  { intros E' HE'. destruct (chain_get _ _ _ _ _ _ _ Hc HE') as (t' & Ht' & Hr').
    simplify_eq. by eapply leaf_rep_inj. }
  split; intros E' ->%HE; [naive_solver|by eapply lookup_lt_Some].
Qed.

Lemma live_vp_poke h vp e v :
  live_vp h vp e -> ∃ h', poke vp v h = Some h'.
Proof.
  intros (t & d & E & Ht & Hr & He & _). unfold poke. brun Ht.
  destruct (leaf_rep_poke _ _ _ _ v _ Hr He) as (vs & Hs & _). brun Hs. eauto.
Qed.

(** *** Sides and iterators after a store to a live cell *)

Lemma live_vp_leaf h vp e t :
  live_vp h vp e -> hget h vp.1 = Some t -> innerp t = false.
Proof. intros (t' & d & E & Ht & Hr & _) ?. simplify_eq. apply (rep_leaf _ _ _ Hr). Qed.

Lemma side_poke d h h' p C vp e v :
  live_vp h vp e -> poke vp v h = Some h' ->
  side d used_leaf h p C -> side d used_leaf h' p (set_cell vp v C).
Proof.
  intros Hlv Hp%poke_poked (Hd & l & Hl & Hc).
  destruct (live_vp_chain _ _ _ _ _ _ _ Hc Hlv) as [H1 H2].
  split; [by rewrite set_cell_addr|]. exists l. split.
  - rewrite (poked_fuel _ _ _ _ Hp). eapply poked_leftmost; eauto using live_vp_leaf.
  - by eapply chain_poke.
Qed.

Lemma side_poke_cells d h p C vp e v :
  live_vp h vp e -> side d used_leaf h p C ->
  cells (set_cell vp v C) = revalue vp v (cells C).
Proof.
  intros Hlv (_ & l & _ & Hc). apply cells_set_cell.
  by apply (live_vp_chain _ _ _ _ _ _ _ Hc Hlv).
Qed.

Lemma iter_at_poke d h h' it L vp e v :
  live_vp h vp e -> poke vp v h = Some h' ->
  iter_at d h it L -> iter_at d h' it (revalue vp v L).
Proof.
  intros Hlv Hp%poke_poked. unfold iter_at. destruct (it_t it) as [p|]; [|by intros ->].
  intros (t & l & E & C & Ht & Hl & Hd & Hc & ->).
  destruct (live_vp_chain _ _ _ _ _ _ _ Hc Hlv) as [H1 H2].
  destruct (poked_get _ _ _ _ _ _ Hp Ht) as (vs & Ht' & _).
  pose proof (chain_poke _ _ _ _ _ _ _ Hp H1 H2 Hc) as Hc'.
  exists (set_val vs t), l, (if decide (l = vp.1) then alter (set_ent v) vp.2 E else E),
    (set_cell vp v C).
  split_and!; [done| |by rewrite set_cell_addr|done|].
  - rewrite (poked_fuel _ _ _ _ Hp). eapply poked_leftmost; eauto using live_vp_leaf.
  - change (innerp (set_val vs t)) with (innerp t).
    rewrite revalue_app, cells_set_cell by (intros E' HE'; apply (H1 E'); by right).
    f_equal. destruct vp as [q x]. cbn [fst snd] in *. case_decide; subst.
    + rewrite live_from_alter; [done|]. apply (H1 E). left.
    + by apply live_at_revalue_ne.
Qed.

(** The addresses of the live cells are distinct. *)
Lemma live_at_addr p j E : (live_at p j E).*1 = pair p <$> (live_at p j E).*1.*2.
Proof.
  apply list_eq. intros i. rewrite !list_lookup_fmap.
  destruct (live_at p j E !! i) as [c|] eqn:Hc; [|done]. simpl.
  apply list_elem_of_lookup_2, live_at_elem in Hc as (<- & _). by destruct c as [[? ?] ?].
Qed.

Lemma live_at_NoDup p j E : NoDup (live_at p j E).*1.
Proof.
  revert j. induction E as [|e E IH]; intros j; simpl; [constructor|].
  destruct (live e); [|done]. simpl. constructor; [|done].
  intros Hin. apply list_elem_of_fmap in Hin as (c & Hc & (_ & Hge & _)%live_at_elem).
  destruct c as [[? ?] ?]; simplify_eq/=; lia.
Qed.

Lemma cells_NoDup C : NoDup C.*1 -> NoDup (cells C).*1.
Proof.
  induction C as [|[p E] C IH]; [constructor|]. cbn [fmap list_fmap fst].
  intros [Hp Hd]%NoDup_cons. rewrite cells_cons, fmap_app. apply NoDup_app.
  split_and!; [apply live_at_NoDup| |by apply IH].
  intros vp Hin Hin'. apply Hp. clear IH Hd Hp.
  apply list_elem_of_fmap in Hin as (c & -> & (Hc & _)%live_at_elem).
  induction C as [|[q E'] C IH]; [by apply not_elem_of_nil in Hin'|].
  rewrite cells_cons, fmap_app in Hin'. apply elem_of_app in Hin' as [Hin'|Hin'].
  - apply list_elem_of_fmap in Hin' as (c' & Heq & (Hc' & _)%live_at_elem).
    cbn [fmap list_fmap fst]. replace p with q by (destruct c as [[? ?] ?], c' as [[? ?] ?];
      simpl in *; congruence). left.
  - right. by apply IH.
Qed.

(** ** Framing *)

(** Only leaves in [X] change. *)
Definition leafwise (X : list positive) (h h' : heap K) : Prop :=
  (hnext h' = hnext h ∧ dom (hmem h') = dom (hmem h)) ∧
  ∀ q t, hget h q = Some t ->
    ∃ t', hget h' q = Some t' ∧
          (t' = t ∨ q ∈ X ∧ innerp t = false ∧ innerp t' = false).

(** Sides away from [X] stay as they are. *)
Definition keeps (X : list positive) (h h' : heap K) : Prop :=
  ∀ d p C, side d used_leaf h p C -> C.*1 ## X -> side d used_leaf h' p C.

#[export] Instance keeps_preorder X : PreOrder (keeps X).
Proof. split; [by intros h d p C|]. unfold keeps. eauto. Qed.

#[export] Instance leafwise_preorder X : PreOrder (leafwise X).
Proof.
  split; [split; [done|eauto]|].
  intros h1 h2 h3 [[Hn1 Hd1] H1] [[Hn2 Hd2] H2]. split; [split; congruence|]. intros q t Ht.
  destruct (H1 _ _ Ht) as (t2 & Ht2 & Hc2). destruct (H2 _ _ Ht2) as (t3 & Ht3 & Hc3).
  exists t3. split; [done|].
  destruct Hc2 as [->|(? & ? & ?)], Hc3 as [->|(? & ? & ?)]; naive_solver.
Qed.

Lemma leafwise_fuel X h h' : leafwise X h h' -> height_fuel h' = height_fuel h.
Proof.
  intros [[_ Hd] _]. unfold height_fuel. by rewrite <- !(size_dom (D := gset positive)), Hd.
Qed.

Lemma leafwise_leftmost X fuel h h' p l :
  leafwise X h h' -> leftmost fuel h p = Some l -> leftmost fuel h' p = Some l.
Proof.
  intros [_ Hw]. revert p. induction fuel as [|fuel IH]; intros p; [done|]. simpl.
  destruct (hget h p) as [t|] eqn:Ht; [|done]. bstep.
  destruct (Hw _ _ Ht) as (t' & Ht' & [->|(_ & Hi & Hi')]); brun Ht'.
  - destruct (innerp t); [|done]. destruct (child t 0); [|done]. apply IH.
  - by rewrite Hi, Hi'.
Qed.

Lemma leafwise_chain X d Q h h' o C :
  leafwise X h h' -> chain d Q h o C -> C.*1 ## X -> chain d Q h' o C.
Proof.
  intros [_ Hw]. induction 1 as [|p t E C Ht Hr Hq Hc IH]; intros Hx; [constructor|].
  cbn [fmap list_fmap fst] in Hx.
  destruct (Hw _ _ Ht) as (t' & Ht' & [->|(Hin & _)]); [|set_solver].
  econstructor; eauto. apply IH. set_solver.
Qed.

Lemma leafwise_keeps X h h' : leafwise X h h' -> keeps X h h'.
Proof.
  intros Hw d p C (Hd & l & Hl & Hc) Hx. split; [done|]. exists l.
  rewrite (leafwise_fuel _ _ _ Hw). eauto using leafwise_leftmost, leafwise_chain.
Qed.

Lemma leafwise_other X h h' q : leafwise X h h' -> q ∉ X -> hget h' q = hget h q.
Proof.
  intros [[_ Hd] Hw] Hq. destruct (hget h q) as [t|] eqn:Ht.
  - destruct (Hw _ _ Ht) as (t' & Ht' & [->|(Hin & _)]); [done|]. by destruct Hq.
  - apply not_elem_of_dom. rewrite Hd. by apply not_elem_of_dom.
Qed.

Lemma leafwise_weaken X Y h h' : X ⊆ Y -> leafwise X h h' -> leafwise Y h h'.
Proof.
  intros Hs [Hd Hw]. split; [done|]. intros q t Ht.
  destruct (Hw q t Ht) as (t' & Ht' & Hc). exists t'. split; [done|].
  destruct Hc as [|(? & ?)]; [by left|right]. split; [by apply Hs|done].
Qed.

Lemma leafwise_hset X h p t t' :
  hget h p = Some t -> p ∈ X -> innerp t = false -> innerp t' = false ->
  leafwise X h (hset p t' h).
Proof.
  intros Ht Hx Hi Hi'. split.
  - split; [done|]. unfold hset. simpl. apply dom_insert_lookup_L. by exists t.
  - intros q tq Hq. unfold hget, hset in *. simpl.
    destruct (decide (q = p)) as [->|].
    + rewrite lookup_insert_eq. simplify_eq. eauto 8.
    + rewrite lookup_insert_ne by done. eauto.
Qed.

Lemma pruned_keeps X h h' : pruned h h' -> keeps X h h'.
Proof. intros Hp d p C Hs _. by eapply pruned_side_used. Qed.

Lemma poke_leafwise X h h' vp v e :
  live_vp h vp e -> poke vp v h = Some h' -> vp.1 ∈ X -> leafwise X h h'.
Proof.
  intros Hlv (t & vs & Ht & _ & ->)%poke_poked Hx.
  pose proof (live_vp_leaf _ _ _ _ Hlv Ht). by eapply leafwise_hset.
Qed.

(** The number of live cells is bounded by the size of the heap. *)
Lemma live_at_length p j E : (length (live_at p j E) <= length E)%nat.
Proof. revert j. induction E as [|e E IH]; intros j; simpl; [done|].
  specialize (IH (S j)). destruct (live e); simpl; lia. Qed.

Lemma cells_length d Q h p C :
  side d Q h p C -> (length (cells C) <= 64 * size (hmem h))%nat.
Proof.
  intros (Hd & l & _ & Hc). pose proof (chain_fuel _ _ _ _ _ Hc Hd) as Hf.
  assert (length (cells C) <= 64 * length C)%nat; [|lia]. clear Hf Hd.
  induction Hc as [|q t E C Ht Hr Hq Hc IH]; [done|].
  rewrite cells_cons, length_app. pose proof (live_at_length q 0 (drop 0 E)).
  pose proof (rep_max _ _ _ Hr). rewrite drop_0 in *. unfold live_from. rewrite drop_0.
  cbn [length]. lia.
Qed.
End side.
