(* ===== verification/BtreeCursor.v ===== *)
(** * The iterator's contract

    [Cursor R F] is what books.c relies on when it loops over a side: [R h A it
    L] says that the side consists of the levels [A] and that [it] has the
    levels [L] ahead; [F] relates the heaps before and after as far as the
    rest of the program can tell.  The tree's iterator is an instance whatever
    [__builtin_ctzll(0)] returns, and hence terminates. *)

From Stdlib Require Import ZArith Lia.
From stdpp Require Import prelude list gmap.
From stdpp Require Import options.
From S2P Require Import Prelude Decimal Btree BtreeLeaf BtreeUsed BtreeIter BtreeSide.

Local Open Scope Z_scope.

Section contract.
Context `{BKey K}.
#[local] Abbreviation entry := (K * btree_val)%type.

Class Cursor (ctz0 : nat)
    (R : heap K -> list (vptr * entry) -> btree_iter K -> list (vptr * entry) -> Prop)
    (F : heap K -> heap K -> Prop) := {
  cur_frame : PreOrder F;
  cur_fuel h A it L : R h A it L -> (length L <= 64 * size (hmem h))%nat;
  (** At the end the iterator says so, and goes on saying so. *)
  cur_end h A it :
    R h A it [] ->
    ∃ h' it', btree_iter_next ctz0 h it = Some (h', it', false) ∧
      F h h' ∧ R h' A it' [];
  (** Otherwise it moves to the next level, whose key and cell it shows. *)
  cur_next h A it vp e L :
    R h A it ((vp, e) :: L) ->
    ∃ h' it', btree_iter_next ctz0 h it = Some (h', it', true) ∧
      it_v it' = Some vp ∧ it_k it' = e.1 ∧ load h' vp = Some e.2 ∧
      live e = true ∧ F h h' ∧ R h' A it' L ∧
      (** The cell shown may be written without disturbing the iteration. *)
      ∀ v, ∃ h2, poke vp v h' = Some h2 ∧ F h' h2 ∧ R h2 (revalue vp v A) it' L;
}.
#[export] Existing Instance cur_frame.
End contract.

Section instance.
Context `{BKey K}.
#[local] Abbreviation entry := (K * btree_val)%type.
Variables (ctz0 : nat) (d : bool) (p : positive) (X : list positive).

(** The side at [p], whose leaves are [X]. *)
Definition on_side (h : heap K) (A : list (vptr * entry)) (it : btree_iter K)
    (L : list (vptr * entry)) : Prop :=
  ∃ C A1, side d used_leaf h p C ∧ C.*1 = X ∧ A = cells C ∧ A = A1 ++ L ∧ iter_at d h it L.

Lemma on_side_open h C k0 :
  side d used_leaf h p C -> C.*1 = X -> on_side h (cells C) (iter0 k0 p) (cells C).
Proof. intros Hs Hx. exists C, []. split_and!; try done. by apply iter_at_open. Qed.

Lemma on_side_pruned h h' A it L it' L' A1 :
  pruned h h' -> on_side h A it L -> A = A1 ++ L' -> iter_at d h' it' L' ->
  on_side h' A it' L'.
Proof.
  intros Hp (C & A0 & Hs & Hx & HA & _ & _) HA1 Hi. exists C, A1.
  split_and!; try done. by eapply pruned_side_used.
Qed.

(** The written cell is in one of the side's leaves. *)
Lemma cells_addr (C : list (positive * list entry)) vp e : (vp, e) ∈ cells C -> vp.1 ∈ C.*1.
Proof.
  induction C as [|[q E] C IH]; [by intros ?%not_elem_of_nil|].
  rewrite cells_cons. intros [Hin|Hin]%elem_of_app; cbn [fmap list_fmap fst].
  - apply live_at_elem in Hin as (Hq & _). simpl in Hq. rewrite Hq. left.
  - right. auto.
Qed.

Lemma on_side_poke h A it L vp e v A1 :
  live_vp h vp e -> A = A1 ++ (vp, e) :: L -> on_side h A it L ->
  ∃ h2, poke vp v h = Some h2 ∧ keeps X h h2 ∧ on_side h2 (revalue vp v A) it L.
Proof.
  intros Hlv HA (C & A0 & Hs & Hx & HC & _ & Hi).
  destruct (live_vp_poke _ _ _ v Hlv) as [h2 Hp]. exists h2. split; [done|].
  pose proof (cells_NoDup C (proj1 Hs)) as Hd. rewrite <- HC, HA in Hd. split.
  - apply leafwise_keeps. eapply poke_leafwise; eauto. rewrite <- Hx.
    apply (cells_addr C vp e). rewrite <- HC, HA. set_solver.
  - exists (set_cell vp v C), (A1 ++ if live (set_ent v e) then [(vp, set_ent v e)] else []).
    split_and!.
    + by eapply side_poke.
    + by rewrite set_cell_addr.
    + rewrite HC. symmetry. by eapply side_poke_cells.
    + rewrite HA, revalue_split, <- app_assoc by done. done.
    + rewrite <- (revalue_id vp v L); [by eapply iter_at_poke|].
      rewrite fmap_app, fmap_cons in Hd. apply NoDup_app in Hd as (_ & _ & Hd).
      by apply NoDup_cons in Hd as [? _].
Qed.

#[export] Instance btree_cursor : Cursor ctz0 on_side (keeps X).
Proof.
  split.
  - apply _.
  - intros h A it L (C & A1 & Hs & _ & -> & HA & _).
    pose proof (cells_length _ _ _ _ _ Hs) as Hl. rewrite HA, length_app in Hl. lia.
  - intros h A it HR. pose proof HR as (C & A1 & Hs & Hx & HC & HA & Hi).
    destruct (iter_next_spec ctz0 d h it [] Hi) as (h' & it' & b & Hn & Hp & -> & Hv & Hi').
    exists h', it'. split_and!; [done|by apply pruned_keeps|by eapply on_side_pruned].
  - intros h A it vp e L HR. pose proof HR as (C & A1 & Hs & Hx & HC & HA & Hi).
    destruct (iter_next_spec ctz0 d h it _ Hi)
      as (h' & it' & b & Hn & Hp & -> & Hv & Hk & Hlv & Hi').
    assert (on_side h' A it' L) as HR'.
    { eapply (on_side_pruned _ _ _ _ _ _ _ (A1 ++ [(vp, e)])); eauto.
      by rewrite <- app_assoc. }
    exists h', it'. split_and!; try done.
    + by apply live_vp_load.
    + by destruct Hlv as (? & ? & ? & ? & ? & ? & ?).
    + by apply pruned_keeps.
    + intros v. by apply (on_side_poke _ _ _ _ _ e v A1).
Qed.
End instance.
