(* ===== verification/BtreeOps.v ===== *)
(** * The operations of a side

    [btree_top] and [btree_clr] on chains of leaves, and [btree_get],
    [btree_put] and [btree_rem] on a root that is a leaf, as operations on the
    finite map of levels. *)

From Stdlib Require Import ZArith Lia.
From stdpp Require Import prelude list gmap fin_maps.
From stdpp Require Import options.
From S2P Require Import Prelude Decimal Btree BtreeLeaf BtreeUsed BtreeIter BtreeSide.

Local Open Scope Z_scope.

Section ops.
Context `{BKey K}.
#[local] Abbreviation entry := (K * btree_val)%type.
Implicit Types (E : list entry) (t : btree_s K) (k : K) (h : heap K) (p q : positive).
Implicit Types (C : list (positive * list entry)) (L : list (vptr * entry)).

(** ** [btree_top] *)

Lemma scan_live_spec d t E p :
  leaf_rep d t E ->
  ∃ i, scan_up (n t) (cell_nil t) 0 = Some i ∧ (i <= length E)%nat ∧
    live_from p 0 E = live_from p i E ∧
    ((i < length E)%nat -> ∃ e, E !! i = Some e ∧ live e = true).
Proof.
  intros Hr. destruct (scan_up_total (n t) (cell_nil t) 0) as [i Hi].
  { intros x Hx. rewrite (rep_n _ _ _ Hr) in Hx.
    destruct (lookup_lt_is_Some_2 E x) as [e He]; [lia|].
    rewrite (rep_cell_nil _ _ _ _ _ Hr He). eauto. }
  exists i. split; [done|]. rewrite (rep_n _ _ _ Hr) in Hi.
  apply scan_up_Some in Hi as (Hb & Ht & Hf). split_and!; [lia| |].
  - apply live_from_jump; [lia|]. intros x e Hx He. specialize (Ht x Hx).
    rewrite (rep_cell_nil _ _ _ _ _ Hr He) in Ht. by destruct (live e).
  - intros Hlt. destruct (lookup_lt_is_Some_2 E i Hlt) as [e He]. exists e. split; [done|].
    specialize (Hf ltac:(lia)). rewrite (rep_cell_nil _ _ _ _ _ Hr He) in Hf.
    by destruct (live e).
Qed.

Lemma top_chain_spec d Q fuel h p C :
  chain d Q h (Some p) C -> (length C <= fuel)%nat ->
  top_chain fuel h p = Some ((λ c, (c.2.1, c.1)) <$> head (cells C)).
Proof.
  revert p C. induction fuel as [|fuel IH]; intros p C Hc Hf.
  { inversion Hc; subst. simpl in Hf. lia. }
  inversion Hc as [|p' t E C' Ht Hr Hq Hc']; subst. cbn [top_chain]. brun Ht.
  destruct (scan_live_spec d t E p Hr) as (i & Hi & Hle & Hlf & Hlive). brun Hi.
  rewrite (rep_n _ _ _ Hr), cells_cons, Hlf.
  destruct (Nat.ltb_spec i (length E)) as [Hlt|Hge].
  - destruct (Hlive Hlt) as (e & He & Hl).
    brun (proj1 (rep_key_lookup _ _ _ i Hr) e He).
    by rewrite (live_from_hit p i E e He Hl).
  - rewrite live_from_ge by lia. simpl. inversion Hc' as [Hn|q t2 E2 C2]; subst.
    + done.
    + apply IH; [by econstructor|simpl in *; lia].
Qed.

Lemma btree_top_side d Q h p C :
  side d Q h p C ->
  btree_top h p = Some ((λ c, (c.2.1, c.1)) <$> head (cells C)).
Proof.
  intros (Hd & l & Hl & Hc). unfold btree_top. brun Hl.
  eapply top_chain_spec; [done|]. pose proof (chain_fuel _ _ _ _ _ Hc Hd).
  unfold height_fuel. lia.
Qed.

(** ** [btree_clr] *)

Definition nil_ents E : list entry := set_ent btree_val_nil <$> E.

Definition clr_cells C : list (positive * list entry) := (λ c, (c.1, nil_ents c.2)) <$> C.

Definition word_leaf t E : Prop := 0 <= used t < 2 ^ 64.

Lemma used_word t E : used_leaf t E -> word_leaf t E.
Proof. by intros [? _]. Qed.

Lemma foldl_store (x : btree_ual) m i (l : list btree_ual) :
  (i + m <= length l)%nat ->
  foldl (λ ovs j, vs ← ovs; store j x vs) (Some l) (seq i m) =
  Some (take i l ++ replicate m x ++ drop (i + m) l).
Proof.
  revert i l. induction m as [|m IH]; intros i l Hl; simpl.
  - by rewrite Nat.add_0_r, take_drop.
  - unfold store at 2. rewrite decide_True by lia.
    rewrite IH by len. f_equal.
    rewrite insert_take_drop by lia.
    rewrite take_app_ge; rewrite length_take, Nat.min_l by lia; [|lia].
    replace (S i - i)%nat with 1%nat by lia. simpl.
    rewrite take_0, <- app_assoc. simpl. do 3 f_equal.
    rewrite drop_app_ge; rewrite length_take, Nat.min_l by lia; [|lia].
    replace (S (i + m) - i)%nat with (S m) by lia. simpl. rewrite drop_drop. f_equal. lia.
Qed.

Lemma clr_leaf_rep d t E :
  leaf_rep d t E ->
  ∃ vs, clr_leaf t = Some (set_val vs t) ∧ leaf_rep d (set_val vs t) (nil_ents E).
Proof.
  intros Hr. destruct (rep_val _ _ _ Hr) as (junk & Hv & Hj).
  unfold clr_leaf. rewrite foldl_store.
  2: { rewrite (rep_n _ _ _ Hr), Hv, length_app, !length_fmap. lia. }
  bstep. eexists. split; [done|]. destruct Hr as [? ? Hn ? Hk ?].
  assert ((nil_ents E).*1 = E.*1) as Hf.
  { unfold nil_ents. rewrite <- list_fmap_compose. by apply list_fmap_ext. }
  constructor; cbn [innerp descp n key val set_val];
    unfold nil_ents; rewrite ?length_fmap; try done.
  - by fold (nil_ents E); rewrite Hf.
  - exists junk. split; [|done]. rewrite Hn, Hv. simpl.
    rewrite drop_app_ge by len. rewrite !length_fmap, Nat.sub_diag.
    simpl. f_equal. clear. induction E as [|e E IH]; [done|]. simpl. by f_equal.
Qed.

Lemma nil_ents_live p i E : live_from p i (nil_ents E) = [].
Proof.
  unfold live_from, nil_ents. rewrite <- fmap_drop. generalize (drop i E). clear E.
  intros E. revert i. induction E as [|e E IH]; intros i; simpl; [done|].
  unfold live, set_ent. simpl. apply IH.
Qed.

Lemma clr_cells_nil C : cells (clr_cells C) = [].
Proof.
  induction C as [|[p E] C IH]; [done|].
  change (clr_cells ((p, E) :: C)) with ((p, nil_ents E) :: clr_cells C).
  by rewrite cells_cons, nil_ents_live, IH.
Qed.

Lemma clr_addr C : (clr_cells C).*1 = C.*1.
Proof. unfold clr_cells. rewrite <- list_fmap_compose. by apply list_fmap_ext. Qed.

Lemma clr_chain_spec d fuel h p C :
  chain d word_leaf h (Some p) C -> NoDup C.*1 -> (length C <= fuel)%nat ->
  ∃ h', clr_chain fuel h p = Some h' ∧ leafwise C.*1 h h' ∧
        chain d used_leaf h' (Some p) (clr_cells C).
Proof.
  revert h p C. induction fuel as [|fuel IH]; intros h p C Hc Hd Hf.
  { inversion Hc; subst. simpl in Hf. lia. }
  inversion Hc as [|p' t E C' Ht Hr Hq Hc']; subst. cbn [clr_chain]. brun Ht.
  destruct (clr_leaf_rep _ _ _ Hr) as (vs & Hcl & Hr'). brun Hcl. cbn [next set_val].
  cbn [fmap list_fmap fst] in Hd. apply NoDup_cons in Hd as [Hp Hd].
  set (h1 := hset p (set_val vs t) h).
  assert (leafwise [p] h h1) as Hw.
  { eapply leafwise_hset; eauto using rep_leaf. left. }
  assert (chain d word_leaf h1 (next t) C') as Hc1.
  { eapply leafwise_chain; eauto. set_solver. }
  assert (hget h1 p = Some (set_val vs t)) as Hg by (unfold hget; apply lookup_insert_eq).
  assert (used_leaf (set_val vs t) (nil_ents E)) as Hu.
  { split; [done|]. intros i e He Hl. unfold nil_ents in He.
    rewrite list_lookup_fmap in He. by destruct (E !! i); simplify_eq/=. }
  assert (leafwise (p :: C'.*1) h h1) as Hw1.
  { eapply leafwise_hset; eauto using rep_leaf. left. }
  destruct (next t) as [q|] eqn:Hn.
  - destruct (IH h1 q C' Hc1 Hd) as (h' & Hrun & Hw' & Hc2); [simpl in Hf; lia|].
    exists h'. split; [done|].
    assert (hget h' p = Some (set_val vs t)) as Hg'.
    { destruct (proj2 Hw' _ _ Hg) as (t' & Ht' & [->|(Hin & _)]); [done|].
      set_solver. }
    split.
    + etrans; [exact Hw1|]. destruct Hw' as [Hd' Hw']. split; [done|].
      intros r tr Hr2. destruct (Hw' _ _ Hr2) as (t' & ? & [->|(? & ? & ?)]); [eauto|].
      exists t'. split; [done|]. right. split_and!; [by right|done..].
    + econstructor; [exact Hg'|done..|]. by rewrite <- Hn in Hc2.
  - exists h1. split; [done|]. inversion Hc'; subst. split; [done|].
    econstructor; [exact Hg|done..|]. cbn [next set_val]. rewrite Hn. constructor.
Qed.

(** Clearing empties the side, whatever its [used] words were, makes it
    visible again to iterators, and leaves the rest of the heap alone. *)
Lemma btree_clr_side d h p C :
  side d word_leaf h p C ->
  ∃ h', btree_clr h p = Some h' ∧ leafwise C.*1 h h' ∧
        side d used_leaf h' p (clr_cells C).
Proof.
  intros (Hd & l & Hl & Hc). unfold btree_clr. brun Hl.
  pose proof (chain_fuel _ _ _ _ _ Hc Hd).
  destruct (clr_chain_spec d (height_fuel h) h l C) as (h' & Hrun & Hw & Hc'); [done..| |].
  { unfold height_fuel. lia. }
  exists h'. split_and!; [done..|]. split; [by rewrite clr_addr|]. exists l. split; [|done].
  rewrite (leafwise_fuel _ _ _ Hw). by eapply leafwise_leftmost.
Qed.
End ops.
