(* ===== verification/BtreeMap.v ===== *)
(** * A side as a finite map

    As long as the root is a leaf, [btree_get], [btree_put] followed by a
    store, and [btree_rem] are lookup, update and deletion on the finite map
    from prices to values. *)

From Stdlib Require Import ZArith Lia.
From stdpp Require Import prelude list gmap fin_maps.
From stdpp Require Import options.
From S2P Require Import Prelude Decimal Btree BtreeLeaf BtreeUsed BtreeIter BtreeSide BtreeOps.

Local Open Scope Z_scope.

Section map.
Context `{BKey K}.
#[local] Abbreviation entry := (K * btree_val)%type.
Implicit Types (E : list entry) (t : btree_s K) (k : K) (h : heap K) (p q : positive).

(** ** The map *)

Lemma lmap_lookup d b E z v :
  ksorted d b E.*1 ->
  lmap d E !! z = Some v <-> ∃ e, e ∈ E ∧ ord d e.1 = Some z ∧ e.2 = v.
Proof.
  revert b. induction E as [|e E IH]; intros b; cbn [fmap list_fmap].
  { intros _. split; [done|]. intros (e & ?%not_elem_of_nil & _). done. }
  intros Hs. inversion Hs as [|b' k ze ks He Hb Hs' H1 H2]; subst. cbn [lmap foldr].
  rewrite He. fold (lmap d E). destruct (decide (z = ze)) as [->|Hne].
  - rewrite lookup_insert_eq. split.
    + intros [= <-]. exists e. split_and!; [left|done..].
    + intros (e' & [->|Hin]%elem_of_cons & Ho & <-); [done|].
      assert (ze < ze); [|lia].
      eapply (ksorted_bound d (Some ze) E.*1 e'.1); eauto. by apply list_elem_of_fmap_2.
  - rewrite lookup_insert_ne, (IH _ Hs') by done. split.
    + intros (e' & ? & ? & ?). exists e'. split_and!; [by right|done..].
    + intros (e' & [->|Hin]%elem_of_cons & Ho & <-); [congruence|]. eauto.
Qed.

Lemma levels_sublist E : levels E `sublist_of` E.
Proof.
  induction E as [|e E IH]; [done|]. rewrite levels_cons. destruct (live e); by constructor.
Qed.

Lemma levels_sorted d b E : ksorted d b E.*1 -> ksorted d b (levels E).*1.
Proof. apply ksorted_sublist, sublist_fst, levels_sublist. Qed.

Lemma elem_of_levels e E : e ∈ levels E <-> live e = true ∧ e ∈ E.
Proof. unfold levels. rewrite list_elem_of_filter. destruct (live e); naive_solver. Qed.

(** In a sorted list a key occurs once. *)
Lemma ksorted_unique d b E i j e e' z :
  ksorted d b E.*1 -> E !! i = Some e -> E !! j = Some e' ->
  ord d e.1 = Some z -> ord d e'.1 = Some z -> i = j.
Proof.
  revert b i j. induction E as [|e0 E IH]; intros b i j Hs Hi Hj Ho Ho'; [done|].
  cbn [fmap list_fmap] in Hs. inversion Hs as [|b' k ze ks He Hb Hs' H1 H2]; subst.
  assert (Hlt : ∀ x ex, E !! x = Some ex -> ord d ex.1 = Some z -> ze < z).
  { intros x ex Hx Hz. eapply (ksorted_bound d (Some ze) E.*1 ex.1); eauto.
    apply list_elem_of_fmap_2. by eapply list_elem_of_lookup_2. }
  destruct i as [|i], j as [|j]; simpl in *; simplify_eq; [done| | |f_equal; eauto].
  - specialize (Hlt _ _ Hj Ho'). lia.
  - specialize (Hlt _ _ Hi Ho). lia.
Qed.

(** ** Put and store *)

(** The entries after [*btree_put(t, k) = v], and the value found there. *)
Definition upsert (d : bool) (k : K) (v : btree_val) E : list entry :=
  alter (set_ent v) (put_idx d k E) (put_ents d k E).

Definition prior (d : bool) (k : K) E : btree_val :=
  match put_ents d k E !! put_idx d k E with Some e => e.2 | None => btree_val_nil end.

(** A value as a map holds it. *)
Definition val_opt (v : btree_val) : option btree_val :=
  if btree_val_nil_p v then None else Some v.

(** A key equal to that of a cell has its place. *)
Lemma keq_ord d b E i e k z :
  ksorted d b E.*1 -> E !! i = Some e -> keq k e.1 = true -> ord d k = Some z ->
  ord d e.1 = Some z.
Proof.
  intros Hs Hi Hk Hz. destruct (ksorted_lookup d b E.*1 i e.1) as (z' & Hz' & _);
    [done|by rewrite list_lookup_fmap, Hi|].
  rewrite (keq_spec _ _ _ _ _ Hz' Hz) in Hk. rewrite Hz'. f_equal. lia.
Qed.

Lemma home_cell d b E k z :
  ksorted d b E.*1 -> ord d k = Some z -> home d k E = true ->
  ∃ e, E !! place d k E = Some e ∧ ord d e.1 = Some z.
Proof. intros Hs Hz (e & He & Hk)%home_spec. exists e. split; [done|]. by eapply keq_ord. Qed.

Lemma put_key d b k z E :
  ksorted d b E.*1 -> ord d k = Some z ->
  ∃ e, put_ents d k E !! put_idx d k E = Some e ∧ ord d e.1 = Some z.
Proof.
  intros Hs Hk. destruct (put_ents_lookup d k E) as (e & He & Hh). exists e. split; [done|].
  destruct (home d k E); [|by subst].
  destruct Hh as [Hp Heq]. by eapply keq_ord.
Qed.

Lemma put_levels d k E : levels (put_ents d k E) = levels E.
Proof.
  destruct (home d k E) eqn:Hh; [|by apply put_ents_levels].
  unfold put_ents. by rewrite Hh.
Qed.

Lemma alter_keys i v E : (alter (set_ent v) i E).*1 = E.*1.
Proof.
  apply list_eq. intros j. rewrite !list_lookup_fmap.
  destruct (decide (j = i)) as [->|].
  - rewrite list_lookup_alter_eq. by destruct (E !! i).
  - by rewrite list_lookup_alter_ne.
Qed.

Lemma upsert_sorted d k z v E :
  ksorted d None E.*1 -> ord d k = Some z -> ksorted d None (upsert d k v E).*1.
Proof.
  intros. unfold upsert. rewrite alter_keys. by eapply put_ents_sorted.
Qed.

Lemma upsert_length d k v E : length (upsert d k v E) = length (put_ents d k E).
Proof. apply length_alter. Qed.

Lemma put_ents_length_le d k E : (length (put_ents d k E) <= S (length E))%nat.
Proof. rewrite put_ents_length. destruct (home d k E), (forallb live E); lia. Qed.

(** Membership after a store to the cell of key [z]. *)
Lemma elem_of_alter d b i e0 z v E e :
  ksorted d b E.*1 -> E !! i = Some e0 -> ord d e0.1 = Some z ->
  e ∈ alter (set_ent v) i E <-> e = (e0.1, v) ∨ e ∈ E ∧ ord d e.1 ≠ Some z.
Proof.
  intros Hs Hi Hz. rewrite !list_elem_of_lookup. split.
  - intros [j Hj]. destruct (decide (j = i)) as [->|Hne].
    + rewrite list_lookup_alter_eq, Hi in Hj. left. by simplify_eq/=.
    + rewrite list_lookup_alter_ne in Hj by done. right. split; [eauto|].
      intros Ho. apply Hne. by eapply ksorted_unique.
  - intros [->|[[j Hj] Ho]].
    + exists i. by rewrite list_lookup_alter_eq, Hi.
    + exists j. rewrite list_lookup_alter_ne; [done|]. intros ->. by simplify_eq.
Qed.

(** What the map has at the key of a cell. *)
Lemma entry_map d b E i e z :
  ksorted d b E.*1 -> E !! i = Some e -> ord d e.1 = Some z ->
  lmap d (levels E) !! z = val_opt e.2.
Proof.
  intros Hs Hi Hz. apply option_eq. intros w.
  rewrite (lmap_lookup d b) by by apply levels_sorted.
  setoid_rewrite elem_of_levels. unfold val_opt. split.
  - intros (e' & (Hl & [j Hj]%list_elem_of_lookup) & Ho & <-).
    assert (j = i) as -> by by eapply ksorted_unique.
    simplify_eq. unfold live in Hl. by destruct (btree_val_nil_p e.2).
  - destruct (btree_val_nil_p e.2) eqn:Hn; [done|]. intros [= <-].
    exists e. unfold live. rewrite Hn. split_and!; try done. by eapply list_elem_of_lookup_2.
Qed.

(** A store to a cell updates the map at its key: a nil value removes it. *)
Lemma alter_map d b E i e0 z v :
  ksorted d b E.*1 -> E !! i = Some e0 -> ord d e0.1 = Some z ->
  lmap d (levels (alter (set_ent v) i E)) =
  partial_alter (λ _, val_opt v) z (lmap d (levels E)).
Proof.
  intros Hs Hi Hz.
  assert (ksorted d b (alter (set_ent v) i E).*1) as Hsu by by rewrite alter_keys.
  apply map_eq. intros y. apply option_eq. intros w.
  rewrite (lmap_lookup d b) by by apply levels_sorted.
  setoid_rewrite elem_of_levels.
  setoid_rewrite (elem_of_alter d b _ e0 z v); [|done..].
  destruct (decide (y = z)) as [->|Hne].
  - rewrite lookup_partial_alter_eq. unfold val_opt. split.
    + intros (e & (Hl & [->|[_ Hn]]) & Ho & <-); [|done].
      unfold live in Hl. simpl in *. by destruct (btree_val_nil_p v).
    + destruct (btree_val_nil_p v) eqn:Hn; [done|]. intros [= <-].
      exists (e0.1, v). unfold live. simpl. rewrite Hn. by split_and!; [|left|..].
  - rewrite lookup_partial_alter_ne by done.
    rewrite (lmap_lookup d b) by by apply levels_sorted.
    setoid_rewrite elem_of_levels. split.
    + intros (e & (Hl & [->|[? _]]) & Ho & <-); [simpl in Ho; congruence|eauto].
    + intros (e & (Hl & ?) & Ho & <-). exists e. split_and!; try done. right.
      split; [done|]. congruence.
Qed.

(** [*btree_put(t, k) = v] updates the map at [k]. *)
Lemma upsert_map d k z v E :
  ksorted d None E.*1 -> ord d k = Some z ->
  lmap d (levels (upsert d k v E)) =
  partial_alter (λ _, val_opt v) z (lmap d (levels E)).
Proof.
  intros Hs Hk. destruct (put_key d None k z E Hs Hk) as (e0 & He0 & Hz).
  rewrite <- (put_levels d k E). eapply alter_map; [by eapply put_ents_sorted|done..].
Qed.

(** The value found is the map's, nil if there is none. *)
Lemma prior_map d k z E :
  ksorted d None E.*1 -> ord d k = Some z ->
  lmap d (levels E) !! z = val_opt (prior d k E).
Proof.
  intros Hs Hk. destruct (put_key d None k z E Hs Hk) as (e0 & He0 & Hz).
  unfold prior. rewrite He0, <- (put_levels d k E).
  eapply entry_map; [by eapply put_ents_sorted|done..].
Qed.

(** ** A root that is a leaf *)

(** The side at [p] is one leaf with entries [E] and [used] word [u]. *)
Definition leaf_side (d : bool) (h : heap K) (p : positive) E (u : Z) : Prop :=
  ∃ t, hget h p = Some t ∧ leaf_rep d t E ∧ used t = u ∧ next t = None ∧
       splitp t = (63 <=? length E)%nat.

Lemma leaf_side_side d h p E u :
  leaf_side d h p E u -> used_ok u E -> side d used_leaf h p [(p, E)].
Proof.
  intros (t & Ht & Hr & Hu & Hn & _) Hok. split; [apply NoDup_singleton|].
  exists p. split; [apply (leftmost_leaf _ _ _ _ Ht), (rep_leaf _ _ _ Hr)|].
  econstructor; [done..| |rewrite Hn; constructor]. unfold used_leaf. by rewrite Hu.
Qed.

Lemma leaf_cells p E : (cells [(p, E)]).*2 = levels E.
Proof. rewrite cells_cons, app_nil_r. unfold live_from. by rewrite drop_0, live_at_levels. Qed.

Lemma btree_put_leaf d h p E u k :
  leaf_side d h p E u -> (length E <= 62)%nat ->
  ∃ h', btree_put h p k = Some (h', (p, put_idx d k E)) ∧ leafwise [p] h h' ∧
        leaf_side d h' p (put_ents d k E) (put_used d k E u).
Proof.
  intros (t & Ht & Hr & Hu & Hn & Hs) Hl. unfold btree_put. brun Ht.
  rewrite Hs. destruct (Nat.leb_spec 63 (length E)); [lia|]. bstep. brun Ht.
  rewrite (rep_leaf _ _ _ Hr). cbn [negb].
  destruct (leaf_add_rep d t E k Hr Hl) as (t' & Ha & Hr' & [Hn' Hs'] & Hu'). brun Ha.
  unfold hupd. assert (hget (hset p t' h) p = Some t') as Hg by apply lookup_insert_eq.
  brun Hg. eexists. split; [done|]. split.
  - etrans; [by eapply (leafwise_hset [p] h p t t'); eauto using rep_leaf; left|].
    eapply (leafwise_hset [p] (hset p t' h) p t'); [done|left|by apply (rep_leaf _ _ _ Hr')|].
    apply (rep_leaf _ _ _ Hr').
  - exists (set_splitp (63 <=? length (put_ents d k E))%nat t'). split_and!.
    + apply lookup_insert_eq.
    + destruct Hr' as [? ? ? ? ? ?]. by constructor.
    + cbn. by rewrite Hu', Hu.
    + cbn. by rewrite Hn', Hn.
    + done.
Qed.

(** A store through the pointer to entry [i]. *)
Lemma leaf_poke d h p E u i e v :
  leaf_side d h p E u -> E !! i = Some e ->
  load h (p, i) = Some e.2 ∧
  ∃ h', poke (p, i) v h = Some h' ∧ leafwise [p] h h' ∧
        leaf_side d h' p (alter (set_ent v) i E) u.
Proof.
  intros (t & Ht & Hr & Hu & Hn & Hs) He. split.
  { unfold load. cbn [fst snd]. brun Ht. exact (rep_cell _ _ _ _ _ Hr He). }
  unfold poke. cbn [fst snd]. brun Ht.
  destruct (leaf_rep_poke d t E i v e Hr He) as (vs & Hst & Hr'). brun Hst.
  eexists. split; [done|]. split.
  - eapply leafwise_hset; eauto using rep_leaf. left.
  - exists (set_val vs t). split_and!; [apply lookup_insert_eq|done..|].
    by rewrite length_alter.
Qed.

(** [btree_val_t *tmp = btree_put(t, k); old = *tmp; *tmp = v], [v] possibly
    computed from [old]. *)
Lemma put_store_leaf d h p E u k v :
  leaf_side d h p E u -> (length E <= 62)%nat ->
  ∃ h1 h2, btree_put h p k = Some (h1, (p, put_idx d k E)) ∧
    load h1 (p, put_idx d k E) = Some (prior d k E) ∧
    poke (p, put_idx d k E) v h1 = Some h2 ∧ leafwise [p] h h2 ∧
    leaf_side d h2 p (upsert d k v E) (put_used d k E u).
Proof.
  intros Hs Hl. destruct (btree_put_leaf d h p E u k Hs Hl) as (h1 & Hput & Hw1 & Hs1).
  destruct (put_ents_lookup d k E) as (e & He & _).
  destruct (leaf_poke d h1 p _ _ _ e v Hs1 He) as (Hload & h2 & Hp & Hw2 & Hs2).
  exists h1, h2. split_and!; [done| |done|by etrans|done].
  rewrite Hload. unfold prior. by rewrite He.
Qed.

Lemma used_ok_upsert d k v E u :
  used_ok u E -> (length E <= 62)%nat -> used_safe d k E u ->
  used_ok (put_used d k E u) (upsert d k v E).
Proof.
  intros Hok Hl Hsafe. destruct (used_ok_put d k E u Hok Hl Hsafe) as [Hb Hp].
  split; [done|]. intros i e He Hlive. unfold upsert in He.
  destruct (decide (i = put_idx d k E)) as [->|].
  - unfold put_used. rewrite lor_bit_testbit by lia. rewrite Z.eqb_refl. apply orb_true_r.
  - rewrite list_lookup_alter_ne in He by done. by eapply Hp.
Qed.

(** ** Lookup and removal *)

Lemma btree_get_leaf d h p E u k :
  leaf_side d h p E u ->
  btree_get h p k = Some (if home d k E then Some (p, place d k E) else None).
Proof.
  intros (t & Ht & Hr & _). unfold btree_get. brun Ht. rewrite (rep_leaf _ _ _ Hr).
  cbn [negb]. brun (leaf_get_rep d t E k Hr). by destruct (home d k E).
Qed.

(** [btree_get] finds exactly what the map has (a nil cell counts as absent
    for the caller). *)
Lemma btree_get_map d h p E u k z :
  leaf_side d h p E u -> ksorted d None E.*1 -> ord d k = Some z ->
  ∃ r, btree_get h p k = Some r ∧
    match r with
    | Some vp => ∃ v, load h vp = Some v ∧ lmap d (levels E) !! z = val_opt v
    | None => lmap d (levels E) !! z = None
    end.
Proof.
  intros Hs Hk Hz. rewrite (btree_get_leaf _ _ _ _ _ _ Hs). eexists. split; [done|].
  pose proof (prior_map d k z E Hk Hz) as Hp. unfold prior in Hp.
  destruct (put_ents_lookup d k E) as (e & He & Hh). rewrite He in Hp.
  destruct (home d k E) eqn:Hhome; [|by subst e].
  destruct Hh as [Hpl _]. exists e.2. split; [|done].
  by apply (leaf_poke d h p E u _ _ btree_val_nil Hs Hpl).
Qed.

(** [btree_rem] hands out the level and removes it from the map. *)
Lemma btree_rem_map d h p E u k z :
  leaf_side d h p E u -> ksorted d None E.*1 -> ord d k = Some z ->
  ∃ h' w E', btree_rem h p k = Some (h', w) ∧ leafwise [p] h h' ∧
    leaf_side d h' p E' u ∧ E'.*1 = E.*1 ∧ (used_ok u E -> used_ok u E') ∧
    lmap d (levels E) !! z = val_opt w ∧
    lmap d (levels E') = delete z (lmap d (levels E)).
Proof.
  intros Hs Hk Hz. unfold btree_rem. brun (btree_get_leaf d h p E u k Hs).
  pose proof (prior_map d k z E Hk Hz) as Hp. unfold prior in Hp.
  destruct (put_ents_lookup d k E) as (e & He & Hh). rewrite He in Hp.
  destruct (home d k E) eqn:Hhome.
  - destruct Hh as [Hpl _].
    destruct (leaf_poke d h p E u _ _ btree_val_nil Hs Hpl) as (Hld & h' & Hpk & Hw & Hs').
    brun Hld. brun Hpk. exists h', e.2, (upsert d k btree_val_nil E).
    assert (upsert d k btree_val_nil E = alter (set_ent btree_val_nil) (place d k E) E) as Hup.
    { unfold upsert, put_ents, put_idx. by rewrite Hhome. }
    split_and!; [done..|by rewrite Hup| | |done|].
    + rewrite Hup. apply alter_keys.
    + rewrite Hup. intros [Hb Hok]. split; [done|]. intros i e' He' Hl.
      destruct (decide (i = place d k E)) as [->|].
      * rewrite list_lookup_alter_eq, Hpl in He'. by simplify_eq/=.
      * rewrite list_lookup_alter_ne in He' by done. by eapply Hok.
    + by rewrite (upsert_map d k z).
  - subst e. exists h, btree_val_nil, E. split_and!; try done.
    symmetry. by apply delete_id.
Qed.

(** ** Clearing a leaf *)

Lemma btree_clr_leaf d h p E u :
  leaf_side d h p E u ->
  ∃ h', btree_clr h p = Some h' ∧ leafwise [p] h h' ∧ leaf_side d h' p (nil_ents E) u.
Proof.
  intros (t & Ht & Hr & Hu & Hn & Hs). unfold btree_clr, height_fuel.
  brun (leftmost_leaf h p t (size (hmem h)) Ht (rep_leaf _ _ _ Hr)).
  cbn [clr_chain]. brun Ht. destruct (clr_leaf_rep d t E Hr) as (vs & Hcl & Hr'). brun Hcl.
  cbn [next set_val]. rewrite Hn. eexists. split; [done|]. split.
  - eapply leafwise_hset; eauto using rep_leaf. left.
  - exists (set_val vs t). split_and!; [apply lookup_insert_eq|done..|].
    unfold nil_ents. by rewrite length_fmap.
Qed.

Lemma nil_ents_keys E : (nil_ents E).*1 = E.*1.
Proof. unfold nil_ents. rewrite <- list_fmap_compose. by apply list_fmap_ext. Qed.

Lemma nil_ents_levels E : levels (nil_ents E) = [].
Proof. induction E as [|e E IH]; [done|]. unfold nil_ents in *. by rewrite fmap_cons, levels_cons. Qed.

Lemma used_ok_nil u E : 0 <= u < 2 ^ 64 -> used_ok u (nil_ents E).
Proof.
  intros Hu. split; [done|]. intros i e He Hl. unfold nil_ents in He.
  rewrite list_lookup_fmap in He. by destruct (E !! i); simplify_eq/=.
Qed.

(** In a cleared leaf every value found is nil. *)
Lemma prior_nil d k E : prior d k (nil_ents E) = btree_val_nil.
Proof.
  unfold prior. destruct (put_ents_lookup d k (nil_ents E)) as (e & -> & Hh).
  destruct (home d k (nil_ents E)); [|by subst].
  destruct Hh as [Hp _]. unfold nil_ents in Hp. rewrite list_lookup_fmap in Hp.
  by destruct (E !! _); simplify_eq/=.
Qed.

(** ** Leaves without holes *)

(** Every cell is a level and exactly their bits are set. *)
Definition full (u : Z) E : Prop :=
  forallb live E = true ∧ 0 <= u < 2 ^ 64 ∧
  ∀ j, 0 <= j -> Z.testbit u j = (j <? Z.of_nat (length E)).

Lemma full_used_ok u E : full u E -> used_ok u E.
Proof.
  intros (_ & Hu & Hb). split; [done|]. intros i e He _. rewrite Hb by lia.
  apply lookup_lt_Some in He. lia.
Qed.

Lemma spare_all E : forallb live E = true -> spare E = length E.
Proof. induction E as [|e E IH]; simpl; [done|]. intros [-> ?]%andb_prop. f_equal. auto. Qed.

Lemma full_safe d k u E : full u E -> used_safe d k E u.
Proof.
  intros (Hl & Hu & Hb). unfold used_safe. do 3 right.
  rewrite Hb, spare_all by (done || lia). lia.
Qed.

Lemma full_put_bits d k u E j :
  full u E -> (length E <= 62)%nat -> 0 <= j ->
  Z.testbit (put_used d k E u) j = (j <? Z.of_nat (length (put_ents d k E))).
Proof.
  intros (Hl & Hu & Hb) Hlen Hj. pose proof (place_le d k E).
  rewrite put_ents_length, Hl. unfold put_used, put_idx.
  rewrite (spare_all E Hl), forallb_take_spare, (spare_all E Hl) by done.
  rewrite lor_bit_testbit by lia.
  destruct (Nat.leb_spec (place d k E) (length E)); [|lia].
  destruct (home d k E) eqn:Hh.
  - destruct (home_spec d k E Hh) as (e & He%lookup_lt_Some & _). rewrite Hb by lia.
    destruct (Z.ltb_spec j (Z.of_nat (length E))), (Z.eqb_spec j (Z.of_nat (place d k E))),
      (Z.ltb_spec j (Z.of_nat (length E + 0))); simpl; lia.
  - destruct (Nat.ltb_spec (place d k E) (length E)).
    + assert (Hb' : ∀ x, Z.testbit u x = (0 <=? x) && (x <? Z.of_nat (length E))).
      { intros x. destruct (Z.leb_spec 0 x); [by apply Hb|]. by apply Z.testbit_neg_r. }
      rewrite used_right_testbit by lia. rewrite !Hb'.
      repeat match goal with
             | |- context [?a <? ?b] => destruct (Z.ltb_spec a b)
             | |- context [?a <=? ?b] => destruct (Z.leb_spec a b)
             | |- context [?a =? ?b] => destruct (Z.eqb_spec a b)
             end; simpl; lia || done.
    + destruct (Nat.ltb_spec (length E) (place d k E)); [lia|]. rewrite Hb by lia.
      repeat match goal with
             | |- context [?a <? ?b] => destruct (Z.ltb_spec a b)
             | |- context [?a =? ?b] => destruct (Z.eqb_spec a b)
             end; simpl; lia || done.
Qed.

Lemma put_live_rest d k E i e :
  forallb live E = true -> i ≠ put_idx d k E -> put_ents d k E !! i = Some e -> live e = true.
Proof.
  intros Hl Hi He. pose proof (place_le d k E).
  assert (Hall : ∀ x e', E !! x = Some e' -> live e' = true) by by apply forallb_live_lookup.
  destruct (home d k E) eqn:Hh.
  { unfold put_ents in He. rewrite Hh in He. eauto. }
  assert (put_idx d k E = place d k E) as Hidx.
  { unfold put_idx. rewrite Hh, forallb_take_spare, (spare_all E Hl) by done.
    by destruct (Nat.leb_spec (place d k E) (length E)); [|lia]. }
  rewrite put_ents_right in He by (rewrite ?(spare_all E Hl); done).
  repeat case_decide; [congruence|eauto..].
Qed.

(** Storing a level into a leaf without holes leaves no holes. *)
Lemma full_upsert d k v u E :
  full u E -> (length E <= 62)%nat -> btree_val_nil_p v = false ->
  full (put_used d k E u) (upsert d k v E).
Proof.
  intros Hf Hlen Hv. pose proof Hf as (Hl & Hu & _). split_and!.
  - apply forallb_live_lookup. intros x e He. unfold upsert in He.
    destruct (decide (x = put_idx d k E)) as [->|].
    + rewrite list_lookup_alter_eq in He. destruct (put_ents d k E !! _); simplify_eq/=.
      unfold live. simpl. by rewrite Hv.
    + rewrite list_lookup_alter_ne in He by done. by eapply put_live_rest.
  - by apply (put_used_bound d k E u Hu Hlen).
  - by apply (put_used_bound d k E u Hu Hlen).
  - intros j Hj. rewrite upsert_length. by apply full_put_bits.
Qed.

(** ** Building leaves *)

(** A leaf with given entries and [used] word. *)
Definition mk_leaf (d : bool) E (u : Z) : btree_s K :=
  mk_node (length E) false d (63 <=? length E)%nat u
    (E.*1 ++ replicate (NKEY - length E) knan)
    ((Ual_v <$> E.*2) ++ replicate (NVAL - length E) ual_zero) None.

Lemma mk_leaf_rep d E u : (length E <= 63)%nat -> leaf_rep d (mk_leaf d E u) E.
Proof.
  intros Hl. constructor; try done. exists (replicate (NVAL - length E) ual_zero).
  split; [done|]. rewrite length_replicate. unfold NVAL. lia.
Qed.

Lemma mk_leaf_side d h p E u :
  (length E <= 63)%nat -> leaf_side d (hset p (mk_leaf d E u) h) p E u.
Proof.
  intros Hl. exists (mk_leaf d E u). split_and!; try done; [apply lookup_insert_eq|].
  by apply mk_leaf_rep.
Qed.
End map.
