(* ===== verification/BtreeTree.v ===== *)
(** * Trees of any height

    [tree h m p lo hi E]: the node [p] is the root of a tree of height [m] whose
    leaves hold the entries [E], with keys above [lo] and up to [hi].  Descent
    finds the leaf a key belongs to, and [btree_get] is lookup in the map of
    all entries.  [root_split] turns a full leaf into such a tree. *)

From Stdlib Require Import ZArith Lia.
From stdpp Require Import prelude list gmap fin_maps.
From stdpp Require Import options.
From S2P Require Import Prelude Decimal Btree BtreeLeaf BtreeUsed BtreeIter BtreeSide BtreeOps.
From S2P Require Import BtreeMap.

Local Open Scope Z_scope.

Section tree.
Context `{BKey K}.
#[local] Abbreviation entry := (K * btree_val)%type.
Implicit Types (E : list entry) (t : btree_s K) (k : K) (h : heap K) (p q c : positive).
Implicit Types (lo hi : option Z).
Variable d : bool.

(** ** Bounds *)

Definition above lo (z : Z) : Prop := ∀ y, lo = Some y -> y < z.
Definition floor lo (z : Z) : Prop := ∀ y, lo = Some y -> y <= z.
Definition upto hi (z : Z) : Prop := ∀ y, hi = Some y -> z <= y.

(** All keys are numbers, in order, above [lo] and up to [hi]. *)
Definition within lo hi E : Prop :=
  ksorted d lo E.*1 ∧ ∀ e z, e ∈ E -> ord d e.1 = Some z -> upto hi z.

(** The children [cs] separated by the keys [ks]. *)
Inductive kids (T : positive -> option Z -> option Z -> list entry -> Prop) :
    list K -> list positive -> option Z -> option Z -> list entry -> Prop :=
  | kids_last c lo hi E : T c lo hi E -> kids T [] [c] lo hi E
  | kids_more k z ks c cs lo hi E1 E2 :
    ord d k = Some z -> floor lo z -> upto hi z ->
    T c lo (Some z) E1 -> kids T ks cs (Some z) hi E2 ->
    kids T (k :: ks) (c :: cs) lo hi (E1 ++ E2).

Fixpoint tree h (m : nat) p lo hi E : Prop :=
  match m with
  | O => ∃ t, hget h p = Some t ∧ leaf_rep d t E ∧ within lo hi E
  | S m =>
    ∃ t ks cs krest vrest, hget h p = Some t ∧ innerp t = true ∧ descp t = d ∧
      n t = length ks ∧ key t = ks ++ krest ∧ val t = (Ual_t ∘ Some <$> cs) ++ vrest ∧
      kids (tree h m) ks cs lo hi E
  end.

Lemma within_app lo z hi E1 E2 :
  floor lo z -> upto hi z ->
  within lo (Some z) E1 -> within (Some z) hi E2 -> within lo hi (E1 ++ E2).
Proof.
  intros Hlz Hz [Hs1 Hu1] [Hs2 Hu2]. split.
  - rewrite fmap_app. clear Hu2.
    revert lo Hlz Hs1. induction E1 as [|e E1 IH]; intros lo Hlz Hs1; simpl.
    + eapply ksorted_lb; [done|]. intros y ->. exists z. split; [done|].
      by apply Hlz.
    + cbn [fmap list_fmap] in Hs1.
      inversion Hs1 as [|b k' z' ks He Hlt Hs' H1 H2]; subst. econstructor; eauto.
      apply IH; [intros e' z2 Hin; apply Hu1; by right| |done].
      intros y [= <-]. by apply (Hu1 e); [left|..].
  - intros e z' [Hin|Hin]%elem_of_app Ho y Hy; [|by eapply Hu2].
    specialize (Hu1 e z' Hin Ho z eq_refl). specialize (Hz y Hy). lia.
Qed.

Lemma kids_within (T : positive -> option Z -> option Z -> list entry -> Prop) ks cs lo hi E :
  (∀ c lo hi E, T c lo hi E -> within lo hi E) -> kids T ks cs lo hi E -> within lo hi E.
Proof. intros HT. induction 1; [eauto|]. by eapply within_app; eauto. Qed.

Lemma tree_within h m p lo hi E : tree h m p lo hi E -> within lo hi E.
Proof.
  revert p lo hi E. induction m as [|m IH]; intros p lo hi E; cbn [tree].
  - by intros (t & _ & _ & ?).
  - intros (t & ks & cs & kr & vr & _ & _ & _ & _ & _ & _ & Hk). by eapply kids_within.
Qed.

(** ** Heights *)

Lemma kids_head T ks cs lo hi E :
  kids T ks cs lo hi E -> ∃ c cs' hi' E', cs = c :: cs' ∧ T c lo hi' E'.
Proof. destruct 1; eauto 8. Qed.

Lemma tree_child0 h m p lo hi E :
  tree h (S m) p lo hi E ->
  ∃ t c hi' E', hget h p = Some t ∧ innerp t = true ∧ child t 0 = Some c ∧ tree h m c lo hi' E'.
Proof.
  intros (t & ks & cs & kr & vr & Ht & Hi & _ & _ & _ & Hv & Hk).
  destruct (kids_head _ _ _ _ _ _ Hk) as (c & cs' & hi' & E' & -> & Hc).
  exists t, c, hi', E'. split_and!; try done. unfold child. by rewrite Hv.
Qed.

Lemma tree_height_unique h m m' p lo hi E lo' hi' E' :
  tree h m p lo hi E -> tree h m' p lo' hi' E' -> m = m'.
Proof.
  revert m' p lo hi E lo' hi' E'. induction m as [|m IH]; intros [|m'] p lo hi E lo' hi' E' H1 H2.
  - done.
  - destruct H1 as (t & Ht & Hr & _). destruct (tree_child0 _ _ _ _ _ _ H2) as (t' & ? & ? & ? & Ht' & Hi & _).
    simplify_eq. by rewrite (rep_leaf _ _ _ Hr) in Hi.
  - destruct H2 as (t & Ht & Hr & _). destruct (tree_child0 _ _ _ _ _ _ H1) as (t' & ? & ? & ? & Ht' & Hi & _).
    simplify_eq. by rewrite (rep_leaf _ _ _ Hr) in Hi.
  - destruct (tree_child0 _ _ _ _ _ _ H1) as (t1 & c1 & ? & ? & Ht1 & _ & Hc1 & T1).
    destruct (tree_child0 _ _ _ _ _ _ H2) as (t2 & c2 & ? & ? & Ht2 & _ & Hc2 & T2).
    simplify_eq. f_equal. by eapply IH.
Qed.

(** The nodes on a path are distinct, so the height is bounded by the heap. *)
Lemma tree_height h m p lo hi E : tree h m p lo hi E -> (m < size (hmem h))%nat.
Proof.
  intros HT. assert (∃ X : gset positive, size X = S m ∧ X ⊆ dom (hmem h) ∧
    ∀ q, q ∈ X -> ∃ j lo hi E, (j <= m)%nat ∧ tree h j q lo hi E) as (X & Hs & Hd & _).
  { revert p lo hi E HT. induction m as [|m IH]; intros p lo hi E HT.
    - exists {[p]}. rewrite size_singleton. split_and!; [done| |].
      + destruct HT as (t & Ht & _). intros q ->%elem_of_singleton. apply elem_of_dom. by exists t.
      + intros q ->%elem_of_singleton. by exists 0%nat, lo, hi, E.
    - destruct (tree_child0 _ _ _ _ _ _ HT) as (t & c & hi' & E' & Ht & _ & _ & Hc).
      destruct (IH _ _ _ _ Hc) as (X & Hs & Hd & Hj). exists ({[p]} ∪ X). split_and!.
      + rewrite size_union, size_singleton, Hs; [done|].
        apply disjoint_singleton_l. intros (j & ? & ? & ? & Hle & Hq)%Hj.
        pose proof (tree_height_unique _ _ _ _ _ _ _ _ _ _ Hq HT). lia.
      + intros q [->%elem_of_singleton|]%elem_of_union; [apply elem_of_dom; by exists t|auto].
      + intros q [->%elem_of_singleton|(j & ? & ? & ? & ? & ?)%Hj]%elem_of_union; [eauto 10|].
        eexists j, _, _, _. split; [lia|done]. }
  apply subseteq_size in Hd. rewrite size_dom in Hd. lia.
Qed.

(** ** Descent *)

(** The child [key_scan] selects is the one whose range [k] is in, and the
    entries of the others do not matter to a lookup of [k]. *)
Lemma kids_scan T ks cs lo hi E k z :
  (∀ c lo hi E, T c lo hi E -> within lo hi E) ->
  kids T ks cs lo hi E -> ord d k = Some z -> above lo z -> upto hi z ->
  ∃ i c lo' hi' E1 E' E2, (i <= length ks)%nat ∧ cs !! i = Some c ∧ T c lo' hi' E' ∧
    above lo' z ∧ upto hi' z ∧ E = E1 ++ E' ++ E2 ∧
    (∀ e y, e ∈ E1 -> ord d e.1 = Some y -> y < z) ∧
    (∀ e y, e ∈ E2 -> ord d e.1 = Some y -> z < y) ∧
    (∀ x, (x < i)%nat -> ∃ kx, ks !! x = Some kx ∧ before d kx k = true) ∧
    (∀ kx, ks !! i = Some kx -> before d kx k = false).
Proof.
  intros HT Hk Hz. induction Hk as [c lo hi E Hc|k1 z1 ks c cs lo hi E1 E2 Ho Hlz Hzh Hc Hk IH];
    intros Hlo Hhi.
  - exists 0%nat, c, lo, hi, [], E, []. rewrite app_nil_r.
    split_and!; try done; intros; [by apply not_elem_of_nil in H0..|lia].
  - pose proof (before_spec _ _ _ _ _ Ho Hz) as Hb. destruct (Z.ltb_spec z1 z) as [Hlt|Hge].
    + destruct IH as (i & c' & lo' & hi' & A & E' & B & Hi & Hci & Hc' & Hlo' & Hhi' & -> & HA & HB & Hpre & Hat).
      { intros y [= <-]. done. } { done. }
      exists (S i), c', lo', hi', (E1 ++ A), E', B. split_and!; simpl; try done.
      * lia.
      * by rewrite <- app_assoc.
      * intros e y [Hin|Hin]%elem_of_app Hy; [|by eapply HA].
        pose proof (proj2 (HT _ _ _ _ Hc) e y Hin Hy z1 eq_refl). lia.
      * intros [|x] Hx; simpl; [eauto|]. apply Hpre. lia.
    + exists 0%nat, c, lo, (Some z1), [], E1, E2. split_and!; simpl; try done; try lia.
      * by intros y [= <-].
      * intros e y Hin%not_elem_of_nil. done.
      * intros e y Hin Hy. assert (z1 < y); [|lia].
        eapply (ksorted_bound d (Some z1) E2.*1 e.1); eauto.
        -- by apply (kids_within T ks cs (Some z1) hi E2).
        -- by apply list_elem_of_fmap_2.
      * intros kx [= <-]. done.
Qed.

Lemma key_scan_inner t k ks krest i :
  descp t = d -> n t = length ks -> key t = ks ++ krest -> (i <= length ks)%nat ->
  (∀ x, (x < i)%nat -> ∃ kx, ks !! x = Some kx ∧ before d kx k = true) ->
  (∀ kx, ks !! i = Some kx -> before d kx k = false) ->
  key_scan t k = Some i.
Proof.
  intros Hd Hn Hk Hi Hpre Hat. unfold key_scan. rewrite Hn, Hd. apply scan_up_intro; [lia| |].
  - intros x [_ Hx]. destruct (Hpre x Hx) as (kx & Hkx & Hb).
    rewrite Hk, (lookup_app_l_Some _ _ _ _ Hkx). simpl. by rewrite <- Hb.
  - simpl. intros Hlt. destruct (lookup_lt_is_Some_2 ks i Hlt) as [kx Hkx].
    rewrite Hk, (lookup_app_l_Some _ _ _ _ Hkx). simpl. by rewrite <- (Hat kx Hkx).
Qed.

(** Entries with other keys do not matter. *)
Lemma lmap_middle E1 E E2 z :
  ksorted d None (E1 ++ E ++ E2).*1 ->
  (∀ e y, e ∈ E1 -> ord d e.1 = Some y -> y < z) ->
  (∀ e y, e ∈ E2 -> ord d e.1 = Some y -> z < y) ->
  lmap d (levels (E1 ++ E ++ E2)) !! z = lmap d (levels E) !! z.
Proof.
  intros Hs H1 H2. apply option_eq. intros v.
  assert (ksorted d None E.*1) as HsE.
  { rewrite !fmap_app in Hs. apply ksorted_app_inv in Hs as [_ Hs].
    by apply ksorted_app_inv in Hs as [? _]. }
  rewrite !(lmap_lookup d None) by by apply levels_sorted.
  setoid_rewrite elem_of_levels. setoid_rewrite elem_of_app. setoid_rewrite elem_of_app.
  split; [|naive_solver].
  intros (e & (Hl & [Hin|[Hin|Hin]]) & Ho & Hv); [|eauto|].
  - specialize (H1 e z Hin Ho). lia.
  - specialize (H2 e z Hin Ho). lia.
Qed.

(** What a lookup returns. *)
Definition found h E (z : Z) (r : option vptr) : Prop :=
  match r with
  | Some vp => ∃ v, load h vp = Some v ∧ lmap d (levels E) !! z = val_opt v
  | None => lmap d (levels E) !! z = None
  end.

Lemma leaf_found h p t E k z :
  hget h p = Some t -> leaf_rep d t E -> ksorted d None E.*1 -> ord d k = Some z ->
  ∃ r, leaf_get t k = Some r ∧ found h E z (pair p <$> r).
Proof.
  intros Ht Hr Hs Hz. rewrite (leaf_get_rep d t E k Hr). eexists. split; [done|].
  pose proof (prior_map d k z E Hs Hz) as Hp. unfold prior in Hp.
  destruct (put_ents_lookup d k E) as (e & He & Hh). rewrite He in Hp.
  destruct (home d k E) eqn:Hhome; simpl; [|by subst e].
  destruct Hh as [Hpl _]. exists e.2. split; [|done]. unfold load. simpl. brun Ht.
  exact (rep_cell _ _ _ _ _ Hr Hpl).
Qed.

Lemma twig_get_tree fuel h m p lo hi E k z :
  tree h (S m) p lo hi E -> (m < fuel)%nat -> ord d k = Some z -> above lo z -> upto hi z ->
  ∃ r, twig_get fuel h p k = Some r ∧ found h E z r.
Proof.
  revert m p lo hi E. induction fuel as [|fuel IH]; intros m p lo hi E HT Hf Hz Hlo Hhi; [lia|].
  pose proof (tree_within _ _ _ _ _ _ HT) as [HsE _]. apply ksorted_None in HsE.
  destruct HT as (t & ks & cs & kr & vr & Ht & Hi & Hd & Hn & Hk & Hv & Hkids).
  destruct (kids_scan _ _ _ _ _ _ k z (tree_within h m) Hkids Hz Hlo Hhi)
    as (i & c & lo' & hi' & E1 & E' & E2 & Hil & Hci & Hc & Hlo' & Hhi' & -> & H1 & H2 & Hpre & Hat).
  cbn [twig_get]. brun Ht. brun (key_scan_inner t k ks kr i Hd Hn Hk Hil Hpre Hat).
  assert (child t i = Some c) as Hch.
  { unfold child. rewrite Hv, (lookup_app_l_Some _ _ i (Ual_t (Some c))); [done|].
    by rewrite list_lookup_fmap, Hci. }
  brun Hch. unfold found. rewrite lmap_middle by done. fold (found h E' z).
  destruct m as [|m].
  - destruct Hc as (ct & Hct & Hr & [Hs _]). brun Hct. rewrite (rep_leaf _ _ _ Hr). cbn [negb].
    destruct (leaf_found h c ct E' k z Hct Hr (ksorted_None _ _ _ Hs) Hz) as (r & Hr' & Hfd).
    brun Hr'. eauto.
  - destruct (IH m c lo' hi' E' Hc) as (r & Hr & Hfd); [lia|done..|].
    destruct (tree_child0 _ _ _ _ _ _ Hc) as (ct & ? & ? & ? & Hct & Hci' & _).
    brun Hct. rewrite Hci'. cbn [negb]. eauto.
Qed.

Lemma btree_get_tree h m p E k z :
  tree h m p None None E -> ord d k = Some z ->
  ∃ r, btree_get h p k = Some r ∧ found h E z r.
Proof.
  intros HT Hz. unfold btree_get. destruct m as [|m].
  - destruct HT as (t & Ht & Hr & [Hs _]). brun Ht. rewrite (rep_leaf _ _ _ Hr). cbn [negb].
    destruct (leaf_found h p t E k z Ht Hr Hs Hz) as (r & Hr' & Hfd). brun Hr'. eauto.
  - destruct (tree_child0 _ _ _ _ _ _ HT) as (t & ? & ? & ? & Ht & Hi & _).
    brun Ht. rewrite Hi. cbn [negb]. eapply twig_get_tree; eauto; try done.
    pose proof (tree_height _ _ _ _ _ _ HT). unfold height_fuel. lia.
Qed.

(** ** Splitting the root *)

(** [calloc] has not handed out the addresses from [hnext] on. *)
Definition heap_wf h : Prop := ∀ q t, hget h q = Some t -> (q < hnext h)%positive.

Lemma memmove_0l {A} (s c : nat) (dst src : list A) :
  (c <= length dst)%nat -> (s + c <= length src)%nat ->
  memmove 0 s c dst src = Some (take c (drop s src) ++ drop c dst).
Proof. intros. unfold memmove. rewrite decide_True by lia. done. Qed.

Lemma hget_hset_eq h p t : hget (hset p t h) p = Some t.
Proof. apply lookup_insert_eq. Qed.

Lemma hget_hset_ne h p q t : p ≠ q -> hget (hset p t h) q = hget h q.
Proof. apply lookup_insert_ne. Qed.

(** The entries up to and after a key. *)
Lemma ksorted_drop b ks i k z :
  ksorted d b ks -> ks !! i = Some k -> ord d k = Some z -> ksorted d (Some z) (drop (S i) ks).
Proof.
  revert b i. induction ks as [|k0 ks IH]; intros b i Hs Hi Hz; [done|].
  inversion Hs as [|b' k' z' ks' He Hlt Hs' H1 H2]; subst.
  destruct i as [|i]; simpl in *; simplify_eq; [by rewrite drop_0|]. by eapply IH.
Qed.

Lemma within_lookup lo hi E i e z :
  within lo hi E -> E !! i = Some e -> ord d e.1 = Some z -> above lo z ∧ upto hi z.
Proof.
  intros [Hs Hu] He Hz. split.
  - intros y ->. eapply (ksorted_bound d (Some y) E.*1 e.1 z Hs); [|done..].
    apply list_elem_of_fmap_2. by eapply list_elem_of_lookup_2.
  - eapply Hu; [by eapply list_elem_of_lookup_2|done].
Qed.

Lemma within_drop lo hi E i e z :
  within lo hi E -> E !! i = Some e -> ord d e.1 = Some z ->
  within (Some z) hi (drop (S i) E).
Proof.
  intros [Hs Hu] He Hz. split.
  - rewrite fmap_drop. eapply ksorted_drop; [exact Hs| |exact Hz]. by rewrite list_lookup_fmap, He.
  - intros e' z' Hin. apply Hu. by eapply subseteq_drop.
Qed.

Lemma within_take lo hi E i e z :
  within lo hi E -> E !! i = Some e -> ord d e.1 = Some z ->
  within lo (Some z) (take (S i) E).
Proof.
  intros [Hs _] He Hz. split.
  - eapply ksorted_sublist; [|exact Hs]. apply sublist_fst, sublist_take.
  - intros e' z' [j Hj]%list_elem_of_lookup Hz' y [= <-].
    apply lookup_take_Some in Hj as [Hj Hlt].
    destruct (decide (j = i)) as [->|]; [simplify_eq; lia|].
    assert (z' < z); [|lia].
    eapply (ksorted_bound d (Some z') (drop (S j) E.*1) e.1); [|..|exact Hz|done].
    + eapply ksorted_drop; [exact Hs| |exact Hz']. by rewrite list_lookup_fmap, Hj.
    + apply list_elem_of_lookup. exists (i - S j)%nat.
      rewrite lookup_drop. replace (S j + (i - S j))%nat with i by lia.
      by rewrite list_lookup_fmap, He.
Qed.

(** ** Leaves whose [used] word is zero *)

(** No bit is set in any leaf. *)
Definition unused_leaf t E : Prop := used t = 0.

Lemma iter_chain_blind ctz0 fuel h p it E C :
  (63 <= ctz0)%nat -> it_i it = 0%nat ->
  chain d unused_leaf h (Some p) ((p, E) :: C) -> NoDup (p :: C.*1) ->
  (length C < fuel)%nat ->
  ∃ h' it', iter_chain ctz0 fuel h p it = Some (h', it', false).
Proof.
  intros Hz. revert h p it E C. induction fuel as [|fuel IH]; intros h p it E C Hi Hc Hd Hf; [lia|].
  inversion Hc as [|p' t E' C' Ht Hr Hq Hc']; subst. cbn [iter_chain]. brun Ht.
  unfold unused_leaf in Hq. rewrite Hi, Hq.
  change (Z.shiftr 0 (Z.of_nat 0)) with 0. change (ctzll ctz0 0) with ctz0.
  cbn [iter_scan]. rewrite (rep_n _ _ _ Hr). pose proof (rep_max _ _ _ Hr).
  destruct (Nat.ltb_spec (0 + ctz0) (length E)); [lia|]. bstep.
  inversion Hc' as [Hn|q t2 E2 C2 Ht2 Hr2 Hq2 Hc2 Hn]; subst; [eauto|].
  assert (hset p t h = h) as Hsame.
  { unfold hset. destruct h as [nx mm]. simpl in *. f_equal. by apply insert_id. }
  rewrite Hsame. eapply (IH h q _ E2 C2); [done|by econstructor|by apply NoDup_cons in Hd as [_ ?]|simpl in Hf; lia].
Qed.
End tree.
