(* ===== verification/BtreeHide.v ===== *)
(** * What iterators see of a tree

    An iterator skips the cells whose [used] bit is clear, so a level can be in
    the tree and yet be seen by no query.  [hide h] is the heap [h] with those
    levels emptied.  As long as [__builtin_ctzll(0)] returns 63 or more,
    iterating over [h] is iterating over [hide h], where every level has its
    bit: the contract [Cursor] then holds for leaves with any [used] words. *)

From Stdlib Require Import ZArith Lia.
From stdpp Require Import prelude list gmap fin_maps.
From stdpp Require Import options.
From S2P Require Import Prelude Decimal Btree BtreeLeaf BtreeUsed BtreeIter BtreeSide BtreeCursor.
From S2P Require Import BtreeOps BtreeMap BtreeTree.

Local Open Scope Z_scope.

Section hide.
Context `{BKey K}.
#[local] Abbreviation entry := (K * btree_val)%type.
Implicit Types (E F : list entry) (t : btree_s K) (h : heap K) (p q : positive).

(** ** Hiding *)

(** Is the value [v] at index [j] seen under the word [u]? *)
Definition unseen (u : Z) (j : nat) (v : btree_val) : bool :=
  negb (btree_val_nil_p v) && negb (Z.testbit u (Z.of_nat j)).

Definition hide_ual (u : Z) (j : nat) (x : btree_ual) : btree_ual :=
  match x with
  | Ual_v v => if unseen u j v then Ual_v btree_val_nil else x
  | Ual_t _ => x
  end.

(** The cells of [t] under the word [u]. *)
Definition cloak (u : Z) t : btree_s K := set_val (imap (hide_ual u) (val t)) t.

Definition hide_node t : btree_s K := if innerp t then t else cloak (used t) t.

Definition hide h : heap K := mk_heap (hnext h) (hide_node <$> hmem h).

Definition hide_ents (u : Z) E : list entry :=
  imap (λ j e, if unseen u j e.2 then set_ent btree_val_nil e else e) E.

Lemma hide_get h p : hget (hide h) p = hide_node <$> hget h p.
Proof. apply lookup_fmap. Qed.

Lemma hide_hset h p t : hide (hset p t h) = hset p (hide_node t) (hide h).
Proof. unfold hide, hset. cbn [hnext hmem]. by rewrite fmap_insert. Qed.

Lemma hide_fuel h : height_fuel (hide h) = height_fuel h.
Proof. unfold height_fuel, hide. cbn [hmem]. by rewrite map_size_fmap. Qed.

Lemma hide_node_fields t :
  n (hide_node t) = n t ∧ innerp (hide_node t) = innerp t ∧ descp (hide_node t) = descp t ∧
  key (hide_node t) = key t ∧ next (hide_node t) = next t ∧ used (hide_node t) = used t.
Proof. unfold hide_node, cloak. destruct (innerp t) eqn:Hi; split_and!; done. Qed.

Lemma hide_leaf t : innerp t = false -> hide_node t = cloak (used t) t.
Proof. unfold hide_node. by intros ->. Qed.

Lemma hide_leftmost fuel h p : leftmost fuel (hide h) p = leftmost fuel h p.
Proof.
  revert p. induction fuel as [|fuel IH]; intros p; [done|]. cbn [leftmost]. rewrite hide_get.
  destruct (hget h p) as [t|]; [|done]. cbn [fmap option_fmap option_map]. bstep.
  destruct (hide_node_fields t) as (_ & -> & _). destruct (innerp t) eqn:Hi; [|done].
  unfold hide_node. rewrite Hi. destruct (child t 0); bstep; [apply IH|done].
Qed.

(** Hidden values are nil, others are as they are. *)
Lemma hide_ents_lookup u E i :
  hide_ents u E !! i = (λ e, if unseen u i e.2 then set_ent btree_val_nil e else e) <$> E !! i.
Proof. unfold hide_ents. by rewrite list_lookup_imap. Qed.

Lemma hide_ents_keys u E : (hide_ents u E).*1 = E.*1.
Proof.
  apply list_eq. intros i. rewrite !list_lookup_fmap, hide_ents_lookup.
  destruct (E !! i) as [e|]; [|done]. simpl. by destruct (unseen u i e.2).
Qed.

Lemma hide_ents_length u E : length (hide_ents u E) = length E.
Proof. unfold hide_ents. apply length_imap. Qed.

Lemma hide_rep d t F : leaf_rep d t F -> leaf_rep d (hide_node t) (hide_ents (used t) F).
Proof.
  intros Hr. rewrite hide_leaf by apply (rep_leaf _ _ _ Hr).
  destruct (rep_val _ _ _ Hr) as (junk & Hv & Hj). destruct Hr as [? ? Hn ? Hk _].
  constructor; unfold cloak; node; rewrite ?hide_ents_length, ?hide_ents_keys; try done.
  exists (imap (λ j, hide_ual (used t) (length F + j)) junk). rewrite length_imap. split; [|done].
  rewrite Hv, imap_app. f_equal.
  - apply list_eq. intros i. rewrite !list_lookup_imap, !list_lookup_fmap, hide_ents_lookup.
    destruct (F !! i) as [e|]; [|done]. simpl. by destruct (unseen (used t) i e.2).
  - apply imap_ext. intros i x _. simpl. by rewrite !length_fmap.
Qed.

(** Whatever the word, after hiding every level has its bit. *)
Lemma hide_used_ok u F : 0 <= u < 2 ^ 64 -> used_ok u (hide_ents u F).
Proof.
  intros Hu. split; [done|]. intros i e He Hl. rewrite hide_ents_lookup in He.
  destruct (F !! i) as [e0|]; [|done]. injection He as <-.
  revert Hl. unfold live, unseen. destruct (btree_val_nil_p e0.2) eqn:Hn; simpl.
  - by rewrite Hn.
  - by destruct (Z.testbit u (Z.of_nat i)).
Qed.

Lemma hide_levels u F : levels (hide_ents u F) `sublist_of` levels F.
Proof.
  assert (∀ j, levels (imap (λ i e, if unseen u (j + i) e.2 then set_ent btree_val_nil e else e) F)
                 `sublist_of` levels F) as Hj; [|apply (Hj 0%nat)].
  induction F as [|e F IH]; intros j; [done|]. cbn [imap].
  rewrite (imap_ext _ (λ i e, if unseen u (S j + i) e.2 then set_ent btree_val_nil e else e) F).
  2: { intros i x _. simpl. by rewrite Nat.add_succ_r. }
  specialize (IH (S j)). rewrite !levels_cons, Nat.add_0_r.
  unfold unseen, live in *. destruct (btree_val_nil_p e.2) eqn:Hn; cbn [negb andb].
  - by rewrite Hn.
  - destruct (Z.testbit u (Z.of_nat j)); cbn [negb]; [rewrite Hn|].
    + by apply sublist_skip.
    + by apply sublist_cons.
Qed.

(** ** Chains *)

(** The entries of the chain [C] as they are seen. *)
Definition hide_cells h (C : list (positive * list entry)) : list (positive * list entry) :=
  (λ c, (c.1, match hget h c.1 with Some t => hide_ents (used t) c.2 | None => c.2 end)) <$> C.

Lemma hide_cells_addr h C : (hide_cells h C).*1 = C.*1.
Proof. unfold hide_cells. rewrite <- list_fmap_compose. by apply list_fmap_ext. Qed.

Lemma hide_chain d h o C : chain d word_leaf h o C -> chain d used_leaf (hide h) o (hide_cells h C).
Proof.
  induction 1 as [|p t F C Ht Hr Hq Hc IH]; [constructor|].
  unfold hide_cells in *. cbn [fmap list_fmap fst snd]. rewrite Ht.
  apply (chain_leaf _ _ _ p (hide_node t)).
  - by rewrite hide_get, Ht.
  - by apply hide_rep.
  - destruct (hide_node_fields t) as (_ & _ & _ & _ & _ & Hu).
    unfold used_leaf. rewrite Hu. by apply hide_used_ok.
  - by destruct (hide_node_fields t) as (_ & _ & _ & _ & -> & _).
Qed.

Lemma hide_side d h p C : side d word_leaf h p C -> side d used_leaf (hide h) p (hide_cells h C).
Proof.
  intros (Hd & l & Hl & Hc). split; [by rewrite hide_cells_addr|]. exists l.
  rewrite hide_fuel, hide_leftmost. split; [done|by apply hide_chain].
Qed.

(** ** The iterator *)

(** The scan of a leaf clears bits of nil cells only: [u] is its word afterwards. *)
Definition trimmed t u : Prop :=
  ∀ j, 0 <= j -> Z.testbit u j ≠ Z.testbit (used t) j -> ∃ i, j = Z.of_nat i ∧ cell_nil t i = Some true.

Lemma imap_ext_lookup {A B} (f g : nat -> A -> B) (l : list A) :
  (∀ i x, l !! i = Some x -> f i x = g i x) -> imap f l = imap g l.
Proof.
  intros Hfg. apply list_eq. intros i. rewrite !list_lookup_imap.
  destruct (l !! i) as [x|] eqn:Hx; [|done]. simpl. by rewrite (Hfg i x).
Qed.

Lemma cloak_trimmed t u : trimmed t u -> cloak u t = cloak (used t) t.
Proof.
  intros Ht. unfold cloak. f_equal. apply imap_ext_lookup. intros i x Hx.
  destruct x as [v|]; [|done]. unfold hide_ual, unseen.
  destruct (Bool.bool_dec (Z.testbit u (Z.of_nat i)) (Z.testbit (used t) (Z.of_nat i))) as [->|Hne]; [done|].
  destruct (Ht (Z.of_nat i) ltac:(lia) Hne) as (i' & ->%Nat2Z.inj & Hn).
  unfold cell_nil, cell in Hn. rewrite Hx in Hn. injection Hn as ->. done.
Qed.

(** A cell whose bit is set is as it was. *)
Lemma cloak_cell u t i :
  Z.testbit u (Z.of_nat i) = true -> cell (cloak u t) i = cell t i.
Proof.
  intros Hb. unfold cell, cloak. node. rewrite list_lookup_imap.
  destruct (val t !! i) as [[v|c]|]; simpl; [|done..]. unfold unseen. by rewrite Hb, andb_false_r.
Qed.

(** Only [used] words of leaves in [X] change, and words they stay. *)
Definition word_node t : Prop := 0 <= used t < 2 ^ 64.

Definition combed (X : list positive) h h' : Prop :=
  leafwise X h h' ∧
  ∀ q t, hget h q = Some t ->
    ∃ u, hget h' q = Some (set_used u t) ∧ (word_node t -> 0 <= u < 2 ^ 64).

#[export] Instance combed_preorder X : PreOrder (combed X).
Proof.
  split.
  - intros h. split; [done|]. intros q t Ht. exists (used t). split; [by destruct t|done].
  - intros h1 h2 h3 [W1 H1] [W2 H2]. split; [by etrans|]. intros q t Ht.
    destruct (H1 q t Ht) as (u1 & Ht1 & Hu1). destruct (H2 q _ Ht1) as (u2 & Ht2 & Hu2).
    exists u2. split; [done|]. intros Hw. by apply Hu2, Hu1.
Qed.

Lemma combed_hset X h p t u :
  hget h p = Some t -> innerp t = false -> p ∈ X -> 0 <= u < 2 ^ 64 ->
  combed X h (hset p (set_used u t) h).
Proof.
  intros Ht Hi Hp Hu. split; [by eapply leafwise_hset|]. intros q tq Htq.
  destruct (decide (q = p)) as [->|Hne].
  - rewrite hget_hset_eq. simplify_eq. eauto.
  - rewrite hget_hset_ne by done. exists (used tq). split; [by destruct tq|done].
Qed.

Lemma combed_weaken X Y h h' : X ⊆ Y -> combed X h h' -> combed Y h h'.
Proof. intros Hs [Hw Hc]. split; [by eapply leafwise_weaken|done]. Qed.

(** Chains are determined by where they start. *)
Lemma chain_fun d Q Q' h o C C' : chain d Q h o C -> chain d Q' h o C' -> C' = C.
Proof.
  intros Hc. revert C'. induction Hc as [|p t E C Ht Hr Hq Hc IH]; intros C' Hc'.
  - by inversion Hc'.
  - inversion Hc' as [|p' t' E' C2 Ht' Hr' Hq' Hc2]; subst. simplify_eq.
    assert (E' = E) as -> by by eapply leaf_rep_inj. f_equal. auto.
Qed.

Lemma chain_tail d Q Q' h o C q C' :
  chain d Q h o C -> q ∈ C.*1 -> chain d Q' h (Some q) C' -> C'.*1 ⊆ C.*1.
Proof.
  intros Hc. induction Hc as [|p t E C Ht Hr Hq Hc IH]; [by intros ?%not_elem_of_nil|].
  cbn [fmap list_fmap fst]. intros [->|Hin]%elem_of_cons Hc'.
  - assert (C' = (p, E) :: C) as -> by (eapply chain_fun; [|exact Hc']; by econstructor). done.
  - specialize (IH Hin Hc'). set_solver.
Qed.

Section sim.
#[local] Set Default Proof Using "Type*".
Variable ctz0 : nat.
Hypothesis Hctz : (63 <= ctz0)%nat.

Lemma scan_trims fuel t u sh i t' r :
  iter_scan ctz0 fuel t u sh i = Some (t', r) ->
  t' = set_used (used t') t ∧ trimmed t (used t').
Proof.
  revert t u sh i. induction fuel as [|fuel IH]; intros t u sh i; [done|]. cbn [iter_scan].
  destruct (i <? n t)%nat.
  - destruct (cell_nil t i) as [nil|] eqn:Hc; bstep; [|done]. destruct nil; cbn [negb].
    + intros Hrun. apply IH in Hrun as [He Ht]. cbn [used set_used] in *. split; [by rewrite He|].
      intros j Hj Hne. destruct (Z.eq_dec j (Z.of_nat i)) as [->|Hji]; [by exists i|].
      apply Ht; [done|]. unfold trimmed in *. cbn [used set_used].
      rewrite clear_bit_testbit by lia. rewrite (proj2 (Z.eqb_neq _ _)) by done.
      by rewrite andb_true_r.
    + intros [= <- <-]. split; [by destruct t|]. by intros j _ [].
  - intros [= <- <-]. split; [by destruct t|]. by intros j _ [].
Qed.

Lemma scan_sim fuel t w i :
  0 <= w < 2 ^ 64 -> (n t <= 63)%nat ->
  let u := Z.shiftr w (Z.of_nat i) in
  let sh := ctzll ctz0 u in
  iter_scan ctz0 fuel (cloak w t) u sh (i + sh) =
  (λ x, (cloak w x.1, x.2)) <$> iter_scan ctz0 fuel t u sh (i + sh).
Proof.
  revert t i. induction fuel as [|fuel IH]; intros t i Hw Hn u sh; [done|]. cbn [iter_scan].
  change (n (cloak w t)) with (n t). destruct (Nat.ltb_spec (i + sh) (n t)) as [Hlt|]; [|done].
  assert (Z.testbit w (Z.of_nat (i + sh)) = true) as Hb.
  { destruct (ctzll_spec ctz0 u) as [[Hu Hsh]|[Hb _]].
    - apply Z.shiftr_nonneg. lia.
    - subst sh. lia.
    - fold sh in Hb. unfold u in Hb. rewrite Z.shiftr_spec in Hb by lia.
      by replace (Z.of_nat (i + sh)) with (Z.of_nat sh + Z.of_nat i) by lia. }
  unfold cell_nil. rewrite cloak_cell by done.
  destruct (cell t (i + sh)) as [v|]; bstep; [|done].
  destruct (btree_val_nil_p v); cbn [negb]; [|done].
  set (b := Z.shiftl 1 _). set (t1 := set_used (Z.lxor (Z.lor (used t) b) b) t).
  specialize (IH t1 (i + sh + 1)%nat Hw Hn). cbv zeta in IH. unfold u.
  rewrite Z.shiftr_shiftr by lia.
  replace (Z.of_nat i + Z.of_nat (sh + 1)) with (Z.of_nat (i + sh + 1)) by lia.
  set (sh' := ctzll ctz0 (Z.shiftr w (Z.of_nat (i + sh + 1)))) in *. replace (i + sh + (sh' + 1))%nat with (i + sh + 1 + sh')%nat by lia.
  exact IH.
Qed.

(** One leaf of the heap, hidden or not. *)
Lemma leaf_sim t p h j :
  hget h p = Some t -> innerp t = false -> (n t <= 63)%nat -> 0 <= used t < 2 ^ 64 ->
  let sh := ctzll ctz0 (Z.shiftr (used t) (Z.of_nat j)) in
  ∀ r t2, iter_scan ctz0 (S (n t)) (hide_node t) (Z.shiftr (used t) (Z.of_nat j)) sh (j + sh) = Some (t2, r) ->
  ∃ t1, iter_scan ctz0 (S (n t)) t (Z.shiftr (used t) (Z.of_nat j)) sh (j + sh) = Some (t1, r) ∧
    t1 = set_used (used t1) t ∧ t2 = hide_node t1 ∧ next t1 = next t ∧ key t1 = key t ∧ innerp t1 = false ∧
    hide (hset p t1 h) = hset p t2 (hide h).
Proof.
  intros Ht Hi Hn Hu sh r t2. rewrite hide_leaf, scan_sim by done. fold sh.
  destruct (iter_scan _ _ t _ _ _) as [[t1 r1]|] eqn:Hs; [|done]. simpl. intros [= <- <-].
  destruct (scan_trims _ _ _ _ _ _ _ Hs) as [He Htr].
  assert (innerp t1 = false ∧ next t1 = next t ∧ key t1 = key t) as (Hi1 & Hnx & Hk)
    by (by rewrite He).
  assert (cloak (used t) t1 = hide_node t1) as Hh.
  { rewrite hide_leaf by done. rewrite He at 1 3. unfold cloak. node. f_equal.
    pose proof (cloak_trimmed _ _ Htr) as Hc. unfold cloak in Hc.
    apply (f_equal val) in Hc. cbn [val set_val] in Hc. done. }
  exists t1. split_and!; try done. by rewrite hide_hset, Hh.
Qed.

(** A leaf of a chain, in the heap and as it is seen. *)
Lemma hide_chain_leaf d h p F C :
  chain d used_leaf (hide h) (Some p) ((p, F) :: C) ->
  ∃ t, hget h p = Some t ∧ innerp t = false ∧ 0 <= used t < 2 ^ 64 ∧
    leaf_rep d (hide_node t) F ∧ used_ok (used t) F ∧ (n t <= 63)%nat ∧
    chain d used_leaf (hide h) (next t) C.
Proof.
  intros Hc. inversion Hc as [|p' t' F' C' Ht' Hr Hu Hc']; subst.
  rewrite hide_get in Ht'. destruct (hget h p) as [t|]; [|done]. injection Ht' as <-.
  destruct (hide_node_fields t) as (Hn & Hi & _ & _ & Hnx & Hus). unfold used_leaf in Hu.
  rewrite Hus in Hu. rewrite Hnx in Hc'. pose proof (rep_leaf _ _ _ Hr) as Hl.
  pose proof (rep_n _ _ _ Hr) as Hn'. pose proof (rep_max _ _ _ Hr).
  exists t. split_and!; try done; [congruence|apply Hu..|congruence].
Qed.

Lemma chain_sim d fuel h p it F C g it' b :
  chain d used_leaf (hide h) (Some p) ((p, F) :: C) ->
  iter_chain ctz0 fuel (hide h) p it = Some (g, it', b) ->
  ∃ h', iter_chain ctz0 fuel h p it = Some (h', it', b) ∧ g = hide h' ∧ combed (p :: C.*1) h h' ∧
    ∀ q, it_t it' = Some q -> q ∈ p :: C.*1.
Proof.
  revert h p it F C. induction fuel as [|fuel IH]; intros h p it F C Hc; [done|].
  destruct (hide_chain_leaf _ _ _ _ _ Hc) as (t & Ht & Hi & Hw & Hr & Hu & Hn & Hc').
  cbn [iter_chain]. rewrite hide_get. brun Ht. cbn [fmap option_fmap option_map]. bstep.
  destruct (hide_node_fields t) as (Hhn & _ & _ & Hhk & Hhx & Hhu). rewrite Hhu, Hhn.
  set (sh := ctzll ctz0 _).
  destruct (iter_scan_spec ctz0 (S (n t)) d (hide_node t) F (used t) p (it_i it))
    as (u' & r & Hs & Hu' & _); [done|by rewrite Hhu|done|lia| |].
  { rewrite <- (rep_n _ _ _ Hr), Hhn. lia. }
  fold sh in Hs.
  destruct (leaf_sim t p h (it_i it) Ht Hi Hn Hw r _ Hs) as (t1 & Hs1 & He & Ht2 & Hnx & Hk & Hi1 & Hset).
  fold sh in Hs1. brun Hs. brun Hs1. rewrite <- Hset, Ht2.
  destruct (hide_node_fields t1) as (_ & _ & _ & -> & -> & Hhu1). rewrite Hk, Hnx.
  assert (combed (p :: C.*1) h (hset p t1 h)) as Hcb.
  { rewrite He. apply combed_hset; [done|done|left|]. rewrite <- Hhu1, <- Ht2. apply Hu'. }
  destruct r as [j|].
  - destruct (key t !! j) as [k|]; bstep; [|done]. intros [= <- <- <-].
    eexists. split_and!; [done..|]. intros q [= <-]. left.
  - destruct (next t) as [q|] eqn:Hq; [|intros [= <- <- <-]; by eexists].
    inversion Hc' as [|q' tq Fq Cq Htq Hrq Huq Hcq]; subst. intros Hrun.
    destruct (IH (hset p t1 h) q (mk_iter (Some q) 0 (it_k it) (it_v it)) Fq Cq) as (h' & H1 & H2 & H3 & H4).
    + rewrite Hset. eapply pruned_chain; [unfold used_leaf; eauto| |by econstructor].
      eapply pruned_set; [by rewrite hide_get, Ht|exact Hr|exact Hu'].
    + exact Hrun.
    + exists h'. split_and!; [done..| |].
      * etrans; [exact Hcb|]. eapply combed_weaken; [|exact H3]. cbn [fmap list_fmap fst]. clear. set_solver.
      * intros q' Hq'%H4. by right.
Qed.

Lemma next_sim d h it L g it' b (X : list positive) :
  iter_at d (hide h) it L -> btree_iter_next ctz0 (hide h) it = Some (g, it', b) ->
  (∀ q l F C, it_t it = Some q -> leftmost (height_fuel h) h q = Some l ->
     chain d used_leaf (hide h) (Some l) ((l, F) :: C) -> l :: C.*1 ⊆ X) ->
  ∃ h', btree_iter_next ctz0 h it = Some (h', it', b) ∧ g = hide h' ∧ combed X h h' ∧
    ∀ q, it_t it' = Some q -> q ∈ X.
Proof.
  unfold iter_at, btree_iter_next. destruct (it_t it) as [p|].
  - intros (t & l & F & C & Ht & Hl & Hd & Hc & _). rewrite hide_get in Ht.
    rewrite hide_get, hide_fuel, hide_leftmost. destruct (hget h p) as [t0|]; [|done].
    rewrite hide_fuel, hide_leftmost in Hl. cbn [fmap option_fmap option_map]. bstep.
    destruct (hide_node_fields t0) as (_ & -> & _). brun Hl.
    intros Hrun HX. specialize (HX p l F C eq_refl Hl Hc).
    destruct (chain_sim _ _ _ _ _ _ _ _ _ _ Hc Hrun) as (h' & H1 & H2 & H3 & H4).
    exists h'. split_and!; [done..|by eapply combed_weaken|]. intros q Hq. by apply HX, H4.
  - intros _ [= <- <- <-] _. by exists h.
Qed.

(** ** Loads and stores of what is seen *)

Lemma hide_val h vp v :
  load (hide h) vp = Some v -> btree_val_nil_p v = false ->
  (∀ t, hget h vp.1 = Some t -> innerp t = false) ->
  ∃ t, hget h vp.1 = Some t ∧ val t !! vp.2 = Some (Ual_v v) ∧
    Z.testbit (used t) (Z.of_nat vp.2) = true.
Proof.
  intros Hl Hn Hleaf. unfold load in Hl. rewrite hide_get in Hl.
  destruct (hget h vp.1) as [t|]; [|done]. cbn [fmap option_fmap option_map] in Hl.
  exists t. split; [done|]. specialize (Hleaf t eq_refl). revert Hl. bstep.
  rewrite hide_leaf by done. unfold cloak. node. rewrite list_lookup_imap.
  destruct (val t !! vp.2) as [[w|c]|]; [|done..]. cbn. unfold unseen.
  destruct (btree_val_nil_p w) eqn:Hw; cbn [negb andb].
  - intros [= ->]. congruence.
  - destruct (Z.testbit (used t) (Z.of_nat vp.2)); cbn [negb]; [by intros [= ->]|].
    intros [= <-]. done.
Qed.

Lemma hide_poke h vp v w t :
  hget h vp.1 = Some t -> innerp t = false -> val t !! vp.2 = Some (Ual_v w) ->
  Z.testbit (used t) (Z.of_nat vp.2) = true ->
  ∃ h', poke vp v h = Some h' ∧ poke vp v (hide h) = Some (hide h').
Proof.
  intros Ht Hi Hv Hb. unfold poke. rewrite hide_get, Ht. cbn [fmap option_fmap option_map]. bstep.
  pose proof (lookup_lt_Some _ _ _ Hv) as Hlt. rewrite hide_leaf by done. unfold cloak. node.
  rewrite store_lt by done. bstep. eexists. split; [done|].
  rewrite store_lt by (by rewrite length_imap). bstep.
  rewrite hide_hset, (hide_leaf (set_val _ t)) by done. unfold cloak. node.
  assert (<[vp.2 := Ual_v v]> (imap (hide_ual (used t)) (val t)) =
          imap (hide_ual (used t)) (<[vp.2 := Ual_v v]> (val t))) as ->; [|done]. apply list_eq. intros i. rewrite list_lookup_imap.
  destruct (decide (i = vp.2)) as [->|Hne].
  - rewrite !list_lookup_insert_eq by (rewrite ?length_imap; done). simpl. unfold unseen.
    by rewrite Hb, andb_false_r.
  - by rewrite !list_lookup_insert_ne, list_lookup_imap by done.
Qed.
End sim.

(** ** The contract for leaves with any words *)

Section view.
#[local] Set Default Proof Using "Type*".
Variables (ctz0 : nat) (d : bool) (p : positive) (X : list positive).
Hypothesis Hctz : (63 <= ctz0)%nat.

(** The cell [vp] holds the value of the level [e]. *)
Definition seen_vp h (vp : vptr) (e : entry) : Prop :=
  ∃ t, hget h vp.1 = Some t ∧ innerp t = false ∧ val t !! vp.2 = Some (Ual_v e.2) ∧ live e = true.

(** An invariant of the heap and the levels seen that survives iterating over
    the leaves [X] and storing to cells shown. *)
Class Tended (I : heap K -> list (vptr * entry) -> Prop) := {
  td_comb h h' A : I h A -> combed X h h' -> I h' A;
  td_poke h h' A vp e v :
    I h A -> (vp, e) ∈ A -> NoDup A.*1 -> vp.1 ∈ X -> seen_vp h vp e ->
    poke vp v h = Some h' -> I h' (revalue vp v A);
}.

Context (I : heap K -> list (vptr * entry) -> Prop) `{HI : !Tended I}.

(** The side at [p], as iterators see it; [it] stands at one of its leaves. *)
Definition on_view h (A : list (vptr * entry)) (it : btree_iter K) (L : list (vptr * entry)) : Prop :=
  on_side d p X (hide h) A it L ∧ (∀ q, it_t it = Some q -> q = p ∨ q ∈ X) ∧ I h A.

Lemma view_leaf h A it L q :
  on_side d p X (hide h) A it L -> q ∈ X -> ∃ t, hget h q = Some t ∧ innerp t = false.
Proof.
  intros (C & A1 & (_ & l & _ & Hc) & <- & _) Hq.
  apply list_elem_of_fmap in Hq as ([q' F] & -> & Hin).
  destruct (chain_get _ _ _ _ _ _ _ Hc Hin) as (t & Ht & Hr). simpl. rewrite hide_get in Ht.
  destruct (hget h q') as [t0|]; [|done]. injection Ht as <-. exists t0. split; [done|].
  pose proof (rep_leaf _ _ _ Hr) as Hi. by destruct (hide_node_fields t0) as (_ & <- & _).
Qed.

Lemma view_reach h A it L q l F C :
  on_view h A it L -> it_t it = Some q -> leftmost (height_fuel h) h q = Some l ->
  chain d used_leaf (hide h) (Some l) ((l, F) :: C) -> l :: C.*1 ⊆ X.
Proof.
  intros (Hs & Hpos & _) Hq Hl Hc. pose proof Hs as (Cs & A1 & (_ & l0 & Hl0 & Hcs) & HX & _).
  rewrite hide_fuel, hide_leftmost in Hl0. destruct (Hpos q Hq) as [->|Hin].
  - assert (l0 = l) as -> by congruence. rewrite <- HX.
    by rewrite <- (chain_fun _ _ _ _ _ _ _ Hcs Hc).
  - destruct (view_leaf _ _ _ _ _ Hs Hin) as (t & Ht & Hi).
    unfold height_fuel in Hl. rewrite (leftmost_leaf _ _ _ _ Ht Hi) in Hl. injection Hl as ->.
    rewrite <- HX in *. by apply (chain_tail _ _ _ _ _ _ _ _ Hcs Hin Hc).
Qed.

Lemma view_step h A it L g it' b L' :
  on_view h A it L -> btree_iter_next ctz0 (hide h) it = Some (g, it', b) -> on_side d p X g A it' L' ->
  ∃ h', btree_iter_next ctz0 h it = Some (h', it', b) ∧ g = hide h' ∧ leafwise X h h' ∧
        on_view h' A it' L'.
Proof.
  intros Hv Hrun Hs'. pose proof Hv as (Hs & _ & HIA). pose proof Hs as (_ & _ & _ & _ & _ & _ & Hi).
  destruct (next_sim ctz0 Hctz d h it L g it' b X Hi Hrun) as (h' & H1 & -> & H3 & H4).
  { intros. by eapply view_reach. }
  exists h'. split_and!; [done..|apply H3|]. split_and!; [done| |by eapply td_comb].
  intros q Hq. right. by apply H4.
Qed.

#[export] Instance view_cursor : Cursor ctz0 on_view (leafwise X).
Proof.
  split.
  - apply _.
  - intros h A it L (Hs & _). pose proof (cur_fuel (ctz0 := ctz0) _ _ _ _ Hs) as Hf.
    pose proof (hide_fuel h) as Hh. unfold height_fuel in Hh. lia.
  - intros h A it Hv. destruct (cur_end (ctz0 := ctz0) _ _ _ (proj1 Hv)) as (g & it' & Hrun & _ & Hs').
    destruct (view_step _ _ _ _ _ _ _ _ Hv Hrun Hs') as (h' & H1 & _ & H2 & H3). eauto.
  - intros h A it vp e L Hv.
    destruct (cur_next (ctz0 := ctz0) _ _ _ _ _ _ (proj1 Hv))
      as (g & it' & Hrun & Hvp & Hk & Hl & Hlv & _ & Hs' & Hpoke).
    destruct (view_step _ _ _ _ _ _ _ _ Hv Hrun Hs') as (h' & H1 & -> & H2 & H3).
    assert ((vp, e) ∈ A ∧ NoDup A.*1 ∧ vp.1 ∈ X) as (Hin & Hd & HvX).
    { pose proof (proj1 Hv) as (C & A1 & Hsd & HX & HA & HA1 & _).
      assert ((vp, e) ∈ A) as Hin by (rewrite HA1; clear; set_solver). split; [done|].
      rewrite HA in *. split; [by apply cells_NoDup, Hsd|]. rewrite <- HX. by eapply cells_addr. }
    destruct (hide_val h' vp e.2 Hl) as (t & Ht & Hval & Hb).
    { unfold live in Hlv. by destruct (btree_val_nil_p e.2). }
    { intros t Ht. destruct (view_leaf _ _ _ _ _ Hs' HvX) as (t' & Ht' & ?). congruence. }
    assert (innerp t = false) as Hi.
    { destruct (view_leaf _ _ _ _ _ Hs' HvX) as (t' & Ht' & ?). congruence. }
    exists h', it'. split_and!; try done.
    { unfold load. brun Ht. by brun Hval. }
    intros v. destruct (hide_poke h' vp v e.2 t Ht Hi Hval Hb) as (h2 & Hp & Hp').
    destruct (Hpoke v) as (g2 & Hg2 & _ & Hs2). rewrite Hp' in Hg2. injection Hg2 as <-.
    exists h2. split_and!; [done| |].
    + destruct (poke_poked _ _ _ _ Hp) as (t' & vs & Ht' & _ & ->). simplify_eq.
      by eapply leafwise_hset.
    + destruct H3 as (_ & Hpos & HIA). split_and!; [done..|].
      eapply td_poke; try done. by exists t.
Qed.
End view.
End hide.
