(* ===== verification/BtreeSight.v ===== *)
(** * What a put shows of its leaf

    Whatever the [used] word of a leaf was: after [leaf_add] and a write to the
    cell it returns, iterators see the level that was written, and of the other
    levels what they saw before - but for one, the neighbour of the cell that was
    reused, whose bit may have been toggled. *)

From Stdlib Require Import ZArith Lia.
From stdpp Require Import prelude list gmap fin_maps.
From stdpp Require Import options.
From S2P Require Import Prelude Decimal Btree BtreeLeaf BtreeUsed BtreeIter BtreeSide BtreeOps BtreeMap BtreeHide.

Local Open Scope Z_scope.

Section sight.
Context `{BKey K}.
#[local] Abbreviation entry := (K * btree_val)%type.
Implicit Types (E F V : list entry) (e : entry) (k : K).

(** The level [e] of the entries [E] is seen under the word [u]. *)
Definition sees (u : Z) E e : Prop := ∃ j, E !! j = Some e ∧ live e = true ∧ Z.testbit u (Z.of_nat j) = true.

Lemma elem_of_seen u E e : e ∈ levels (hide_ents u E) <-> sees u E e.
Proof.
  rewrite elem_of_levels. unfold sees, live, unseen. split.
  - intros [Hl (j & Hj)%list_elem_of_lookup]. rewrite hide_ents_lookup in Hj. exists j. revert Hj.
    destruct (E !! j) as [e0|]; [|done]. cbn. unfold unseen.
    destruct (btree_val_nil_p e0.2) eqn:Hn; cbn; [intros [= ->]; by rewrite Hn in Hl|].
    destruct (Z.testbit u (Z.of_nat j)); cbn; [intros [= ->]; done|]. intros [= <-]. done.
  - intros (j & Hj & Hl & Hb). split; [done|]. apply list_elem_of_lookup. exists j.
    rewrite hide_ents_lookup, Hj. cbn. unfold unseen. by rewrite Hb, andb_false_r.
Qed.

(** Where a level was and where it is: its bit went along unless it is the one
    next to the spare cell. *)
Lemma put_back d k E u j' e :
  0 <= u < 2 ^ 64 -> (length E <= 62)%nat -> put_ents d k E !! j' = Some e -> live e = true ->
  j' ≠ put_idx d k E ->
  ∃ j, E !! j = Some e ∧
    (home d k E = true ∨ S j ≠ spare E ->
     Z.testbit (put_used d k E u) (Z.of_nat j') = Z.testbit u (Z.of_nat j)).
Proof.
  intros Hu Hl He Hlive Hne. pose proof (place_le d k E). pose proof (spare_le E).
  unfold put_used. rewrite lor_bit_testbit by lia.
  assert (Z.of_nat j' =? Z.of_nat (put_idx d k E) = false) as -> by (apply Z.eqb_neq; lia). rewrite orb_false_r.
  destruct (home d k E) eqn:Hh.
  { unfold put_ents in He. rewrite Hh in He. by exists j'. }
  unfold put_idx in Hne. rewrite Hh, forallb_take_spare in Hne by done.
  destruct (Nat.ltb_spec (place d k E) (spare E)).
  - rewrite (put_ents_right d k E j' Hh) in He by lia. rewrite used_right_testbit by lia.
    destruct (Nat.leb_spec (place d k E) (spare E)); [|lia].
    repeat case_decide; simplify_eq.
    + exists (j' - 1)%nat. split; [done|]. replace (Z.of_nat (j' - 1)) with (Z.of_nat j' - 1) by lia.
      intros [?|Hs]; [done|]. bit_cases; done || lia.
    + exists j'. split; [done|]. intros _. bit_cases; done || lia.
  - destruct (Nat.ltb_spec (spare E) (place d k E)).
    + rewrite (put_ents_left d k E j' Hh) in He by lia. rewrite used_left_testbit by lia.
      destruct (Nat.leb_spec (place d k E) (spare E)); [lia|].
      repeat case_decide; simplify_eq.
      * exists (j' + 1)%nat. split; [done|]. replace (Z.of_nat (j' + 1)) with (Z.of_nat j' + 1) by lia.
        intros _. bit_cases; done || lia.
      * exists j'. split; [done|]. intros [?|Hs]; [done|]. bit_cases; done || lia.
    + rewrite (put_ents_right d k E j' Hh) in He by lia.
      repeat case_decide; simplify_eq; [lia|]. by exists j'.
Qed.

Lemma put_forth d k E u j e :
  0 <= u < 2 ^ 64 -> (length E <= 62)%nat -> E !! j = Some e -> live e = true ->
  (home d k E = true -> j ≠ put_idx d k E) ->
  ∃ j', put_ents d k E !! j' = Some e ∧ j' ≠ put_idx d k E ∧
    (home d k E = true ∨ S j ≠ spare E ->
     Z.testbit (put_used d k E u) (Z.of_nat j') = Z.testbit u (Z.of_nat j)).
Proof.
  intros Hu Hl He Hlive Hhome. pose proof (place_le d k E). pose proof (spare_le E).
  destruct (home d k E) eqn:Hh.
  { specialize (Hhome eq_refl). exists j. unfold put_ents. rewrite Hh. split_and!; [done..|]. intros _.
    unfold put_used. rewrite Hh, lor_bit_testbit by lia.
    assert (Z.of_nat j =? Z.of_nat (put_idx d k E) = false) as -> by (apply Z.eqb_neq; lia). by rewrite orb_false_r. }
  assert (j ≠ spare E) as Hjs.
  { intros ->. by rewrite (proj2 (spare_spec E) e He) in Hlive. }
  unfold put_used, put_idx. rewrite Hh, forallb_take_spare by done.
  destruct (Nat.leb_spec (place d k E) (spare E)) as [Hle|Hlt].
  - exists (if (place d k E <=? j)%nat && (j <? spare E)%nat then S j else j).
    rewrite (put_ents_right d k E _ Hh) by done.
    destruct (Nat.leb_spec (place d k E) j), (Nat.ltb_spec j (spare E)); cbn [andb];
      repeat case_decide; try lia; (split; [by rewrite <- ?He; f_equal; lia|]); (split; [lia|]);
      intros [?|Hs]; try done; rewrite lor_bit_testbit by lia;
      destruct (Nat.ltb_spec (place d k E) (spare E)); rewrite ?used_right_testbit by lia;
      rewrite ?(proj2 (Nat.ltb_ge _ _)) by lia; bit_cases; rewrite ?orb_false_r; try done; try lia; f_equal; lia.
  - exists (if (spare E <=? j)%nat && (j <? place d k E)%nat then (j - 1)%nat else j).
    rewrite (put_ents_left d k E _ Hh) by lia.
    destruct (Nat.leb_spec (spare E) j), (Nat.ltb_spec j (place d k E)); cbn [andb];
      repeat case_decide; try lia; (split; [by rewrite <- ?He; f_equal; lia|]); (split; [lia|]);
      intros [?|Hs]; try done; rewrite lor_bit_testbit by lia;
      rewrite (proj2 (Nat.ltb_ge _ _)) by lia;
      rewrite (proj2 (Nat.ltb_lt _ _)) by lia; rewrite used_left_testbit by lia;
      bit_cases; rewrite ?orb_false_r; try done; try lia; f_equal; lia.
Qed.

(** What is seen after [v] was written at [z]: that level, and of the others
    what was seen before, but for one. *)
Definition sighted (d : bool) (z : Z) (v : btree_val) V V' : Prop :=
  lmap d V' !! z = val_opt v ∧
  ∃ y, ∀ x, x ≠ z -> x ≠ y -> lmap d V' !! x = lmap d V !! x.

Lemma seen_sorted d b u E : ksorted d b E.*1 -> ksorted d b (levels (hide_ents u E)).*1.
Proof. intros Hs. apply levels_sorted. by rewrite hide_ents_keys. Qed.

Lemma seen_lookup d b u E x w :
  ksorted d b E.*1 -> lmap d (levels (hide_ents u E)) !! x = Some w <->
  ∃ e, sees u E e ∧ ord d e.1 = Some x ∧ e.2 = w.
Proof.
  intros Hs. rewrite (lmap_lookup d b) by by apply seen_sorted.
  by setoid_rewrite elem_of_seen.
Qed.

(** The place of the level next to the spare cell. *)
Definition beside d E : Z := default 0 (e ← E !! (spare E - 1)%nat; ord d (e : entry).1).

Lemma put_sight d b k z E u v :
  ksorted d b (put_ents d k E).*1 -> ksorted d b E.*1 -> ord d k = Some z ->
  0 <= u < 2 ^ 64 -> (length E <= 62)%nat ->
  sighted d z v (levels (hide_ents u E))
    (levels (hide_ents (put_used d k E u) (alter (set_ent v) (put_idx d k E) (put_ents d k E)))).
Proof.
  intros Hs' Hs Hz Hu Hl. set (i := put_idx d k E). set (E' := put_ents d k E) in *.
  set (E2 := alter (set_ent v) i E').
  assert (ksorted d b E2.*1) as Hs2 by (unfold E2; by rewrite alter_keys).
  destruct (put_ents_lookup d k E) as (e0 & He0 & Hhome). fold E' i in He0.
  assert (ord d e0.1 = Some z) as Hz0.
  { destruct (home d k E) eqn:Hh; [|by subst e0]. destruct Hhome as [_ Hk]. by eapply (keq_ord d b E' i). }
  assert (E2 !! i = Some (set_ent v e0)) as Hi2 by (unfold E2; by rewrite list_lookup_alter_eq, He0).
  assert (∀ j e, E2 !! j = Some e -> ord d e.1 ≠ Some z -> j ≠ i ∧ E' !! j = Some e) as Hother.
  { intros j e Hj Hne. assert (j ≠ i) as Hji by (intros ->; by simplify_eq). split; [done|].
    unfold E2 in Hj. by rewrite list_lookup_alter_ne in Hj. }
  split.
  - apply option_eq. intros w. rewrite (seen_lookup d b) by done. unfold sees. split.
    + intros (e & (j & Hj & Hlv & _) & He & <-). assert (j = i) as ->.
      { eapply (ksorted_unique d b E2); [done|exact Hj|exact Hi2|done|done]. }
      rewrite Hi2 in Hj. injection Hj as <-. unfold val_opt, live in *. cbn [set_ent snd] in *.
      by destruct (btree_val_nil_p v).
    + unfold val_opt. destruct (btree_val_nil_p v) eqn:Hv; [done|]. intros [= <-].
      exists (set_ent v e0). split_and!; [|done..]. exists i. split_and!; [done|unfold live; cbn; by rewrite Hv|].
      unfold put_used. fold i. rewrite lor_bit_testbit by lia. by rewrite Z.eqb_refl, orb_true_r.
  - exists (beside d E). intros x Hxz Hxy. apply option_eq. intros w. rewrite !(seen_lookup d b) by done.
    assert (∀ j e, E !! j = Some e -> ord d e.1 = Some x -> home d k E = true ∨ S j ≠ spare E) as Hbes.
    { intros j e Hj He. right. intros Hj1. apply Hxy. unfold beside.
      replace (spare E - 1)%nat with j by lia. rewrite Hj. cbn. by rewrite He. }
    split; intros (e & (j & Hj & Hlv & Hb) & He & Hw); exists e; (split; [|done]).
    + destruct (Hother j e Hj) as [Hji Hj']; [congruence|].
      destruct (put_back d k E u j e Hu Hl Hj' Hlv Hji) as (j0 & Hj0 & Hbit).
      exists j0. split_and!; [done..|]. rewrite <- Hbit; [done|by eapply Hbes].
    + destruct (put_forth d k E u j e Hu Hl Hj Hlv) as (j' & Hj' & Hne & Hbit).
      { intros Hh ->. unfold E', put_ents in He0. rewrite Hh in He0. fold i in Hj. simplify_eq. }
      exists j'. fold i E' in Hj', Hne. unfold E2. rewrite list_lookup_alter_ne by done.
      split_and!; [done..|]. rewrite Hbit; [done|by eapply Hbes].
Qed.
End sight.
