(* ===== verification/BtreeKids.v ===== *)
(** * The children of an inner node, opened at one of them

    [around T P c Q lo hi X E]: a node has the children [P], [c], [Q], with
    the keys of [P] behind its children and those of [Q] in front of them; the
    children satisfy [T] (address, bounds, footprint, entries); the node's
    range is [lo] to [hi], [X] and [E] collect footprints and entries.  [pre]
    holds what is in front of [c], [post] what is behind it. *)

From Stdlib Require Import ZArith Lia.
From stdpp Require Import prelude list gmap fin_maps.
From stdpp Require Import options.
From S2P Require Import Prelude Decimal Btree BtreeLeaf BtreeUsed BtreeIter BtreeSide BtreeOps.
From S2P Require Import BtreeMap BtreeTree.

Local Open Scope Z_scope.

Section kids.
Context `{BKey K}.
#[local] Abbreviation entry := (K * btree_val)%type.
Implicit Types (E : list entry) (t : btree_s K) (k : K) (h : heap K) (p q c : positive).
Implicit Types (lo hi b : option Z) (X : list positive).
Implicit Types (P : list (positive * K)) (Q : list (K * positive)).
Variable d : bool.

#[local] Abbreviation subtree :=
  (positive -> option Z -> option Z -> list positive -> list entry -> Prop).

(** ** Sequences of children *)

Definition bnd lo hi : Prop := ∀ x y, lo = Some x -> hi = Some y -> x <= y.

Fixpoint pre (T : subtree) P lo b X E : Prop :=
  match P with
  | [] => b = lo ∧ X = [] ∧ E = []
  | (c, k) :: P =>
    ∃ z X1 X2 E1 E2, ord d k = Some z ∧ bnd lo (Some z) ∧ T c lo (Some z) X1 E1 ∧
      pre T P (Some z) b X2 E2 ∧ X = X1 ++ X2 ∧ E = E1 ++ E2
  end.

Fixpoint post (T : subtree) Q b hi X E : Prop :=
  match Q with
  | [] => b = hi ∧ X = [] ∧ E = []
  | (k, c) :: Q =>
    ∃ z b' X1 X2 E1 E2, b = Some z ∧ ord d k = Some z ∧ bnd b b' ∧ T c b b' X1 E1 ∧
      post T Q b' hi X2 E2 ∧ X = X1 ++ X2 ∧ E = E1 ++ E2
  end.

(** The children [P], [c], [Q] of a node. *)
Definition around (T : subtree) P c Q lo hi X E : Prop :=
  ∃ lo' hi' X1 X2 X3 E1 E2 E3, pre T P lo lo' X1 E1 ∧ bnd lo' hi' ∧ T c lo' hi' X2 E2 ∧
    post T Q hi' hi X3 E3 ∧ X = X1 ++ X2 ++ X3 ∧ E = E1 ++ E2 ++ E3.

Definition pq_keys P Q : list K := P.*2 ++ Q.*1.
Definition pq_kids P c Q : list positive := P.*1 ++ c :: Q.*2.

(** Moving the opening by one. *)
Lemma pre_snoc T P c k lo z X E :
  pre T (P ++ [(c, k)]) lo (Some z) X E <->
  ∃ lo' X1 X2 E1 E2, pre T P lo lo' X1 E1 ∧ ord d k = Some z ∧ bnd lo' (Some z) ∧
    T c lo' (Some z) X2 E2 ∧ X = X1 ++ X2 ∧ E = E1 ++ E2.
Proof.
  revert lo X E. induction P as [|[c0 k0] P IH]; intros lo X E; simpl.
  - split.
    + intros (z' & X1 & X2 & E1 & E2 & Hk & Hb & Hc & (Hz & -> & ->) & -> & ->).
      injection Hz as <-. exists lo, [], X1, [], E1. by rewrite !app_nil_r.
    + intros (lo' & X1 & X2 & E1 & E2 & (-> & -> & ->) & Hk & Hb & Hc & -> & ->).
      exists z, X2, [], E2, []. by rewrite !app_nil_r.
  - split.
    + intros (z0 & X1 & X2 & E1 & E2 & Hk & Hb & Hc &
              (lo' & Y1 & Y2 & F1 & F2 & Hp & Hr)%IH & -> & ->).
      destruct Hr as (? & ? & ? & -> & ->).
      exists lo', (X1 ++ Y1), Y2, (E1 ++ F1), F2. rewrite <- !app_assoc.
      split_and!; try done. by exists z0, X1, Y1, E1, F1.
    + intros (lo' & X1 & X2 & E1 & E2 &
              (z0 & Y1 & Y2 & F1 & F2 & Hk & Hb & Hc & Hp & -> & ->) & Hr).
      destruct Hr as (? & ? & ? & -> & ->).
      exists z0, Y1, (Y2 ++ X2), F1, (F2 ++ E2). rewrite <- !app_assoc.
      split_and!; try done. apply IH. by exists lo', Y2, X2, F2, E2.
Qed.

Lemma around_shift T P c k c' Q lo hi X E :
  around T (P ++ [(c, k)]) c' Q lo hi X E <-> around T P c ((k, c') :: Q) lo hi X E.
Proof.
  split.
  - intros (lo' & hi' & X1 & X2 & X3 & E1 & E2 & E3 & Hp & Hb & Hc & Hq & -> & ->).
    assert (∃ z, lo' = Some z) as [z ->].
    { clear Hb Hc Hq. revert lo X1 E1 Hp. induction P as [|[c0 k0] P IH]; simpl; intros.
      - destruct Hp as (z & ? & ? & ? & ? & _ & _ & _ & (-> & _) & _). eauto.
      - destruct Hp as (z & ? & ? & ? & ? & _ & _ & _ & Hp & _). eauto. }
    apply pre_snoc in Hp as (lo0 & Y1 & Y2 & F1 & F2 & Hp & Hk & Hb0 & Hc0 & -> & ->).
    exists lo0, (Some z), Y1, Y2, (X2 ++ X3), F1, F2, (E2 ++ E3).
    rewrite <- !app_assoc. split_and!; try done. by exists z, hi', X2, X3, E2, E3.
  - intros (lo' & hi' & X1 & X2 & X3 & E1 & E2 & E3 & Hp & Hb & Hc & Hq & -> & ->).
    destruct Hq as (z & b' & Y1 & Y2 & F1 & F2 & -> & Hk & Hb' & Hc' & Hq & -> & ->).
    exists (Some z), b', (X1 ++ X2), Y1, Y2, (E1 ++ E2), F1, F2.
    rewrite <- !app_assoc. split_and!; try done. apply pre_snoc.
    by exists lo', X1, X2, E1, E2.
Qed.

Lemma pq_shift P c k c' Q :
  pq_keys (P ++ [(c, k)]) Q = pq_keys P ((k, c') :: Q) ∧
  pq_kids (P ++ [(c, k)]) c' Q = pq_kids P c ((k, c') :: Q).
Proof. unfold pq_keys, pq_kids. by rewrite !fmap_app, <- !app_assoc. Qed.

(** Any child can be the one opened. *)
Lemma around_at T P c Q lo hi X E i :
  around T P c Q lo hi X E -> (i <= length P + length Q)%nat ->
  ∃ P' c' Q', around T P' c' Q' lo hi X E ∧ length P' = i ∧
    pq_keys P' Q' = pq_keys P Q ∧ pq_kids P' c' Q' = pq_kids P c Q.
Proof.
  destruct (decide (i <= length P)%nat) as [Hle|Hgt].
  - revert c Q. induction P as [|[c0 k0] P IH] using rev_ind; intros c Q Ha Hi.
    { exists [], c, Q. simpl in Hle. split_and!; try done. simpl. lia. }
    rewrite length_app in Hle. simpl in Hle.
    destruct (decide (i = S (length P))) as [->|].
    { exists (P ++ [(c0, k0)]), c, Q. split_and!; try done. rewrite length_app. simpl. lia. }
    destruct (IH ltac:(lia) c0 ((k0, c) :: Q)) as (P' & c' & Q' & Ha' & Hl & Hk & Hc).
    { by apply around_shift. } { simpl. rewrite length_app in Hi. simpl in Hi. lia. }
    destruct (pq_shift P c0 k0 c Q) as [Hk2 Hc2]. exists P', c', Q'. split_and!; congruence.
  - revert P c Hgt. induction Q as [|[k1 c1] Q IH]; intros P c Hgt Ha Hi; simpl in Hi; [lia|].
    destruct (decide (i = S (length P))) as [->|].
    { exists (P ++ [(c, k1)]), c1, Q. destruct (pq_shift P c k1 c1 Q).
      split_and!; try done; [by apply around_shift|rewrite length_app; simpl; lia]. }
    destruct (IH (P ++ [(c, k1)]) c1) as (P' & c' & Q' & Ha' & Hl & Hk & Hc).
    { rewrite length_app. simpl. lia. } { by apply around_shift. }
    { rewrite length_app. simpl. lia. }
    destruct (pq_shift P c k1 c1 Q) as [Hk2 Hc2]. exists P', c', Q'. split_and!; congruence.
Qed.

(** ** Bounds of openings *)

(** [lo'] is no higher than [lo]; [hi'] is no lower than [hi]. *)
Definition lower lo' lo : Prop := ∀ y, lo' = Some y -> ∃ x, lo = Some x ∧ y <= x.
Definition higher hi' hi : Prop := ∀ y, hi' = Some y -> ∃ x, hi = Some x ∧ x <= y.

Definition stretchy (T : subtree) : Prop :=
  ∀ c lo hi lo' hi' X E, T c lo hi X E -> lower lo' lo -> higher hi' hi -> T c lo' hi' X E.

Lemma lower_refl b : lower b b.
Proof. intros y ->. eauto with lia. Qed.
Lemma higher_refl b : higher b b.
Proof. intros y ->. eauto with lia. Qed.
Lemma bnd_lower lo z : bnd lo (Some z) -> lower lo (Some z).
Proof. intros Hb y ->. exists z. eauto. Qed.
Lemma bnd_higher z hi : bnd (Some z) hi -> higher hi (Some z).
Proof. intros Hb y ->. exists z. eauto. Qed.
Lemma bnd_trans lo z hi : bnd lo (Some z) -> bnd (Some z) hi -> bnd lo hi.
Proof. intros H1 H2 x y -> ->. specialize (H1 x z eq_refl eq_refl). specialize (H2 z y eq_refl eq_refl). lia. Qed.
Lemma bnd_stretch lo hi lo' hi' : bnd lo hi -> lower lo' lo -> higher hi' hi -> bnd lo' hi'.
Proof.
  intros Hb Hl Hh x y Hx Hy. destruct (Hl x Hx) as (x' & -> & ?), (Hh y Hy) as (y' & -> & ?).
  specialize (Hb x' y' eq_refl eq_refl). lia.
Qed.

Lemma pre_bnd T P lo b hi X E : pre T P lo b X E -> bnd b hi -> bnd lo hi.
Proof.
  revert lo X E. induction P as [|[c k] P IH]; simpl; intros lo X E.
  - by intros (-> & _).
  - intros (z & X1 & X2 & E1 & E2 & _ & Hb & _ & Hp & _) Hh.
    eapply bnd_trans; [done|by eapply IH].
Qed.

Lemma post_bnd T Q lo b hi X E : post T Q b hi X E -> bnd lo b -> bnd lo hi.
Proof.
  revert b lo X E. induction Q as [|[k c] Q IH]; simpl; intros b lo X E.
  - by intros (-> & _).
  - intros (z & b' & X1 & X2 & E1 & E2 & -> & _ & Hb & _ & Hq & _) Hl.
    eapply (IH b' lo); [done|by eapply bnd_trans].
Qed.

Lemma pre_lower T P lo lo' b X E :
  stretchy T -> pre T P lo b X E -> lower lo' lo -> ∃ b', lower b' b ∧ pre T P lo' b' X E.
Proof.
  intros HT. destruct P as [|[c k] P]; simpl.
  - intros (-> & -> & ->) Hl. by exists lo'.
  - intros (z & X1 & X2 & E1 & E2 & Hk & Hb & Hc & Hr & -> & ->) Hl.
    exists b. split; [apply lower_refl|]. exists z, X1, X2, E1, E2. split_and!; try done.
    + eapply bnd_stretch; [done..|apply higher_refl].
    + eapply HT; [done..|apply higher_refl].
Qed.

Lemma post_higher T Q b hi hi' X E :
  stretchy T -> post T Q b hi X E -> higher hi' hi -> ∃ b', higher b' b ∧ post T Q b' hi' X E.
Proof.
  intros HT. revert b X E. induction Q as [|[k c] Q IH]; simpl; intros b X E.
  - intros (-> & -> & ->) Hl. by exists hi'.
  - intros (z & b' & X1 & X2 & E1 & E2 & -> & Hk & Hb & Hc & Hr & -> & ->) Hl.
    destruct (IH _ _ _ Hr Hl) as (b2 & Hb2 & Hr2). exists (Some z).
    split; [apply higher_refl|]. exists z, b2, X1, X2, E1, E2. split_and!; try done.
    + eapply bnd_stretch; [done|apply lower_refl|done].
    + eapply HT; [done|apply lower_refl|done].
Qed.

Lemma pre_app T P1 P2 lo b X E :
  pre T (P1 ++ P2) lo b X E <->
  ∃ b' X1 X2 E1 E2, pre T P1 lo b' X1 E1 ∧ pre T P2 b' b X2 E2 ∧ X = X1 ++ X2 ∧ E = E1 ++ E2.
Proof.
  revert lo X E. induction P1 as [|[c k] P1 IH]; intros lo X E; simpl.
  - split; [intros; by exists lo, [], X, [], E|].
    by intros (b' & X1 & X2 & E1 & E2 & (-> & -> & ->) & ? & -> & ->).
  - split.
    + intros (z & X1 & X2 & E1 & E2 & Hk & Hb & Hc & (b' & Y1 & Y2 & F1 & F2 & ? & ? & -> & ->)%IH & -> & ->).
      exists b', (X1 ++ Y1), Y2, (E1 ++ F1), F2. rewrite <- !app_assoc.
      split_and!; try done. by exists z, X1, Y1, E1, F1.
    + intros (b' & Y1 & Y2 & F1 & F2 & (z & X1 & X2 & E1 & E2 & Hk & Hb & Hc & Hp & -> & ->) & Hr & -> & ->).
      exists z, X1, (X2 ++ Y2), E1, (E2 ++ F2). rewrite <- !app_assoc. split_and!; try done.
      apply IH. by exists b', X2, Y2, E2, F2.
Qed.

Lemma post_app T Q1 Q2 b hi X E :
  post T (Q1 ++ Q2) b hi X E <->
  ∃ b' X1 X2 E1 E2, post T Q1 b b' X1 E1 ∧ post T Q2 b' hi X2 E2 ∧ X = X1 ++ X2 ∧ E = E1 ++ E2.
Proof.
  revert b X E. induction Q1 as [|[k c] Q1 IH]; intros b X E; simpl.
  - split; [intros; by exists b, [], X, [], E|].
    by intros (b' & X1 & X2 & E1 & E2 & (-> & -> & ->) & ? & -> & ->).
  - split.
    + intros (z & b1 & X1 & X2 & E1 & E2 & -> & Hk & Hb & Hc & (b' & Y1 & Y2 & F1 & F2 & ? & ? & -> & ->)%IH & -> & ->).
      exists b', (X1 ++ Y1), Y2, (E1 ++ F1), F2. rewrite <- !app_assoc.
      split_and!; try done. by exists z, b1, X1, Y1, E1, F1.
    + intros (b' & Y1 & Y2 & F1 & F2 & (z & b1 & X1 & X2 & E1 & E2 & -> & Hk & Hb & Hc & Hp & -> & ->) & Hr & -> & ->).
      exists z, b1, X1, (X2 ++ Y2), E1, (E2 ++ F2). rewrite <- !app_assoc. split_and!; try done.
      apply IH. by exists b', X2, Y2, E2, F2.
Qed.

(** A change of the subtrees within the footprint. *)
Definition carries (Y : list positive) (T T' : subtree) : Prop :=
  ∀ c lo hi X E, X ⊆ Y -> T c lo hi X E -> T' c lo hi X E.

Lemma pre_carry Y T T' P lo b X E :
  carries Y T T' -> X ⊆ Y -> pre T P lo b X E -> pre T' P lo b X E.
Proof.
  intros HT. revert lo X E. induction P as [|[c k] P IH]; simpl; intros lo X E HX; [done|].
  intros (z & X1 & X2 & E1 & E2 & Hk & Hb & Hc & Hr & -> & ->).
  exists z, X1, X2, E1, E2. split_and!; try done.
  - apply HT; [set_solver|done].
  - apply IH; [set_solver|done].
Qed.

Lemma post_carry Y T T' Q b hi X E :
  carries Y T T' -> X ⊆ Y -> post T Q b hi X E -> post T' Q b hi X E.
Proof.
  intros HT. revert b X E. induction Q as [|[k c] Q IH]; simpl; intros b X E HX; [done|].
  intros (z & b' & X1 & X2 & E1 & E2 & Hk & Hz & Hb & Hc & Hr & -> & ->).
  exists z, b', X1, X2, E1, E2. split_and!; try done.
  - apply HT; [set_solver|done].
  - apply IH; [set_solver|done].
Qed.

Lemma around_carry Y T T' P c Q lo hi X E :
  carries Y T T' -> X ⊆ Y -> around T P c Q lo hi X E -> around T' P c Q lo hi X E.
Proof.
  intros HT HX (lo' & hi' & X1 & X2 & X3 & E1 & E2 & E3 & Hp & Hb & Hc & Hq & -> & ->).
  exists lo', hi', X1, X2, X3, E1, E2, E3. split_and!; try done.
  - eapply pre_carry; [done|set_solver|done].
  - apply HT; [set_solver|done].
  - eapply post_carry; [done|set_solver|done].
Qed.

Lemma around_stretchy T P c Q lo hi lo' hi' X E :
  stretchy T -> around T P c Q lo hi X E -> lower lo' lo -> higher hi' hi ->
  around T P c Q lo' hi' X E.
Proof.
  intros HT (l & r & X1 & X2 & X3 & E1 & E2 & E3 & Hp & Hb & Hc & Hq & -> & ->) Hl Hh.
  destruct (pre_lower _ _ _ _ _ _ _ HT Hp Hl) as (l' & Hl' & Hp').
  destruct (post_higher _ _ _ _ _ _ _ HT Hq Hh) as (r' & Hr' & Hq').
  exists l', r', X1, X2, X3, E1, E2, E3. split_and!; try done.
  - by eapply bnd_stretch.
  - by eapply HT.
Qed.

(** *** Dropping a child *)

(** The children [Q3], whose key in front is now [k]. *)
Definition rekey k Q : list (K * positive) :=
  match Q with [] => [] | (_, c) :: Q => (k, c) :: Q end.

Lemma pre_drop T P1 c k P2 lo b X E :
  stretchy T -> pre T (P1 ++ (c, k) :: P2) lo b X E ->
  ∃ b' l r XA Xc XB EA Ec EB, pre T (P1 ++ P2) lo b' (XA ++ XB) (EA ++ EB) ∧ lower b' b ∧
    T c l r Xc Ec ∧ X = XA ++ Xc ++ XB ∧ E = EA ++ Ec ++ EB ∧ ∃ l', pre T P2 l' b XB EB.
Proof.
  intros HT (b1 & X1 & X2 & E1 & E2 & H1 & H2 & -> & ->)%pre_app.
  destruct H2 as (z & Y1 & Y2 & F1 & F2 & Hk & Hb & Hc & Hp & -> & ->).
  destruct (pre_lower T P2 (Some z) b1 b Y2 F2 HT Hp) as (b' & Hl & Hp').
  { by apply bnd_lower. }
  exists b', b1, (Some z), X1, Y1, Y2, E1, F1, F2. split_and!; try done; [|eauto].
  apply pre_app. by exists b1, X1, Y2, E1, F2.
Qed.

Lemma post_drop T Q1 k c Q2 b hi X E :
  stretchy T -> post T (Q1 ++ (k, c) :: Q2) b hi X E ->
  ∃ b' l r XA Xc XB EA Ec EB, post T (Q1 ++ rekey k Q2) b' hi (XA ++ XB) (EA ++ EB) ∧
    higher b' b ∧ T c l r Xc Ec ∧ X = XA ++ Xc ++ XB ∧ E = EA ++ Ec ++ EB ∧
    ∃ l', post T Q2 l' hi XB EB.
Proof.
  intros HT (b1 & X1 & X2 & E1 & E2 & H1 & H2 & -> & ->)%post_app.
  destruct H2 as (z & b2 & Y1 & Y2 & F1 & F2 & -> & Hk & Hb & Hc & Hp & -> & ->).
  destruct Q2 as [|[k2 c2] Q2].
  - destruct Hp as (-> & -> & ->).
    destruct (post_higher T Q1 b (Some z) hi X1 E1 HT H1) as (b' & Hl & Hp').
    { by apply bnd_higher. }
    exists b', (Some z), hi, X1, Y1, [], E1, F1, []. simpl. rewrite !app_nil_r. split_and!; try done.
    by exists hi.
  - destruct Hp as (z2 & b3 & Z1 & Z2 & G1 & G2 & -> & Hk2 & Hb2 & Hc2 & Hp & -> & ->).
    exists b, (Some z), (Some z2), X1, Y1, (Z1 ++ Z2), E1, F1, (G1 ++ G2).
    split_and!; try done; [|apply higher_refl|by exists (Some z2), z2, b3, Z1, Z2, G1, G2].
    apply post_app. exists (Some z), X1, (Z1 ++ Z2), E1, (G1 ++ G2). split_and!; try done.
    exists z, b3, Z1, Z2, G1, G2. split_and!; try done.
    + by eapply bnd_trans.
    + eapply HT; [done| |apply higher_refl]. by apply bnd_lower.
Qed.

(** *** The children one by one *)

Lemma around_each T P c Q lo hi X E :
  around T P c Q lo hi X E ->
  ∃ Es : list (list entry), E = concat Es ∧
    Forall2 (λ c E, ∃ lo hi X', X' ⊆ X ∧ T c lo hi X' E) (pq_kids P c Q) Es.
Proof.
  intros (l & r & X1 & X2 & X3 & E1 & E2 & E3 & Hp & _ & Hc & Hq & -> & ->).
  assert (∃ Es, E1 = concat Es ∧
    Forall2 (λ c E, ∃ lo hi X', X' ⊆ X1 ++ X2 ++ X3 ∧ T c lo hi X' E) P.*1 Es) as (Es1 & -> & H1).
  { clear Hc Hq. assert (X1 ⊆ X1 ++ X2 ++ X3) as HX by set_solver.
    revert HX. generalize (X1 ++ X2 ++ X3). intros Y. revert lo X1 E1 Hp.
    induction P as [|[c0 k0] P IH]; simpl; intros lo X1 E1.
    - intros (_ & _ & ->) _. by exists [].
    - intros (z & Y1 & Y2 & F1 & F2 & _ & _ & Hc & Hp & -> & ->) HX.
      destruct (IH _ _ _ Hp) as (Es & -> & Hf); [set_solver|]. exists (F1 :: Es).
      split; [done|]. constructor; [|done]. exists lo, (Some z), Y1. split; [set_solver|done]. }
  assert (∃ Es, E3 = concat Es ∧
    Forall2 (λ c E, ∃ lo hi X', X' ⊆ X1 ++ X2 ++ X3 ∧ T c lo hi X' E) Q.*2 Es) as (Es3 & -> & H3).
  { clear Hc Hp H1. assert (X3 ⊆ X1 ++ X2 ++ X3) as HX by set_solver.
    revert HX. generalize (X1 ++ X2 ++ X3). intros Y. revert r X3 E3 Hq.
    induction Q as [|[k0 c0] Q IH]; simpl; intros b X3 E3.
    - intros (_ & _ & ->) _. by exists [].
    - intros (z & b' & Y1 & Y2 & F1 & F2 & _ & _ & _ & Hc & Hq & -> & ->) HX.
      destruct (IH _ _ _ Hq) as (Es & -> & Hf); [set_solver|]. exists (F1 :: Es).
      split; [done|]. constructor; [|done]. exists b, b', Y1. split; [set_solver|done]. }
  exists (Es1 ++ E2 :: Es3). rewrite concat_app. split; [done|].
  apply Forall2_app; [done|]. constructor; [|done]. exists l, r, X2. split; [set_solver|done].
Qed.
(** The child an address is under. *)
Lemma around_find (T : subtree) P c Q lo hi X E q :
  around T P c Q lo hi X E -> q ∈ X ->
  ∃ P' c' Q' lo' hi' X1 X2 X3 E1 E2 E3,
    pq_keys P' Q' = pq_keys P Q ∧ pq_kids P' c' Q' = pq_kids P c Q ∧ q ∈ X2 ∧
    pre T P' lo lo' X1 E1 ∧ bnd lo' hi' ∧ T c' lo' hi' X2 E2 ∧ post T Q' hi' hi X3 E3 ∧
    X = X1 ++ X2 ++ X3 ∧ E = E1 ++ E2 ++ E3.
Proof.
  intros Ha Hin. destruct (around_at T P c Q lo hi X E 0 Ha) as (P0 & c0 & Q0 & Ha0 & Hl & <- & <-); [lia|].
  destruct P0; [|done]. clear Ha P c Q Hl.
  destruct Ha0 as (lo' & hi' & X1 & X2 & X3 & E1 & E2 & E3 & Hp & Hb & Hc & Hq & -> & ->).
  assert (q ∈ X2 ++ X3) as Hin'. { destruct Hp as (_ & -> & _). done. }
  clear Hin. rename c0 into c. revert Hp Hb Hc Hq Hin'. generalize (@nil (positive * K)). intros P.
  revert P c lo' hi' X1 X2 X3 E1 E2 E3.
  induction Q0 as [|[k c'] Q IH]; intros P c lo' hi' X1 X2 X3 E1 E2 E3 Hp Hb Hc Hq Hin'.
  - exists P, c, [], lo', hi', X1, X2, X3, E1, E2, E3. split_and!; try done.
    destruct Hq as (_ & -> & _). by rewrite app_nil_r in Hin'.
  - destruct (decide (q ∈ X2)) as [|Hn].
    { by exists P, c, ((k, c') :: Q), lo', hi', X1, X2, X3, E1, E2, E3. }
    destruct Hq as (z & b' & Y1 & Y2 & F1 & F2 & -> & Hz & Hb' & Hc' & Hq & -> & ->).
    destruct (pq_shift P c k c' Q) as [<- <-].
    rewrite (app_assoc X1), (app_assoc E1), <- (app_assoc X1), <- (app_assoc E1).
    destruct (IH (P ++ [(c, k)]) c' (Some z) b' (X1 ++ X2) Y1 Y2 (E1 ++ E2) F1 F2)
      as (P' & c2 & Q' & l & r & Z1 & Z2 & Z3 & G1 & G2 & G3 & Hrest); [|done..| |].
    + apply pre_snoc. by exists lo', X1, X2, E1, E2.
    + apply elem_of_app in Hin' as [|]; [done|]. done.
    + rewrite <- !app_assoc in Hrest. eauto 20.
Qed.
End kids.
