(* ===== verification/BtreeGrow.v ===== *)
(** * Trees with their footprint

    [ptree h m cap p lo hi X E]: as [tree], and [X] lists the addresses of the
    nodes, the root has at most [cap] keys and every other node has room for
    one more. *)

From Stdlib Require Import ZArith Lia.
From stdpp Require Import prelude list gmap fin_maps.
From stdpp Require Import options.
From S2P Require Import Prelude Decimal Btree BtreeLeaf BtreeUsed BtreeIter BtreeSide BtreeOps.
From S2P Require Import BtreeMap BtreeTree BtreeKids.

Local Open Scope Z_scope.

Section grow.
Context `{BKey K}.
#[local] Abbreviation entry := (K * btree_val)%type.
Implicit Types (E : list entry) (t : btree_s K) (k : K) (h : heap K) (p q c : positive).
Implicit Types (lo hi b : option Z) (X : list positive).
Implicit Types (P : list (positive * K)) (Q : list (K * positive)).
Variable d : bool.

#[local] Abbreviation subtree :=
  (positive -> option Z -> option Z -> list positive -> list entry -> Prop).

(** ** Nodes *)

(** An inner node with keys [ks] and children [cs]. *)
Record inner_rep t (ks : list K) (cs : list positive) : Prop := {
  irep_inner : innerp t = true;
  irep_desc : descp t = d;
  irep_n : n t = length ks;
  irep_key : ∃ r, key t = ks ++ r ∧ (length ks + length r = NKEY)%nat;
  irep_val : ∃ r, val t = (Ual_t ∘ Some <$> cs) ++ r ∧ (length cs + length r = NVAL)%nat;
}.

(** The node [t], a leaf or the parent of [T]s. *)
Definition node_ok (T : option subtree) t lo hi X E : Prop :=
  match T with
  | None => leaf_rep d t E ∧ within d lo hi E ∧ X = []
  | Some T => ∃ P c Q, inner_rep t (pq_keys P Q) (pq_kids P c Q) ∧
                       around d T P c Q lo hi X E
  end.

(** The node at [p], with at most [cap] keys. *)
Definition node_at h (T : option subtree) (cap : nat) : subtree := λ p lo hi X E,
  ∃ t X0, hget h p = Some t ∧ X = p :: X0 ∧ (n t <= cap)%nat ∧ node_ok T t lo hi X0 E.

(** What the children of a node at height [m] satisfy. *)
Fixpoint kidsT h (m : nat) : option subtree :=
  match m with
  | O => None
  | S m => Some (node_at h (kidsT h m) 62)
  end.

Definition ptree h (m cap : nat) : subtree := node_at h (kidsT h m) cap.

(** Nodes that agree on all that the order of the tree depends on. *)
Definition node_like t t' : Prop :=
  n t' = n t ∧ innerp t' = innerp t ∧ descp t' = descp t ∧ key t' = key t ∧ val t' = val t.

Lemma node_like_refl t : node_like t t.
Proof. done. Qed.
Lemma node_like_next t nx : node_like t (set_next nx t).
Proof. done. Qed.
Lemma node_like_splitp t sp : node_like t (set_splitp sp t).
Proof. done. Qed.

Lemma node_like_leaf t t' E : node_like t t' -> leaf_rep d t E -> leaf_rep d t' E.
Proof. intros (Hn & Hi & Hd & Hk & Hv) []. by constructor; rewrite ?Hn, ?Hi, ?Hd, ?Hk, ?Hv. Qed.

Lemma node_like_inner t t' ks cs : node_like t t' -> inner_rep t ks cs -> inner_rep t' ks cs.
Proof. intros (Hn & Hi & Hd & Hk & Hv) []. by constructor; rewrite ?Hn, ?Hi, ?Hd, ?Hk, ?Hv. Qed.

Lemma node_like_ok T t t' lo hi X E :
  node_like t t' -> node_ok T t lo hi X E -> node_ok T t' lo hi X E.
Proof.
  intros Hl. destruct T as [T|]; simpl.
  - intros (P & c & Q & Hr & Ha). exists P, c, Q. split; [by eapply node_like_inner|done].
  - intros (Hr & Hw & ->). split; [by eapply node_like_leaf|done].
Qed.

(** The nodes [X] of [h] are there in [h'], alike. *)
Definition alike (X : list positive) h h' : Prop :=
  ∀ q t, q ∈ X -> hget h q = Some t -> ∃ t', hget h' q = Some t' ∧ node_like t t'.

Lemma kidsT_alike Y h h' m T :
  alike Y h h' -> kidsT h m = Some T -> ∃ T', kidsT h' m = Some T' ∧ carries Y T T'.
Proof.
  intros HY. revert T. induction m as [|m IH]; intros T; [done|]. cbn [kidsT]. intros [= <-].
  eexists. split; [done|]. intros c lo hi X E HX (t & X0 & Ht & -> & Hn & Hok).
  destruct (HY c t) as (t' & Ht' & Hlike); [set_solver|done|].
  exists t', X0. split_and!; [done..|by rewrite (proj1 Hlike)|].
  eapply node_like_ok; [done|]. destruct (kidsT h m) as [T|] eqn:HT.
  - destruct (IH T eq_refl) as (T' & -> & Hc). simpl in *.
    destruct Hok as (P & c' & Q & Hr & Ha). exists P, c', Q. split; [done|].
    eapply around_carry; [done|set_solver|done].
  - destruct m; [done|done].
Qed.

Lemma node_ok_alike h h' m t lo hi X E :
  alike X h h' -> node_ok (kidsT h m) t lo hi X E -> node_ok (kidsT h' m) t lo hi X E.
Proof.
  intros HX. destruct (kidsT h m) as [T|] eqn:HT.
  - destruct (kidsT_alike _ _ _ _ _ HX HT) as (T' & -> & Hc).
    intros (P & c' & Q & Hr & Ha). exists P, c', Q. split; [done|]. by eapply around_carry.
  - destruct m; done.
Qed.

Lemma ptree_alike h h' m cap p lo hi X E :
  alike X h h' -> ptree h m cap p lo hi X E -> ptree h' m cap p lo hi X E.
Proof.
  intros HX (t & X0 & Ht & -> & Hn & Hok).
  destruct (HX p t) as (t' & Ht' & Hlike); [left|done|].
  exists t', X0. split_and!; [done..|by rewrite (proj1 Hlike)|].
  eapply node_like_ok; [done|]. eapply node_ok_alike; [|done]. intros q tq Hq. apply HX. by right.
Qed.

Lemma alike_refl X h : alike X h h.
Proof. intros q t _ Ht. by exists t. Qed.

Lemma alike_trans X h1 h2 h3 : alike X h1 h2 -> alike X h2 h3 -> alike X h1 h3.
Proof.
  intros H1 H2 q t Hq Ht. destruct (H1 q t Hq Ht) as (t2 & Ht2 & Hl).
  destruct (H2 q t2 Hq Ht2) as (t3 & Ht3 & Hl'). exists t3. split; [done|].
  unfold node_like in *. naive_solver congruence.
Qed.

Lemma alike_sub X Y h h' : X ⊆ Y -> alike Y h h' -> alike X h h'.
Proof. intros Hs HY q t Hq. apply HY. by apply Hs. Qed.

Lemma alike_hset X h q t : q ∉ X -> alike X h (hset q t h).
Proof.
  intros Hq r tr Hr Htr. exists tr. split; [|done]. rewrite hget_hset_ne; [done|]. congruence.
Qed.

Lemma ptree_cap h m cap cap' p lo hi X E :
  (cap <= cap')%nat -> ptree h m cap p lo hi X E -> ptree h m cap' p lo hi X E.
Proof. intros Hc (t & X0 & Ht & -> & Hn & Hok). exists t, X0. split_and!; try done. lia. Qed.

(** ** Bounds and order *)

Lemma within_stretch lo hi lo' hi' E :
  within d lo hi E -> lower lo' lo -> higher hi' hi -> within d lo' hi' E.
Proof.
  intros [Hs Hu] Hl Hh. split; [by eapply ksorted_lb|].
  intros e z Hin He y Hy. destruct (Hh y Hy) as (x & Hx & ?).
  specialize (Hu e z Hin He x Hx). lia.
Qed.

Lemma node_ok_stretchy h m t lo hi lo' hi' X E :
  node_ok (kidsT h m) t lo hi X E -> lower lo' lo -> higher hi' hi ->
  node_ok (kidsT h m) t lo' hi' X E.
Proof.
  revert t lo hi lo' hi' X E. induction m as [|m IH]; intros t lo hi lo' hi' X E; cbn [kidsT node_ok].
  - intros (Hr & Hw & ->) Hl Hh. split_and!; try done. by eapply within_stretch.
  - intros (P & c & Q & Hr & Ha) Hl Hh. exists P, c, Q. split; [done|].
    eapply around_stretchy; [|done..]. intros c' l r l' r' Y F (tc & Y0 & ? & ? & ? & ?) ??.
    exists tc, Y0. eauto.
Qed.

Lemma ptree_stretchy h m cap : stretchy (ptree h m cap).
Proof.
  intros p lo hi lo' hi' X E (t & X0 & ? & ? & ? & ?) Hl Hh. exists t, X0.
  eauto using node_ok_stretchy.
Qed.

Lemma around_kids (T : subtree) (T' : positive -> option Z -> option Z -> list entry -> Prop)
    P c Q lo hi X E :
  (∀ c lo hi X E, T c lo hi X E -> T' c lo hi E) -> around d T P c Q lo hi X E ->
  kids d T' (pq_keys P Q) (pq_kids P c Q) lo hi E.
Proof.
  intros HT Ha. destruct (around_at d T P c Q lo hi X E 0 Ha) as (P' & c' & Q' & Ha' & Hl & <- & <-); [lia|].
  destruct P'; [|done]. clear Ha P c Q Hl.
  destruct Ha' as (lo' & hi' & X1 & X2 & X3 & E1 & E2 & E3 & (-> & -> & ->) & Hb & Hc & Hq & -> & ->).
  unfold pq_keys, pq_kids. simpl.
  revert c' lo hi' X2 E2 X3 E3 Hb Hc Hq. induction Q' as [|[k c] Q IH]; intros c' lo b X2 E2 X3 E3 Hb Hc; simpl.
  - intros (-> & -> & ->). rewrite app_nil_r. constructor. eauto.
  - intros (z & b' & Y1 & Y2 & F1 & F2 & -> & Hk & Hb' & Hc' & Hq & -> & ->).
    econstructor; [exact Hk| | |by eapply HT|by eapply IH].
    + intros y ->. by apply Hb.
    + pose proof (post_bnd _ _ _ _ _ _ _ _ Hq Hb') as Hbd. intros y ->. by apply Hbd.
Qed.

Lemma ptree_tree h m cap p lo hi X E : ptree h m cap p lo hi X E -> tree d h m p lo hi E.
Proof.
  revert cap p lo hi X E. induction m as [|m IH]; intros cap p lo hi X E (t & X0 & Ht & -> & _ & Hok).
  - destruct Hok as (Hr & Hw & ->). by exists t.
  - destruct Hok as (P & c & Q & Hr & Ha). destruct (irep_key _ _ _ Hr) as (kr & Hk & _).
    destruct (irep_val _ _ _ Hr) as (vr & Hv & _). destruct Hr.
    exists t, (pq_keys P Q), (pq_kids P c Q), kr, vr. split_and!; try done.
    eapply around_kids; [|exact Ha]. intros. by eapply IH.
Qed.

Lemma ptree_bnd h m cap p lo hi X E : ptree h (S m) cap p lo hi X E -> bnd lo hi.
Proof.
  intros (t & X0 & Ht & -> & _ & P & c & Q & Hr & Ha).
  destruct Ha as (l & r & X1 & X2 & X3 & E1 & E2 & E3 & Hp & Hb & Hc & Hq & -> & ->).
  eapply pre_bnd; [done|]. by eapply post_bnd.
Qed.

(** ** Descent *)

Lemma irep_child t ks cs i c : inner_rep t ks cs -> cs !! i = Some c -> child t i = Some c.
Proof.
  intros Hr Hi. destruct (irep_val _ _ _ Hr) as (r & Hv & _). unfold child.
  rewrite Hv, (lookup_app_l_Some _ _ i (Ual_t (Some c))); [done|].
  by rewrite list_lookup_fmap, Hi.
Qed.

Lemma pq_kids_at P c Q : pq_kids P c Q !! length P = Some c.
Proof. unfold pq_kids. by rewrite lookup_app_r, length_fmap, Nat.sub_diag by (by rewrite length_fmap). Qed.

Lemma pq_keys_at P k c Q : pq_keys P ((k, c) :: Q) !! length P = Some k.
Proof. unfold pq_keys. by rewrite lookup_app_r, length_fmap, Nat.sub_diag by (by rewrite length_fmap). Qed.

Lemma length_pq_keys P Q : length (pq_keys P Q) = (length P + length Q)%nat.
Proof. unfold pq_keys. by rewrite length_app, !length_fmap. Qed.

Lemma length_pq_kids P c Q : length (pq_kids P c Q) = S (length P + length Q).
Proof. unfold pq_kids. rewrite length_app. simpl. rewrite !length_fmap. lia. Qed.

(** All keys of a node are numbers. *)
Lemma pre_ord T P lo b X E i k :
  pre d T P lo b X E -> P.*2 !! i = Some k -> ∃ z, ord d k = Some z.
Proof.
  revert i lo X E. induction P as [|[c0 k0] P IH]; intros i lo X E; [done|]. simpl.
  intros (z & X1 & X2 & E1 & E2 & Hk & _ & _ & Hp & _). destruct i as [|i]; simpl; [|by eapply IH].
  intros [= <-]. eauto.
Qed.

Lemma post_ord T Q b hi X E i k :
  post d T Q b hi X E -> Q.*1 !! i = Some k -> ∃ z, ord d k = Some z.
Proof.
  revert i b X E. induction Q as [|[k0 c0] Q IH]; intros i b X E; [done|]. simpl.
  intros (z & b' & X1 & X2 & E1 & E2 & _ & Hk & _ & _ & Hq & _).
  destruct i as [|i]; simpl; [|by eapply IH]. intros [= <-]. eauto.
Qed.

(** The last key in front of the opening is its lower bound, the first key
    behind it its upper bound. *)
Lemma pre_last T P lo b X E :
  pre d T P lo b X E ->
  match last P with None => b = lo | Some (_, k) => ∃ z, ord d k = Some z ∧ b = Some z end.
Proof.
  intros Hp. destruct P as [|[c k] P _] using rev_ind; [by destruct Hp|].
  rewrite last_snoc. rename Hp into Hs.
  assert (∃ z, b = Some z) as [z ->].
  { revert lo X E Hs. clear. induction P as [|[c0 k0] P IH]; simpl; intros lo X E.
    - intros (z & ? & ? & ? & ? & _ & _ & _ & (-> & _) & _). eauto.
    - intros (z & ? & ? & ? & ? & _ & _ & _ & Hp & _). eauto. }
  apply pre_snoc in Hs as (? & ? & ? & ? & ? & _ & Hk & _). eauto.
Qed.

(** [key_scan] opens a node at the child whose range the key is in. *)
Lemma key_scan_opens T t P c Q lo hi X E k z :
  inner_rep t (pq_keys P Q) (pq_kids P c Q) -> around d T P c Q lo hi X E ->
  ord d k = Some z -> above lo z -> upto hi z ->
  ∃ P' c' Q' lo' hi' X1 X2 X3 E1 E2 E3,
    pq_keys P' Q' = pq_keys P Q ∧ pq_kids P' c' Q' = pq_kids P c Q ∧
    key_scan t k = Some (length P') ∧ above lo' z ∧ upto hi' z ∧
    pre d T P' lo lo' X1 E1 ∧ bnd lo' hi' ∧ T c' lo' hi' X2 E2 ∧ post d T Q' hi' hi X3 E3 ∧
    X = X1 ++ X2 ++ X3 ∧ E = E1 ++ E2 ++ E3.
Proof.
  intros Hr Ha Hz Hlo Hhi. destruct (irep_key _ _ _ Hr) as (kr & Hkey & Hkl).
  pose proof (irep_n _ _ _ Hr) as Hn. rewrite length_pq_keys in Hn.
  destruct (scan_up_total (n t) (fun i => ki ← key t !! i;
              Some (if descp t then klt k ki else kgt k ki)) 0) as [i Hi].
  { intros x Hx. destruct (lookup_lt_is_Some_2 (key t) x) as [kx Hkx].
    { rewrite Hkey. rewrite length_app, length_pq_keys. lia. }
    rewrite Hkx. simpl. eauto. }
  change (key_scan t k = Some i) in Hi. pose proof Hi as Hs.
  unfold key_scan in Hs. apply scan_up_Some in Hs as (Hb & Ht & Hf).
  destruct (around_at _ _ _ _ _ _ _ _ _ i Ha) as (P' & c' & Q' & Ha' & <- & Hks & Hcs); [lia|].
  destruct Ha' as (lo' & hi' & X1 & X2 & X3 & E1 & E2 & E3 & Hp & Hb' & Hc & Hq & -> & ->).
  assert (∀ x kx, (pq_keys P' Q') !! x = Some kx -> key t !! x = Some kx) as Hkt.
  { intros x kx Hx. rewrite Hkey, <- Hks. by apply lookup_app_l_Some. }
  rewrite <- Hks in Hkey. exists P', c', Q', lo', hi', X1, X2, X3, E1, E2, E3. split_and!; try done.
  - pose proof (pre_last _ _ _ _ _ _ Hp) as Hl. destruct P' as [|[c0 k0] P' _] using rev_ind; simpl in Hl.
    { by subst. }
    rewrite last_snoc in Hl. destruct Hl as (z0 & Hz0 & ->). intros y [= <-].
    rewrite length_app in Ht. simpl in Ht. specialize (Ht (length P') ltac:(lia)).
    rewrite (Hkt (length P') k0) in Ht.
    2: { rewrite (proj1 (pq_shift P' c0 k0 c' Q')). apply pq_keys_at. }
    simpl in Ht. injection Ht as Ht. rewrite (irep_desc _ _ _ Hr) in Ht.
    pose proof (before_spec _ _ _ _ _ Hz0 Hz) as Hbf. unfold before in Hbf. rewrite Hbf in Ht. lia.
  - destruct Q' as [|[k0 c0] Q']; simpl in Hq; [by destruct Hq as [-> _]|].
    destruct Hq as (z0 & b' & ? & ? & ? & ? & -> & Hz0 & _). intros y [= <-].
    assert (pq_keys P' ((k0, c0) :: Q') !! length P' = Some k0) as Hx by apply pq_keys_at.
    assert (length P' < n t)%nat as Hlt.
    { rewrite Hn, <- length_pq_keys, <- Hks, length_pq_keys. simpl. lia. }
    specialize (Hf ltac:(lia)). rewrite (Hkt _ _ Hx) in Hf. simpl in Hf. injection Hf as Hf.
    rewrite (irep_desc _ _ _ Hr) in Hf.
    pose proof (before_spec _ _ _ _ _ Hz0 Hz) as Hbf. unfold before in Hbf. rewrite Hbf in Hf. lia.
Qed.

(** ** Free nodes *)

(** Has [E] no level? *)
Definition emptyb E : bool := match levels E with [] => true | _ => false end.

Lemma emptyb_app E1 E2 : emptyb (E1 ++ E2) = emptyb E1 && emptyb E2.
Proof. unfold emptyb. rewrite levels_app. by destruct (levels E1). Qed.

Lemma emptyb_levels E : emptyb E = true -> levels E = [].
Proof. unfold emptyb. by destruct (levels E). Qed.

Lemma emptyb_scan E i :
  (i <= length E)%nat ->
  (∀ x e, (x < i)%nat -> E !! x = Some e -> live e = false) ->
  (∀ e, E !! i = Some e -> live e = true) ->
  emptyb E = (length E <=? i)%nat.
Proof.
  intros Hi H1 H2.
  destruct (Nat.leb_spec (length E) i) as [Hle|Hlt].
  - unfold emptyb. destruct (levels E) as [|e L] eqn:HL; [done|].
    assert (e ∈ levels E) as (Hl & Hin)%elem_of_levels by (rewrite HL; left).
    apply list_elem_of_lookup in Hin as [x Hx]. pose proof (lookup_lt_Some _ _ _ Hx).
    specialize (H1 x e ltac:(lia) Hx). congruence.
  - destruct (lookup_lt_is_Some_2 E i Hlt) as [e He]. specialize (H2 e He).
    assert (e ∈ levels E) as Hin.
    { apply elem_of_levels. split; [done|]. by apply list_elem_of_lookup_2 in He. }
    unfold emptyb. destruct (levels E); [by apply not_elem_of_nil in Hin|done].
Qed.

Lemma emptyb_concat (Es : list (list entry)) : emptyb (concat Es) = forallb emptyb Es.
Proof. induction Es as [|E Es IH]; simpl; [done|]. by rewrite emptyb_app, IH. Qed.

(** The free test of all children, given that of one. *)
Lemma kids_free (T : subtree) fuel h t P c Q lo hi X E :
  (∀ c lo hi X E, T c lo hi X E -> node_free_p fuel h c = Some (emptyb E)) ->
  inner_rep t (pq_keys P Q) (pq_kids P c Q) -> around d T P c Q lo hi X E ->
  ∃ Es, E = concat Es ∧ length Es = S (n t) ∧
    ∀ i Ei, Es !! i = Some Ei -> (c ← child t i; node_free_p fuel h c) = Some (emptyb Ei).
Proof.
  intros HT Hr Ha. destruct (around_each _ _ _ _ _ _ _ _ _ Ha) as (Es & HE & Hf).
  exists Es. split_and!; [done| |].
  - pose proof (Forall2_length _ _ _ Hf) as Hl. rewrite length_pq_kids in Hl.
    rewrite (irep_n _ _ _ Hr), length_pq_keys. done.
  - intros i Ei Hi. destruct (Forall2_lookup_r _ _ _ _ _ Hf Hi) as (ci & Hci & l & r & X' & _ & Hc).
    brun (irep_child _ _ _ _ _ Hr Hci). by eapply HT.
Qed.

Lemma node_free_ptree fuel h m cap p lo hi X E :
  ptree h m cap p lo hi X E -> (m < fuel)%nat -> node_free_p fuel h p = Some (emptyb E).
Proof.
  revert m cap p lo hi X E. induction fuel as [|fuel IH]; intros m cap p lo hi X E HT Hm; [lia|].
  destruct HT as (t & X0 & Ht & -> & _ & Hok). cbn [node_free_p]. brun Ht. destruct m as [|m].
  - destruct Hok as (Hr & Hw & ->). rewrite (rep_leaf _ _ _ Hr). cbn [negb].
    destruct (scan_up_total (n t) (cell_nil t) 0) as [i Hi].
    { intros x Hx. rewrite (rep_n _ _ _ Hr) in Hx.
      destruct (lookup_lt_is_Some_2 E x) as [e He]; [lia|].
      rewrite (rep_cell_nil _ _ _ _ _ Hr He). eauto. }
    brun Hi. rewrite (rep_n _ _ _ Hr) in *. f_equal. symmetry.
    apply scan_up_Some in Hi as (Hb & Htr & Hf). apply emptyb_scan; [lia| |].
    + intros x e Hx He. specialize (Htr x ltac:(lia)).
      rewrite (rep_cell_nil _ _ _ _ _ Hr He) in Htr. by destruct (live e).
    + intros e He. pose proof (lookup_lt_Some _ _ _ He). specialize (Hf ltac:(lia)).
      rewrite (rep_cell_nil _ _ _ _ _ Hr He) in Hf. by destruct (live e).
  - destruct Hok as (P & c & Q & Hr & Ha). rewrite (irep_inner _ _ _ Hr). cbn [negb].
    destruct (kids_free (ptree h m 62) fuel h t P c Q lo hi X0 E) as (Es & -> & Hl & Hfree); [|done..|].
    { intros. eapply IH; [done|lia]. }
    destruct (scan_up_total (S (n t)) (fun i => c ← child t i; node_free_p fuel h c) 0) as [i Hi].
    { intros x Hx. destruct (lookup_lt_is_Some_2 Es x) as [Ex HEx]; [lia|].
      rewrite (Hfree _ _ HEx). eauto. }
    brun Hi. apply scan_up_Some in Hi as (Hb & Htr & Hf). f_equal. symmetry.
    rewrite emptyb_concat. destruct (Nat.ltb_spec (n t) i) as [Hlt|Hge].
    + apply forallb_forall. intros Ex [x HEx]%list_elem_of_In%list_elem_of_lookup.
      pose proof (lookup_lt_Some _ _ _ HEx). specialize (Htr x ltac:(lia)).
      rewrite (Hfree _ _ HEx) in Htr. by injection Htr.
    + destruct (lookup_lt_is_Some_2 Es i) as [Ei HEi]; [lia|]. specialize (Hf ltac:(lia)).
      rewrite (Hfree _ _ HEi) in Hf. injection Hf as Hf.
      destruct (forallb emptyb Es) eqn:Hall; [|done].
      rewrite forallb_forall in Hall. rewrite <- Hf. symmetry. apply Hall, list_elem_of_In.
      by eapply list_elem_of_lookup_2.
Qed.

(** ** Footprints *)

Lemma node_ok_inner h m t lo hi X E :
  m ≠ 0%nat -> node_ok (kidsT h m) t lo hi X E -> innerp t = true.
Proof. destruct m; [done|]. intros _ (P & c & Q & Hr & _). by eapply irep_inner. Qed.

Lemma ptree_root h m cap p lo hi X E : ptree h m cap p lo hi X E -> p ∈ X.
Proof. intros (t & X0 & _ & -> & _). left. Qed.

(** Nodes of a tree are in the heap. *)
Lemma around_dom (T : subtree) (A : Prop) P c Q lo hi X E q :
  (∀ c lo hi X E, T c lo hi X E -> q ∈ X -> A) ->
  around d T P c Q lo hi X E -> q ∈ X -> A.
Proof.
  intros HT (l & r & X1 & X2 & X3 & E1 & E2 & E3 & Hp & Hb & Hc & Hq & -> & ->) Hin.
  apply elem_of_app in Hin as [Hin|[Hin|Hin]%elem_of_app]; [|eauto|].
  - clear Hc Hq Hb. revert lo X1 E1 Hp Hin. induction P as [|[c0 k0] P IHP]; simpl; intros lo X1 E1.
    + intros (_ & -> & _) Hin. by apply not_elem_of_nil in Hin.
    + intros (z & Y1 & Y2 & F1 & F2 & _ & _ & H0 & Hp & -> & _) [Hin|Hin]%elem_of_app; eauto.
  - clear Hc Hp Hb. revert r X3 E3 Hq Hin. induction Q as [|[k0 c0] Q IHQ]; simpl; intros r X3 E3.
    + intros (_ & -> & _) Hin. by apply not_elem_of_nil in Hin.
    + intros (z & b' & Y1 & Y2 & F1 & F2 & _ & _ & _ & H0 & Hq & -> & _) [Hin|Hin]%elem_of_app; eauto.
Qed.

Lemma node_ok_dom h m t lo hi X E q :
  node_ok (kidsT h m) t lo hi X E -> q ∈ X -> is_Some (hget h q).
Proof.
  revert t lo hi X E. induction m as [|m IH]; intros t lo hi X E.
  - intros (_ & _ & ->) Hq. by apply not_elem_of_nil in Hq.
  - cbn [kidsT]. intros (P & c & Q & Hr & Ha). intros Hin.
    eapply around_dom; [|exact Ha|exact Hin].
    intros c' l r Y F (t' & Y0 & Ht' & -> & _ & Hok) [->|Hin']%elem_of_cons; eauto.
Qed.

Lemma ptree_dom h m cap p lo hi X E q :
  ptree h m cap p lo hi X E -> q ∈ X -> is_Some (hget h q).
Proof.
  intros (t & X0 & Ht & -> & _ & Hok) [->|Hin]%elem_of_cons; [eauto|].
  by eapply node_ok_dom.
Qed.
End grow.
