(* ===== verification/BtreeThread.v ===== *)
(** * The thread of the leaves

    The leaves of a tree are linked by their [next] pointers, but once a full
    node has taken over an empty sibling the links may skip leaves, and leaves
    that fell out of the tree may still be linked.  [threads d h X L]: the list
    [L] orders the leaves of the tree with the nodes [X] and such stray leaves,
    which hold no levels, so that every link leads forward; the children of one
    parent follow each other, in [L] and along the links. *)

From Stdlib Require Import ZArith Lia.
From stdpp Require Import prelude list gmap fin_maps.
From stdpp Require Import options.
From S2P Require Import Prelude Decimal Btree BtreeLeaf BtreeUsed BtreeIter BtreeSide BtreeOps.
From S2P Require Import BtreeMap BtreeTree BtreeHide BtreeKids BtreeGrow.

Local Open Scope Z_scope.

(** ** Neighbours in a list *)

Fixpoint nextto {A} (a b : A) (L : list A) : Prop :=
  match L with
  | x :: L' => (x = a ∧ head L' = Some b) ∨ nextto a b L'
  | [] => False
  end.

Lemma nextto_app {A} (a b : A) L1 L2 :
  nextto a b (L1 ++ L2) <->
  nextto a b L1 ∨ nextto a b L2 ∨ (last L1 = Some a ∧ head L2 = Some b).
Proof.
  induction L1 as [|x L1 IH]; simpl; [naive_solver|]. rewrite IH. destruct L1 as [|y L1]; simpl.
  - naive_solver.
  - naive_solver.
Qed.

Lemma nextto_in {A} (a b : A) L : nextto a b L -> a ∈ L ∧ b ∈ L.
Proof.
  induction L as [|x L IH]; simpl; [done|]. intros [[-> Hb]|Hn].
  - split; [left|right]. by apply head_Some_elem_of.
  - apply IH in Hn as [? ?]. split; by right.
Qed.

(** Neighbours outside of a stretch stay neighbours when it is exchanged. *)
Lemma nextto_exchange {A} (a b : A) LA S S' LB :
  S ≠ [] -> a ∉ S -> b ∉ S -> nextto a b (LA ++ S ++ LB) -> nextto a b (LA ++ S' ++ LB).
Proof.
  intros Hne Ha Hb. rewrite !nextto_app.
  intros [Hn|[[Hn|[Hn|[Hl _]]]|[Hl Hh]]]; [by left| | | |].
  - apply nextto_in in Hn as [? ?]. done.
  - right. left. by right; left.
  - destruct Ha. by apply last_Some_elem_of.
  - destruct Hb. destruct S as [|s S]; [done|]. simpl in Hh. injection Hh as ->. left.
Qed.

Lemma NoDup_mid_eq {A} (s : A) X1 X2 Y1 Y2 :
  X1 ++ s :: X2 = Y1 ++ s :: Y2 -> s ∉ X1 -> s ∉ Y1 -> X1 = Y1 ∧ X2 = Y2.
Proof.
  revert Y1. induction X1 as [|x X1 IH]; intros [|y Y1]; simpl; intros He Hx Hy; simplify_eq.
  - done.
  - destruct Hy. left.
  - destruct Hx. left.
  - apply not_elem_of_cons in Hx as [_ Hx], Hy as [_ Hy]. by destruct (IH Y1) as [-> ->].
Qed.

Lemma sublist_mid {A} (s : A) X1 X2 LA LB :
  X1 ++ s :: X2 `sublist_of` LA ++ s :: LB -> NoDup (LA ++ s :: LB) -> NoDup (X1 ++ s :: X2) ->
  X1 `sublist_of` LA ∧ X2 `sublist_of` LB.
Proof.
  intros Hs (_ & HdA & HdB)%NoDup_app HdX. apply NoDup_cons in HdB as [HsB _].
  apply NoDup_app in HdX as (_ & HdX & _).
  assert (s ∉ LA) as HsA by (intros Hin; apply (HdA s Hin); left).
  assert (s ∉ X1) as HsX by (intros Hin; apply (HdX s Hin); left).
  apply sublist_app_r in Hs as (Y1 & Y2 & He & H1 & H2).
  assert (s ∉ Y1) as HsY by (intros Hin; by apply HsA, (sublist_subseteq _ _ H1)).
  apply sublist_cons_r in H2 as [H2|(Z & -> & H2)].
  - assert (s ∈ Y1 ++ Y2) as [|Hin]%elem_of_app by (rewrite <- He; set_solver); [done|].
    destruct HsB. by apply (sublist_subseteq _ _ H2).
  - destruct (NoDup_mid_eq _ _ _ _ _ He HsX HsY) as [-> ->]. done.
Qed.

Lemma sublist_stretch {A} (X1 S X2 LA LB : list A) :
  S ≠ [] -> X1 ++ S ++ X2 `sublist_of` LA ++ S ++ LB -> NoDup (LA ++ S ++ LB) ->
  X1 `sublist_of` LA ∧ X2 `sublist_of` LB.
Proof.
  intros Hne Hs Hd. pose proof (sublist_NoDup _ _ Hd Hs) as Hd'. destruct S as [|s S]; [done|].
  destruct (sublist_mid s X1 (S ++ X2) LA (S ++ LB) Hs Hd Hd') as [H1 H2]. split; [done|].
  by apply sublist_app_inv_l in H2.
Qed.

Section thread.
Context `{BKey K}.
#[local] Abbreviation entry := (K * btree_val)%type.
Implicit Types (E F : list entry) (t : btree_s K) (h : heap K) (p q c g : positive).
Implicit Types (X Y L S A B : list positive) (o : option positive).
Variable d : bool.

(** ** Leaves *)

Definition leafb h q : bool := match hget h q with Some t => negb (innerp t) | None => false end.

Definition leaf_ok h q : Prop := ∃ t F, hget h q = Some t ∧ leaf_rep d t F ∧ word_node t.

(** A leaf without levels. *)
Definition barren h q : Prop := ∃ t F, hget h q = Some t ∧ leaf_rep d t F ∧ levels F = [].

Lemma leaf_ok_leafb h q : leaf_ok h q -> leafb h q = true.
Proof. intros (t & F & Ht & Hr & _). unfold leafb. by rewrite Ht, (rep_leaf _ _ _ Hr). Qed.

Definition leaves h X : list positive := filter (λ q, leafb h q) X.

Lemma leaves_app h X Y : leaves h (X ++ Y) = leaves h X ++ leaves h Y.
Proof. apply filter_app. Qed.

Lemma leaves_cons_inner h q X : leafb h q = false -> leaves h (q :: X) = leaves h X.
Proof. intros Hq. unfold leaves. rewrite filter_cons_False; [done|]. rewrite Hq. by intros []. Qed.

Lemma leaves_ext h h' X : (∀ q, q ∈ X -> leafb h' q = leafb h q) -> leaves h' X = leaves h X.
Proof.
  unfold leaves. induction X as [|q X IH]; intros He; [done|].
  rewrite !filter_cons, (He q) by left. rewrite IH; [done|]. intros r Hr. apply He. by right.
Qed.

Lemma leaves_all h S : Forall (leaf_ok h) S -> leaves h S = S.
Proof.
  unfold leaves. induction 1 as [|q S Hq HS IH]; [done|].
  rewrite filter_cons_True by by rewrite leaf_ok_leafb. by rewrite IH.
Qed.

Lemma elem_of_leaves h q X : q ∈ leaves h X <-> leafb h q = true ∧ q ∈ X.
Proof. unfold leaves. rewrite list_elem_of_filter. by destruct (leafb h q); naive_solver. Qed.

(** [X] starts with an inner node, if at all. *)
Definition heads_inner h X : Prop := ∀ q, head X = Some q -> leafb h q = false.

(** Neighbours among the leaves are related. *)
Fixpoint adj h (R : positive -> positive -> Prop) X : Prop :=
  match X with
  | a :: X => (∀ b, head X = Some b -> leafb h a -> leafb h b -> R a b) ∧ adj h R X
  | [] => True
  end.

Lemma adj_app h R X Y : heads_inner h Y -> adj h R (X ++ Y) <-> adj h R X ∧ adj h R Y.
Proof.
  intros HY. induction X as [|a X IH]; simpl; [tauto|]. rewrite IH.
  assert ((∀ b, head (X ++ Y) = Some b -> leafb h a -> leafb h b -> R a b) <->
          (∀ b, head X = Some b -> leafb h a -> leafb h b -> R a b)) as ->; [|tauto].
  destruct X as [|x X]; simpl; [|done]. split; [done|]. intros _ b Hb _ Hlb.
  by rewrite (HY b Hb) in Hlb.
Qed.

Lemma adj_split h R X Y : adj h R (X ++ Y) -> adj h R X ∧ adj h R Y.
Proof.
  induction X as [|a X IH]; simpl; [done|]. intros [Ha Ht]. destruct (IH Ht) as [H1 H2].
  split_and!; try done. intros b Hb. apply Ha. destruct X; [done|]. done.
Qed.

Lemma adj_inner h R q X : leafb h q = false -> adj h R (q :: X) <-> adj h R X.
Proof. intros Hq. simpl. split; [by intros [_ ?]|]. intros Hx. split; [|done]. intros b _. by rewrite Hq. Qed.

Lemma adj_mono h h' (R R' : positive -> positive -> Prop) X :
  (∀ q, q ∈ X -> leafb h' q = leafb h q) ->
  (∀ a b, a ∈ X -> b ∈ X -> leafb h a -> leafb h b -> R a b -> R' a b) ->
  adj h R X -> adj h' R' X.
Proof.
  induction X as [|a X IH]; simpl; intros He HR; [done|]. intros [Ha Ht]. split.
  - intros b Hb. assert (b ∈ X) as Hin by by apply head_Some_elem_of.
    rewrite !He by (by left || by right). intros Hla Hlb. apply HR; [by left|by right|done..|]. by apply Ha.
  - apply IH; [intros; apply He; by right|intros; apply HR; try done; by right|done].
Qed.

(** ** Links *)

Definition link h q : option positive := t ← hget h q; next t.

(** Every link of [L] leads into what follows or to [Y]. *)
Fixpoint fwd h L Y : Prop :=
  match L with
  | q :: L => (∀ r, link h q = Some r -> r ∈ L ∨ r ∈ Y) ∧ fwd h L Y
  | [] => True
  end.

Lemma fwd_app h L1 L2 Y : fwd h (L1 ++ L2) Y <-> fwd h L1 (L2 ++ Y) ∧ fwd h L2 Y.
Proof.
  induction L1 as [|q L1 IH]; simpl; [tauto|]. rewrite IH. setoid_rewrite elem_of_app. naive_solver.
Qed.

Lemma fwd_mono h h' L Y Y' :
  (∀ q, q ∈ L -> link h' q = link h q) -> Y ⊆ Y' -> fwd h L Y -> fwd h' L Y'.
Proof.
  induction L as [|q L IH]; simpl; intros He HY; [done|]. intros [Hq Hl]. split.
  - rewrite He by left. intros r Hr. destruct (Hq r Hr); [by left|right; by apply HY].
  - apply IH; [intros; apply He; by right|done|done].
Qed.

(** The leaves [S] are linked one to the next, the last one to [o]. *)
Fixpoint linked h S o : Prop :=
  match S with
  | q :: S' => link h q = from_option Some o (head S') ∧ linked h S' o
  | [] => True
  end.

Lemma linked_app h S1 S2 o :
  linked h (S1 ++ S2) o <-> linked h S1 (from_option Some o (head S2)) ∧ linked h S2 o.
Proof.
  induction S1 as [|q S1 IH]; simpl; [tauto|]. rewrite IH.
  assert (from_option Some o (head (S1 ++ S2)) =
          from_option Some (from_option Some o (head S2)) (head S1)) as ->; [|tauto].
  by destruct S1.
Qed.

Lemma linked_ext h h' S o : (∀ q, q ∈ S -> link h' q = link h q) -> linked h S o -> linked h' S o.
Proof.
  induction S as [|q S IH]; simpl; intros He; [done|]. rewrite He by left. intros [-> Hl].
  split; [done|]. apply IH; [|done]. intros r Hr. apply He. by right.
Qed.

Lemma linked_fwd h S o Y : linked h S o -> (∀ r, o = Some r -> r ∈ Y) -> fwd h S Y.
Proof.
  induction S as [|q S IH]; simpl; [done|]. intros [Hq Hl] Ho. split; [|by apply IH].
  intros r. rewrite Hq. destruct S as [|s S]; simpl; [auto|]. intros [= <-]. left. left.
Qed.

(** ** The thread *)

Definition follows h L a b : Prop := link h a = Some b ∧ nextto a b L.

Record threads h X L : Prop := {
  th_leaf : Forall (leaf_ok h) L;
  th_stray q : q ∈ L -> q ∉ X -> barren h q;
  th_order : leaves h X `sublist_of` L;
  th_nodup : NoDup L;
  th_fwd : fwd h L [];
  th_sib : adj h (follows h L) X;
}.

Lemma threads_leaf h X L q : threads h X L -> q ∈ L -> leaf_ok h q.
Proof. intros HT. apply Forall_forall, HT. Qed.

Lemma threads_in h X L q : threads h X L -> q ∈ X -> leafb h q = true -> q ∈ L.
Proof.
  intros HT Hq Hl. apply (sublist_subseteq _ _ (th_order _ _ _ HT)), elem_of_leaves. done.
Qed.

(** The children of one parent are a stretch of the thread. *)
Lemma threads_open h A S B L :
  threads h (A ++ S ++ B) L -> S ≠ [] -> (∀ q, q ∈ S -> leafb h q = true) ->
  ∃ LA LB o, L = LA ++ S ++ LB ∧ linked h S o ∧ ∀ r, o = Some r -> r ∈ LB.
Proof.
  intros HT. pose proof (th_sib _ _ _ HT) as Hs. apply adj_split in Hs as [_ [Hs _]%adj_split].
  assert (∀ q, q ∈ S -> leafb h q = true -> q ∈ L) as HL.
  { intros q Hq. apply (threads_in _ _ _ _ HT). rewrite !elem_of_app. auto. }
  pose proof (th_nodup _ _ _ HT) as Hd. pose proof (th_fwd _ _ _ HT) as Hf. clear HT.
  induction S as [|a S IH]; [done|]. intros _ Hl.
  assert (leafb h a = true) as Hla by (apply Hl; left).
  destruct S as [|b S].
  - destruct (list_elem_of_split L a) as (LA & LB & ->); [apply HL; [left|done]|].
    exists LA, LB, (link h a). split_and!; [done|done|]. intros r Hr.
    apply fwd_app in Hf as [_ [Hf _]]. destruct (Hf r Hr) as [|Hin]; [done|].
    by apply not_elem_of_nil in Hin.
  - destruct Hs as [Hab Hs].
    assert (leafb h b = true) as Hlb by (apply Hl; right; left).
    destruct (Hab b eq_refl) as [Hlk Hnx]; [by rewrite Hla|by rewrite Hlb|].
    destruct IH as (LA & LB & o & -> & Hk & Ho); [done|intros; apply HL; [by right|done]|done|intros; apply Hl; by right|].
    assert (last LA = Some a) as Hlast.
    { apply NoDup_app in Hd as (_ & Hd1 & Hd2). cbn [app] in Hd2.
      apply NoDup_cons in Hd2 as [Hb _]. cbn [app] in Hnx, Hd1.
      apply nextto_app in Hnx as [Hin|[[[_ Hin]|Hin]|[? _]]]; [|..|done].
      - apply nextto_in in Hin as [_ Hin]. destruct (Hd1 b Hin). left.
      - destruct Hb. by apply head_Some_elem_of.
      - apply nextto_in in Hin as [_ Hin]. done. }
    apply last_Some in Hlast as [LA' ->].
    exists LA', LB, o. split_and!; [by rewrite <- app_assoc| |done]. split; [|done]. done.
Qed.

Lemma leaves_kids h A p S B :
  leafb h p = false -> Forall (leaf_ok h) S -> leaves h (A ++ p :: S ++ B) = leaves h A ++ S ++ leaves h B.
Proof. intros Hp HS. by rewrite leaves_app, leaves_cons_inner, leaves_app, (leaves_all h S). Qed.

Lemma leaf_ok_kept h h' Y : (∀ q, q ∈ Y -> hget h' q = hget h q) -> Forall (leaf_ok h) Y -> Forall (leaf_ok h') Y.
Proof.
  intros He HF. apply Forall_forall. intros q Hin. rewrite Forall_forall in HF.
  destruct (HF q Hin) as (t & F & Ht & Hr). exists t, F. by rewrite He.
Qed.

(** Exchanging the children [S] of [p] for [S']. *)
Lemma threads_exchange h h' A p S S' B LA LB o :
  threads h (A ++ p :: S ++ B) (LA ++ S ++ LB) -> S ≠ [] -> S' ≠ [] ->
  leafb h p = false -> leafb h' p = false -> heads_inner h B ->
  (∀ q, q ∈ A ++ B ++ LA ++ LB -> hget h' q = hget h q) ->
  Forall (leaf_ok h') S' -> linked h' S' o -> (∀ r, o = Some r -> r ∈ LB) ->
  S ⊆ S' -> NoDup (LA ++ S' ++ LB) ->
  threads h' (A ++ p :: S' ++ B) (LA ++ S' ++ LB).
Proof.
  intros [Hlf Hst Hor Hd Hf Hsb] Hne Hne' Hp Hp' HB Hsame Hlf' Hk Ho Hsub Hd'.
  assert (∀ q, q ∈ A ++ B ++ LA ++ LB -> leafb h' q = leafb h q ∧ link h' q = link h q) as Hq.
  { intros q Hq. unfold leafb, link. by rewrite Hsame. }
  assert (S ++ LB ⊆ S' ++ LB) as HsubL by (revert Hsub; clear; set_solver).
  rewrite !Forall_app in Hlf. destruct Hlf as (HfA & HfS & HfB).
  pose proof Hor as HorS. rewrite leaves_kids in HorS by done.
  assert (∀ q, q ∈ A ++ B -> leafb h q = true -> q ∉ S) as HAB.
  { intros q Hin Hl Hqs. pose proof (sublist_NoDup _ _ Hd HorS) as HdX.
    apply (NoDup_perm _ (S ++ leaves h A ++ leaves h B)) in HdX; [|solve_Permutation].
    apply NoDup_app in HdX as (_ & HdX & _). apply (HdX q Hqs).
    rewrite <- leaves_app. by apply elem_of_leaves. }
  constructor; [| | |done| |].
  - rewrite !Forall_app. split_and!; [|done|]; (eapply leaf_ok_kept; [|done]; intros q Hin; apply Hsame);
      rewrite !elem_of_app; tauto.
  - intros q HqL HqX. assert (q ∈ LA ++ LB ∧ q ∉ A ++ p :: S ++ B) as [HqL' HqX'].
    { revert HqL HqX Hsub. clear. rewrite !elem_of_app, !elem_of_cons, !elem_of_app.
      intros ?? Hs. specialize (Hs q). tauto. }
    destruct (Hst q) as (t & F & Ht & Hr & HF); [revert HqL'; clear; set_solver|done|].
    exists t, F. rewrite Hsame; [done|]. revert HqL'. clear. set_solver.
  - rewrite leaves_kids by done. rewrite (leaves_ext h h' A), (leaves_ext h h' B); cycle 1.
    { intros q Hin. apply Hq. rewrite !elem_of_app. tauto. }
    { intros q Hin. apply Hq. rewrite !elem_of_app. tauto. }
    destruct (sublist_stretch _ _ _ _ _ Hne HorS Hd) as [H1 H2].
    apply sublist_app; [done|]. by apply sublist_app.
  - rewrite !fwd_app in *. destruct Hf as (F1 & F2 & F3). split_and!.
    + eapply fwd_mono; [| |exact F1]; [|by rewrite !app_nil_r].
      intros q Hin. apply Hq. rewrite !elem_of_app. tauto.
    + eapply linked_fwd; [done|]. by rewrite app_nil_r.
    + eapply fwd_mono; [|done|exact F3]. intros q Hin. apply Hq. rewrite !elem_of_app. tauto.
  - assert (∀ Y, Y ⊆ A ++ B -> adj h (follows h (LA ++ S ++ LB)) Y -> adj h' (follows h' (LA ++ S' ++ LB)) Y) as Hout.
    { intros Y HY. apply adj_mono.
      - intros q Hin. apply Hq. specialize (HY q Hin). rewrite !elem_of_app in *. tauto.
      - intros a b Ha Hb Hla Hlb [Hlk Hnx]. split.
        + rewrite (proj2 (Hq a ltac:(specialize (HY a Ha); rewrite !elem_of_app in *; tauto))). done.
        + apply (nextto_exchange a b LA S); [done| | |done]; (apply HAB; [by apply HY|by apply Is_true_eq_true]). }
    assert (∀ g : heap K, leafb g p = false -> (∀ q, q ∈ B -> leafb g q = leafb h q) ->
      ∀ R Y, adj g R (A ++ p :: Y ++ B) <-> adj g R A ∧ adj g R Y ∧ adj g R B) as Hsplit.
    { intros g Hgp HgB R Y. rewrite adj_app by by intros ? [= <-]. rewrite adj_inner by done.
      rewrite adj_app; [done|]. intros q Hh. rewrite HgB; [by apply HB|by apply head_Some_elem_of]. }
    apply Hsplit in Hsb as (SA & SS & SB); [|done..]. apply Hsplit; [done| |split_and!].
    + intros q Hin. apply Hq. rewrite !elem_of_app. tauto.
    + apply Hout; [clear; set_solver|done].
    + clear -Hk Hne. revert LA. induction S' as [|a S' IH]; [done|]. destruct Hk as [Ha Hk].
      intros LA. split.
      * intros b Hb _ _. split; [by rewrite Ha, Hb|]. apply nextto_app. right. left.
        apply nextto_app. left. by left.
      * change ((a :: S') ++ LB) with ([a] ++ S' ++ LB). rewrite (app_assoc LA [a]). by apply IH.
    + apply Hout; [clear; set_solver|done].
Qed.

(** Inner nodes come and go; leaves leave the tree if they hold no levels. *)
Lemma threads_inner h h' X X' L :
  threads h X L -> (∀ q, leafb h q = true -> hget h' q = hget h q) ->
  leaves h' X' `sublist_of` leaves h X -> (∀ q, q ∈ leaves h X -> q ∉ X' -> barren h q) ->
  (∀ R, adj h R X -> adj h' R X') -> threads h' X' L.
Proof.
  intros [Hlf Hst Hor Hd Hf Hsb] Hsame Hle Hout Hadj.
  assert (∀ q, q ∈ L -> hget h' q = hget h q) as HL.
  { intros q Hq. apply Hsame, leaf_ok_leafb. rewrite Forall_forall in Hlf. auto. }
  constructor.
  - by eapply leaf_ok_kept.
  - intros q Hq Hn. assert (barren h q) as (t & F & Ht & Hr); [|exists t, F; by rewrite HL].
    destruct (decide (q ∈ X)) as [Hin|Hin]; [|by apply Hst]. apply Hout; [|done].
    apply elem_of_leaves. split; [|done]. apply leaf_ok_leafb. rewrite Forall_forall in Hlf. auto.
  - by etrans.
  - done.
  - eapply fwd_mono; [|done|exact Hf]. intros q Hq. unfold link. by rewrite HL.
  - eapply adj_mono; [done| |by apply Hadj]. intros a b Ha Hb Hla Hlb [Hlk Hnx]. split; [|done].
    unfold link. rewrite HL; [done|]. apply (sublist_subseteq _ _ Hor), (sublist_subseteq _ _ Hle).
    apply elem_of_leaves. split; [by apply Is_true_eq_true|done].
Qed.

(** Leaves change, but not where they link to. *)
Lemma threads_same h h' X L :
  threads h X L -> (∀ q, q ∈ X -> leafb h' q = leafb h q) ->
  (∀ q, q ∈ L -> leaf_ok h' q ∧ link h' q = link h q ∧ (q ∉ X -> barren h' q)) -> threads h' X L.
Proof.
  intros HT He HL. pose proof HT as [Hlf Hst Hor Hd Hf Hsb]. constructor.
  - apply Forall_forall. intros q Hq. by apply HL.
  - intros q Hq. by apply HL.
  - by rewrite (leaves_ext h).
  - done.
  - eapply fwd_mono; [|done|exact Hf]. intros q Hq. by apply HL.
  - eapply adj_mono; [exact He| |exact Hsb]. intros a b Ha Hb Hla Hlb [Hlk Hnx]. split; [|done].
    rewrite (proj1 (proj2 (HL a ltac:(by eapply threads_in; [|..|apply Is_true_eq_true])))). done.
Qed.

(** What is on the thread [L'] was on [L], or in [X], or is new in [h]. *)
Definition threaded_from h X L L' : Prop := ∀ q, q ∈ L' -> q ∈ L ∨ q ∈ X ∨ (hnext h <= q)%positive.

Lemma from_same h X L : threaded_from h X L L.
Proof. intros q Hq. by left. Qed.

(** A change of the nodes [X] of a subtree of height [m], wherever that is in a
    larger tree; subtrees that start with an inner node are not followed by
    their leaves' siblings. *)
Definition rethreads (m : nat) h X h' X' : Prop := ∀ A B L,
  NoDup (A ++ X ++ B) -> (m ≠ 0%nat -> heads_inner h B) -> (∀ q, q ∈ A ++ B -> is_Some (hget h q)) ->
  threads h (A ++ X ++ B) L -> ∃ L', threads h' (A ++ X' ++ B) L' ∧ threaded_from h X L L'.

Lemma rethreads_up m h X h' X' : rethreads 0 h X h' X' -> rethreads m h X h' X'.
Proof. intros Hr A B L Hd _. by apply Hr. Qed.

Lemma rethreads_refl m h X : rethreads m h X h X.
Proof. intros A B L _ _ _ HT. eauto using from_same. Qed.

(** A leaf changes, but not where it links to. *)
Lemma threads_leaf_set h X L q t t' F' :
  q ∈ X -> hget h q = Some t -> innerp t = false -> leaf_rep d t' F' -> next t' = next t ->
  (word_node t -> word_node t') -> threads h X L -> threads (hset q t' h) X L.
Proof.
  intros Hq Ht Hi Hr Hn Hw HT. eapply threads_same; [exact HT| |].
  - intros r _. unfold leafb. destruct (decide (r = q)) as [->|Hne].
    + by rewrite hget_hset_eq, Ht, Hi, (rep_leaf _ _ _ Hr).
    + by rewrite hget_hset_ne by done.
  - intros r Hin. destruct (threads_leaf _ _ _ _ HT Hin) as (tr & F & Htr & Hrr & Hwr).
    destruct (decide (r = q)) as [->|Hne].
    + simplify_eq. split_and!.
      * exists t', F'. rewrite hget_hset_eq. split_and!; [done..|by apply Hw].
      * unfold link. by rewrite hget_hset_eq, Ht.
      * done.
    + split_and!.
      * exists tr, F. by rewrite hget_hset_ne.
      * unfold link. by rewrite hget_hset_ne.
      * intros Hout. destruct (th_stray _ _ _ HT r Hin Hout) as (ts & Fs & Hs). exists ts, Fs.
        by rewrite hget_hset_ne.
Qed.

Lemma rethreads_leaf h X q t t' F' :
  q ∈ X -> hget h q = Some t -> innerp t = false -> leaf_rep d t' F' -> next t' = next t ->
  (word_node t -> word_node t') -> rethreads 0 h X (hset q t' h) X.
Proof.
  intros Hq Ht Hi Hr Hn Hw A B L _ _ _ HT. exists L. split; [|apply from_same].
  eapply threads_leaf_set; [|done..]. apply elem_of_app. right. apply elem_of_app. by left.
Qed.

(** So does the flag of a node. *)
Lemma rethreads_mark h X q t t' :
  hget h q = Some t -> node_like t t' -> next t' = next t -> used t' = used t ->
  rethreads 0 h X (hset q t' h) X.
Proof.
  intros Ht Hl Hn Hu A B L _ _ _ HT. exists L. split; [|apply from_same]. pose proof Hl as (_ & Hi & _).
  assert (∀ r, link (hset q t' h) r = link h r ∧ leafb (hset q t' h) r = leafb h r) as Hsame.
  { intros r. unfold link, leafb. destruct (decide (r = q)) as [->|Hne].
    - rewrite hget_hset_eq, Ht. simpl. by rewrite Hn, Hi.
    - by rewrite hget_hset_ne by done. }
  assert (∀ r tr F, hget h r = Some tr -> leaf_rep d tr F ->
    ∃ t2, hget (hset q t' h) r = Some t2 ∧ leaf_rep d t2 F ∧ used t2 = used tr) as Hrep.
  { intros r tr F Hr HF. destruct (decide (r = q)) as [->|Hne].
    - exists t'. rewrite hget_hset_eq. simplify_eq. split_and!; [done|by eapply node_like_leaf|done].
    - exists tr. by rewrite hget_hset_ne. }
  eapply threads_same; [exact HT|by intros; apply Hsame|]. intros r Hin.
  destruct (threads_leaf _ _ _ _ HT Hin) as (tr & F & Htr & Hrr & Hw).
  destruct (Hrep r tr F Htr Hrr) as (t2 & Ht2 & Hr2 & Hu2). split_and!; [|by apply Hsame|].
  - exists t2, F. split_and!; [done..|]. unfold word_node. by rewrite Hu2.
  - intros Hout. destruct (th_stray _ _ _ HT r Hin Hout) as (ts & Fs & Hts & Hrs & HF).
    destruct (Hrep r ts Fs Hts Hrs) as (t3 & Ht3 & Hr3 & _). by exists t3, Fs.
Qed.

(** At the root: a root that is a leaf has no successor. *)
Definition threaded h p X L : Prop := threads h X L ∧ (leafb h p = true -> link h p = None).

(** A leaf on its own. *)
Lemma threads_single h p : leaf_ok h p -> link h p = None -> threads h [p] [p].
Proof.
  intros Hp Hl. constructor.
  - by constructor.
  - by intros q Hq [].
  - unfold leaves. rewrite filter_cons_True; [done|]. by rewrite leaf_ok_leafb.
  - apply NoDup_singleton.
  - simpl. by rewrite Hl.
  - simpl. split; [|done]. by intros b [=].
Qed.

Lemma threaded_single h p : leaf_ok h p -> link h p = None -> threaded h p [p] [p].
Proof. intros Hp Hl. split; [by apply threads_single|done]. Qed.

(** A change of the whole tree. *)
Definition rethreaded h p X h' X' : Prop := ∀ L,
  threaded h p X L -> ∃ L', threaded h' p X' L' ∧ threaded_from h X L L'.

Lemma rethreads_root m h p X h' X' :
  NoDup X -> rethreads m h X h' X' -> (leafb h' p = true -> leafb h p = true ∧ link h' p = link h p) ->
  rethreaded h p X h' X'.
Proof.
  intros Hd Hr Hl L [HT Hp]. destruct (Hr [] [] L) as (L' & HT' & Hf); rewrite ?app_nil_r; try done.
  - by intros ? ?%not_elem_of_nil.
  - rewrite app_nil_r in HT'. exists L'. split; [|done]. split; [exact HT'|].
    intros Hlf. destruct (Hl Hlf) as [Hlf' ->]. auto.
Qed.

Lemma rethreaded_same h p X : rethreaded h p X h X.
Proof. intros L HT. eauto using from_same. Qed.

(** ** Stretches of links *)

(** [g] is stored behind [c]. *)
Lemma linked_insert h h' S1 c S2 g o :
  linked h (S1 ++ c :: S2) o -> link h' c = Some g -> link h' g = link h c ->
  (∀ q, q ∈ S1 ++ S2 -> link h' q = link h q) -> linked h' (S1 ++ c :: g :: S2) o.
Proof.
  rewrite !linked_app. simpl. intros (H1 & Hc & H2) Hc' Hg He. split_and!.
  - eapply linked_ext; [|done]. intros q Hq. apply He, elem_of_app. by left.
  - done.
  - by rewrite Hg.
  - eapply linked_ext; [|done]. intros q Hq. apply He, elem_of_app. by right.
Qed.

(** [g] is skipped by what is in front of it. *)
Lemma linked_drop h h' S1 g S2 o :
  linked h (S1 ++ g :: S2) o -> NoDup (S1 ++ g :: S2) ->
  (∀ q, last S1 = Some q -> link h' q = link h g) ->
  (∀ q, q ∈ S1 ++ S2 -> last S1 ≠ Some q -> link h' q = link h q) -> linked h' (S1 ++ S2) o.
Proof.
  rewrite !linked_app. simpl. intros (H1 & Hg & H2) Hd Hl He.
  assert (∀ q, q ∈ S2 -> last S1 ≠ Some q) as Hn2.
  { intros q Hq Hq'. apply NoDup_app in Hd as (_ & Hd & _). apply (Hd q); [|by right].
    by apply last_Some_elem_of. }
  split.
  - destruct S1 as [|x S1 _] using rev_ind; [done|]. rewrite last_snoc in *.
    apply linked_app in H1 as [H1 _]. apply linked_app. split; [|simpl; split; [|done]].
    + simpl in *. eapply linked_ext; [|exact H1]. intros q Hq. apply He.
      * apply elem_of_app. left. apply elem_of_app. by left.
      * intros [= ->]. rewrite <- app_assoc in Hd. apply NoDup_app in Hd as (_ & Hd & _).
        apply (Hd q Hq). left.
    + rewrite (Hl x eq_refl). done.
  - eapply linked_ext; [|exact H2]. intros q Hq. apply He; [apply elem_of_app; by right|auto].
Qed.

Lemma link_set h q t : link (hset q t h) q = next t.
Proof. unfold link. by rewrite hget_hset_eq. Qed.

Lemma link_ne h p q t : p ≠ q -> link (hset p t h) q = link h q.
Proof. intros Hn. unfold link. by rewrite hget_hset_ne. Qed.

(** ** The first leaf *)

Lemma adj_blocks h R X (Bs : list (list positive)) :
  Forall (heads_inner h) Bs -> adj h R (X ++ concat Bs) <-> adj h R X ∧ Forall (adj h R) Bs.
Proof.
  intros HB. revert X. induction HB as [|B Bs HB HBs IH]; intros X; simpl.
  - rewrite app_nil_r. split; [by intros|by intros []].
  - rewrite app_assoc, IH, adj_app, Forall_cons by done. tauto.
Qed.

Lemma heads_inner_app h X Y : heads_inner h X -> heads_inner h Y -> heads_inner h (X ++ Y).
Proof. intros HX HY. destruct X; [done|]. exact HX. Qed.

Lemma heads_inner_cons h q X : leafb h q = false -> heads_inner h (q :: X).
Proof. by intros Hq r [= <-]. Qed.

(** Trees of height one and more start with an inner node. *)
Lemma ptree_heads h m cap p lo hi X E : m ≠ 0%nat -> ptree d h m cap p lo hi X E -> heads_inner h X.
Proof.
  intros Hm (t & X0 & Ht & -> & _ & Hok). apply heads_inner_cons. unfold leafb. rewrite Ht.
  destruct m; [done|]. destruct Hok as (P & c & Q & Hr & _). by rewrite (irep_inner _ _ _ _ Hr).
Qed.

Lemma ptree0_leaf h cap p lo hi X E : ptree d h 0 cap p lo hi X E -> X = [p] ∧ leafb h p = true.
Proof.
  intros (t & X0 & Ht & -> & _ & Hr & _ & ->). split; [done|]. unfold leafb.
  by rewrite Ht, (rep_leaf _ _ _ Hr).
Qed.

Lemma pre_heads h m cap P lo b X E :
  m ≠ 0%nat -> pre d (ptree d h m cap) P lo b X E -> heads_inner h X.
Proof.
  intros Hm. revert lo X E. induction P as [|[c k] P IH]; intros lo X E; simpl.
  - by intros (_ & -> & _).
  - intros (z & X1 & X2 & E1 & E2 & _ & _ & Hc & Hp & -> & _).
    apply heads_inner_app; [by eapply ptree_heads|by eapply IH].
Qed.

Lemma post_heads h m cap Q b hi X E :
  m ≠ 0%nat -> post d (ptree d h m cap) Q b hi X E -> heads_inner h X.
Proof.
  intros Hm. revert b X E. induction Q as [|[k c] Q IH]; intros b X E; simpl.
  - by intros (_ & -> & _).
  - intros (z & b' & X1 & X2 & E1 & E2 & _ & _ & _ & Hc & Hq & -> & _).
    apply heads_inner_app; [by eapply ptree_heads|by eapply IH].
Qed.

(** Leaves as children: the nodes are the children themselves. *)
Lemma pre_leaves h cap P lo b X E :
  pre d (ptree d h 0 cap) P lo b X E -> X = P.*1 ∧ ∀ q, q ∈ X -> leafb h q = true.
Proof.
  revert lo X E. induction P as [|[c k] P IH]; intros lo X E; simpl.
  - intros (_ & -> & _). split; [done|]. by intros q ?%not_elem_of_nil.
  - intros (z & X1 & X2 & E1 & E2 & _ & _ & (-> & Hl)%ptree0_leaf & Hp & -> & _).
    destruct (IH _ _ _ Hp) as [-> HX]. split; [done|]. by intros q [->|Hq]%elem_of_cons; auto.
Qed.

Lemma post_leaves h cap Q b hi X E :
  post d (ptree d h 0 cap) Q b hi X E -> X = Q.*2 ∧ ∀ q, q ∈ X -> leafb h q = true.
Proof.
  revert b X E. induction Q as [|[k c] Q IH]; intros b X E; simpl.
  - intros (_ & -> & _). split; [done|]. by intros q ?%not_elem_of_nil.
  - intros (z & b' & X1 & X2 & E1 & E2 & _ & _ & _ & (-> & Hl)%ptree0_leaf & Hq & -> & _).
    destruct (IH _ _ _ Hq) as [-> HX]. split; [done|]. by intros q [->|Hq']%elem_of_cons; auto.
Qed.

(** Leaves of a tree without levels hold none. *)
Lemma ptree_barren h m cap p lo hi X E q :
  ptree d h m cap p lo hi X E -> levels E = [] -> q ∈ X -> leafb h q = true -> barren h q.
Proof.
  revert cap p lo hi X E. induction m as [|m IH]; intros cap p lo hi X E HT HE Hq Hl.
  - destruct HT as (t & X0 & Ht & -> & _ & Hr & _ & ->). apply list_elem_of_singleton in Hq as ->.
    by exists t, E.
  - destruct HT as (t & X0 & Ht & -> & _ & P & c & Q & Hr & Ha). apply elem_of_cons in Hq as [->|Hq].
    { unfold leafb in Hl. by rewrite Ht, (irep_inner _ _ _ _ Hr) in Hl. }
    destruct (around_find _ _ _ _ _ _ _ _ _ _ Ha Hq)
      as (P' & c' & Q' & lo' & hi' & X1 & X2 & X3 & E1 & E2 & E3 & _ & _ & Hq2 & _ & _ & Hc & _ & _ & ->).
    rewrite !levels_app in HE. apply app_nil in HE as [_ [HE _]%app_nil]. by eapply IH.
Qed.

(** *** Parts of a tree that are dropped *)

Definition cut h X X' : Prop :=
  X' = X ∨ ∃ Y1 Y2 Y3, X = Y1 ++ Y2 ++ Y3 ∧ X' = Y1 ++ Y3 ∧
    heads_inner h Y2 ∧ heads_inner h Y3 ∧ ∀ q, q ∈ Y2 -> leafb h q = true -> barren h q.

Lemma cut_heads h X X' : cut h X X' -> heads_inner h X -> heads_inner h X'.
Proof.
  intros [->|(Y1 & Y2 & Y3 & -> & -> & _ & H3 & _)] Hh; [done|]. apply heads_inner_app; [|done].
  destruct Y1; [done|exact Hh].
Qed.

Lemma cut_adj h R X X' : cut h X X' -> adj h R X -> adj h R X'.
Proof.
  intros [->|(Y1 & Y2 & Y3 & -> & -> & H2 & H3 & _)]; [done|].
  rewrite !adj_app by (done || by apply heads_inner_app). tauto.
Qed.

Lemma cut_sub h X X' : cut h X X' -> X' `sublist_of` X.
Proof.
  intros [->|(Y1 & Y2 & Y3 & -> & -> & _)]; [done|]. apply sublist_app; [done|]. by apply sublist_inserts_l.
Qed.

Lemma cut_barren h X X' q : cut h X X' -> q ∈ X -> q ∉ X' -> leafb h q = true -> barren h q.
Proof.
  intros [->|(Y1 & Y2 & Y3 & -> & -> & _ & _ & Hb)] Hq Hn; [done|]. apply Hb.
  rewrite !elem_of_app in *. tauto.
Qed.

Lemma leaves_sublist h X X' : X' `sublist_of` X -> leaves h X' `sublist_of` leaves h X.
Proof.
  unfold leaves. induction 1 as [|x l l' Hs IH|x l l' Hs IH]; [done|..]; rewrite !filter_cons.
  - destruct (decide (leafb h x)); [by apply sublist_skip|done].
  - destruct (decide (leafb h x)); [by apply sublist_cons|done].
Qed.

(** Splitting the inner node [c] under [p], some siblings dropped. *)
Lemma split_threads_inner h h' A p XA XA' c X1 X2 g XB XB' B L :
  threads h (A ++ (p :: XA ++ (c :: X1 ++ X2) ++ XB) ++ B) L ->
  heads_inner h XA -> heads_inner h XB -> heads_inner h B -> cut h XA XA' -> cut h XB XB' ->
  leafb h p = false -> leafb h c = false ->
  (∀ q, q = p ∨ q = c ∨ q = g -> leafb h' q = false) ->
  (∀ q, leafb h q = true -> hget h' q = hget h q) ->
  (∀ q, q ∈ A ++ (XA' ++ X1 ++ X2 ++ XB') ++ B -> leafb h' q = leafb h q) ->
  threads h' (A ++ (p :: XA' ++ (c :: X1) ++ (g :: X2) ++ XB') ++ B) L.
Proof.
  intros HT HhA HhB HhC HcA HcB Hp Hc Hnew Hleaf Hsame.
  assert (leafb h' p = false ∧ leafb h' c = false ∧ leafb h' g = false) as (Hp' & Hc' & Hg')
    by (split_and!; apply Hnew; tauto).
  assert (∀ Y, Y ⊆ A ++ (XA' ++ X1 ++ X2 ++ XB') ++ B -> leaves h' Y = leaves h Y) as HY.
  { intros Y HY. apply leaves_ext. intros q Hq. by apply Hsame, HY. }
  assert (∀ Y R, Y ⊆ A ++ (XA' ++ X1 ++ X2 ++ XB') ++ B -> adj h R Y -> adj h' R Y) as HR.
  { intros Y R Hs. apply adj_mono; [|done]. intros q Hq. by apply Hsame, Hs. }
  assert (∀ Y, Y ⊆ A ++ (XA' ++ X1 ++ X2 ++ XB') ++ B -> heads_inner h Y -> heads_inner h' Y) as HH.
  { intros Y Hs Hh q Hq. rewrite Hsame; [by apply Hh|]. apply Hs. by apply head_Some_elem_of. }
  assert (XA' ⊆ A ++ (XA' ++ X1 ++ X2 ++ XB') ++ B ∧ XB' ⊆ A ++ (XA' ++ X1 ++ X2 ++ XB') ++ B ∧
          B ⊆ A ++ (XA' ++ X1 ++ X2 ++ XB') ++ B ∧ A ⊆ A ++ (XA' ++ X1 ++ X2 ++ XB') ++ B ∧
          X1 ⊆ A ++ (XA' ++ X1 ++ X2 ++ XB') ++ B ∧ X2 ⊆ A ++ (XA' ++ X1 ++ X2 ++ XB') ++ B)
    as (SA & SB & SC & SD & S1 & S2) by (clear; set_solver).
  pose proof (cut_heads _ _ _ HcA HhA) as HhA'. pose proof (cut_heads _ _ _ HcB HhB) as HhB'.
  eapply threads_inner; [exact HT|done| | |].
  - cbn [app]. repeat (rewrite leaves_app || (rewrite leaves_cons_inner by done) || rewrite <- app_assoc; cbn [app]).
    rewrite !HY by done.
    apply sublist_app; [done|]. apply sublist_app; [by eapply leaves_sublist, cut_sub|].
    apply sublist_app; [done|]. apply sublist_app; [done|].
    apply sublist_app; [by eapply leaves_sublist, cut_sub|done].
  - intros q [Hl Hq]%elem_of_leaves Hn.
    assert (q ≠ p ∧ q ≠ c) as [Hqp Hqc] by (split; intros ->; congruence).
    cbn [app] in Hq, Hn. repeat (rewrite elem_of_cons in Hq || rewrite elem_of_app in Hq).
    repeat (rewrite elem_of_cons in Hn || rewrite elem_of_app in Hn).
    assert (q ∈ XA ∧ q ∉ XA' ∨ q ∈ XB ∧ q ∉ XB') as [[Hi Ho]|[Hi Ho]] by tauto.
    + by eapply (cut_barren h XA).
    + by eapply (cut_barren h XB).
  - intros R.
    assert (A ++ (p :: XA ++ (c :: X1 ++ X2) ++ XB) ++ B =
            A ++ concat [p :: XA; c :: X1 ++ X2; XB; B]) as -> by (app_norm; by rewrite app_nil_r).
    assert (A ++ (p :: XA' ++ (c :: X1) ++ (g :: X2) ++ XB') ++ B =
            A ++ concat [p :: XA'; c :: X1; g :: X2; XB'; B]) as -> by (app_norm; by rewrite app_nil_r).
    rewrite !adj_blocks by (repeat constructor; try (by apply heads_inner_cons); try done; by apply HH).
    rewrite !Forall_cons, !Forall_nil, !(adj_inner _ _ p), !(adj_inner _ _ c), (adj_inner _ _ g) by done.
    intros (R1 & R2 & [R3 R4]%adj_split & R5 & R6 & _).
    split_and!; try done; apply HR; try done; by eapply cut_adj.
Qed.

(** Splitting the leaf [c] under [p], its sibling [g] new or taken over. *)
Lemma split_threads_leaf h h' A p XA XA' c g XB XB' B L :
  threads h (A ++ (p :: XA ++ [c] ++ XB) ++ B) L ->
  NoDup (A ++ (p :: XA ++ [c] ++ XB) ++ B) ->
  heads_inner h B -> leafb h p = false -> leafb h' p = false ->
  (∀ q, q ∈ XA ++ [c] ++ XB -> leafb h q = true) ->
  XA ++ c :: XB ⊆ XA' ++ c :: g :: XB' -> NoDup (XA' ++ c :: g :: XB') ->
  (∀ q, q ∈ XA' ++ c :: g :: XB' -> leaf_ok h' q) ->
  (∀ o, linked h (XA ++ c :: XB) o -> linked h' (XA' ++ c :: g :: XB') o) ->
  (g ∈ XA ++ c :: XB ∨ g ∉ L) -> XA' ++ XB' ⊆ XA ++ XB ->
  (∀ q t, q ∉ p :: XA ++ [c] ++ XB -> hget h q = Some t -> hget h' q = Some t) ->
  (∀ q, q ∈ A ++ B -> is_Some (hget h q)) ->
  ∃ L', threads h' (A ++ (p :: XA' ++ [c] ++ [g] ++ XB') ++ B) L' ∧
    ∀ q, q ∈ L' -> q ∈ L ∨ q ∈ XA ++ c :: XB ∨ q = g.
Proof.
  intros HT HdX HB Hp Hp' Hlf Hsub HdS Hok Hlk Hg HsubS Hfr Hin.
  assert (A ++ (p :: XA ++ [c] ++ XB) ++ B = A ++ p :: (XA ++ c :: XB) ++ B) as HeqX by done.
  rewrite HeqX in HT, HdX.
  change (A ++ p :: (XA ++ c :: XB) ++ B) with (A ++ ([p] ++ (XA ++ c :: XB) ++ B)) in HT.
  pose proof HT as HT0. rewrite app_assoc in HT0.
  destruct (threads_open _ _ _ _ _ HT0) as (LA & LB & o & -> & Hk & Ho); [by destruct XA|done|].
  exists (LA ++ (XA' ++ c :: g :: XB') ++ LB). split; cycle 1.
  { intros q Hq. specialize (HsubS q). revert Hq HsubS. clear.
    repeat (rewrite elem_of_app || rewrite elem_of_cons). tauto. }
  change (p :: XA' ++ [c] ++ [g] ++ XB') with (p :: (XA' ++ c :: g :: XB')).
  pose proof (th_nodup _ _ _ HT0) as HdL.
  assert (∀ q, q ∈ LA ++ LB -> is_Some (hget h q) ∧ leafb h q = true ∧ q ∉ XA ++ c :: XB) as HL.
  { intros q Hq. assert (leaf_ok h q) as Hqk.
    { eapply threads_leaf; [exact HT0|]. rewrite !elem_of_app in *. tauto. }
    split_and!; [destruct Hqk as (t & F & -> & _); eauto|by apply leaf_ok_leafb|].
    apply (NoDup_perm _ ((XA ++ c :: XB) ++ LA ++ LB)) in HdL; [|solve_Permutation].
    apply NoDup_app in HdL as (_ & HdL & _). intros Hqs. by apply (HdL q). }
  apply (threads_exchange h h' A p (XA ++ c :: XB) _ B LA LB o); try done.
  - by destruct XA.
  - by destruct XA'.
  - intros q Hq. rewrite app_assoc in Hq. apply elem_of_app in Hq as [Hq|Hq].
    + destruct (Hin q Hq) as [t Ht]. rewrite Ht. apply Hfr; [|done].
      apply (NoDup_perm _ ((p :: XA ++ [c] ++ XB) ++ A ++ B)) in HdX; [|simpl; solve_Permutation].
      apply NoDup_app in HdX as (_ & HdX & _). intros Hbad. by apply (HdX q).
    + destruct (HL q Hq) as ([t Ht] & Hl & Hn). rewrite Ht. apply Hfr; [|done].
      apply not_elem_of_cons. split; [|done]. intros ->. congruence.
  - by apply Forall_forall.
  - by apply Hlk.
  - apply NoDup_app. apply NoDup_app in HdL as (HdA & HdAS & (_ & HdSB & HdB)%NoDup_app).
    assert (∀ q, q ∈ XA' ++ c :: g :: XB' -> q = g ∨ q ∈ XA ++ c :: XB) as Hq'.
    { intros q. specialize (HsubS q). rewrite !elem_of_app, !elem_of_cons in *. tauto. }
    assert (g ∈ XA ++ c :: XB ∨ g ∉ LA ++ LB) as Hg2.
    { rewrite !elem_of_app in *. tauto. }
    assert (∀ q, q ∈ XA' ++ c :: g :: XB' -> q ∉ LA ++ LB) as Hdis.
    { intros q [->|Hq]%Hq' Hbad; [destruct Hg2 as [Hq|]; [|done]|]; by destruct (HL _ Hbad) as (_ & _ & []). }
    split_and!; [done| |apply NoDup_app; split_and!; [done| |done]].
    + intros q Hq [Hbad|Hbad]%elem_of_app.
      * apply (Hdis q Hbad). apply elem_of_app. by left.
      * apply (HdAS q Hq). apply elem_of_app. by right.
    + intros q Hq Hbad. apply (Hdis q Hq). apply elem_of_app. by right.
Qed.
End thread.
