(* ===== verification/BtreeHalves.v ===== *)
(** * The halves of a full node

    What [split_shift] and [root_split] do to the arrays of a full node, and how
    [split_room] makes room in its parent: a fresh sibling behind the child, or
    one taken over from in front of it or from behind it. *)

From Stdlib Require Import ZArith Lia.
From stdpp Require Import prelude list gmap fin_maps.
From stdpp Require Import options.
From S2P Require Import Prelude Decimal Btree BtreeLeaf BtreeUsed BtreeIter BtreeSide BtreeOps.
From S2P Require Import BtreeMap BtreeTree BtreeKids BtreeGrow.

Local Open Scope Z_scope.

(** ** Footprints *)

Lemma foot_drop {A} (g : A) (L Z R : list A) : NoDup (L ++ (g :: Z) ++ R) -> g ∉ L ++ R.
Proof.
  intros Hd. assert (NoDup (g :: Z ++ L ++ R)) as Hd'.
  { eapply NoDup_perm; [|exact Hd]. simpl. solve_Permutation. }
  apply NoDup_cons in Hd' as [Hg _]. intros Hin. apply Hg, elem_of_app. by right.
Qed.

(** The footprints around a split: [c] keeps [X1], its sibling [g] gets [X2]. *)
Lemma foot_split (p c g : positive) (XA XA' X1 X2 XB XB' : list positive) :
  NoDup (p :: XA ++ (c :: X1 ++ X2) ++ XB) -> XA' `sublist_of` XA -> XB' `sublist_of` XB ->
  g ∉ p :: XA' ++ (c :: X1 ++ X2) ++ XB' ->
  NoDup (p :: XA' ++ (c :: X1) ++ (g :: X2) ++ XB') ∧ c ≠ p ∧ c ≠ g ∧ g ≠ p ∧
  (∀ q, q ∈ XA' ++ (X1 ++ X2) ++ XB' -> q ≠ c ∧ q ≠ g ∧ q ≠ p ∧ q ∈ XA ++ (c :: X1 ++ X2) ++ XB).
Proof.
  intros Hd HA HB Hg.
  assert ((p :: XA' ++ (c :: X1 ++ X2) ++ XB') `sublist_of` (p :: XA ++ (c :: X1 ++ X2) ++ XB)) as Hs.
  { apply sublist_skip, sublist_app; [done|]. by apply sublist_app. }
  assert (NoDup (g :: p :: XA' ++ (c :: X1 ++ X2) ++ XB')) as Hd1.
  { apply NoDup_cons. split; [done|]. by eapply sublist_NoDup. }
  split; [|assert (NoDup (c :: g :: p :: XA' ++ (X1 ++ X2) ++ XB')) as Hd2].
  - eapply NoDup_perm; [|exact Hd1]. simpl. solve_Permutation.
  - eapply NoDup_perm; [|exact Hd1]. simpl. solve_Permutation.
  - apply NoDup_cons in Hd2 as [Hc Hd2]. apply NoDup_cons in Hd2 as [Hg' Hd2].
    apply NoDup_cons in Hd2 as [Hp _].
    apply not_elem_of_cons in Hc as [Hcg [Hcp Hc]%not_elem_of_cons].
    apply not_elem_of_cons in Hg' as [Hgp Hg'].
    split_and!; [done..|]. intros q Hq. split; [by intros ->|]. split; [by intros ->|].
    split; [by intros ->|].
    apply sublist_subseteq in HA, HB. apply elem_of_app in Hq as [Hq|[Hq|Hq]%elem_of_app].
    + apply elem_of_app. auto.
    + apply elem_of_app. right. apply elem_of_app. left. by right.
    + apply elem_of_app. right. apply elem_of_app. auto.
Qed.

Section split.
Context `{BKey K}.
#[local] Abbreviation entry := (K * btree_val)%type.
Implicit Types (E : list entry) (t : btree_s K) (k : K) (h : heap K) (p q c : positive).
Implicit Types (lo hi b : option Z) (X XA Xc XB : list positive) (EA Ec EB : list entry).
Implicit Types (P : list (positive * K)) (Q : list (K * positive)).
Variable d : bool.

#[local] Abbreviation subtree :=
  (positive -> option Z -> option Z -> list positive -> list entry -> Prop).

(** ** The halves of a full node *)

(** What [node_split] and [root_split] make of a node with 63 keys. *)
Record halves t tl tr : Prop := {
  hv_inner : innerp tl = innerp t ∧ innerp tr = innerp t;
  hv_desc : descp tl = descp t ∧ descp tr = descp t;
  hv_nl : n tl = (31 + if innerp t then 0 else 1)%nat;
  hv_nr : n tr = 31%nat;
  hv_kl : ∃ j, (n tl <= j <= 32)%nat ∧ key tl = take j (key t) ++ replicate (64 - j) knan;
  hv_kr : key tr = take 31 (drop 32 (key t)) ++ replicate 33 knan;
  hv_vl : ∃ r, val tl = take 32 (val t) ++ r ∧ length r = 32%nat;
  hv_vr : ∃ r, val tr = take 32 (drop 32 (val t)) ++ r ∧ length r = 32%nat;
}.

Lemma halves_leaf t tl tr E :
  leaf_rep d t E -> length E = 63%nat -> halves t tl tr ->
  leaf_rep d tl (take 32 E) ∧ leaf_rep d tr (drop 32 E).
Proof.
  intros Hr Hl [[Hil Hir] [Hdl Hdr] Hnl Hnr (j & Hj & Hkl) Hkr (vl & Hvl & Hll) (vr & Hvr & Hlr)].
  destruct (rep_val _ _ _ Hr) as (junk & Hv & Hjk). pose proof (rep_leaf _ _ _ Hr) as Hin.
  rewrite Hin in *. simpl in Hnl. unfold NVAL in *. replace j with 32%nat in * by lia.
  rewrite (rep_desc _ _ _ Hr) in *. rewrite (rep_key _ _ _ Hr) in *.
  split; constructor; rewrite ?length_take, ?length_drop, ?Hl; try done; try lia.
  - rewrite Hkl, take_app_le by len. by rewrite fmap_take.
  - exists vl. rewrite Hvl, Hv, take_app_le by len. by rewrite !fmap_take, Hll.
  - rewrite Hkr, drop_app_le by len. rewrite take_app_le, take_ge by len. by rewrite fmap_drop.
  - exists (take 1 junk ++ vr). split.
    + rewrite Hvr, Hv, drop_app_le by len. rewrite take_app_ge by len.
      by rewrite length_drop, !length_fmap, Hl, !fmap_drop, <- app_assoc.
    + rewrite length_app, length_take, Hlr. unfold NVAL in *. lia.
Qed.

Lemma halves_inner t tl tr P c k c' Q :
  inner_rep d t (pq_keys P ((k, c') :: Q)) (pq_kids P c ((k, c') :: Q)) ->
  length P = 31%nat -> length Q = 31%nat -> halves t tl tr ->
  inner_rep d tl (pq_keys P []) (pq_kids P c []) ∧ inner_rep d tr (pq_keys [] Q) (pq_kids [] c' Q).
Proof.
  intros Hr HP HQ [[Hil Hir] [Hdl Hdr] Hnl Hnr (j & Hj & Hkl) Hkr (vl & Hvl & Hll) (vr & Hvr & Hlr)].
  destruct (irep_key _ _ _ _ Hr) as (kr & Hk & Hkk). destruct (irep_val _ _ _ _ Hr) as (vv & Hv & Hvv).
  rewrite (irep_inner _ _ _ _ Hr) in *. rewrite (irep_desc _ _ _ _ Hr) in *. simpl in Hnl.
  assert (key t = P.*2 ++ (k :: Q.*1) ++ kr) as Hk' by (rewrite Hk; unfold pq_keys; by rewrite <- app_assoc).
  set (V1 := Ual_t ∘ Some <$> pq_kids P c []). set (V2 := Ual_t ∘ Some <$> pq_kids [] c' Q).
  assert (val t = V1 ++ V2 ++ vv) as Hv'.
  { rewrite Hv, app_assoc. unfold V1, V2, pq_kids. simpl. by rewrite !fmap_app, <- !app_assoc. }
  assert (length V1 = 32 ∧ length V2 = 32)%nat as [H1 H2].
  { unfold V1, V2. rewrite !length_fmap, !length_pq_kids. simpl. lia. }
  assert (length P.*2 = 31 ∧ length Q.*1 = 31)%nat as [HA HB] by (rewrite !length_fmap; lia).
  rewrite length_pq_keys in Hkk. simpl in Hkk. unfold NKEY, NVAL in *.
  split; constructor; rewrite ?length_pq_keys, ?length_pq_kids; try done; try (simpl; lia).
  - exists (take (j - 31) ((k :: Q.*1) ++ kr) ++ replicate (64 - j) knan). split.
    + rewrite Hkl, Hk'. rewrite take_app_ge by lia. unfold pq_keys. simpl.
      by rewrite app_nil_r, <- app_assoc, HA.
    + rewrite length_app, length_take, length_replicate, length_app. unfold NKEY. simpl. lia.
  - exists vl. split; [|unfold NVAL; simpl; lia]. by rewrite Hvl, Hv', take_app_length' by lia.
  - exists (replicate 33 knan). split; [|rewrite length_replicate; unfold NKEY; simpl; lia].
    rewrite Hkr, Hk', (app_assoc P.*2), <- app_assoc. simpl. f_equal.
    rewrite (cons_middle k P.*2), app_assoc.
    rewrite drop_app_length' by (rewrite length_app; simpl; lia).
    by rewrite take_app_length' by lia.
  - exists vr. split; [|unfold NVAL; simpl; lia]. rewrite Hvr, Hv', drop_app_length' by lia.
    by rewrite take_app_length' by lia.
Qed.

(** The separator between the halves is the key in the middle. *)
Lemma halves_ok T t tl tr lo hi X E :
  node_ok d T t lo hi X E -> n t = 63%nat -> halves t tl tr -> length (key t) = 64%nat ->
  ∃ k z X1 X2 E1 E2, key t !! 31%nat = Some k ∧ ord d k = Some z ∧
    bnd lo (Some z) ∧ bnd (Some z) hi ∧
    node_ok d T tl lo (Some z) X1 E1 ∧ node_ok d T tr (Some z) hi X2 E2 ∧
    X = X1 ++ X2 ∧ E = E1 ++ E2 ∧ (T = None -> E1 = take 32 E).
Proof.
  intros Hok Hn Hh Hlk. destruct T as [T|]; simpl in Hok.
  - destruct Hok as (P & c & Q & Hr & Ha).
    pose proof (irep_n _ _ _ _ Hr) as Hn'. rewrite Hn, length_pq_keys in Hn'.
    destruct (around_at d T P c Q lo hi X E 32 Ha) as (P' & c2 & Q' & Ha' & HP & Hk & Hc); [lia|].
    rewrite <- Hk, <- Hc in Hr. clear Ha Hk Hc P c Q Hn'.
    destruct P' as [|[c1 k] P _] using rev_ind; [done|].
    rewrite length_app in HP. simpl in HP. apply around_shift in Ha'.
    destruct (pq_shift P c1 k c2 Q') as [Hk Hc]. rewrite Hk, Hc in Hr.
    pose proof (irep_n _ _ _ _ Hr) as Hn'. rewrite Hn, length_pq_keys in Hn'. simpl in Hn'.
    destruct (halves_inner t tl tr P c1 k c2 Q' Hr) as [Hl Hr']; [lia|lia|done|].
    destruct Ha' as (l & r & X1 & X2 & X3 & E1 & E2 & E3 & Hp & Hb & Hc1 & Hq & -> & ->).
    destruct Hq as (z & b' & Y1 & Y2 & F1 & F2 & -> & Hz & Hb' & Hc2 & Hq & -> & ->).
    exists k, z, (X1 ++ X2), (Y1 ++ Y2), (E1 ++ E2), (F1 ++ F2).
    rewrite <- !app_assoc. split_and!; try done.
    + destruct (irep_key _ _ _ _ Hr) as (kr & -> & _). apply lookup_app_l_Some.
      replace 31%nat with (length P) by lia. apply pq_keys_at.
    + by eapply pre_bnd.
    + by eapply post_bnd.
    + exists P, c1, []. split; [done|]. exists l, (Some z), X1, X2, [], E1, E2, [].
      rewrite !app_nil_r. split_and!; done.
    + exists [], c2, Q'. split; [done|]. by exists (Some z), b', [], Y1, Y2, [], F1, F2.
  - destruct Hok as (Hr & Hw & ->). pose proof (rep_n _ _ _ Hr) as Hl. rewrite Hn in Hl.
    destruct (halves_leaf t tl tr E Hr) as [Hl1 Hl2]; [done..|].
    destruct (lookup_lt_is_Some_2 E 31) as [e He]; [lia|].
    destruct (ksorted_lookup d lo E.*1 31 e.1 (proj1 Hw)) as (z & Hz & _).
    { by rewrite list_lookup_fmap, He. }
    destruct (within_lookup _ _ _ _ _ _ _ Hw He Hz) as [Ha Hu].
    exists e.1, z, [], [], (take 32 E), (drop 32 E). rewrite take_drop. split_and!; try done.
    + by apply (rep_key_lookup _ _ _ 31 Hr).
    + intros x y -> [= <-]. specialize (Ha x eq_refl). lia.
    + intros x y [= <-] ->. by apply Hu.
    + split_and!; [done|by eapply within_take|done].
    + split_and!; [done|by eapply within_drop|done].
Qed.

Lemma heap_wf_hset h p t : heap_wf h -> (p < hnext h)%positive -> heap_wf (hset p t h).
Proof.
  intros Hwf Hp q tq. unfold hget, hset. simpl. destruct (decide (q = p)) as [->|]; [done|].
  rewrite lookup_insert_ne by done. apply Hwf.
Qed.

(** [split_shift] leaves the lower half in [cp] and the upper half in [gp]. *)
Lemma split_shift_run h cp gp ct gt :
  hget h cp = Some ct -> hget h gp = Some gt -> cp ≠ gp -> descp gt = descp ct ->
  length (key ct) = 64%nat -> length (val ct) = 64%nat ->
  length (key gt) = 64%nat -> length (val gt) = 64%nat ->
  ∃ tl tr, split_shift h cp gp = Some (hset cp tl (hset gp tr h)) ∧ halves ct tl tr ∧
           val tl = val ct ∧ next tl = Some gp ∧ next tr = next ct ∧
           used tl = used ct ∧ used tr = used gt.
Proof.
  intros Hc Hg Hne Hd Hk1 Hv1 Hk2 Hv2. unfold split_shift. brun Hc. brun Hg.
  change (NKEY / 2 - 1)%nat with 31%nat. change (31 + 1)%nat with 32%nat.
  change (31 + 0)%nat with 31%nat.
  rewrite (memmove_0l 32 31 (key gt)) by lia. bstep.
  rewrite (memmove_0l 32 32 (val gt)) by lia. bstep.
  rewrite hget_hset_ne by done. brun Hc. eexists _, _. split; [done|].
  split; [|split_and!; done]. constructor; node; try done.
  - exists (31 + if innerp ct then 0 else 1)%nat. split; [destruct (innerp ct); lia|].
    unfold fill. by rewrite Hk1.
  - unfold fill. rewrite take_app_le, take_ge by len. do 2 f_equal. len.
  - exists (drop 32 (val ct)). rewrite take_drop. split; [done|len].
  - exists (drop 32 (val gt)). split; [done|len].
Qed.

(** [root_split] on a root with 63 keys: its halves are new nodes, and it has
    them for its children. *)
Lemma root_split_run h p t k :
  heap_wf h -> hget h p = Some t -> length (key t) = 64%nat -> length (val t) = 64%nat ->
  key t !! 31%nat = Some k ->
  let l := hnext h in
  let r := Pos.succ l in
  ∃ h' tl tr kr vr, root_split h p = Some h' ∧ halves t tl tr ∧
    hget h' l = Some tl ∧ used tl = 0 ∧ next tl = Some r ∧
    hget h' r = Some tr ∧ used tr = 0 ∧ next tr = None ∧
    hget h' p = Some (mk_node 1 true (descp t) (splitp t) (used t) (k :: kr)
                        (Ual_t (Some l) :: Ual_t (Some r) :: vr) None) ∧
    length kr = 63%nat ∧ length vr = 62%nat ∧ hnext h' = Pos.succ r ∧ heap_wf h' ∧
    (∀ q, q ≠ p -> (q < l)%positive -> hget h' q = hget h q).
Proof.
  intros Hwf Ht Hlk Hlv Hk31 l r. pose proof (Hwf _ _ Ht) as Hlt. fold l in Hlt.
  unfold root_split. brun Ht. unfold make_btree. cbn [hnext hmem]. fold l. fold r.
  change (NKEY / 2 - 1)%nat with 31%nat.
  change (31 + 1)%nat with 32%nat. change (31 + 0)%nat with 31%nat.
  set (h1 := mk_heap (Pos.succ r) (<[r := node0 (descp t)]> (<[l := node0 (descp t)]> (hmem h)))).
  assert (hget h1 l = Some (node0 (descp t))) as Hg1.
  { unfold hget, h1. cbn [hmem]. by rewrite lookup_insert_ne, lookup_insert_eq by (unfold r; lia). }
  assert (hget h1 r = Some (node0 (descp t))) as Hg2 by apply lookup_insert_eq.
  brun Hg1. cbn [key val node0].
  rewrite (memmove_0l 0 32 (replicate NKEY knan)) by (rewrite ?length_replicate, ?Hlk; unfold NKEY; lia). bstep.
  rewrite (memmove_0l 0 32 (replicate NVAL ual_zero)) by (rewrite ?length_replicate, ?Hlv; unfold NVAL; lia). bstep.
  rewrite !drop_0. set (tl := set_next (Some r) _).
  rewrite hget_hset_ne by (unfold r; lia). brun Hg2. cbn [key val node0].
  rewrite (memmove_0l 32 31 (replicate NKEY knan)) by (rewrite ?length_replicate, ?Hlk; unfold NKEY; lia). bstep.
  rewrite (memmove_0l 32 32 (replicate NVAL ual_zero)) by (rewrite ?length_replicate, ?Hlv; unfold NVAL; lia). bstep.
  set (tr := set_next None _). brun Hk31.
  assert (halves t tl tr) as Hh.
  { constructor; node; try done.
    - exists 32%nat. split; [unfold tl; node; destruct (innerp t); lia|done].
    - exists (replicate 32 ual_zero). done.
    - exists (replicate 32 ual_zero). done. }
  destruct (key t) as [|k0 kt] eqn:Hkt; [simpl in Hlk; lia|].
  destruct (val t) as [|v0 [|v1 vt]] eqn:Hvt; [simpl in Hlv; lia..|].
  do 3 (rewrite store_lt by (simpl; lia); bstep).
  eexists _, tl, tr, _, _. split; [done|]. split; [done|].
  rewrite (hget_hset_ne _ p l), (hget_hset_ne _ r l), (hget_hset_ne _ p r), !hget_hset_eq
    by (unfold r; lia).
  split_and!; try done.
  - unfold fill. simpl. rewrite length_replicate. simpl in Hlk. lia.
  - simpl in Hlv. lia.
  - repeat apply heap_wf_hset; cbn; try (unfold r; lia). intros q tq. unfold hget, h1. cbn [hmem hnext].
    destruct (decide (q = r)) as [->|]; [lia|]. rewrite lookup_insert_ne by done.
    destruct (decide (q = l)) as [->|]; [unfold r; lia|]. rewrite lookup_insert_ne by done.
    intros Hq%Hwf. fold l in Hq. unfold r. lia.
  - intros q Hq Hql. rewrite !hget_hset_ne by (unfold r; lia). unfold hget, h1. cbn [hmem].
    by rewrite !lookup_insert_ne by (unfold r; lia).
Qed.

(** ** Room in the parent *)

(** [split_room] next to the child at [i], with the [nul]-th child to go:
    afterwards a key and a child can be stored behind the child [c], which has
    the children [P'] in front of it and [Q'] behind it. *)
Definition opened t (nul i : nat) P' c Q' : Prop :=
  ∃ t1 j, split_room t nul i = Some (t1, j) ∧
    ∀ kp gp, ∃ ks vs,
      store (j + 0) kp (key t1) = Some ks ∧ store (j + 1) (Ual_t (Some gp)) (val t1) = Some vs ∧
      inner_rep d (set_val vs (set_key ks (set_n (n t + if (n t <? nul)%nat then 1 else 0)%nat t1)))
        (pq_keys P' ((kp, gp) :: Q')) (pq_kids P' c ((kp, gp) :: Q')).

Abbreviation kid := (Ual_t ∘ Some) (only parsing).

(** Cells [i..nul-1] move up. *)
Lemma opened_right t nul P c Q' kw ky kC vW vy vC :
  innerp t = true -> descp t = d ->
  (length P < nul)%nat -> length kw = (nul - length P)%nat -> S (length vW) = (nul - length P)%nat ->
  key t = P.*2 ++ kw ++ ky :: kC -> val t = (kid <$> P.*1) ++ kid c :: vW ++ vy :: vC ->
  length (key t) = 64%nat -> length (val t) = 64%nat ->
  (∃ rk, kw ++ kC = Q'.*1 ++ rk) -> (∃ rv, vW ++ vC = (kid <$> Q'.*2) ++ rv) ->
  (n t + if (n t <? nul)%nat then 1 else 0)%nat = S (length P + length Q') ->
  opened t nul (length P) P c Q'.
Proof.
  intros Hi Hd Hlt Hkw HvW Hk Hv Hlk Hlv (rk & Hrk) (rv & Hrv) Hn.
  unfold opened, split_room. rewrite (proj2 (Nat.ltb_lt _ _) Hlt).
  destruct kw as [|k0 kw]; [simpl in Hkw; lia|].
  rewrite (memmove_mid (P.*2 ++ [k0]) (kw ++ [ky]) kC P.*2 (k0 :: kw) (ky :: kC)).
  2,3: rewrite Hk; simpl; by rewrite <- ?app_assoc.
  2-5: len_all; lia.
  bstep.
  rewrite (memmove_mid ((kid <$> P.*1) ++ [kid c]) (vW ++ [vy]) vC
             (kid <$> P.*1) (kid c :: vW) (vy :: vC)).
  2,3: rewrite Hv; simpl; by rewrite <- ?app_assoc.
  2-5: len_all; lia.
  bstep. eexists _, _. split; [done|]. intros kp gp. node.
  rewrite (store_mid P.*2 k0 ((k0 :: kw) ++ kC)); [|by rewrite <- app_assoc|rewrite length_fmap; lia].
  rewrite (store_mid ((kid <$> P.*1) ++ [kid c]) (kid c) (vW ++ vC));
    [|by rewrite <- !app_assoc|rewrite length_app, !length_fmap; simpl; lia].
  eexists _, _. do 2 (split; [done|]). constructor; node; try done.
  - rewrite Hn, length_pq_keys. simpl. lia.
  - exists rk. unfold pq_keys. rewrite <- app_assoc. split; [by rewrite Hrk|].
    apply (f_equal length) in Hk, Hrk. len_all. unfold NKEY. lia.
  - exists rv. unfold pq_kids. rewrite fmap_app, <- !app_assoc. split; [simpl; by rewrite Hrv|].
    apply (f_equal length) in Hv, Hrv. len_all. unfold NVAL. lia.
Qed.

(** Cells [nul+1..i] move down. *)
Lemma opened_left t nul P1 x P2 c Q kw k0 kC vC :
  innerp t = true -> descp t = d -> length P1 = nul ->
  key t = P1.*2 ++ kw :: P2.*2 ++ k0 :: kC ->
  val t = (kid <$> P1.*1) ++ x :: (kid <$> P2.*1) ++ kid c :: vC ->
  length (key t) = 64%nat -> length (val t) = 64%nat ->
  (∃ rk, k0 :: kC = Q.*1 ++ rk) -> (∃ rv, vC = (kid <$> Q.*2) ++ rv) ->
  n t = (length P1 + S (length P2 + length Q))%nat ->
  opened t nul (length P1 + S (length P2)) (P1 ++ P2) c Q.
Proof.
  intros Hi Hd Hnul Hk Hv Hlk Hlv (rk & Hrk) (rv & Hrv) Hn.
  unfold opened, split_room. rewrite (proj2 (Nat.ltb_ge _ _)) by lia.
  rewrite (proj2 (Nat.ltb_lt nul _)) by lia.
  rewrite (memmove_mid P1.*2 (kw :: P2.*2) (k0 :: kC) (P1.*2 ++ [kw]) (P2.*2 ++ [k0]) kC).
  2,3: rewrite Hk; simpl; by rewrite <- ?app_assoc.
  2-5: len_all; lia.
  bstep.
  rewrite (memmove_mid (kid <$> P1.*1) (x :: (kid <$> P2.*1)) (kid c :: vC)
             ((kid <$> P1.*1) ++ [x]) ((kid <$> P2.*1) ++ [kid c]) vC).
  2,3: rewrite Hv; simpl; by rewrite <- ?app_assoc.
  2-5: len_all; lia.
  bstep. eexists _, _. split; [done|]. intros kp gp. node.
  rewrite (store_mid (P1.*2 ++ P2.*2) k0 (k0 :: kC));
    [|by rewrite <- !app_assoc|rewrite length_app, !length_fmap; lia].
  rewrite (store_mid ((kid <$> P1.*1) ++ (kid <$> P2.*1) ++ [kid c]) (kid c) vC);
    [|by rewrite <- !app_assoc|rewrite !length_app, !length_fmap; simpl; lia].
  eexists _, _. do 2 (split; [done|]). constructor; node; try done.
  - rewrite (proj2 (Nat.ltb_ge _ _)), length_pq_keys, length_app by lia. simpl. lia.
  - exists rk. unfold pq_keys. rewrite fmap_app, <- !app_assoc. split; [by rewrite Hrk|].
    apply (f_equal length) in Hk, Hrk. len_all. unfold NKEY. lia.
  - exists rv. unfold pq_kids. rewrite !fmap_app, <- !app_assoc. split; [simpl; by rewrite Hrv|].
    apply (f_equal length) in Hv, Hrv. len_all. unfold NVAL. lia.
Qed.

Lemma irep_lengths t ks cs :
  inner_rep d t ks cs -> length (key t) = 64%nat ∧ length (val t) = 64%nat.
Proof.
  intros Hr. destruct (irep_key _ _ _ _ Hr) as (kr & Hk & Hkl).
  destruct (irep_val _ _ _ _ Hr) as (vr & Hv & Hvl). unfold NKEY, NVAL in *.
  rewrite Hk, Hv. len_all. lia.
Qed.

(** No child to go: the parent gets one more. *)
Lemma opened_fresh t P c Q :
  inner_rep d t (pq_keys P Q) (pq_kids P c Q) -> (n t <= 62)%nat ->
  opened t (S (n t)) (length P) P c Q.
Proof.
  intros Hr Hn. pose proof (irep_n _ _ _ _ Hr) as Hn'. rewrite length_pq_keys in Hn'.
  destruct (irep_lengths _ _ _ Hr) as [Hlk Hlv].
  destruct (irep_key _ _ _ _ Hr) as (kr & Hk & Hkl). rewrite length_pq_keys in Hkl.
  destruct (irep_val _ _ _ _ Hr) as (vr & Hv & Hvl). rewrite length_pq_kids in Hvl.
  unfold pq_keys, pq_kids, NKEY, NVAL in *.
  destruct kr as [|k0 [|k1 kr]]; simpl in Hkl; [lia..|].
  destruct vr as [|v0 vr]; simpl in Hvl; [lia|].
  eapply (opened_right t (S (n t)) P c Q (Q.*1 ++ [k0]) k1 kr (kid <$> Q.*2) v0 vr).
  - by eapply irep_inner.
  - by eapply irep_desc.
  - lia.
  - len_all. lia.
  - len_all. lia.
  - by rewrite Hk, <- !app_assoc.
  - by rewrite Hv, fmap_app, <- !app_assoc.
  - done.
  - done.
  - exists (k0 :: kr). by rewrite <- app_assoc.
  - by exists vr.
  - rewrite (proj2 (Nat.ltb_lt _ _)) by lia. lia.
Qed.

(** A child behind goes. *)
Lemma opened_behind t P c Q1 k' c' Q3 :
  inner_rep d t (pq_keys P (Q1 ++ (k', c') :: Q3)) (pq_kids P c (Q1 ++ (k', c') :: Q3)) ->
  (n t <= 62)%nat ->
  opened t (length P + S (length Q1)) (length P) P c (Q1 ++ rekey k' Q3).
Proof.
  intros Hr Hn. pose proof (irep_n _ _ _ _ Hr) as Hn'. rewrite length_pq_keys in Hn'.
  destruct (irep_lengths _ _ _ Hr) as [Hlk Hlv].
  destruct (irep_key _ _ _ _ Hr) as (kr & Hk & Hkl). rewrite length_pq_keys in Hkl.
  destruct (irep_val _ _ _ _ Hr) as (vr & Hv & Hvl). rewrite length_pq_kids in Hvl.
  unfold pq_keys, pq_kids, NKEY, NVAL in *. map_pieces Hk.
  map_pieces Hv.
  assert (∃ ky kC rk, Q3.*1 ++ kr = ky :: kC ∧ k' :: kC = (rekey k' Q3).*1 ++ rk)
    as (ky & kC & rk & HkC & Hrk).
  { destruct Q3 as [|[k3 c3] Q3]; simpl; [|by eexists _, _, kr].
    len_all. destruct kr as [|k3 kr]; [simpl in *; lia|]. by eexists _, _, (k' :: kr). }
  rewrite length_app in Hn', Hkl, Hvl. simpl in Hn', Hkl, Hvl.
  assert (length (rekey k' Q3) = length Q3) as HlQ by (by destruct Q3 as [|[]]).
  eapply (opened_right t _ P c _ (Q1.*1 ++ [k']) ky kC (kid <$> Q1.*2) (kid c') ((kid <$> Q3.*2) ++ vr)).
  - by eapply irep_inner.
  - by eapply irep_desc.
  - lia.
  - len_all. lia.
  - len_all. lia.
  - rewrite Hk, <- HkC, <- !app_assoc. simpl. by rewrite <- ?app_assoc.
  - rewrite Hv, <- !app_assoc. simpl. by rewrite <- ?app_assoc.
  - done.
  - done.
  - exists rk. rewrite fmap_app, <- !app_assoc. simpl. by rewrite Hrk.
  - exists vr. rewrite !fmap_app, <- !app_assoc. do 3 f_equal. by destruct Q3 as [|[]].
  - rewrite (proj2 (Nat.ltb_ge _ _)), length_app by lia. lia.
Qed.

(** A child in front goes. *)
Lemma opened_front t P1 c' k' P2 c Q :
  inner_rep d t (pq_keys (P1 ++ (c', k') :: P2) Q) (pq_kids (P1 ++ (c', k') :: P2) c Q) ->
  (n t <= 62)%nat ->
  opened t (length P1) (length (P1 ++ (c', k') :: P2)) (P1 ++ P2) c Q.
Proof.
  intros Hr Hn. pose proof (irep_n _ _ _ _ Hr) as Hn'. rewrite length_pq_keys, length_app in Hn'.
  destruct (irep_lengths _ _ _ Hr) as [Hlk Hlv].
  destruct (irep_key _ _ _ _ Hr) as (kr & Hk & Hkl). rewrite length_pq_keys in Hkl.
  destruct (irep_val _ _ _ _ Hr) as (vr & Hv & Hvl).
  unfold pq_keys, pq_kids, NKEY, NVAL in *. map_pieces Hk.
  map_pieces Hv. simpl in Hn'.
  assert (∃ k0 kC, Q.*1 ++ kr = k0 :: kC) as (k0 & kC & HkC).
  { destruct Q as [|[k3 c3] Q]; simpl; [|eauto].
    len_all. destruct kr as [|k3 kr]; [simpl in *; lia|]. eauto. }
  rewrite length_app. simpl.
  eapply (opened_left t _ P1 (kid c') P2 c Q k' k0 kC ((kid <$> Q.*2) ++ vr)).
  - by eapply irep_inner.
  - by eapply irep_desc.
  - done.
  - rewrite Hk, <- HkC, <- !app_assoc. simpl. by rewrite <- ?app_assoc.
  - rewrite Hv, <- !app_assoc. simpl. by rewrite <- ?app_assoc.
  - done.
  - done.
  - by exists kr.
  - by exists vr.
  - lia.
Qed.

End split.
