(* ===== verification/BtreeSplit.v ===== *)
(** * Splitting a node

    [node_split] in its three ways to make room in the parent, and [root_split]
    for a root of any height: the tree with the split node is again a tree with
    the same levels, and its leaves stay on a thread. *)

From Stdlib Require Import ZArith Lia.
From stdpp Require Import prelude list gmap fin_maps.
From stdpp Require Import options.
From S2P Require Import Prelude Decimal Btree BtreeLeaf BtreeUsed BtreeIter BtreeSide BtreeOps.
From S2P Require Import BtreeMap BtreeTree BtreeHide BtreeKids BtreeGrow BtreeThread BtreeHalves.

Local Open Scope Z_scope.

Section split.
Context `{BKey K}.
#[local] Abbreviation entry := (K * btree_val)%type.
Implicit Types (E : list entry) (t : btree_s K) (k : K) (h : heap K) (p q c : positive).
Implicit Types (lo hi b : option Z) (X XA Xc XB : list positive) (EA Ec EB : list entry).
Implicit Types (P : list (positive * K)) (Q : list (K * positive)).
Variable d : bool.

#[local] Abbreviation subtree :=
  (positive -> option Z -> option Z -> list positive -> list entry -> Prop).

(** ** [node_split] *)

(** The footprint [X] of [h] became [X'] in [h']: nothing else changed. *)
Record grew h X h' X' : Prop := {
  gr_wf : heap_wf h';
  gr_next : (hnext h <= hnext h')%positive;
  gr_nodup : NoDup X';
  gr_new : ∀ q, q ∈ X' -> q ∈ X ∨ (hnext h <= q)%positive;
  gr_frame : ∀ q t, q ∉ X -> hget h q = Some t -> hget h' q = Some t;
}.

Lemma carries_alike Y h h' m cap : alike Y h h' -> carries Y (ptree d h m cap) (ptree d h' m cap).
Proof. intros HY c lo hi X E HX. apply ptree_alike. by eapply alike_sub. Qed.

Lemma node_ok_arrays T t lo hi X E :
  node_ok d T t lo hi X E -> length (key t) = 64%nat ∧ length (val t) = 64%nat ∧ descp t = d.
Proof.
  destruct T as [T|]; simpl.
  - intros (P & c & Q & Hr & _). destruct (irep_lengths _ _ _ _ Hr). eauto using irep_desc.
  - intros (Hr & _). destruct (rep_lengths _ _ _ Hr). eauto using rep_desc.
Qed.

(** The two halves among the children of the parent. *)
Lemma split_ptree h m pp t P c tl k g tr Q lo lo' z hi' hi XA X1 X2 XB EA E1 E2 EB :
  hget h pp = Some t -> hget h c = Some tl -> hget h g = Some tr ->
  inner_rep d t (pq_keys P ((k, g) :: Q)) (pq_kids P c ((k, g) :: Q)) -> (n t <= 63)%nat ->
  (n tl <= 62)%nat -> (n tr <= 62)%nat -> ord d k = Some z ->
  pre d (ptree d h m 62) P lo lo' XA EA ->
  bnd lo' (Some z) -> node_ok d (kidsT d h m) tl lo' (Some z) X1 E1 ->
  bnd (Some z) hi' -> node_ok d (kidsT d h m) tr (Some z) hi' X2 E2 ->
  post d (ptree d h m 62) Q hi' hi XB EB ->
  ptree d h (S m) 63 pp lo hi (pp :: XA ++ (c :: X1) ++ (g :: X2) ++ XB) (EA ++ (E1 ++ E2) ++ EB).
Proof.
  intros Ht Htl Htr Hr Hn Hnl Hnr Hk Hp Hb1 H1 Hb2 H2 Hq.
  exists t, (XA ++ (c :: X1) ++ (g :: X2) ++ XB). split_and!; [done..|].
  cbn [kidsT node_ok]. exists P, c, ((k, g) :: Q). split; [done|].
  exists lo', (Some z), XA, (c :: X1), ((g :: X2) ++ XB), EA, E1, (E2 ++ EB).
  split_and!; [done|done| | |done|by rewrite <- !app_assoc].
  - by exists tl, X1.
  - exists z, hi', (g :: X2), XB, E2, EB. split_and!; try done. by exists tr, X2.
Qed.

(** Writing to the parent, the sibling and the child is all that happens. *)
Lemma split_grew h h1 pp t0 t2 c tl gp tr X X' :
  heap_wf h -> heap_wf h1 -> (hnext h <= hnext h1)%positive ->
  hget h pp = Some t0 -> is_Some (hget h1 c) -> is_Some (hget h1 gp) ->
  pp ∉ X -> c ∈ X -> gp ∈ X ∨ (hnext h <= gp)%positive ->
  (∀ q tq, q ∉ X -> hget h q = Some tq -> hget h1 q = Some tq) ->
  NoDup X' -> (∀ q, q ∈ X' -> q = pp ∨ q = gp ∨ q ∈ X) ->
  grew h (pp :: X) (hset c tl (hset gp tr (hset pp t2 h1))) X'.
Proof.
  intros Hwf Hwf1 Hnx Ht [tc Hc] [tg Hg] Hpp HcX Hgp Hfr Hd HX'. constructor; [|done|done| |].
  - repeat apply heap_wf_hset; [done|by eapply Hwf1, Hfr|by eapply Hwf1|by eapply Hwf1].
  - intros q [-> |[-> |Hq]]%HX'; [left; left|destruct Hgp as [|]; [left; by right|by right]|left; by right].
  - intros q tq Hq Htq. apply not_elem_of_cons in Hq as [Hqp Hq]. rewrite !hget_hset_ne; [by apply Hfr|done| |].
    + intros ->. destruct Hgp as [|Hge]; [done|]. specialize (Hwf _ _ Htq). lia.
    + intros ->. done.
Qed.

Section node_split.
#[local] Set Default Proof Using "Type*".
Context (fuel : nat) h (m : nat) (pp : positive) t P c Q lo hi lo' hi'.
Context XA Xc XB EA Ec EB (ct : btree_s K).
Hypothesis Ht : hget h pp = Some t.
Hypothesis Hr : inner_rep d t (pq_keys P Q) (pq_kids P c Q).
Hypothesis Hn : (n t <= 62)%nat.
Hypothesis Hp : pre d (ptree d h m 62) P lo lo' XA EA.
Hypothesis Hb : bnd lo' hi'.
Hypothesis Hct : hget h c = Some ct.
Hypothesis Hcn : n ct = 63%nat.
Hypothesis Hc : node_ok d (kidsT d h m) ct lo' hi' Xc Ec.
Hypothesis Hne : emptyb Ec = false.
Hypothesis Hq : post d (ptree d h m 62) Q hi' hi XB EB.
Hypothesis HX : NoDup (pp :: XA ++ (c :: Xc) ++ XB).
Hypothesis Hwf : heap_wf h.
Hypothesis Hfuel : (m < fuel)%nat.

(** What the sibling and the room in the parent have to be. *)
Record room (nul : nat) h1 gp gt P' Q' lo1 hi1 XA' XB' EA' EB' : Prop := {
  ro_sibling : split_sibling h t ct nul = Some (h1, gp);
  ro_opened : opened d t nul (length P) P' c Q';
  ro_pre : pre d (ptree d h m 62) P' lo lo1 XA' EA';
  ro_post : post d (ptree d h m 62) Q' hi1 hi XB' EB';
  ro_lower : lower lo1 lo';
  ro_higher : higher hi1 hi';
  ro_levels : levels EA' = levels EA ∧ levels EB' = levels EB;
  ro_sub : XA' `sublist_of` XA ∧ XB' `sublist_of` XB;
  ro_gp : hget h1 gp = Some gt ∧ length (key gt) = 64%nat ∧ length (val gt) = 64%nat ∧ descp gt = d;
  ro_fresh : gp ∉ pp :: XA' ++ (c :: Xc) ++ XB';
  ro_new : gp ∈ XA ++ XB ∨ (hnext h <= gp)%positive;
  ro_wf : heap_wf h1 ∧ (hnext h <= hnext h1)%positive;
  ro_frame : ∀ q tq, q ∉ XA ++ (c :: Xc) ++ XB -> hget h q = Some tq -> hget h1 q = Some tq;
  ro_kin : ∀ q tq, hget h q = Some tq -> ∃ nx, hget h1 q = Some (set_next nx tq);
  ro_unused : hget h gp = None -> used gt = 0;
  (** Above inner nodes: leaves stay as they are, and those dropped are barren. *)
  ro_inner : m ≠ 0%nat -> cut d h XA XA' ∧ cut d h XB XB' ∧ leafb h gp = false ∧
                     ∀ q, leafb h q = true -> hget h1 q = hget h q;
  (** Above leaves: these stay linked. *)
  ro_link : m = 0%nat -> pq_kids P c Q ⊆ gp :: pq_kids P' c Q' ∧
                     ∀ o, linked h (pq_kids P c Q) o -> linked h1 (pq_kids P' c Q') o;
}.

(** The parent and the child after the split. *)
Definition split_done (r : option (heap K)) : Prop :=
  ∃ h' X' EA' EB' tl, r = Some h' ∧
    ptree d h' (S m) 63 pp lo hi X' (EA' ++ Ec ++ EB') ∧
    levels EA' = levels EA ∧ levels EB' = levels EB ∧
    grew h (pp :: XA ++ (c :: Xc) ++ XB) h' X' ∧
    rethreads d (S m) h (pp :: XA ++ (c :: Xc) ++ XB) h' X' ∧ c :: Xc ⊆ X' ∧ alike Xc h h' ∧
    hget h' c = Some tl ∧ val tl = val ct ∧ innerp tl = innerp ct ∧
    (m = 0%nat -> leaf_rep d tl (take 32 Ec)).

(** All children, the full one included. *)
Lemma split_kids : around d (ptree d h m 63) P c Q lo hi (XA ++ (c :: Xc) ++ XB) (EA ++ Ec ++ EB).
Proof.
  assert (∀ Y, carries Y (ptree d h m 62) (ptree d h m 63)) as Hcap.
  { intros Y c0 l r Z F _. apply ptree_cap. lia. }
  exists lo', hi', XA, (c :: Xc), XB, EA, Ec, EB. split_and!; try done.
  - by eapply pre_carry.
  - exists ct, Xc. split_and!; try done. lia.
  - by eapply post_carry.
Qed.

Lemma split_kid i ci :
  pq_kids P c Q !! i = Some ci ->
  child t i = Some ci ∧ ci ∈ XA ++ (c :: Xc) ++ XB ∧
  ∃ ti, hget h ci = Some ti ∧ (m ≠ 0%nat -> leafb h ci = false).
Proof.
  intros Hi. destruct (around_each _ _ _ _ _ _ _ _ _ split_kids) as (Es & _ & Hf).
  destruct (Forall2_lookup_l _ _ _ _ _ Hf Hi) as (Ei & _ & l & r & Y & HY & HT).
  pose proof (ptree_root _ _ _ _ _ _ _ _ _ HT) as Hin.
  split_and!; [by eapply irep_child|by apply HY|].
  pose proof HT as (ti & Y0 & Hti & HY0 & _). exists ti. split; [done|]. intros Hm.
  apply (ptree_heads _ _ _ _ _ _ _ _ _ Hm HT). by rewrite HY0.
Qed.

(** Over leaves, the children are the nodes. *)
Lemma split_leaves :
  m = 0%nat -> XA = P.*1 ∧ XB = Q.*2 ∧ Xc = [] ∧ NoDup (pq_kids P c Q) ∧
  ∀ q, q ∈ pq_kids P c Q -> leafb h q = true.
Proof.
  intros Hm. destruct split_kids as (l & r & X1 & X2 & X3 & E1 & E2 & E3 & _).
  pose proof Hp as Hp0. pose proof Hq as Hq0. pose proof Hc as Hc0. rewrite Hm in Hp0, Hq0, Hc0.
  apply pre_leaves in Hp0 as [HXA HlA]. apply post_leaves in Hq0 as [HXB HlB].
  destruct Hc0 as (Hrc & _ & HXc). split_and!; [done..| |].
  - apply NoDup_cons in HX as [_ HX']. rewrite HXA, HXB, HXc in HX'. exact HX'.
  - unfold pq_kids. rewrite <- HXA, <- HXB. intros q [Hin|[->|Hin]%elem_of_cons]%elem_of_app; auto.
    unfold leafb. by rewrite Hct, (rep_leaf _ _ _ Hrc).
Qed.

(** Taking over the free child [gp], only the link of the child in front of it
    changes. *)
Lemma sibling_taken K1 gp K2 gt :
  pq_kids P c Q = K1 ++ gp :: K2 -> hget h gp = Some gt ->
  ∃ h1, split_sibling h t ct (length K1) = Some (h1, gp) ∧
    heap_wf h1 ∧ (hnext h <= hnext h1)%positive ∧
    (∀ q tq, hget h q = Some tq -> ∃ nx, hget h1 q = Some (set_next nx tq)) ∧
    (∀ q tq, q ∉ XA ++ (c :: Xc) ++ XB -> hget h q = Some tq -> hget h1 q = Some tq) ∧
    (m ≠ 0%nat -> leafb h gp = false ∧ ∀ q, leafb h q = true -> hget h1 q = hget h q) ∧
    (m = 0%nat -> ∀ o, linked h (pq_kids P c Q) o -> linked h1 (K1 ++ K2) o).
Proof.
  intros HK Hg. pose proof (length_pq_kids P c Q) as Hlen. rewrite HK, length_app in Hlen. simpl in Hlen.
  pose proof (irep_n _ _ _ _ Hr) as Hnt. rewrite length_pq_keys in Hnt.
  destruct (split_kid (length K1) gp) as (Hch & _ & _ & _ & Hgl).
  { rewrite HK. by apply list_lookup_middle. }
  unfold split_sibling. rewrite (proj2 (Nat.ltb_ge _ _)) by lia. brun Hch. brun Hg.
  destruct K1 as [|pv K1 _] using rev_ind.
  - exists h. split_and!; try done.
    + intros q tq Htq. exists (next tq). by destruct tq.
    + intros Hm. split; [by apply Hgl|done].
    + intros Hm o. rewrite HK. by intros [_ ?].
  - rewrite length_app, (proj2 (Nat.ltb_lt _ _)) by (simpl; lia). simpl. rewrite Nat.add_sub.
    destruct (split_kid (length K1) pv) as (Hpv & Hin & tpv & Htpv & Hpvl).
    { rewrite HK, <- app_assoc. by apply list_lookup_middle. }
    brun Hpv. unfold hupd. brun Htpv. eexists. split_and!; [done|by eapply heap_wf_hset; eauto|done|..].
    + intros q tq Htq. destruct (decide (q = pv)) as [->|].
      * rewrite hget_hset_eq. simplify_eq. eauto.
      * rewrite hget_hset_ne by done. exists (next tq). by destruct tq.
    + intros q tq Hout Htq. rewrite hget_hset_ne; [done|]. by intros ->.
    + intros Hm. split; [by apply Hgl|]. intros q Hql. rewrite hget_hset_ne; [done|].
      intros <-. rewrite (Hpvl Hm) in Hql. done.
    + intros Hm o Hlk. destruct (split_leaves Hm) as (_ & _ & _ & Hd & _). rewrite HK in Hd, Hlk.
      eapply (linked_drop h _ (K1 ++ [pv]) gp K2); [done|done|..].
      * rewrite last_snoc. intros q [= <-]. rewrite link_set. unfold link. by rewrite Hg.
      * rewrite last_snoc. intros q _ Hpq. apply link_ne. congruence.
Qed.

Lemma kin_alike h1 Y :
  (∀ q tq, hget h q = Some tq -> ∃ nx, hget h1 q = Some (set_next nx tq)) -> alike Y h h1.
Proof. intros Hk q tq _ Htq. destruct (Hk q tq Htq) as [nx ->]. eexists. split; [done|]. apply node_like_next. Qed.

(** The leaves after the split: the sibling follows the child. *)
Section rethread.
Context (nul : nat) h1 (gp : positive) (gt t2 ct1 tl tr : btree_s K).
Context P' Q' lo1 hi1 XA' XB' EA' EB' X1 X2 E1 E2.
Context (z1 z2 z3 z4 : option Z).
Hypothesis Hroom : room nul h1 gp gt P' Q' lo1 hi1 XA' XB' EA' EB'.
Hypothesis Hct1 : hget h1 c = Some ct1.
Hypothesis Ht2 : innerp t2 = true.
Hypothesis Hl : next tl = Some gp ∧ next tr = next ct1.
Hypothesis Hu : used tl = used ct1 ∧ used tr = used gt.
Hypothesis HXc : Xc = X1 ++ X2.
Hypothesis Hok1 : node_ok d (kidsT d h m) tl z1 z2 X1 E1.
Hypothesis Hok2 : node_ok d (kidsT d h m) tr z3 z4 X2 E2.

#[local] Definition h3 : heap K := hset c tl (hset gp tr (hset pp t2 h1)).

Lemma after_feet :
  NoDup (pp :: XA' ++ (c :: X1) ++ (gp :: X2) ++ XB') ∧ c ≠ pp ∧ c ≠ gp ∧ gp ≠ pp ∧
  (∀ q, q ∈ XA' ++ (X1 ++ X2) ++ XB' -> q ≠ c ∧ q ≠ gp ∧ q ≠ pp ∧ q ∈ XA ++ (c :: Xc) ++ XB).
Proof.
  pose proof HX as HX2. pose proof (ro_fresh _ _ _ _ _ _ _ _ _ _ _ _ Hroom) as Hf.
  destruct (ro_sub _ _ _ _ _ _ _ _ _ _ _ _ Hroom) as [HA HB].
  rewrite HXc in HX2, Hf. rewrite HXc. by apply foot_split.
Qed.

Lemma after_ne q : q ≠ c -> q ≠ gp -> q ≠ pp -> hget h3 q = hget h1 q.
Proof. intros ???. unfold h3. by rewrite !hget_hset_ne. Qed.

Lemma after_at : hget h3 c = Some tl ∧ hget h3 gp = Some tr ∧ hget h3 pp = Some t2.
Proof.
  destruct after_feet as (_ & ? & ? & ? & _). unfold h3.
  rewrite (hget_hset_ne _ c gp), (hget_hset_ne _ c pp), (hget_hset_ne _ gp pp), !hget_hset_eq by done. done.
Qed.

(** Other nodes only get other links. *)
Lemma after_leafb q tq : hget h q = Some tq -> q ≠ c -> q ≠ gp -> q ≠ pp -> leafb h3 q = leafb h q.
Proof.
  intros Hq' ???. destruct (ro_kin _ _ _ _ _ _ _ _ _ _ _ _ Hroom _ _ Hq') as [nx Hk].
  unfold leafb. by rewrite after_ne, Hk, Hq' by done.
Qed.

(** What is outside of the parent's subtree is not the sibling. *)
Lemma after_out q tq :
  hget h q = Some tq -> q ∉ pp :: XA ++ (c :: Xc) ++ XB -> q ≠ c ∧ q ≠ gp ∧ q ≠ pp.
Proof.
  intros Hq' Hout. split_and!; intros ->.
  - apply Hout. right. apply elem_of_app. right. left.
  - destruct (ro_new _ _ _ _ _ _ _ _ _ _ _ _ Hroom) as [Hin|Hge].
    + apply Hout. right. rewrite !elem_of_app in *. tauto.
    + apply Hwf in Hq'. lia.
  - apply Hout. left.
Qed.

Lemma after_outer A B q :
  NoDup (A ++ (pp :: XA ++ (c :: Xc) ++ XB) ++ B) -> q ∈ A ++ B -> is_Some (hget h q) ->
  leafb h3 q = leafb h q.
Proof.
  intros HdX Hin [tq Hq']. destruct (after_out q tq Hq') as (?&?&?); [|by eapply after_leafb].
  apply (NoDup_perm _ ((pp :: XA ++ (c :: Xc) ++ XB) ++ A ++ B)) in HdX; [|solve_Permutation].
  apply NoDup_app in HdX as (_ & HdX & _). intros Hbad. by apply (HdX q).
Qed.

Lemma after_inner q : q ∈ XA' ++ (X1 ++ X2) ++ XB' -> leafb h3 q = leafb h q.
Proof.
  intros Hin. destruct after_feet as (_ & _ & _ & _ & Hf). destruct (Hf q Hin) as (?&?&?&Hin').
  assert (is_Some (hget h q)) as [tq Hq'].
  { eapply around_dom; [|exact split_kids|exact Hin']. intros; by eapply ptree_dom. }
  by eapply after_leafb.
Qed.

Lemma after_leaf_ok :
  m = 0%nat -> Xc = [] -> (∀ q, q ∈ XA ++ c :: XB -> leaf_ok d h q) ->
  ∀ q, q ∈ XA' ++ c :: gp :: XB' -> leaf_ok d h3 q.
Proof.
  intros Hm HXc0 Hold q Hin. destruct after_at as (Hc3 & Hg3 & Hp3).
  pose proof (ro_kin _ _ _ _ _ _ _ _ _ _ _ _ Hroom) as Hkin.
  pose proof Hok1 as HL. pose proof Hok2 as HR. rewrite Hm in HL, HR.
  destruct HL as (HrL & _ & HX1), HR as (HrR & _ & HX2).
  assert (q = c ∨ q = gp ∨ q ∈ XA' ++ XB') as [->|[->|Hin']].
  { revert Hin. rewrite !elem_of_app, !elem_of_cons. tauto. }
  - exists tl, E1. split_and!; [done..|]. unfold word_node. rewrite (proj1 Hu).
    destruct (Hold c) as (tc & F & Htc & _ & Hw); [apply elem_of_app; right; left|].
    destruct (Hkin _ _ Htc) as [nx Hk]. assert (ct1 = set_next nx tc) as -> by congruence. exact Hw.
  - exists tr, E2. split_and!; [done..|]. unfold word_node. rewrite (proj2 Hu).
    destruct (ro_gp _ _ _ _ _ _ _ _ _ _ _ _ Hroom) as [Hgt _].
    destruct (ro_new _ _ _ _ _ _ _ _ _ _ _ _ Hroom) as [Hn'|Hge].
    + destruct (Hold gp) as (tg & F & Htg & _ & Hw); [rewrite elem_of_app, elem_of_cons in *; tauto|].
      destruct (Hkin _ _ Htg) as [nx Hk]. assert (gt = set_next nx tg) as -> by congruence. exact Hw.
    + rewrite (ro_unused _ _ _ _ _ _ _ _ _ _ _ _ Hroom); [lia|].
      destruct (hget h gp) as [tg|] eqn:Htg; [|done]. apply Hwf in Htg. lia.
  - destruct after_feet as (_ & _ & _ & _ & Hf). destruct (Hf q) as (?&?&?&Hq2).
    { rewrite HX1, HX2. exact Hin'. }
    destruct (Hold q) as (tq & F & Htq & Hrq & Hw).
    { rewrite HXc0 in Hq2. exact Hq2. }
    destruct (Hkin _ _ Htq) as [nx Hk]. exists (set_next nx tq), F. rewrite after_ne by done.
    split_and!; [done|eapply node_like_leaf; [apply node_like_next|done]|exact Hw].
Qed.

(** Over leaves. *)
Lemma after_leaves A B L :
  m = 0%nat -> NoDup (A ++ (pp :: XA ++ (c :: Xc) ++ XB) ++ B) -> heads_inner h B ->
  (∀ q, q ∈ A ++ B -> is_Some (hget h q)) ->
  threads d h (A ++ (pp :: XA ++ (c :: Xc) ++ XB) ++ B) L ->
  ∃ L', threads d h3 (A ++ (pp :: XA' ++ (c :: X1) ++ (gp :: X2) ++ XB') ++ B) L' ∧
    ∀ q, q ∈ L' -> q ∈ L ∨ q ∈ XA ++ c :: XB ∨ q = gp.
Proof.
  intros Hm HdX HhB Hin HT. destruct after_feet as (HX3 & Hcp & Hcg & Hgp & Hfoot).
  destruct after_at as (Hc3 & Hg3 & Hp3).
  destruct (ro_link _ _ _ _ _ _ _ _ _ _ _ _ Hroom Hm) as [Hsub Hlk].
  destruct (split_leaves Hm) as (HXA & HXB & HXc0 & _ & Hlf).
  pose proof (ro_pre _ _ _ _ _ _ _ _ _ _ _ _ Hroom) as Hp'. pose proof (ro_post _ _ _ _ _ _ _ _ _ _ _ _ Hroom) as Hq'.
  rewrite Hm in Hp', Hq'. apply pre_leaves in Hp' as [HXA' _]. apply post_leaves in Hq' as [HXB' _].
  assert (X1 = [] ∧ X2 = []) as [HX1 HX2] by (apply app_nil; congruence).
  assert (pq_kids P c Q = XA ++ c :: XB ∧ pq_kids P' c Q' = XA' ++ c :: XB') as [HK HK'].
  { unfold pq_kids. by rewrite HXA, HXB, HXA', HXB'. }
  pose proof (after_leaf_ok Hm HXc0) as Hlok.
  rewrite HK in Hsub, Hlk, Hlf. rewrite HK' in Hsub, Hlk. rewrite HX1, HX2 in HX3, Hfoot.
  rewrite HX1, HX2. rewrite HXc0 in HT, HdX.
  assert (leafb h pp = false) as Hlp by (unfold leafb; by rewrite Ht, (irep_inner _ _ _ _ Hr)).
  eapply (split_threads_leaf d h h3 A pp XA XA' c gp XB XB' B L); try done.
  - unfold leafb. by rewrite Hp3, Ht2.
  - intros q Hin1. clear -Hsub Hin1. specialize (Hsub q Hin1).
    rewrite elem_of_cons, !elem_of_app, !elem_of_cons in *. tauto.
  - by apply NoDup_cons in HX3 as [_ ?].
  - apply Hlok. intros q Hk. eapply threads_leaf; [exact HT|].
    eapply threads_in; [exact HT| |by apply Hlf]. clear -Hk. set_solver.
  - intros o Ho. eapply (linked_insert h1); [by apply Hlk|..].
    + unfold link. rewrite Hc3. simpl. apply Hl.
    + unfold link. rewrite Hg3, Hct1. simpl. apply Hl.
    + intros q Hin1. unfold link. rewrite after_ne; [done|..]; apply Hfoot; revert Hin1; clear; rewrite !elem_of_app; tauto.
  - destruct (ro_new _ _ _ _ _ _ _ _ _ _ _ _ Hroom) as [Hn'|Hge].
    + left. clear -Hn'. rewrite elem_of_app, elem_of_cons in *. tauto.
    + right. intros HgL. destruct (threads_leaf _ _ _ _ _ HT HgL) as (tq & F & Htq & _).
      apply Hwf in Htq. lia.
  - destruct (ro_sub _ _ _ _ _ _ _ _ _ _ _ _ Hroom) as [HA HB]. apply sublist_subseteq in HA, HB.
    clear -HA HB. set_solver.
  - intros q tq Hout Htq. destruct (after_out q tq Htq) as (?&?&?); [by rewrite HXc0|].
    rewrite after_ne by done. eapply ro_frame; [exact Hroom| |done]. rewrite HXc0. clear -Hout. set_solver.
Qed.

Lemma after_split : rethreads d (S m) h (pp :: XA ++ (c :: Xc) ++ XB) h3 (pp :: XA' ++ (c :: X1) ++ (gp :: X2) ++ XB').
Proof.
  intros A B L HdX HhB Hin HT. specialize (HhB ltac:(done)). destruct after_feet as (HX3 & Hcp & Hcg & Hgp & Hfoot).
  destruct after_at as (Hc3 & Hg3 & Hp3).
  assert (leafb h pp = false) as Hlp by (unfold leafb; by rewrite Ht, (irep_inner _ _ _ _ Hr)).
  assert (leafb h3 pp = false) as Hlp3 by (unfold leafb; by rewrite Hp3, Ht2).
  destruct (decide (m = 0%nat)) as [Hm|Hm].
  - destruct (after_leaves A B L) as (L' & HT' & Hfr); [done..|]. exists L'. split; [done|].
    intros q HqL. destruct (Hfr q HqL) as [|[Hk| ->]]; [by left| |].
    + right. left. revert Hk. clear. set_solver.
    + destruct (ro_new _ _ _ _ _ _ _ _ _ _ _ _ Hroom) as [Hn'|]; [|by right; right].
      right. left. revert Hn'. clear. set_solver.
  - exists L. split; [|apply from_same]. destruct (ro_inner _ _ _ _ _ _ _ _ _ _ _ _ Hroom Hm) as (HcA & HcB & Hlg & Hlf).
    rewrite HXc in HT.
    eapply (split_threads_inner d h h3 A pp XA XA' c X1 X2 gp XB XB' B L);
      [exact HT|by eapply pre_heads|by eapply post_heads|done..| | | |].
    + unfold leafb. by rewrite Hct, (node_ok_inner _ _ _ _ _ _ _ _ Hm Hc).
    + intros q [->|[->| ->]]; [done| |].
      * unfold leafb. by rewrite Hc3, (node_ok_inner _ _ _ _ _ _ _ _ Hm Hok1).
      * unfold leafb. by rewrite Hg3, (node_ok_inner _ _ _ _ _ _ _ _ Hm Hok2).
    + intros q Hq'. assert (q ≠ c ∧ q ≠ gp ∧ q ≠ pp) as (?&?&?).
      { split_and!; intros ->; [|congruence..]. unfold leafb in Hq'.
        by rewrite Hct, (node_ok_inner _ _ _ _ _ _ _ _ Hm Hc) in Hq'. }
      rewrite after_ne by done. by apply Hlf.
    + intros q [Hq'|[Hq'|Hq']%elem_of_app]%elem_of_app.
      * apply (after_outer A B); [done|apply elem_of_app; by left|]. apply Hin, elem_of_app. by left.
      * apply after_inner. revert Hq'. clear. rewrite !elem_of_app. tauto.
      * apply (after_outer A B); [done|apply elem_of_app; by right|]. apply Hin, elem_of_app. by right.
Qed.
End rethread.

Lemma split_finish nul h1 gp gt P' Q' lo1 hi1 XA' XB' EA' EB' :
  scan_up (S (n t)) (fun i => c ← child t i; b ← node_free_p fuel h c; Some (negb b)) 0 = Some nul ->
  room nul h1 gp gt P' Q' lo1 hi1 XA' XB' EA' EB' ->
  split_done (node_split fuel h pp (length P)).
Proof.
  intros Hsc Hroom. pose proof Hroom as [Hsib (t1 & j & Hspl & Hst) Hpre Hpost Hlo Hhi [HlA HlB] [HsA HsB] (Hg & Hgk & Hgv & Hgd)
    Hfresh Hnew [Hwf1 Hnx] Hfr Hkin _ _ _].
  pose proof (λ Y, kin_alike h1 Y Hkin) as Hal.
  destruct (node_ok_arrays _ _ _ _ _ _ Hc) as (Hck & Hcv & Hcd).
  destruct (Hal [c] c ct) as (ct1 & Hct1 & Hlike); [left|done|].
  pose proof Hlike as (Hn1 & Hi1 & Hd1 & Hk1 & Hv1).
  destruct (lookup_lt_is_Some_2 (key ct) 31) as [kp Hkp]; [lia|].
  destruct (Hst kp gp) as (ks & vs & Hks & Hvs & Hr2).
  set (t2 := set_val vs (set_key ks (set_n (n t + if (n t <? nul)%nat then 1 else 0)%nat t1))) in *.
  destruct (foot_split pp c gp XA XA' Xc [] XB XB') as (_ & Hcp & Hcg & Hgp & _);
    [by rewrite ?app_nil_r..|].
  destruct (split_shift_run (hset pp t2 h1) c gp ct1 gt) as (tl & tr & Hshift & Hh & Hvl & Hnl & Hnr & Hul & Hur).
  { by rewrite hget_hset_ne. } { by rewrite hget_hset_ne. } { done. } { congruence. }
  1-4: congruence.
  destruct (halves_ok d (kidsT d h m) ct1 tl tr lo' hi' Xc Ec)
    as (kp' & z & X1 & X2 & E1 & E2 & Hkp' & Hz & Hb1 & Hb2 & Hok1 & Hok2 & HXc & HEc & Hleaf).
  { by eapply node_like_ok. } { congruence. } { done. } { congruence. }
  rewrite Hk1 in Hkp'. assert (kp' = kp) as -> by congruence.
  pose proof (after_split nul h1 gp gt t2 ct1 tl tr P' Q' lo1 hi1 XA' XB' EA' EB' X1 X2 E1 E2
    _ _ _ _ Hroom Hct1 (irep_inner _ _ _ _ Hr2) (conj Hnl Hnr) (conj Hul Hur) HXc Hok1 Hok2) as Hre.
  unfold h3 in Hre. set (h3 := hset c tl (hset gp tr (hset pp t2 h1))) in *.
  assert (∀ q, q ≠ c -> q ≠ gp -> q ≠ pp -> hget h3 q = hget h1 q) as Hout.
  { intros q ???. unfold h3. by rewrite !hget_hset_ne. }
  pose proof HX as HX2. rewrite HXc in HX2, Hfresh, Hfr.
  destruct (foot_split _ _ _ _ _ _ _ _ _ HX2 HsA HsB Hfresh) as (HX3 & _ & _ & _ & Hfoot).
  assert (alike (XA' ++ (X1 ++ X2) ++ XB') h h3) as Hal3.
  { intros q tq Hin Htq. destruct (Hfoot q Hin) as (?&?&?&?). rewrite Hout by done. by apply (Hal [q]); [left|]. }
  assert (∀ Y, Y ⊆ XA' ++ (X1 ++ X2) ++ XB' -> alike Y h h3) as Hal4.
  { intros Y HY. by eapply alike_sub. }
  assert (hget h3 c = Some tl ∧ hget h3 gp = Some tr ∧ hget h3 pp = Some t2) as (Hg1 & Hg2 & Hg3).
  { unfold h3. rewrite (hget_hset_ne _ c gp), (hget_hset_ne _ c pp), (hget_hset_ne _ gp pp), !hget_hset_eq
      by done. done. }
  exists h3, (pp :: XA' ++ (c :: X1) ++ (gp :: X2) ++ XB'), EA', EB', tl. split_and!; try done.
  - unfold node_split. brun Ht. brun (irep_child _ _ _ _ _ _ Hr (pq_kids_at P c Q)). brun Hct.
    brun Hsc. brun Hsib. brun Hspl. change (NKEY / 2 - 1)%nat with 31%nat. brun Hkp. brun Hks. by brun Hvs.
  - rewrite HEc. eapply split_ptree; [done..| | | |done| | | | | |].
    + unfold t2. node. destruct (_ <? _)%nat; lia.
    + rewrite (hv_nl _ _ _ Hh). destruct (innerp ct1); lia.
    + rewrite (hv_nr _ _ _ Hh). lia.
    + eapply (pre_carry _ XA'); [|done|exact Hpre]. apply carries_alike, Hal4. clear. set_solver.
    + by eapply bnd_stretch, higher_refl.
    + eapply node_ok_alike; [apply Hal4; clear; set_solver|].
      eapply node_ok_stretchy; [exact Hok1|done|apply higher_refl].
    + by eapply bnd_stretch; [done|apply lower_refl|].
    + eapply node_ok_alike; [apply Hal4; clear; set_solver|].
      eapply node_ok_stretchy; [exact Hok2|apply lower_refl|done].
    + eapply (post_carry _ XB'); [|done|exact Hpost]. apply carries_alike, Hal4. clear. set_solver.
  - rewrite HXc. eapply (split_grew h h1); try done; try (by eexists).
    + by apply NoDup_cons in HX2 as [? _].
    + clear. set_solver.
    + destruct Hnew as [Hin|]; [left|by right]. revert Hin. clear. set_solver.
    + intros q. rewrite !elem_of_cons, !elem_of_app, !elem_of_cons, !elem_of_app.
      intros Hin. apply sublist_subseteq in HsA, HsB. specialize (HsA q). specialize (HsB q). tauto.
  - rewrite HXc. clear. set_solver.
  - rewrite HXc. apply Hal4. clear. set_solver.
  - congruence.
  - rewrite (proj1 (hv_inner _ _ _ Hh)). done.
  - intros ->. rewrite <- Hleaf by done. apply Hok1.
Qed.

Lemma room_fresh : ∃ h1 gp gt, room (S (n t)) h1 gp gt P Q lo' hi' XA XB EA EB.
Proof.
  destruct (node_ok_arrays _ _ _ _ _ _ Hc) as (_ & _ & Hcd).
  assert (∀ q tq, hget h q = Some tq -> q ≠ hnext h) as Hnew.
  { intros q tq Htq%Hwf ->. lia. }
  assert (∀ q tq, hget h q = Some tq ->
    hget (mk_heap (Pos.succ (hnext h)) (<[hnext h := node0 (descp ct)]> (hmem h))) q = Some tq) as Hold.
  { intros q tq Htq. unfold hget. cbn [hmem]. rewrite lookup_insert_ne; [done|]. intros Heq.
    by eapply Hnew. }
  exists (mk_heap (Pos.succ (hnext h)) (<[hnext h := node0 (descp ct)]> (hmem h))),
    (hnext h), (node0 (descp ct)). constructor; try done.
  - unfold split_sibling. rewrite (proj2 (Nat.ltb_lt _ _)) by lia. done.
  - by apply opened_fresh.
  - apply lower_refl.
  - apply higher_refl.
  - split_and!; [unfold hget; cbn [hmem]; apply lookup_insert_eq|done..].
  - intros Hin. assert (is_Some (hget h (hnext h))) as [tq Htq]; [|by eapply Hnew].
    apply elem_of_cons in Hin as [<- |Hin]; [done|].
    eapply around_dom; [|exact split_kids|exact Hin]. intros; by eapply ptree_dom.
  - by right.
  - split; [|cbn [hnext]; lia]. intros q tq. unfold hget. cbn [hmem hnext].
    destruct (decide (q = hnext h)) as [->|]; [lia|]. rewrite lookup_insert_ne by done.
    intros Hold'%Hwf. lia.
  - intros q tq _. apply Hold.
  - intros q tq Htq. exists (next tq). rewrite (Hold _ _ Htq). by destruct tq.
  - intros Hm. split_and!; [by left|by left| |].
    + unfold leafb. destruct (hget h (hnext h)) as [tq|] eqn:Hq'; [|done]. by destruct (Hnew _ _ Hq').
    + intros q. unfold leafb. destruct (hget h q) as [tq|] eqn:Hq'; [|done]. intros _. by apply Hold.
  - intros Hm. split; [by right|]. intros o. destruct (split_leaves Hm) as (_ & _ & _ & _ & Hlf).
    apply linked_ext. intros q Hin%Hlf. unfold link, leafb in *.
    destruct (hget h q) as [tq|] eqn:Hq'; [|done]. by rewrite (Hold _ _ Hq').
Qed.

Lemma room_front P1 c' k' P2 :
  P = P1 ++ (c', k') :: P2 ->
  (∀ X E l r, ptree d h m 62 c' l r X E -> emptyb E = true) ->
  ∃ h1 gp gt P' lo1 XA' EA', room (length P1) h1 gp gt P' Q lo1 hi' XA' XB EA' EB.
Proof.
  intros HP Hfree. pose proof Hr as Hr2. pose proof Hp as Hp2. rewrite HP in Hr2, Hp2.
  pose proof (irep_n _ _ _ _ Hr2) as Hl. rewrite length_pq_keys, length_app in Hl.
  destruct (pre_drop _ _ _ _ _ _ _ _ _ _ (ptree_stretchy d h m 62) Hp2)
    as (b & l & r & Y1 & Y2 & Y3 & F1 & F2 & F3 & Hp' & Hlow & Hk & HXA & HEA & l3 & HY3).
  pose proof (Hfree _ _ _ _ Hk) as Hemp. pose proof (ptree_root _ _ _ _ _ _ _ _ _ Hk) as Hin.
  pose proof Hk as (gt & Z & Hgt & -> & _ & Hok). destruct (node_ok_arrays _ _ _ _ _ _ Hok) as (Hgk & Hgv & Hgd).
  assert (pq_kids P c Q = P1.*1 ++ c' :: (P2.*1 ++ c :: Q.*2)) as HK.
  { rewrite HP. unfold pq_kids. by rewrite fmap_app, <- app_assoc. }
  destruct (sibling_taken _ c' _ gt HK Hgt) as (h1 & Hsib & Hwf1 & Hnx & Hkin & Hfr & Hinn & Hlk).
  destruct (Hkin c' gt Hgt) as (nx & Hgt1). rewrite length_fmap in Hsib.
  exists h1, c', (set_next nx gt), (P1 ++ P2), b, (Y1 ++ Y3), (F1 ++ F3). constructor; try done.
  - rewrite HP. by eapply opened_front.
  - apply higher_refl.
  - split; [|done]. by rewrite HEA, !levels_app, (emptyb_levels _ Hemp).
  - split; [|done]. rewrite HXA. apply sublist_app; [done|]. by apply sublist_inserts_l.
  - assert (pp :: (Y1 ++ Y3) ++ (c :: Xc) ++ XB = (pp :: Y1) ++ (Y3 ++ (c :: Xc) ++ XB)) as ->
      by (by app_norm).
    eapply (foot_drop c' _ Z). pose proof HX as HX2. rewrite HXA in HX2.
    eapply eq_ind; [exact HX2|]. f_equal. by app_norm.
  - left. rewrite HXA. revert Hin. clear. set_solver.
  - congruence.
  - intros Hm. split_and!; [right|by left|by apply Hinn..].
    exists Y1, (c' :: Z), Y3. split_and!; [done|done|by eapply ptree_heads|by eapply pre_heads|].
    intros q Hqz Hql. eapply ptree_barren; [exact Hk|by apply emptyb_levels|done..].
  - intros Hm. specialize (Hlk Hm). rewrite HK. unfold pq_kids. rewrite fmap_app, <- app_assoc.
    split; [clear; set_solver|]. intros o. rewrite <- HK. apply Hlk.
Qed.

Lemma room_behind Q1 k' c' Q3 :
  Q = Q1 ++ (k', c') :: Q3 ->
  (∀ X E l r, ptree d h m 62 c' l r X E -> emptyb E = true) ->
  ∃ h1 gp gt Q' hi1 XB' EB',
    room (length P + S (length Q1)) h1 gp gt P Q' lo' hi1 XA XB' EA EB'.
Proof.
  intros HQ Hfree. pose proof Hr as Hr2. pose proof Hq as Hq2. rewrite HQ in Hr2, Hq2.
  pose proof (irep_n _ _ _ _ Hr2) as Hl. rewrite length_pq_keys, length_app in Hl.
  destruct (post_drop _ _ _ _ _ _ _ _ _ _ (ptree_stretchy d h m 62) Hq2)
    as (b & l & r & Y1 & Y2 & Y3 & F1 & F2 & F3 & Hq' & Hhigh & Hk & HXB & HEB & l3 & HY3).
  pose proof (Hfree _ _ _ _ Hk) as Hemp. pose proof (ptree_root _ _ _ _ _ _ _ _ _ Hk) as Hin.
  pose proof Hk as (gt & Z & Hgt & -> & _ & Hok). destruct (node_ok_arrays _ _ _ _ _ _ Hok) as (Hgk & Hgv & Hgd).
  assert (pq_kids P c Q = (P.*1 ++ c :: Q1.*2) ++ c' :: Q3.*2) as HK.
  { rewrite HQ. unfold pq_kids. by rewrite fmap_app, <- app_assoc. }
  destruct (sibling_taken _ c' _ gt HK Hgt) as (h1 & Hsib & Hwf1 & Hnx & Hkin & Hfr & Hinn & Hlk).
  destruct (Hkin c' gt Hgt) as (nx & Hgt1).
  rewrite length_app in Hsib. cbn [length] in Hsib. rewrite !length_fmap in Hsib.
  assert ((rekey k' Q3).*2 = Q3.*2) as Hrk by (by destruct Q3 as [|[]]).
  exists h1, c', (set_next nx gt), (Q1 ++ rekey k' Q3), b, (Y1 ++ Y3), (F1 ++ F3). constructor; try done.
  - by eapply opened_behind.
  - apply lower_refl.
  - split; [done|]. by rewrite HEB, !levels_app, (emptyb_levels _ Hemp).
  - split; [done|]. rewrite HXB. apply sublist_app; [done|]. by apply sublist_inserts_l.
  - assert (pp :: XA ++ (c :: Xc) ++ Y1 ++ Y3 = (pp :: XA ++ (c :: Xc) ++ Y1) ++ Y3) as ->
      by (by app_norm).
    eapply (foot_drop c' _ Z). pose proof HX as HX2. rewrite HXB in HX2.
    eapply eq_ind; [exact HX2|]. f_equal. by app_norm.
  - left. rewrite HXB. revert Hin. clear. set_solver.
  - congruence.
  - intros Hm. split_and!; [by left|right|by apply Hinn..].
    exists Y1, (c' :: Z), Y3. split_and!; [done|done|by eapply ptree_heads|by eapply post_heads|].
    intros q Hqz Hql. eapply ptree_barren; [exact Hk|by apply emptyb_levels|done..].
  - intros Hm. specialize (Hlk Hm). rewrite <- app_assoc in Hlk. rewrite HK. unfold pq_kids.
    rewrite fmap_app, Hrk. split; [clear; set_solver|]. intros o. rewrite <- HK. apply Hlk.
Qed.

Lemma node_split_run : split_done (node_split fuel h pp (length P)).
Proof.
  pose proof (irep_n _ _ _ _ Hr) as Hl. rewrite length_pq_keys in Hl.
  destruct (kids_free d (ptree d h m 63) fuel h t P c Q lo hi (XA ++ (c :: Xc) ++ XB) (EA ++ Ec ++ EB)) as (Es & HE & HlE & Hfree);
    [|exact Hr|exact split_kids|].
  { intros. by eapply node_free_ptree. }
  destruct (scan_up_total (S (n t))
              (fun i => c ← child t i; b ← node_free_p fuel h c; Some (negb b)) 0) as [nul Hsc].
  { intros i Hi. destruct (lookup_lt_is_Some_2 Es i) as [Ei HEi]; [lia|].
    specialize (Hfree _ _ HEi). destruct (child t i) as [ci|]; [|done]. simpl in *. by rewrite Hfree. }
  pose proof Hsc as (Hb1 & _ & Hat)%scan_up_Some.
  assert (∀ i ci E l r X cap, pq_kids P c Q !! i = Some ci -> i = nul ->
    ptree d h m cap ci l r X E -> emptyb E = true) as Hempty.
  { intros i ci E l r X cap Hci -> HT. assert (nul < S (n t))%nat as Hlt.
    { apply lookup_lt_Some in Hci. rewrite length_pq_kids in Hci. lia. }
    specialize (Hat Hlt). rewrite (irep_child _ _ _ _ _ _ Hr Hci) in Hat. simpl in Hat.
    rewrite (node_free_ptree _ _ _ _ _ _ _ _ _ _ HT Hfuel) in Hat. simpl in Hat.
    by destruct (emptyb E). }
  destruct (decide (nul = S (n t))) as [Heq|Hnf].
  { destruct room_fresh as (h1 & gp & gt & Hroom). rewrite <- Heq in Hroom. by eapply split_finish. }
  destruct (lt_eq_lt_dec nul (length P)) as [[Hlt|Heq]|Hgt].
  - destruct (lookup_lt_is_Some_2 P nul Hlt) as [[c' k'] Hck].
    pose proof (take_drop_middle _ _ _ Hck) as HP.
    assert (length (take nul P) = nul) as Hln by (rewrite length_take; lia).
    destruct (room_front (take nul P) c' k' (drop (S nul) P)) as (h1 & gp & gt & P' & lo1 & XA' & EA' & Hroom);
      [by rewrite HP| |].
    + intros X E l r. eapply (Hempty nul); [|done]. unfold pq_kids. apply lookup_app_l_Some.
      by rewrite list_lookup_fmap, Hck.
    + rewrite Hln in Hroom. by eapply split_finish.
  - exfalso. assert (emptyb Ec = true); [|congruence].
    eapply (Hempty (length P) c Ec lo' hi' (c :: Xc) 63%nat); [apply pq_kids_at|done|].
    exists ct, Xc. split_and!; [done..|lia|done].
  - destruct (lookup_lt_is_Some_2 Q (nul - S (length P))) as [[k' c'] Hck]; [lia|].
    pose proof (take_drop_middle _ _ _ Hck) as HQ.
    assert (length (take (nul - S (length P)) Q) = nul - S (length P))%nat as Hln by (rewrite length_take; lia).
    destruct (room_behind (take (nul - S (length P)) Q) k' c' (drop (S (nul - S (length P))) Q))
      as (h1 & gp & gt & Q' & hi1 & XB' & EB' & Hroom); [by rewrite HQ| |].
    + intros X E l r. eapply (Hempty nul); [|done]. unfold pq_kids.
      rewrite lookup_app_r by len. rewrite length_fmap.
      replace (nul - length P)%nat with (S (nul - S (length P))) by lia. simpl.
      rewrite list_lookup_fmap. by rewrite Hck.
    + rewrite Hln in Hroom. replace (length P + S (nul - S (length P)))%nat with nul in Hroom by lia.
      by eapply split_finish.
Qed.
End node_split.

(** ** [root_split] *)

(** Two leaves under a root. *)
Lemma threads_pair h p l r :
  leafb h p = false -> leaf_ok d h l -> leaf_ok d h r -> l ≠ r ->
  link h l = Some r -> link h r = None -> threads d h [p; l; r] [l; r].
Proof.
  intros Hp Hl Hr Hne Hll Hlr. pose proof (leaf_ok_leafb _ _ _ Hl) as Bl. pose proof (leaf_ok_leafb _ _ _ Hr) as Br.
  constructor.
  - by repeat constructor.
  - intros q Hq []. by right.
  - unfold leaves. rewrite filter_cons_False by (rewrite Hp; by intros []).
    rewrite filter_cons_True by by rewrite Bl. by rewrite filter_cons_True by by rewrite Br.
  - apply NoDup_cons. split; [by rewrite list_elem_of_singleton|apply NoDup_singleton].
  - cbn [fwd]. rewrite Hll, Hlr. split; [|done]. intros q [= <-]. left. left.
  - cbn [adj]. split; [|split; [|done]].
    + rewrite Hp. by intros ? _ [].
    + intros b [= <-] _ _. split; [done|]. by left.
Qed.

(** The thread when the root is split. *)
Lemma root_split_threads h h' m p t lo hi z1 z2 z3 z4 X1 X2 E1 E2 E tl tr tp l r :
  node_ok d (kidsT d h m) t lo hi (X1 ++ X2) E -> hget h p = Some t ->
  node_ok d (kidsT d h m) tl z1 z2 X1 E1 -> node_ok d (kidsT d h m) tr z3 z4 X2 E2 ->
  hget h' p = Some tp -> innerp tp = true -> hget h l = None -> hget h r = None -> l ≠ r ->
  hget h' l = Some tl -> used tl = 0 -> next tl = Some r ->
  hget h' r = Some tr -> used tr = 0 -> next tr = None ->
  (∀ q, q ≠ p -> q ≠ l -> q ≠ r -> hget h' q = hget h q) -> p ∉ X1 ++ X2 ->
  (∀ q, q ∈ X1 ++ X2 -> is_Some (hget h q)) ->
  (hnext h <= l)%positive -> (hnext h <= r)%positive ->
  rethreaded d h p (p :: X1 ++ X2) h' (p :: (l :: X1) ++ (r :: X2)).
Proof.
  intros Hok Ht Hok1 Hok2 Htp Hip Hl Hr Hlr Htl Hul Hnl Htr Hur Hnr Hsame Hpx Hin Hnl' Hnr' L [HT _].
  assert (leafb h' p = false) as Hlp by (unfold leafb; by rewrite Htp, Hip).
  destruct (decide (m = 0%nat)) as [->|Hm].
  - destruct Hok1 as (Hr1 & _ & ->), Hok2 as (Hr2 & _ & ->). exists [l; r]. split; cycle 1.
    { intros q [->|Hq%list_elem_of_singleton]%elem_of_cons; right; right; [done|by subst]. }
    split; [|by rewrite Hlp]. apply threads_pair; try done.
    + exists tl, E1. split_and!; [done..|]. unfold word_node. rewrite Hul. lia.
    + exists tr, E2. split_and!; [done..|]. unfold word_node. rewrite Hur. lia.
    + unfold link. by rewrite Htl.
    + unfold link. by rewrite Htr.
  - exists L. split; [split; [|by rewrite Hlp]|apply from_same]. assert (leafb h' l = false ∧ leafb h' r = false) as [Hll Hlr'].
    { unfold leafb. rewrite Htl, Htr, (node_ok_inner _ _ _ _ _ _ _ _ Hm Hok1),
        (node_ok_inner _ _ _ _ _ _ _ _ Hm Hok2). done. }
    assert (leafb h p = false) as Hlp0.
    { unfold leafb. by rewrite Ht, (node_ok_inner _ _ _ _ _ _ _ _ Hm Hok). }
    assert (∀ q, q ∈ X1 ++ X2 -> leafb h' q = leafb h q) as Hlf.
    { intros q Hq. unfold leafb. destruct (Hin q Hq) as [tq Htq].
      rewrite Hsame; [done| | |]; intros ->; congruence. }
    assert (∀ Y, Y ⊆ X1 ++ X2 -> leaves h' Y = leaves h Y) as HY.
    { intros Y HY. apply leaves_ext. intros q Hq. by apply Hlf, HY. }
    assert (X1 ⊆ X1 ++ X2 ∧ X2 ⊆ X1 ++ X2) as [S1 S2] by (clear; set_solver).
    eapply threads_inner; [exact HT|..].
    + intros q Hq. apply Hsame; intros ->; unfold leafb in *; [congruence|by rewrite Hl in Hq|by rewrite Hr in Hq].
    + cbn [app]. rewrite !(leaves_cons_inner _ p), (leaves_cons_inner h' l), !leaves_app, (leaves_cons_inner h' r) by done.
      by rewrite !HY.
    + intros q [Hlq Hq]%elem_of_leaves []. apply elem_of_cons in Hq as [->|Hq]; [left|right].
      rewrite !elem_of_app, !elem_of_cons in *. tauto.
    + intros R HR. apply adj_inner in HR as [R1 R2]%adj_split; [|done].
      apply adj_inner; [done|]. apply adj_app; [by apply heads_inner_cons|].
      rewrite !adj_inner by done. split; (eapply adj_mono; [|done|eassumption]); intros q Hq; apply Hlf; rewrite elem_of_app; tauto.
Qed.

(** The root becomes the parent of its halves. *)
Lemma root_split_ptree h m p lo hi X E t :
  ptree d h m 63 p lo hi X E -> hget h p = Some t -> n t = 63%nat -> NoDup X -> heap_wf h ->
  ∃ h' X', root_split h p = Some h' ∧ ptree d h' (S m) 62 p lo hi X' E ∧ grew h X h' X' ∧
    rethreaded d h p X h' X' ∧
    (∀ q, q ∈ X -> q ∈ X' ∧ (q ≠ p -> hget h' q = hget h q)) ∧
    (∀ q tq, q ∈ X' -> q ∉ X -> hget h' q = Some tq -> (n tq <= 32)%nat).
Proof.
  intros (t0 & X0 & Ht0 & -> & _ & Hok) Ht Hn HX Hwf. assert (t0 = t) as -> by congruence.
  destruct (node_ok_arrays _ _ _ _ _ _ Hok) as (Hk & Hv & Hd).
  destruct (lookup_lt_is_Some_2 (key t) 31) as [k Hk31]; [lia|].
  destruct (root_split_run h p t k Hwf Ht Hk Hv Hk31)
    as (h' & tl & tr & kr & vr & Hrun & Hh & Hl & Hul & Hnl & Hr & Hur & Hnr & Hp & Hlkr & Hlvr & Hnx & Hwf' & Hold).
  set (l := hnext h) in *. set (r := Pos.succ l) in *.
  destruct (halves_ok d _ t tl tr lo hi X0 E Hok Hn Hh Hk)
    as (k' & z & X1 & X2 & E1 & E2 & Hk' & Hz & Hb1 & Hb2 & Hok1 & Hok2 & HX0 & HE & _).
  assert (k' = k) as -> by congruence. apply NoDup_cons in HX as [Hpn HX].
  assert (∀ q, q ∈ X0 -> hget h' q = hget h q ∧ q ≠ l ∧ q ≠ r) as Hsame.
  { intros q Hin. destruct (node_ok_dom _ _ _ _ _ _ _ _ _ Hok Hin) as [tq Htq].
    pose proof (Hwf _ _ Htq). unfold r, l in *. rewrite Hold; [|by intros ->|done]. split; [done|lia]. }
  assert (∀ Y, Y ⊆ X0 -> alike Y h h') as Hal.
  { intros Y HY q tq Hin Htq. exists tq. by rewrite (proj1 (Hsame q (HY _ Hin))). }
  pose proof (Hwf _ _ Ht) as Hpl. fold l in Hpl.
  exists h', (p :: (l :: X1) ++ (r :: X2)). split_and!; [done| | | | |].
  - eexists _, _. split_and!; [exact Hp|done|node; lia|].
    cbn [kidsT node_ok]. exists [], l, [(k, r)]. split.
    { constructor; node; try done.
      - exists kr. unfold NKEY. simpl. split; [done|lia].
      - exists vr. unfold NVAL. simpl. split; [done|lia]. }
    exists lo, (Some z), [], (l :: X1), (r :: X2), [], E1, E2. split_and!; try done.
    + exists tl, X1. split_and!; [done..|rewrite (hv_nl _ _ _ Hh); destruct (innerp t); lia|].
      eapply node_ok_alike; [|exact Hok1]. apply Hal. rewrite HX0. clear. set_solver.
    + exists z, hi, (r :: X2), [], E2, []. rewrite !app_nil_r. split_and!; try done.
      exists tr, X2. split_and!; [done..|rewrite (hv_nr _ _ _ Hh); lia|].
      eapply node_ok_alike; [|exact Hok2]. apply Hal. rewrite HX0. clear. set_solver.
  - assert (l ∉ X0 ∧ r ∉ X0) as [Hlx Hrx] by (split; intros Hin; by destruct (Hsame _ Hin) as (_ & ? & ?)).
    constructor; [done|unfold r in *; lia| | |].
    + apply (NoDup_perm (p :: l :: r :: X0)); [rewrite HX0; simpl; solve_Permutation|].
      repeat (apply NoDup_cons; split; [rewrite ?not_elem_of_cons; unfold r in *; split_and?; (lia || done)|]).
      done.
    + intros q Hin. assert (q = p ∨ q = l ∨ q = r ∨ q ∈ X0) as [-> |[-> |[-> |]]].
      { rewrite HX0. revert Hin. clear. set_solver. }
      all: [> left; left | right; unfold l; lia | right; unfold r, l; lia | left; by right].
    + intros q tq [Hqp Hq]%not_elem_of_cons Htq. rewrite Hold; [done..|]. by eapply Hwf.
  - rewrite HX0 in Hok, Hpn |- *. assert (∀ q, (l <= q)%positive -> hget h q = None) as Hnone.
    { intros q Hq. destruct (hget h q) as [tq|] eqn:Htq; [|done]. apply Hwf in Htq. unfold l in *. lia. }
    eapply (root_split_threads h h' m p t lo hi lo (Some z) (Some z) hi X1 X2 E1 E2 E tl tr _ l r);
      try done; try (apply Hnone; unfold r; lia); try (unfold r, l; lia).
    + intros q ???. destruct (decide (q < l)%positive) as [|Hge]; [by apply Hold|].
      rewrite Hnone by lia. destruct (hget h' q) as [tq|] eqn:Htq; [|done]. apply Hwf' in Htq.
      rewrite Hnx in Htq. unfold r in *. lia.
    + intros q Hq. exact (node_ok_dom d _ _ _ _ _ _ _ _ Hok Hq).
  - intros q Hin. split.
    + revert Hin. rewrite HX0. clear. set_solver.
    + intros Hq. apply elem_of_cons in Hin as [|Hin]; [done|]. by apply Hsame.
  - intros q tq Hin Hnin Htq. assert (q = l ∨ q = r) as [-> | ->].
    { revert Hin Hnin. rewrite HX0. clear. rewrite !elem_of_cons, !elem_of_app, !elem_of_cons. tauto. }
    + simplify_eq. rewrite (hv_nl _ _ _ Hh). destruct (innerp t); lia.
    + simplify_eq. rewrite (hv_nr _ _ _ Hh). lia.
Qed.

(** Splitting a full root leaf keeps the map: the root becomes a tree of
    height one over the same entries, and its two leaves are chained. *)
Lemma root_split_tree h p t E :
  heap_wf h -> hget h p = Some t -> leaf_rep d t E -> within d None None E -> length E = 63%nat ->
  ∃ h' l r, root_split h p = Some h' ∧ tree d h' 1 p None None E ∧
    side d word_leaf h' p [(l, take 32 E); (r, drop 32 E)] ∧
    (∀ q tq, q = l ∨ q = r -> hget h' q = Some tq -> used tq = 0).
Proof.
  intros Hwf Ht Hr Hw Hl. pose proof (rep_n _ _ _ Hr) as Hn. rewrite Hl in Hn.
  destruct (rep_lengths _ _ _ Hr) as [Hlk Hlv].
  destruct (root_split_ptree h 0 p None None [p] E t) as (h' & X' & Hrun & HT & _);
    [exists t, []; split_and!; try done; lia|done..|apply NoDup_singleton|done|].
  destruct (lookup_lt_is_Some_2 (key t) 31) as [k Hk31]; [lia|].
  destruct (root_split_run h p t k Hwf Ht Hlk Hlv Hk31)
    as (h2 & tl & tr & kr & vr & Hrun' & Hh & Hgl & Hul & Hnl & Hgr & Hur & Hnr & Hgp & _).
  assert (h2 = h') as -> by congruence.
  destruct (halves_leaf d _ _ _ _ Hr Hl Hh) as [Hrl Hrr].
  exists h', (hnext h), (Pos.succ (hnext h)). split_and!; [done|by eapply ptree_tree|..].
  - split.
    + cbn. apply NoDup_cons. split; [|apply NoDup_singleton].
      rewrite list_elem_of_singleton. lia.
    + exists (hnext h). split.
      * unfold height_fuel. cbn [leftmost]. brun Hgp. cbn [innerp child val]. bstep.
        assert (∃ m, size (hmem h') = S m) as [m ->].
        { destruct (size (hmem h')) eqn:Hs; [|eauto]. apply map_size_empty_inv in Hs.
          unfold hget in Hgp. by rewrite Hs, lookup_empty in Hgp. }
        cbn. unfold hget in *. rewrite Hgl. bstep. by rewrite (rep_leaf _ _ _ Hrl).
      * econstructor; [done..|unfold word_leaf; rewrite Hul; lia|]. rewrite Hnl.
        econstructor; [done..|unfold word_leaf; rewrite Hur; lia|]. rewrite Hnr. constructor.
  - intros q tq [-> | ->] Hq; simplify_eq; done.
Qed.
End split.
