(* ===== verification/BtreePut.v ===== *)
(** * [btree_put] on trees of any height

    [twig_add] descends to the leaf a key belongs to, adds it there and splits
    full nodes on the way back.  The levels of the tree stay what they are, and
    the cell handed out is the new key's, except when the leaf was split and
    the key went to its upper half. *)

From Stdlib Require Import ZArith Lia.
From stdpp Require Import prelude list gmap fin_maps.
From stdpp Require Import options.
From S2P Require Import Prelude Decimal Btree BtreeLeaf BtreeUsed BtreeIter BtreeSide BtreeOps.
From S2P Require Import BtreeMap BtreeTree BtreeHide BtreeKids BtreeGrow BtreeThread BtreeHalves BtreeSplit.

Local Open Scope Z_scope.

Section put.
Context `{BKey K}.
#[local] Abbreviation entry := (K * btree_val)%type.
Implicit Types (E : list entry) (t : btree_s K) (k : K) (h : heap K) (p q c : positive).
Implicit Types (lo hi : option Z) (X XA Xc XB : list positive) (EA Ec EB G : list entry).
Implicit Types (P : list (positive * K)) (Q : list (K * positive)).
Variable d : bool.

(** ** Composing changes *)

Lemma grew_trans h X h1 X1 h2 X2 :
  heap_wf h -> grew h X h1 X1 -> grew h1 X1 h2 X2 -> grew h X h2 X2.
Proof.
  intros Hwf [W1 N1 D1 I1 F1] [W2 N2 D2 I2 F2]. constructor; try done.
  - lia.
  - intros q [Hq|Hq]%I2; [by apply I1|right; lia].
  - intros q t Hq Ht. apply F2; [|by apply F1]. intros [|Hge]%I1; [done|].
    specialize (Hwf _ _ Ht). lia.
Qed.

Lemma grew_frame h L Xc R h1 Xc' :
  NoDup (L ++ Xc ++ R) -> (∀ q, q ∈ L ++ R -> (q < hnext h)%positive) ->
  grew h Xc h1 Xc' -> grew h (L ++ Xc ++ R) h1 (L ++ Xc' ++ R).
Proof.
  intros Hd Hold [W1 N1 D1 I1 F1]. constructor; try done.
  - assert (NoDup (Xc ++ L ++ R)) as (HdX & Hdis & HdLR)%NoDup_app.
    { eapply NoDup_perm; [|exact Hd]. solve_Permutation. }
    apply (NoDup_perm (Xc' ++ L ++ R)); [solve_Permutation|]. apply NoDup_app. split_and!; [done| |done].
    intros q [Hq|Hq]%I1 Hin; [by eapply Hdis|]. specialize (Hold q Hin). lia.
  - intros q. rewrite !elem_of_app. intros [Hq|[[Hq|Hq]%I1|Hq]]; auto.
  - intros q t. rewrite !elem_of_app. intros Hq. apply F1. tauto.
Qed.

(** *** And what becomes of the thread *)

Lemma grew_context m h X h1 X1 A B L :
  heap_wf h -> grew h X h1 X1 -> rethreads d m h X h1 X1 ->
  NoDup (A ++ X ++ B) -> (m ≠ 0%nat -> heads_inner h B) -> (∀ q, q ∈ A ++ B -> is_Some (hget h q)) ->
  threads d h (A ++ X ++ B) L ->
  ∃ L1, threads d h1 (A ++ X1 ++ B) L1 ∧ threaded_from h X L L1 ∧ NoDup (A ++ X1 ++ B) ∧ (m ≠ 0%nat -> heads_inner h1 B) ∧
    ∀ q, q ∈ A ++ B -> is_Some (hget h1 q).
Proof.
  intros Hwf Hg Hre Hd HB Hin HT. destruct (Hre A B L Hd HB Hin HT) as (L1 & HT1 & Hf). exists L1.
  assert (∀ q, q ∈ A ++ B -> hget h1 q = hget h q) as Hsame.
  { intros q Hq. destruct (Hin q Hq) as [t Ht]. rewrite Ht. eapply gr_frame; [exact Hg| |done].
    apply (NoDup_perm _ (X ++ A ++ B)) in Hd; [|solve_Permutation].
    apply NoDup_app in Hd as (_ & Hd & _). intros Hbad. by apply (Hd q). }
  split_and!; [done|done| | |].
  - eapply gr_nodup, (grew_frame h A X B h1 X1); [done| |done].
    intros q [t Ht]%Hin. by eapply Hwf.
  - intros Hm q Hq. unfold leafb. rewrite Hsame; [by apply (HB Hm)|].
    apply elem_of_app. right. by apply head_Some_elem_of.
  - intros q Hq. rewrite Hsame by done. by apply Hin.
Qed.

Lemma from_trans h X L h1 X1 L1 L2 :
  grew h X h1 X1 -> threaded_from h X L L1 -> threaded_from h1 X1 L1 L2 -> threaded_from h X L L2.
Proof.
  intros Hg H1 H2 q Hq. destruct (H2 q Hq) as [HL|[HX|Hge]]; [by apply H1| |].
  - destruct (gr_new _ _ _ _ Hg q HX); auto.
  - right. right. pose proof (gr_next _ _ _ _ Hg). lia.
Qed.

Lemma rethreaded_trans h p X h1 X1 h2 X2 :
  grew h X h1 X1 -> rethreaded d h p X h1 X1 -> rethreaded d h1 p X1 h2 X2 -> rethreaded d h p X h2 X2.
Proof.
  intros Hg H1 H2 L HT. destruct (H1 L HT) as (L1 & HT1 & Hf1). destruct (H2 L1 HT1) as (L2 & HT2 & Hf2).
  exists L2. split; [done|]. by eapply from_trans.
Qed.

Lemma rethreads_trans m h X h1 X1 h2 X2 :
  heap_wf h -> grew h X h1 X1 -> rethreads d m h X h1 X1 -> rethreads d m h1 X1 h2 X2 ->
  rethreads d m h X h2 X2.
Proof.
  intros Hwf Hg Hr1 Hr2 A B L Hd HB Hin HT.
  destruct (grew_context m h X h1 X1 A B L) as (L1 & HT1 & Hf1 & Hd1 & HB1 & Hin1); [done..|].
  destruct (Hr2 A B L1) as (L2 & HT2 & Hf2); [done..|]. exists L2. split; [done|]. by eapply from_trans.
Qed.

Lemma rethreads_frame m m' h A X B h1 X1 :
  rethreads d m h X h1 X1 -> (m ≠ 0%nat -> heads_inner h B) -> (∀ q, q ∈ A ++ B -> is_Some (hget h q)) ->
  rethreads d (S m') h (A ++ X ++ B) h1 (A ++ X1 ++ B).
Proof.
  intros Hr HB Hin A' B' L Hd HB' Hin' HT.
  assert (∀ Y, A' ++ (A ++ Y ++ B) ++ B' = (A' ++ A) ++ Y ++ (B ++ B')) as Hassoc by (intros; by app_norm).
  rewrite Hassoc in Hd, HT |- *. destruct (Hr (A' ++ A) (B ++ B') L) as (L' & HT' & Hf); [done| | |done|].
  - intros Hm. apply heads_inner_app; auto.
  - intros q Hq. specialize (Hin q). specialize (Hin' q). rewrite !elem_of_app in *. tauto.
  - exists L'. split; [done|]. intros q Hq. destruct (Hf q Hq) as [|[|]]; [by left| |by right; right].
    right. left. rewrite !elem_of_app. auto.
Qed.

(** What is outside of the footprint stays. *)
Lemma grew_alike h X h1 X1 Y : grew h X h1 X1 -> (∀ q, q ∈ Y -> q ∉ X) -> alike Y h h1.
Proof. intros Hg HY q t Hq Ht. exists t. split; [|done]. by eapply gr_frame; eauto. Qed.

(** ** Where a put lands *)

(** The leaf [r] points into holds [G], or the lower half of it; all of [G] is
    among the entries, and the cell [r] has the value it has in [G]. *)
Definition landed h (r : vptr) X E G (halved : bool) : Prop :=
  r.1 ∈ X ∧ load h r = snd <$> G !! r.2 ∧
  (∃ t, hget h r.1 = Some t ∧ leaf_rep d t (if halved then take 32 G else G)) ∧
  ∃ A B, E = A ++ G ++ B.

Lemma load_alike X h h' (r : vptr) t :
  alike X h h' -> r.1 ∈ X -> hget h r.1 = Some t -> load h' r = load h r.
Proof.
  intros Ha Hin Ht. destruct (Ha _ _ Hin Ht) as (t' & Ht' & Hl). unfold load.
  brun Ht. brun Ht'. by destruct Hl as (_ & _ & _ & _ & ->).
Qed.

Lemma landed_alike h h' r X E G b :
  alike [r.1] h h' -> landed h r X E G b -> landed h' r X E G b.
Proof.
  intros Ha (Hin & Hl & (t & Ht & Hr) & HE). destruct (Ha r.1 t) as (t' & Ht' & Hlike); [left|done|].
  split; [done|]. split; [|split; [|done]].
  - rewrite <- Hl. eapply load_alike; [exact Ha|left|done].
  - exists t'. split; [done|]. by eapply node_like_leaf.
Qed.

Lemma landed_more h r X E G b X' EA EB :
  X ⊆ X' -> landed h r X E G b -> landed h r X' (EA ++ E ++ EB) G b.
Proof.
  intros HX (Hin & Hl & Ht & A & B & ->). split_and!; [by apply HX|done..|].
  exists (EA ++ A), (B ++ EB). by rewrite <- !app_assoc.
Qed.

(** One level up: the parent after its child took the key. *)
Section step.
#[local] Set Default Proof Using "Type*".
Context (fuel : nat) h (m : nat) (pp : positive) t P c Q lo hi lo' hi'.
Context XA Xc XB EA Ec EB.
Hypothesis Ht : hget h pp = Some t.
Hypothesis Hr : inner_rep d t (pq_keys P Q) (pq_kids P c Q).
Hypothesis Hn : (n t <= 62)%nat.
Hypothesis Hp : pre d (ptree d h m 62) P lo lo' XA EA.
Hypothesis Hb : bnd lo' hi'.
Hypothesis Hc : ptree d h m 62 c lo' hi' Xc Ec.
Hypothesis Hq : post d (ptree d h m 62) Q hi' hi XB EB.
Hypothesis HX : NoDup (pp :: XA ++ Xc ++ XB).
Hypothesis Hwf : heap_wf h.
Hypothesis Hfuel : (m < fuel)%nat.
Context h1 Xc' Ec' (r : vptr) G (b : bool) (ct : btree_s K).
Hypothesis Hc1 : ptree d h1 m 63 c lo' hi' Xc' Ec'.
Hypothesis Hg1 : grew h Xc h1 Xc'.
Hypothesis Hre1 : rethreads d m h Xc h1 Xc'.
Hypothesis Hl1 : levels Ec' = levels Ec.
Hypothesis Hct : hget h1 c = Some ct.
Hypothesis Hne : (63 <=? n ct)%nat = true -> emptyb Ec' = false.
Hypothesis Hland : landed h1 r Xc' Ec' G b.
Hypothesis Hleaf : m = 0%nat -> b = false ∧ r.1 = c ∧ Ec' = G.

Lemma step_old q : q ∈ pp :: XA ++ Xc ++ XB -> (q < hnext h)%positive.
Proof.
  intros Hin. assert (is_Some (hget h q)) as [tq Htq]; [|by eapply Hwf].
  apply elem_of_cons in Hin as [-> |Hin]; [done|].
  eapply (around_dom d (ptree d h m 62)); [| |exact Hin]; [intros; by eapply ptree_dom|].
  by exists lo', hi', XA, Xc, XB, EA, Ec, EB.
Qed.

Lemma step_other q : q ∈ pp :: XA ++ XB -> q ∉ Xc.
Proof.
  intros Hin Hc'. assert (NoDup (Xc ++ pp :: XA ++ XB)) as (_ & Hd & _)%NoDup_app.
  { eapply NoDup_perm; [|exact HX]. solve_Permutation. }
  by eapply Hd.
Qed.

Lemma step_grew : grew h (pp :: XA ++ Xc ++ XB) h1 (pp :: XA ++ Xc' ++ XB).
Proof.
  apply (grew_frame h (pp :: XA) Xc XB h1 Xc'); [done| |done].
  intros q Hin. apply step_old. revert Hin. simpl. rewrite !elem_of_cons, !elem_of_app. tauto.
Qed.

Lemma step_rethreads : rethreads d (S m) h (pp :: XA ++ Xc ++ XB) h1 (pp :: XA ++ Xc' ++ XB).
Proof.
  apply (rethreads_frame m m h (pp :: XA) Xc XB h1 Xc'); [done| |].
  - intros Hm. by eapply post_heads.
  - intros q [Hin|Hin]%elem_of_app.
    + apply elem_of_cons in Hin as [->|Hin]; [done|].
      eapply (around_dom d (ptree d h m 62)); [intros; by eapply ptree_dom| |].
      * by exists lo', hi', XA, Xc, XB, EA, Ec, EB.
      * apply elem_of_app. by left.
    + eapply (around_dom d (ptree d h m 62)); [intros; by eapply ptree_dom| |].
      * by exists lo', hi', XA, Xc, XB, EA, Ec, EB.
      * rewrite !elem_of_app. tauto.
Qed.

Lemma step_alike Y : Y ⊆ pp :: XA ++ XB -> alike Y h h1.
Proof. intros HY. eapply grew_alike; [exact Hg1|]. intros q Hin. by apply step_other, HY. Qed.

(** Around the child, the parent is as before. *)
Lemma step_around :
  hget h1 pp = Some t ∧ pre d (ptree d h1 m 62) P lo lo' XA EA ∧
  post d (ptree d h1 m 62) Q hi' hi XB EB ∧ NoDup (pp :: XA ++ Xc' ++ XB) ∧ heap_wf h1.
Proof.
  split_and!.
  - eapply gr_frame; [exact Hg1| |done]. apply step_other. left.
  - eapply (pre_carry _ XA); [|done|exact Hp]. apply carries_alike, step_alike.
    clear. set_solver.
  - eapply (post_carry _ XB); [|done|exact Hq]. apply carries_alike, step_alike.
    clear. set_solver.
  - by eapply gr_nodup, step_grew.
  - by eapply gr_wf.
Qed.

(** The parent after the call of [node_split], if there is one. *)
Definition step_done (r2 : option (heap K)) : Prop :=
  ∃ h2 X' E' tp, r2 = Some h2 ∧ ptree d h2 (S m) 63 pp lo hi X' E' ∧
    grew h (pp :: XA ++ Xc ++ XB) h2 X' ∧ rethreads d (S m) h (pp :: XA ++ Xc ++ XB) h2 X' ∧
    levels E' = levels (EA ++ Ec ++ EB) ∧
    hget h2 pp = Some tp ∧ ((63 <=? n tp)%nat = true -> emptyb E' = false) ∧
    landed h2 r X' E' G (if (m =? 0)%nat then (63 <=? length G)%nat else b).

Lemma step_leaf : m = 0%nat -> leaf_rep d ct G ∧ b = false ∧ r.1 = c.
Proof.
  intros Hm. destruct (Hleaf Hm) as (-> & Hrc & <-). split_and!; try done.
  destruct Hc1 as (ct' & X0 & Hct' & -> & _ & Hok). rewrite Hm in Hok. simplify_eq.
  by destruct Hok.
Qed.

Lemma step_nosplit : (63 <=? n ct)%nat = false -> step_done (Some h1).
Proof.
  intros Hns. destruct step_around as (Ht1 & Hp1 & Hq1 & HX1 & Hwf1).
  apply Nat.leb_gt in Hns. destruct Hc1 as (ct' & X0 & Hct' & HXc & _ & Hok).
  assert (ct' = ct) as -> by congruence.
  exists h1, (pp :: XA ++ Xc' ++ XB), (EA ++ Ec' ++ EB), t. split_and!; try done.
  - exists t, (XA ++ Xc' ++ XB). split_and!; [done..|lia|]. cbn [kidsT node_ok].
    exists P, c, Q. split; [done|]. exists lo', hi', XA, Xc', XB, EA, Ec', EB.
    split_and!; try done. exists ct, X0. split_and!; [done..|lia|done].
  - exact step_grew.
  - exact step_rethreads.
  - by rewrite !levels_app, Hl1.
  - intros Hle%Nat.leb_le. lia.
  - assert ((if (m =? 0)%nat then (63 <=? length G)%nat else b) = b) as ->.
    { destruct (Nat.eqb_spec m 0) as [Hm|]; [|done]. destruct (step_leaf Hm) as (Hrep & -> & _).
      apply Nat.leb_gt. pose proof (rep_n _ _ _ Hrep). lia. }
    apply (landed_more h1 r Xc'); [|done]. clear. set_solver.
Qed.

Lemma step_split :
  (63 <=? n ct)%nat = true -> step_done (node_split fuel h1 pp (length P)).
Proof.
  intros Hs. destruct step_around as (Ht1 & Hp1 & Hq1 & HX1 & Hwf1). pose proof step_grew as Hg.
  pose proof step_rethreads as Hre. apply Nat.leb_le in Hs. destruct Hc1 as (ct' & X0 & Hct' & HXc & Hcap & Hok).
  assert (ct' = ct) as -> by congruence. rewrite HXc in HX1, Hg, Hre.
  destruct (node_split_run d fuel h1 m pp t P c Q lo hi lo' hi' XA X0 XB EA Ec' EB ct)
    as (h2 & X' & EA' & EB' & tl & Hrun & Htree & HlA & HlB & Hg2 & Hre2 & Hsub & Hal & Htl & Hval & Hin & Htake);
    try done; [lia|by apply Hne, Nat.leb_le|].
  pose proof Htree as (tp & ? & Htp & _).
  exists h2, X', (EA' ++ Ec' ++ EB'), tp. split_and!; try done.
  - by eapply grew_trans.
  - by eapply rethreads_trans.
  - by rewrite !levels_app, HlA, HlB, Hl1.
  - intros _. by rewrite !emptyb_app, Hne, andb_false_r by by apply Nat.leb_le.
  - rewrite <- HXc in Hsub. apply (landed_more h2 r Xc'); [done|].
    destruct (Nat.eqb_spec m 0) as [Hm|Hm].
    + destruct (step_leaf Hm) as (Hrep & Hb' & Hrc). pose proof (rep_n _ _ _ Hrep) as HlG.
      destruct (Hleaf Hm) as (_ & _ & HG). rewrite (proj2 (Nat.leb_le _ _)) by lia.
      destruct Hland as (Hin' & Hld & _ & HE). split_and!; [done| | |done].
      * rewrite <- Hld. unfold load. rewrite Hrc, Htl, Hct. simpl. by rewrite Hval.
      * exists tl. rewrite Hrc, <- HG. split; [done|]. by apply Htake.
    + eapply landed_alike; [|done]. eapply alike_sub; [|exact Hal].
      destruct Hland as (Hin' & _ & (tr & Htr & Hrr) & _). intros q ->%list_elem_of_singleton.
      rewrite HXc in Hin'. apply elem_of_cons in Hin' as [Hrc|]; [|done]. exfalso.
      rewrite Hrc in Htr. assert (tr = ct) as -> by congruence.
      pose proof (rep_leaf _ _ _ Hrr) as Hi. by rewrite (node_ok_inner d _ _ _ _ _ _ _ Hm Hok) in Hi.
Qed.

Lemma step_run :
  step_done (if (63 <=? n ct)%nat then node_split fuel h1 pp (length P) else Some h1).
Proof. pose proof step_split. pose proof step_nosplit. destruct (63 <=? n ct)%nat; auto. Qed.
End step.

(** ** The leaf *)

Lemma put_ents_elem k E e : e ∈ put_ents d k E -> e ∈ E ∨ e = (k, btree_val_nil).
Proof.
  unfold put_ents. set (i := place d k E). intros He.
  assert (∀ e, e ∈ drop_nil (drop i E) -> e ∈ E) as Hd.
  { intros e' Hin. apply (sublist_subseteq _ _ (drop_nil_sublist _)) in Hin. by eapply subseteq_drop. }
  assert (∀ e, e ∈ drop_nil (take i E) -> e ∈ E) as Ht.
  { intros e' Hin. apply (sublist_subseteq _ _ (drop_nil_sublist _)) in Hin. by eapply subseteq_take. }
  destruct (home d k E); [by left|].
  destruct (forallb live (take i E)); apply elem_of_app in He as [He|[He|He]%elem_of_cons]; auto.
  - left. by eapply subseteq_take.
  - left. by eapply subseteq_drop.
Qed.

Lemma put_ents_within lo hi k z E :
  within d lo hi E -> ord d k = Some z -> above lo z -> upto hi z ->
  within d lo hi (put_ents d k E).
Proof.
  intros [Hs Hu] Hz Hlo Hhi. split; [by eapply put_ents_sorted|].
  intros e z' [Hin| ->]%put_ents_elem He; [by eapply Hu|]. simpl in He. by simplify_eq.
Qed.

Lemma put_ents_full k E :
  (length E <= 62)%nat -> (63 <=? length (put_ents d k E))%nat = true ->
  emptyb (put_ents d k E) = false.
Proof.
  intros Hl Hf%Nat.leb_le. unfold emptyb. rewrite put_levels. rewrite put_ents_length in Hf.
  destruct (home d k E); [lia|]. destruct E as [|e E]; [simpl in *; lia|].
  destruct (forallb live (e :: E)) eqn:Hall; [|lia]. simpl in Hall.
  apply andb_prop in Hall as [He _]. rewrite levels_cons. by rewrite He.
Qed.

(** Where [k] is put, and what that leaf held before. *)
Definition put_at h k (r : vptr) F : Prop :=
  ∃ t, hget h r.1 = Some t ∧ leaf_rep d t F ∧ (length F <= 62)%nat ∧ r.2 = put_idx d k F.

Lemma leaf_put h c lo hi X E k z ct :
  ptree d h 0 62 c lo hi X E -> heap_wf h -> hget h c = Some ct ->
  ord d k = Some z -> above lo z -> upto hi z ->
  let G := put_ents d k E in
  ∃ ct', leaf_add ct k = Some (ct', put_idx d k E, (63 <=? n ct')%nat) ∧
    leaf_rep d ct' G ∧ ptree d (hset c ct' h) 0 63 c lo hi X G ∧
    grew h X (hset c ct' h) X ∧ X = [c] ∧ put_at h k (c, put_idx d k E) E ∧
    landed (hset c ct' h) (c, put_idx d k E) X G G false ∧ splitp ct' = splitp ct ∧
    rethreads d 0 h X (hset c ct' h) X ∧ next ct' = next ct.
Proof.
  intros (ct0 & X0 & Hct & -> & Hn & Hr & Hw & ->) Hwf Hct' Hz Hlo Hhi G.
  assert (ct0 = ct) as -> by congruence.
  pose proof (rep_n _ _ _ Hr) as Hlen.
  destruct (leaf_add_rep d ct E k Hr) as (ct' & Hadd & Hr' & [Hnx Hsp] & Hus); [lia|].
  pose proof (rep_n _ _ _ Hr') as Hlen'. fold G in Hadd, Hr', Hlen'.
  exists ct'. rewrite Hlen'. split_and!; [done|done| | |done| | |done| |done].
  - exists ct', []. rewrite hget_hset_eq. split_and!; [done..| |].
    + pose proof (rep_max _ _ _ Hr'). lia.
    + split_and!; [done|by eapply put_ents_within|done].
  - constructor; [by eapply heap_wf_hset; eauto|done|apply NoDup_singleton|by left|].
    intros q t Hq Ht. rewrite hget_hset_ne; [done|]. intros ->. apply Hq. left.
  - exists ct. split_and!; [done..|lia|done].
  - destruct (put_ents_lookup d k E) as (e & He & _). split_and!; [left| | |by exists [], []; rewrite app_nil_r].
    + unfold load. cbn [fst snd]. rewrite hget_hset_eq. simpl. fold G in He. rewrite He.
      exact (rep_cell _ _ _ _ _ Hr' He).
    + exists ct'. by rewrite hget_hset_eq.
  - eapply rethreads_leaf; [left|done|by eapply rep_leaf|done..|]. unfold word_node. rewrite Hus.
    intros Hu. apply put_used_bound; [done|lia].
Qed.

(** ** The descent *)

(** What a call for the subtree at [c] does, before a split of [c]. *)
Definition took h m c lo hi X E k (o : option (heap K * vptr * bool)) : Prop :=
  ∃ h1 r ct F X' E' b, o = Some (h1, r, (63 <=? n ct)%nat) ∧
    ptree d h1 m 63 c lo hi X' E' ∧ grew h X h1 X' ∧ rethreads d m h X h1 X' ∧
    (m = 0%nat -> link h1 c = link h c) ∧ levels E' = levels E ∧
    hget h1 c = Some ct ∧ ((63 <=? n ct)%nat = true -> emptyb E' = false) ∧
    r.1 ∈ X ∧ put_at h k r F ∧ landed h1 r X' E' (put_ents d k F) b ∧
    (m = 0%nat -> b = false ∧ r.1 = c ∧ E' = put_ents d k F) ∧
    (m ≠ 0%nat -> b = (63 <=? length (put_ents d k F))%nat).

Lemma took_leaf h c lo hi X E k z ct :
  ptree d h 0 62 c lo hi X E -> heap_wf h -> hget h c = Some ct ->
  ord d k = Some z -> above lo z -> upto hi z ->
  took h 0 c lo hi X E k ('(ct, j, sp) ← leaf_add ct k; Some (hset c ct h, (c, j), sp)).
Proof.
  intros Hc Hwf Hct Hz Hlo Hhi.
  destruct (leaf_put h c lo hi X E k z ct) as (ct' & Hadd & Hr & HT & Hg & -> & Hat & Hland & _ & Hre & Hnx); [done..|].
  brun Hadd. exists (hset c ct' h), (c, put_idx d k E), ct', E, [c], (put_ents d k E), false.
  split_and!; try done.
  - intros _. unfold link. rewrite hget_hset_eq, Hct. exact Hnx.
  - apply put_levels.
  - apply hget_hset_eq.
  - rewrite (rep_n _ _ _ Hr). apply put_ents_full. destruct Hat as (t & _ & _ & ? & _). done.
  - left.
Qed.

(** The parent's share. *)
Lemma took_step fuel h m pp t P c Q lo hi lo' hi' XA Xc XB EA Ec EB k o :
  hget h pp = Some t -> inner_rep d t (pq_keys P Q) (pq_kids P c Q) -> (n t <= 62)%nat ->
  pre d (ptree d h m 62) P lo lo' XA EA -> bnd lo' hi' -> ptree d h m 62 c lo' hi' Xc Ec ->
  post d (ptree d h m 62) Q hi' hi XB EB -> NoDup (pp :: XA ++ Xc ++ XB) -> heap_wf h ->
  (m < fuel)%nat -> took h m c lo' hi' Xc Ec k o ->
  took h (S m) pp lo hi (pp :: XA ++ Xc ++ XB) (EA ++ Ec ++ EB) k
    ('(h, r, sp) ← o;
     h ← if (sp : bool) then node_split fuel h pp (length P) else Some h;
     t ← hget h pp;
     Some (h, r, (NKEY - 1 <=? n t)%nat)).
Proof.
  intros Ht Hr Hn Hp Hb Hc Hq HX Hwf Hfuel
    (h1 & r & ct & F & Xc' & Ec' & b & -> & Hc1 & Hg1 & Hre1 & _ & Hl1 & Hct & Hne & Hrin & Hat & Hland & Hm0 & Hm).
  bstep. assert (step_done h m pp lo hi XA Xc XB EA Ec EB r (put_ents d k F) b
    (if (63 <=? n ct)%nat then node_split fuel h1 pp (length P) else Some h1)) as Hstep.
  { by eapply (step_run fuel h m pp t P c Q lo hi lo' hi' XA Xc XB EA Ec EB). }
  destruct Hstep as (h2 & X' & E' & tp & -> & HT & Hg & Hre & Hl & Htp & Hne2 & Hland2). bstep. brun Htp.
  exists h2, r, tp, F, X', E', (63 <=? length (put_ents d k F))%nat. split_and!; try done.
  - apply elem_of_cons. right. apply elem_of_app. right. apply elem_of_app. by left.
  - destruct (Nat.eqb_spec m 0) as [|Hne0]; [done|]. by rewrite Hm in Hland2.
Qed.

Lemma twig_add_run fuel m h p lo hi X E k z :
  ptree d h (S m) 62 p lo hi X E -> NoDup X -> heap_wf h -> (S m < fuel)%nat ->
  ord d k = Some z -> above lo z -> upto hi z ->
  took h (S m) p lo hi X E k (twig_add fuel h p k).
Proof.
  revert m p lo hi X E. induction fuel as [|fuel IH]; intros m p lo hi X E HT HX Hwf Hf Hz Hlo Hhi; [lia|].
  destruct HT as (t & X0 & Ht & -> & Hn & P0 & c0 & Q0 & Hr & Ha).
  destruct (key_scan_opens d _ t P0 c0 Q0 lo hi X0 E k z Hr Ha Hz Hlo Hhi)
    as (P & c & Q & lo' & hi' & XA & Xc & XB & EA & Ec & EB & Hks & Hcs & Hscan & Hlo' & Hhi' &
        Hp & Hb & Hc & Hq & -> & ->).
  rewrite <- Hks, <- Hcs in Hr. pose proof Hc as (ct & Xc0 & Hct & HXc & Hcn & Hok).
  cbn [twig_add]. brun Ht. brun Hscan. brun (irep_child _ _ _ _ _ _ Hr (pq_kids_at P c Q)). brun Hct.
  eapply took_step; [done..|lia|]. destruct m as [|m].
  - destruct Hok as (Hrep & _). rewrite (rep_leaf _ _ _ Hrep). by eapply took_leaf.
  - rewrite (node_ok_inner d _ (S m) _ _ _ _ _ ltac:(done) Hok). cbn [negb].
    eapply IH; try done; [|lia]. apply NoDup_cons in HX as [_ HX].
    apply NoDup_app in HX as (_ & _ & HX). by apply NoDup_app in HX as (? & _).
Qed.
End put.
