(* ===== verification/BtreeGrown.v ===== *)
(** * Search trees: the operations on trees of any height

    [grown h p X E]: the tree at [p] is in order, its nodes are [X], its
    entries [E]; the root carries the flag that makes the next [btree_put]
    split it.  [btree_put] and stores to the cell it returns, [btree_get] and
    [btree_rem] keep it and act on the finite map of its levels. *)

From Stdlib Require Import ZArith Lia.
From stdpp Require Import prelude list gmap fin_maps.
From stdpp Require Import options.
From S2P Require Import Prelude Decimal Btree BtreeLeaf BtreeUsed BtreeIter BtreeSide BtreeOps.
From S2P Require Import BtreeMap BtreeTree BtreeHide BtreeKids BtreeGrow BtreeThread.
From S2P Require Import BtreeHalves BtreeSplit BtreePut.

Local Open Scope Z_scope.

Section grown.
Context `{BKey K}.
#[local] Abbreviation entry := (K * btree_val)%type.
Implicit Types (E F G : list entry) (t : btree_s K) (k : K) (h : heap K) (p q c : positive).
Implicit Types (lo hi : option Z) (X : list positive).
Implicit Types (P : list (positive * K)) (Q : list (K * positive)).
Variable d : bool.

#[local] Abbreviation subtree :=
  (positive -> option Z -> option Z -> list positive -> list entry -> Prop).

(** ** A leaf in the tree *)

Lemma within_keys lo hi E E' : E'.*1 = E.*1 -> within d lo hi E -> within d lo hi E'.
Proof.
  intros Hk [Hs Hu]. split; [by rewrite Hk|]. intros e z Hin He.
  assert (e.1 ∈ E.*1) as Hin' by (rewrite <- Hk; by apply list_elem_of_fmap_2).
  apply list_elem_of_fmap in Hin' as (e' & Heq & Hin'). rewrite Heq in He. by eapply Hu.
Qed.

(** A leaf of the tree can be exchanged for one with the same keys. *)
Lemma ptree_leaf h m cap p lo hi X E q tq F :
  ptree d h m cap p lo hi X E -> NoDup X -> q ∈ X -> hget h q = Some tq -> leaf_rep d tq F ->
  ∃ A B, E = A ++ F ++ B ∧ ∀ tq' F', leaf_rep d tq' F' -> F'.*1 = F.*1 ->
    ptree d (hset q tq' h) m cap p lo hi X (A ++ F' ++ B).
Proof.
  revert cap p lo hi X E. induction m as [|m IH];
    intros cap p lo hi X E (t & X0 & Ht & -> & Hn & Hok) HX Hin Htq Hr.
  - destruct Hok as (Hr' & Hw & ->). apply list_elem_of_singleton in Hin as ->. simplify_eq.
    assert (F = E) as <- by by eapply leaf_rep_inj. exists [], []. rewrite app_nil_r. split; [done|].
    intros tq' F' Hr2 Hk. rewrite app_nil_r. exists tq', []. rewrite hget_hset_eq. split_and!; try done.
    + rewrite (rep_n _ _ _ Hr2), <- (length_fmap fst), Hk, length_fmap, <- (rep_n _ _ _ Hr). done.
    + split_and!; [done|by eapply within_keys|done].
  - destruct Hok as (P0 & c0 & Q0 & Hrep & Ha). apply elem_of_cons in Hin as [->|Hin].
    { simplify_eq. pose proof (rep_leaf _ _ _ Hr) as Hi. by rewrite (irep_inner _ _ _ _ Hrep) in Hi. }
    destruct (around_find _ _ _ _ _ _ _ _ _ _ Ha Hin)
      as (P & c & Q & lo' & hi' & X1 & X2 & X3 & E1 & E2 & E3 & Hks & Hcs & Hin2 & Hp & Hb & Hc & Hq & -> & ->).
    apply NoDup_cons in HX as [Hpn HX].
    assert (NoDup X2 ∧ ∀ q, q ∈ X2 -> q ∉ X1 ++ X3) as [HX2 Hdis].
    { apply (NoDup_perm _ (X2 ++ X1 ++ X3)) in HX; [|solve_Permutation].
      apply NoDup_app in HX as (? & Hd & _). done. }
    destruct (IH 62%nat c lo' hi' X2 E2 Hc HX2 Hin2 Htq Hr) as (A & B & -> & Hput).
    exists (E1 ++ A), (B ++ E3). rewrite <- !app_assoc. split; [done|]. intros tq' F' Hr' Hk.
    assert (∀ Y, Y ⊆ X1 ++ X3 -> alike Y h (hset q tq' h)) as Hal.
    { intros Y HY. apply alike_hset. intros Hbad. by apply (Hdis q Hin2), HY. }
    exists t, (X1 ++ X2 ++ X3). rewrite hget_hset_ne by (intros ->; done). split_and!; [done..|].
    cbn [kidsT node_ok]. exists P, c, Q. rewrite Hks, Hcs. split; [done|].
    exists lo', hi', X1, X2, X3, E1, (A ++ F' ++ B), E3. rewrite <- !app_assoc. split_and!; try done.
    + eapply (pre_carry _ X1); [|done|exact Hp]. apply (carries_alike d X1 h _ m 62), Hal. clear. set_solver.
    + by apply Hput.
    + eapply (post_carry _ X3); [|done|exact Hq]. apply (carries_alike d X3 h _ m 62), Hal. clear. set_solver.
Qed.

(** ** The invariant *)

Record grown h p X E : Prop := {
  gn_tree : ∃ m, ptree d h m 63 p None None X E;
  gn_nodup : NoDup X;
  gn_wf : heap_wf h;
  gn_split : ∀ t, hget h p = Some t -> splitp t = (63 <=? n t)%nat;
}.

Lemma grown_tree h p X E : grown h p X E -> ∃ m, tree d h m p None None E.
Proof. intros [(m & HT) _ _ _]. exists m. by eapply ptree_tree. Qed.

Lemma grown_sorted h p X E : grown h p X E -> ksorted d None E.*1.
Proof. intros (m & HT)%grown_tree. by destruct (tree_within _ _ _ _ _ _ _ HT). Qed.

Lemma lmap_size b E : ksorted d b E.*1 -> size (lmap d E) = length E.
Proof.
  revert b. induction E as [|e E IH]; intros b; cbn [fmap list_fmap].
  - intros _. apply map_size_empty.
  - intros Hs. inversion Hs as [|b' k z ks He Hb Hs' H1 H2]; subst. cbn [lmap foldr]. rewrite He.
    fold (lmap d E). rewrite map_size_insert_None; [cbn [length]; f_equal; by eapply IH|].
    destruct (lmap d E !! z) as [v|] eqn:Hl; [|done].
    apply (lmap_lookup d (Some z)) in Hl as (e' & Hin & Hz & _); [|done].
    assert (z < z); [|lia]. eapply (ksorted_bound d (Some z) E.*1 e'.1); eauto.
    by apply list_elem_of_fmap_2.
Qed.

Lemma grown_size h p X E : grown h p X E -> size (lmap d (levels E)) = length (levels E).
Proof. intros Hg. eapply lmap_size, levels_sorted, grown_sorted, Hg. Qed.

Lemma alike_upd X h p t t' : hget h p = Some t -> node_like t t' -> alike X h (hset p t' h).
Proof.
  intros Ht Hl q tq _ Htq. destruct (decide (q = p)) as [->|].
  - rewrite hget_hset_eq. exists t'. simplify_eq. done.
  - rewrite hget_hset_ne by done. by exists tq.
Qed.

Lemma grew_hset h X p t t' :
  heap_wf h -> NoDup X -> p ∈ X -> hget h p = Some t -> grew h X (hset p t' h) X.
Proof.
  intros Hwf HX Hp Ht. constructor; [by eapply heap_wf_hset; eauto|done|done|by left|].
  intros q tq Hq Htq. rewrite hget_hset_ne; [done|]. by intros ->.
Qed.

(** A fresh tree. *)
Lemma grown_make h h' p :
  heap_wf h -> make_btree h d = (h', p) -> grown h' p [p] [].
Proof.
  intros Hwf [= <- <-].
  assert (hget (mk_heap (Pos.succ (hnext h)) (<[hnext h := node0 d]> (hmem h))) (hnext h) =
            Some (node0 d)) as Hg by apply lookup_insert_eq.
  constructor.
  - exists 0%nat, (node0 d), []. split_and!; [done|done|simpl; lia|]. split_and!; [|split|done].
    + constructor; try done; [simpl; lia|]. exists (replicate 64 ual_zero). by split.
    + constructor.
    + intros e z Hin. by apply not_elem_of_nil in Hin.
  - apply NoDup_singleton.
  - intros q t. unfold hget. cbn [hmem hnext]. destruct (decide (q = hnext h)) as [->|]; [lia|].
    rewrite lookup_insert_ne by done. intros Hq%Hwf. lia.
  - intros t Ht. rewrite Hg in Ht. by simplify_eq.
Qed.

(** ** [btree_put] *)

(** When a write to the cell [r] returned for [k] is lost: the leaf [k] went to
    was split, and [k] is in the upper half. *)
Definition split_lost h p k (r : vptr) : Prop :=
  r.1 ≠ p ∧ ∃ F, put_at d h k r F ∧ length (put_ents d k F) = 63%nat ∧ (32 <= r.2)%nat.

(** [btree_put] once the root has room. *)
Definition put_descend h p t k : option (heap K * vptr * bool) :=
  if negb (innerp t) then
    '(t, i, sp) ← leaf_add t k; Some (hset p t h, (p, i), sp)
  else twig_add (height_fuel h) h p k.

Definition put_ready h p k : option (heap K * vptr) :=
  t ← hget h p;
  '(h, vp, sp) ← put_descend h p t k;
  h ← hupd p (set_splitp sp) h;
  Some (h, vp).

Lemma ready_took h m p X E k z :
  ptree d h m 62 p None None X E -> NoDup X -> heap_wf h -> ord d k = Some z ->
  ∃ t, hget h p = Some t ∧ took d h m p None None X E k (put_descend h p t k).
Proof.
  unfold put_descend. intros HT HX Hwf Hz. pose proof HT as (t & X0 & Ht & _ & _ & Hok). exists t. split; [done|].
  destruct m as [|m].
  - destruct Hok as (Hr & _). rewrite (rep_leaf _ _ _ Hr). by eapply took_leaf.
  - rewrite (node_ok_inner _ _ (S m) _ _ _ _ _ ltac:(done) Hok). cbn [negb].
    eapply twig_add_run; try done. pose proof (tree_height _ _ _ _ _ _ _ (ptree_tree _ _ _ _ _ _ _ _ _ HT)).
    unfold height_fuel. lia.
Qed.

Lemma put_ready_run h m p X E k z :
  ptree d h m 62 p None None X E -> NoDup X -> heap_wf h -> ord d k = Some z ->
  ∃ h' r X' E' F b, put_ready h p k = Some (h', r) ∧ grown h' p X' E' ∧ grew h X h' X' ∧
    rethreaded d h p X h' X' ∧ levels E' = levels E ∧ r.1 ∈ X ∧ put_at d h k r F ∧ landed d h' r X' E' (put_ents d k F) b ∧
    (m = 0%nat -> b = false ∧ r.1 = p) ∧
    (m ≠ 0%nat -> b = (63 <=? length (put_ents d k F))%nat ∧ r.1 ≠ p).
Proof.
  intros HT HX Hwf Hz.
  destruct (ready_took h m p X E k z HT HX Hwf Hz)
    as (t & Ht & h1 & r & tp & F & X' & E' & b & Hrun & HT1 & Hg & Hre & Hlk & Hl & Htp & _ & Hrin & Hat & Hland & H0 & Hm).
  unfold put_ready. brun Ht. brun Hrun. unfold hupd. brun Htp.
  assert (∀ Y, alike Y h1 (hset p (set_splitp (63 <=? n tp)%nat tp) h1)) as Hal.
  { intros Y. by eapply alike_upd; [|apply node_like_splitp]. }
  pose proof (ptree_root _ _ _ _ _ _ _ _ _ HT1) as Hp1.
  exists (hset p (set_splitp (63 <=? n tp)%nat tp) h1), r, X', E', F, b. split_and!; try done.
  - constructor.
    + exists m. by eapply ptree_alike.
    + by eapply gr_nodup.
    + eapply heap_wf_hset; [by eapply gr_wf|]. by eapply (gr_wf _ _ _ _ Hg).
    + intros t' Ht'. rewrite hget_hset_eq in Ht'. by simplify_eq.
  - eapply grew_trans; [done|exact Hg|]. eapply grew_hset; try done; [by eapply gr_wf|by eapply gr_nodup].
  - apply (rethreads_root d m); [done| |].
    + eapply rethreads_trans; [done|exact Hg|done|]. apply rethreads_up.
      by eapply rethreads_mark; [|apply node_like_splitp|..].
    + rewrite link_set. cbn [next set_splitp]. unfold leafb at 1. rewrite hget_hset_eq. cbn [innerp set_splitp].
      intros Hi. destruct HT as (t' & X0 & Ht' & _ & _ & Hok). destruct HT1 as (t1 & X1 & Ht1 & _ & _ & Hok1).
      simplify_eq. destruct (decide (m = 0%nat)) as [Hm0|Hm0].
      * subst m. rewrite <- Hlk by done. destruct Hok as (Hr0 & _).
        unfold leafb, link. rewrite Ht', Ht1. by rewrite (rep_leaf _ _ _ Hr0).
      * by rewrite (node_ok_inner _ _ _ _ _ _ _ _ Hm0 Hok1) in Hi.
  - by eapply landed_alike.
  - intros Hm0. by destruct (H0 Hm0) as (-> & -> & _).
  - intros Hm0. split; [by apply Hm|]. intros Hrp. destruct Hat as (t0 & Ht0 & Hr0 & _).
    destruct HT as (t' & X0 & Ht' & _ & _ & Hok). rewrite Hrp in Ht0. simplify_eq.
    pose proof (node_ok_inner _ _ _ _ _ _ _ _ Hm0 Hok) as Hi. by rewrite (rep_leaf _ _ _ Hr0) in Hi.
Qed.

Lemma btree_put_ready h p t k h1 :
  hget h p = Some t -> (if splitp t then root_split h p else Some h) = Some h1 ->
  btree_put h p k = put_ready h1 p k.
Proof. intros Ht Hs. unfold btree_put. brun Ht. by brun Hs. Qed.

Lemma split_lost_at h h1 p k r F :
  hget h1 r.1 = hget h r.1 -> r.1 ≠ p -> put_at d h1 k r F ->
  ((63 <=? length (put_ents d k F))%nat && (32 <=? r.2)%nat = true <-> split_lost h p k r).
Proof.
  intros Hsame Hne (t & Ht & Hr & Hl & Hi). rewrite Hsame in Ht.
  pose proof (put_ents_length_le d k F) as Hle. rewrite andb_true_iff, !Nat.leb_le. split.
  - intros [H1 H2]. split; [done|]. exists F. split_and!; [by exists t|lia|done].
  - intros (_ & F' & (t' & Ht' & Hr' & _) & H1 & H2). simplify_eq.
    assert (F' = F) as -> by by eapply leaf_rep_inj. lia.
Qed.

Lemma btree_put_run h p X E k z :
  grown h p X E -> ord d k = Some z ->
  ∃ h' r X' E' G b, btree_put h p k = Some (h', r) ∧ grown h' p X' E' ∧ grew h X h' X' ∧
    rethreaded d h p X h' X' ∧ levels E' = levels E ∧ landed d h' r X' E' G b ∧
    (∃ F, G = put_ents d k F ∧ r.2 = put_idx d k F ∧ (length F <= 62)%nat) ∧
    (b = true -> (63 <= length G)%nat) ∧
    (b && (32 <=? r.2)%nat = true <-> split_lost h p k r) ∧ (split_lost h p k r -> r.1 ∈ X).
Proof.
  intros [(m & HT) HX Hwf Hsp] Hz. pose proof HT as (t & X0 & Ht & HX0 & Hn & Hok).
  specialize (Hsp t Ht). destruct (63 <=? n t)%nat eqn:Hful.
  - apply Nat.leb_le in Hful.
    destruct (root_split_ptree d h m p None None X E t HT Ht) as (h1 & X1 & Hrun & HT1 & Hg1 & Hth1 & Hold & Hnew);
      [lia|done..|].
    destruct (put_ready_run h1 (S m) p X1 E k z HT1)
      as (h' & r & X' & E' & F & b & Hput & Hgn & Hg2 & Hth2 & Hl & Hrin & Hat & Hland & _ & Hm);
      [by eapply gr_nodup|by eapply gr_wf|done|].
    destruct (Hm ltac:(done)) as [-> Hrp]. pose proof Hat as (tr & Htr & Hrr & HlF & Hj).
    exists h', r, X', E', (put_ents d k F), (63 <=? length (put_ents d k F))%nat.
    rewrite (btree_put_ready h p t k h1) by (by rewrite ?Hsp). split_and!; try done.
    + by eapply grew_trans.
    + by eapply rethreaded_trans.
    + by exists F.
    + by intros Hb%Nat.leb_le.
    + destruct (decide (r.1 ∈ X)) as [Hin|Hnin].
      * eapply split_lost_at; [|done|exact Hat]. by apply Hold.
      * pose proof (Hnew _ _ Hrin Hnin Htr) as H32. rewrite (rep_n _ _ _ Hrr) in H32.
        pose proof (put_ents_length_le d k F). rewrite (proj2 (Nat.leb_gt _ _)) by lia. simpl.
        split; [done|]. intros (_ & F' & (t' & Ht' & _) & _).
        destruct (gr_new _ _ _ _ Hg1 _ Hrin) as [|Hge]; [done|]. specialize (Hwf _ _ Ht'). lia.
    + intros (_ & F' & (t' & Ht' & _) & _).
      destruct (gr_new _ _ _ _ Hg1 _ Hrin) as [|Hge]; [done|]. specialize (Hwf _ _ Ht'). lia.
  - apply Nat.leb_gt in Hful.
    destruct (put_ready_run h m p X E k z)
      as (h' & r & X' & E' & F & b & Hput & Hgn & Hg2 & Hth2 & Hl & Hrin & Hat & Hland & H0 & Hm); [|done..|].
    { exists t, X0. split_and!; try done. lia. }
    pose proof Hat as (tr & Htr & Hrr & HlF & Hj).
    exists h', r, X', E', (put_ents d k F), b.
    rewrite (btree_put_ready h p t k h) by (by rewrite ?Hsp). split_and!; try done.
    + by exists F.
    + intros Hb. destruct (decide (m = 0%nat)) as [Hm0|Hm0].
      * destruct (H0 Hm0) as [-> _]. done.
      * destruct (Hm Hm0) as [-> _]. by apply Nat.leb_le.
    + destruct (decide (m = 0%nat)) as [Hm0|Hm0].
      * destruct (H0 Hm0) as [-> Hrp]. simpl. split; [done|]. by intros [? _].
      * destruct (Hm Hm0) as [-> Hrp]. by eapply split_lost_at.
Qed.

(** *** Storing to the cell *)

Lemma put_cell b k z F :
  ksorted d b (put_ents d k F).*1 -> ord d k = Some z ->
  ∃ e, put_ents d k F !! put_idx d k F = Some e ∧ ord d e.1 = Some z.
Proof.
  intros Hs Hz. destruct (put_ents_lookup d k F) as (e & He & Hh). exists e. split; [done|].
  destruct (home d k F); [|by subst]. destruct Hh as [_ Hk]. by eapply keq_ord.
Qed.

(** A store beyond the entries of a leaf is not seen. *)
Lemma leaf_rep_junk t F x u :
  leaf_rep d t F -> (length F <= x < 64)%nat ->
  ∃ vs, store x u (val t) = Some vs ∧ leaf_rep d (set_val vs t) F.
Proof.
  intros Hr Hx. destruct (rep_val _ _ _ Hr) as (junk & Hv & Hj). unfold NVAL in Hj.
  rewrite Hv. rewrite store_lt by len. eexists. split; [done|].
  destruct Hr as [? ? ? ? ? _]. constructor; try done. node.
  exists (<[(x - length F)%nat := u]> junk). split; [|by rewrite length_insert].
  rewrite insert_app_r_alt by len. by rewrite !length_fmap.
Qed.

Lemma threaded_poke h p X L q t F vs F' :
  q ∈ X -> hget h q = Some t -> leaf_rep d t F -> leaf_rep d (set_val vs t) F' ->
  threaded d h p X L -> threaded d (hset q (set_val vs t) h) p X L.
Proof.
  intros Hq Ht Hr Hr' [HT Hp]. split.
  - by eapply threads_leaf_set; [done|done|by eapply rep_leaf|..].
  - unfold leafb, link in *. destruct (decide (p = q)) as [->|Hne].
    + rewrite hget_hset_eq. by rewrite Ht in Hp.
    + by rewrite hget_hset_ne by done.
Qed.

(** A write through a pointer into a leaf of the tree. *)
Lemma grown_poke h p X E r t F v vs F' :
  grown h p X E -> r.1 ∈ X -> hget h r.1 = Some t -> leaf_rep d t F ->
  store r.2 (Ual_v v) (val t) = Some vs -> leaf_rep d (set_val vs t) F' -> F'.*1 = F.*1 ->
  ∃ h' A B, poke r v h = Some h' ∧ E = A ++ F ++ B ∧ grown h' p X (A ++ F' ++ B) ∧ grew h X h' X ∧
    rethreaded d h p X h' X.
Proof.
  intros [(m & HT) HX Hwf Hsp] Hin Ht Hr Hs Hr' Hk.
  destruct (ptree_leaf _ _ _ _ _ _ _ _ _ _ _ HT HX Hin Ht Hr) as (A & B & HE & Hput).
  exists (hset r.1 (set_val vs t) h), A, B. unfold poke. brun Ht. brun Hs. split_and!; [done..| | |].
  - constructor; [exists m; by apply Hput|done|by eapply heap_wf_hset; eauto|].
    intros t' Ht'. destruct (decide (r.1 = p)) as [Hp|Hne].
    + rewrite Hp, hget_hset_eq in Ht'. simplify_eq. node. by apply Hsp.
    + rewrite hget_hset_ne in Ht' by done. by apply Hsp.
  - by eapply grew_hset.
  - intros L HL. exists L. split; [by eapply threaded_poke|apply from_same].
Qed.

(** The entry of a leaf among all entries. *)
Lemma lookup_within (A F B : list entry) i : (i < length F)%nat -> (A ++ F ++ B) !! (length A + i)%nat = F !! i.
Proof. intros Hi. rewrite lookup_app_r by lia. rewrite Nat.add_sub'. by apply lookup_app_l. Qed.

Lemma alter_within v (A F B : list entry) i :
  (i < length F)%nat ->
  alter (set_ent v) (length A + i)%nat (A ++ F ++ B) = A ++ alter (set_ent v) i F ++ B.
Proof. intros Hi. rewrite alter_app_r, alter_app_l; done. Qed.

Lemma grown_store h p X E r t F e z v :
  grown h p X E -> r.1 ∈ X -> hget h r.1 = Some t -> leaf_rep d t F ->
  F !! r.2 = Some e -> ord d e.1 = Some z ->
  ∃ h' E', poke r v h = Some h' ∧ grown h' p X E' ∧ grew h X h' X ∧
    rethreaded d h p X h' X ∧
    lmap d (levels E') = partial_alter (λ _, val_opt v) z (lmap d (levels E)).
Proof.
  intros Hgn Hin Ht Hr He Hz. destruct (leaf_rep_poke d t F r.2 v e Hr He) as (vs & Hs & Hr').
  destruct (grown_poke h p X E r t F v vs _ Hgn Hin Ht Hr Hs Hr' (alter_keys _ _ _))
    as (h' & A & B & Hpk & HE & Hgn' & Hg & Hth). exists h', (A ++ alter (set_ent v) r.2 F ++ B).
  split_and!; try done. pose proof (lookup_lt_Some _ _ _ He). rewrite <- alter_within, <- HE by done.
  eapply alter_map; [by eapply grown_sorted| |done]. by rewrite HE, lookup_within.
Qed.


(** [w = *btree_put(t, k); ... *btree_put(t, k) = v]. *)
Lemma btree_put_grown h p X E k z :
  grown h p X E -> ord d k = Some z ->
  ∃ h1 r w X' E' (lost : bool), btree_put h p k = Some (h1, r) ∧ load h1 r = Some w ∧
    lmap d (levels E) !! z = val_opt w ∧
    grown h1 p X' E' ∧ grew h X h1 X' ∧ rethreaded d h p X h1 X' ∧ levels E' = levels E ∧
    (lost = true <-> split_lost h p k r) ∧ (lost = true -> r.1 ∈ X ∧ lmap d (levels E) !! z = None) ∧
    ∀ v, ∃ h2 E2, poke r v h1 = Some h2 ∧ grown h2 p X' E2 ∧ grew h X h2 X' ∧
      rethreaded d h p X h2 X' ∧
      lmap d (levels E2) =
        if lost then lmap d (levels E) else partial_alter (λ _, val_opt v) z (lmap d (levels E)).
Proof.
  intros Hgn Hz. destruct (btree_put_run h p X E k z Hgn Hz)
    as (h1 & r & X' & E' & G & b & Hput & Hgn1 & Hg & Hth & Hl & Hland & (F & HG & Hi & HlF) & Hbig & Hlost & Hlin).
  destruct Hland as (Hin & Hload & (t & Ht & Hr) & A & B & HE).
  pose proof (grown_sorted _ _ _ _ Hgn1) as Hs.
  assert (ksorted d None G.*1) as HsG.
  { rewrite HE, !fmap_app in Hs. apply ksorted_app_inv in Hs as [_ Hs].
    by apply ksorted_app_inv in Hs as [? _]. }
  rewrite HG in HsG. destruct (put_cell None k z F HsG Hz) as (e & He & Hez).
  rewrite <- HG, <- Hi in He. rewrite He in Hload. cbn in Hload.
  pose proof (lookup_lt_Some _ _ _ He) as Hlt.
  pose proof (put_ents_length_le d k F) as Hle. rewrite <- HG in Hle.
  exists h1, r, e.2, X', E', (b && (32 <=? r.2)%nat). split_and!; try done.
  - rewrite <- Hl. eapply (entry_map d None E' (length A + r.2)); [done| |done]. by rewrite HE, lookup_within.
  - intros Hb. split; [tauto|]. apply andb_prop in Hb as [Hb _]. specialize (Hbig Hb).
    assert (home d k F = false) as Hh.
    { rewrite HG, put_ents_length in Hbig. destruct (home d k F); [lia|done]. }
    destruct (put_ents_lookup d k F) as (e' & He' & Hn). rewrite Hh in Hn.
    rewrite <- HG, <- Hi in He'. simplify_eq.
    rewrite <- Hl. rewrite (entry_map d None _ (length A + r.2) (k, btree_val_nil) z Hs); [done| |done].
    by rewrite lookup_within.
  - intros v. destruct (b && (32 <=? r.2)%nat) eqn:Hb.
    + apply andb_prop in Hb as [-> H32%Nat.leb_le].
      destruct (leaf_rep_junk t (take 32 G) r.2 (Ual_v v) Hr) as (vs & Hst & Hr'); [rewrite length_take; lia|].
      destruct (grown_poke h1 p X' E' r t _ v vs _ Hgn1 Hin Ht Hr Hst Hr' eq_refl)
        as (h2 & A' & B' & Hpk & HE' & Hgn2 & Hg2 & Hth2).
      exists h2, E'. rewrite <- HE' in Hgn2. split_and!; [done|done| |by eapply rethreaded_trans|by rewrite Hl].
      by eapply grew_trans; [apply (gn_wf _ _ _ _ Hgn)|..].
    + destruct (grown_store h1 p X' E' r t (if b then take 32 G else G) e z v Hgn1 Hin Ht Hr)
        as (h2 & E2 & Hpk & Hgn2 & Hg2 & Hth2 & Hm); [|done|].
      { destruct b; [|done]. cbn [andb] in Hb. apply Nat.leb_gt in Hb. by rewrite lookup_take_lt by lia. }
      exists h2, E2. split_and!; [done..| |by eapply rethreaded_trans|by rewrite Hm, Hl].
      by eapply grew_trans; [apply (gn_wf _ _ _ _ Hgn)|..].
Qed.

(** Writes are lost only if there are 62 levels. *)
Lemma split_lost_full h p X E k r :
  grown h p X E -> split_lost h p k r -> r.1 ∈ X -> (62 <= length (levels E))%nat.
Proof.
  intros [(m & HT) HX Hwf Hsp] (_ & F & (t & Ht & Hr & HlF & _) & H63 & _) Hin.
  destruct (ptree_leaf _ _ _ _ _ _ _ _ _ _ _ HT HX Hin Ht Hr) as (A & B & -> & _).
  rewrite put_ents_length in H63. destruct (home d k F); [lia|].
  destruct (forallb live F) eqn:Hall; [|lia].
  assert (levels F = F) as HF.
  { unfold levels. clear -Hall. induction F as [|e F IH]; [done|]. simpl in Hall.
    apply andb_prop in Hall as [He Hall]. rewrite filter_cons, He. simpl. f_equal. by apply IH. }
  rewrite !levels_app, !length_app, HF. lia.
Qed.

(** ** [btree_get] and [btree_rem] *)

(** The leaf a lookup ends in is in the tree. *)
Lemma twig_get_ptree fuel h m cap p lo hi X E k z r :
  ptree d h (S m) cap p lo hi X E -> ord d k = Some z -> above lo z -> upto hi z ->
  twig_get fuel h p k = Some (Some r) ->
  r.1 ∈ X ∧ ∃ t F e, hget h r.1 = Some t ∧ leaf_rep d t F ∧ F !! r.2 = Some e ∧ ord d e.1 = Some z.
Proof.
  revert m cap p lo hi X E. induction fuel as [|fuel IH]; intros m cap p lo hi X E HT Hz Hlo Hhi; [done|].
  destruct HT as (t & X0 & Ht & -> & Hn & P0 & c0 & Q0 & Hr & Ha).
  destruct (key_scan_opens d _ t P0 c0 Q0 lo hi X0 E k z Hr Ha Hz Hlo Hhi)
    as (P & c & Q & lo' & hi' & XA & Xc & XB & EA & Ec & EB & Hks & Hcs & Hscan & Hlo' & Hhi' &
        Hp & Hb & Hc & Hq & -> & ->).
  rewrite <- Hks, <- Hcs in Hr. pose proof Hc as (ct & Xc0 & Hct & HXc & Hcn & Hok).
  cbn [twig_get]. brun Ht. brun Hscan. brun (irep_child _ _ _ _ _ _ Hr (pq_kids_at P c Q)). brun Hct.
  assert (∀ q, q ∈ Xc -> q ∈ p :: XA ++ Xc ++ XB) as Hsub by (clear; set_solver).
  destruct m as [|m].
  - destruct Hok as (Hrep & [Hs _] & _). rewrite (rep_leaf _ _ _ Hrep). cbn [negb].
    rewrite (leaf_get_rep d ct Ec k Hrep). bstep. destruct (home d k Ec) eqn:Hh; [|done].
    intros [= <-]. split; [apply Hsub; rewrite HXc; left|].
    destruct (home_cell _ _ _ _ _ Hs Hz Hh) as (e & He & Hk). by exists ct, Ec, e.
  - rewrite (node_ok_inner _ _ (S m) _ _ _ _ _ ltac:(done) Hok). cbn [negb]. intros Hrun.
    destruct (IH m 62%nat c lo' hi' Xc Ec Hc Hz Hlo' Hhi' Hrun) as (Hin & Hrest). auto.
Qed.

Lemma btree_get_cell h p X E k z r :
  grown h p X E -> ord d k = Some z -> btree_get h p k = Some (Some r) ->
  r.1 ∈ X ∧ ∃ t F e, hget h r.1 = Some t ∧ leaf_rep d t F ∧ F !! r.2 = Some e ∧ ord d e.1 = Some z.
Proof.
  intros [(m & HT) _ _ _] Hz. unfold btree_get. pose proof HT as (t & X0 & Ht & -> & _ & Hok). brun Ht.
  destruct m as [|m].
  - destruct Hok as (Hrep & [Hs _] & _). rewrite (rep_leaf _ _ _ Hrep). cbn [negb].
    rewrite (leaf_get_rep d t E k Hrep). bstep. destruct (home d k E) eqn:Hh; [|done].
    intros [= <-]. split; [left|].
    destruct (home_cell _ _ _ _ _ Hs Hz Hh) as (e & He & Hk). by exists t, E, e.
  - rewrite (node_ok_inner _ _ (S m) _ _ _ _ _ ltac:(done) Hok). cbn [negb].
    by apply (twig_get_ptree _ _ _ _ _ _ _ _ _ _ _ _ HT).
Qed.

Lemma btree_rem_grown h p X E k z :
  grown h p X E -> ord d k = Some z ->
  ∃ h' w E', btree_rem h p k = Some (h', w) ∧ grown h' p X E' ∧ grew h X h' X ∧
    rethreaded d h p X h' X ∧
    lmap d (levels E) !! z = val_opt w ∧ lmap d (levels E') = delete z (lmap d (levels E)).
Proof.
  intros Hgn Hz. destruct (grown_tree _ _ _ _ Hgn) as (m & HT).
  destruct (btree_get_tree d h m p E k z HT Hz) as ([r|] & Hget & Hfd); unfold btree_rem; brun Hget.
  - destruct Hfd as (w & Hw & Hm). brun Hw.
    destruct (btree_get_cell h p X E k z r Hgn Hz Hget) as (Hin & t & F & e & Ht & Hr & He & Hez).
    destruct (grown_store h p X E r t F e z btree_val_nil Hgn Hin Ht Hr He Hez)
      as (h' & E' & Hpk & Hgn' & Hg & Hth & Hm'). brun Hpk. by exists h', w, E'.
  - exists h, btree_val_nil, E. split_and!; try done.
    + destruct Hgn. constructor; try done. by left.
    + apply rethreaded_same.
    + symmetry. by apply delete_id.
Qed.

(** ** [free_btree] *)

(** The nodes [X] are gone, the others are as they were. *)
Definition freed X h h' : Prop :=
  hnext h' = hnext h ∧ ∀ q, hget h' q = if decide (q ∈ X) then None else hget h q.

Lemma freed_alike X Y h h' : freed X h h' -> (∀ q, q ∈ Y -> q ∉ X) -> alike Y h h'.
Proof. intros [_ Hf] HY q t Hq Ht. exists t. rewrite Hf, decide_False by by apply HY. done. Qed.

Lemma freed_app X1 X2 h1 h2 h3 : freed X1 h1 h2 -> freed X2 h2 h3 -> freed (X1 ++ X2) h1 h3.
Proof.
  intros [Hn1 H1] [Hn2 H2]. split; [congruence|]. intros q. rewrite H2, H1.
  destruct (decide (q ∈ X1 ++ X2)) as [Hin|Hnin]; rewrite elem_of_app in *;
    repeat case_decide; try done; tauto.
Qed.

Lemma free_kids fuel h t m c Q lo b hi X2 X3 E2 E3 i :
  (∀ h c lo hi X E, ptree d h m 62 c lo hi X E -> NoDup X ->
     ∃ h', free_btree fuel h c = Some h' ∧ freed X h h') ->
  ptree d h m 62 c lo b X2 E2 -> post d (ptree d h m 62) Q b hi X3 E3 -> NoDup (X2 ++ X3) ->
  (∀ j x, (c :: Q.*2) !! j = Some x -> child t (i + j) = Some x) ->
  ∃ h', foldl (fun oh i => h ← oh; c ← child t i; free_btree fuel h c) (Some h)
          (seq i (S (length Q))) = Some h' ∧ freed (X2 ++ X3) h h'.
Proof.
  intros Hfree. revert h c lo b X2 X3 E2 E3 i.
  induction Q as [|[k c'] Q IH]; intros h c lo b X2 X3 E2 E3 i Hc Hq Hd Hch;
    cbn [length seq foldl]; bstep;
    pose proof (Hch 0%nat c eq_refl) as Hc0; rewrite Nat.add_0_r in Hc0; brun Hc0;
    pose proof Hd as (Hd2 & Hdis & Hd3)%NoDup_app;
    destruct (Hfree h c lo b X2 E2 Hc Hd2) as (h1 & Hrun & Hf1); rewrite Hrun.
  - destruct Hq as (_ & -> & _). rewrite app_nil_r. by exists h1.
  - destruct Hq as (z & b' & Y1 & Y2 & F1 & F2 & -> & Hz & Hb & Hc' & Hq & -> & ->).
    assert (∀ Y, Y ⊆ Y1 ++ Y2 -> alike Y h h1) as Hal.
    { intros Y HY. eapply freed_alike; [done|]. intros q Hin Hin2. by apply (Hdis q Hin2), HY. }
    destruct (IH h1 c' (Some z) b' Y1 Y2 F1 F2 (S i)) as (h2 & Hrun2 & Hf2); [| |done| |].
    + eapply ptree_alike; [|exact Hc']. apply Hal. clear. set_solver.
    + eapply (post_carry _ Y2); [|done|exact Hq]. apply (carries_alike d Y2 h _ m 62), Hal.
      clear. set_solver.
    + intros j x Hx. replace (S i + j)%nat with (i + S j)%nat by lia. by apply Hch.
    + exists h2. split; [exact Hrun2|]. by eapply freed_app.
Qed.

Lemma free_ptree fuel h m cap p lo hi X E :
  ptree d h m cap p lo hi X E -> NoDup X -> (m < fuel)%nat ->
  ∃ h', free_btree fuel h p = Some h' ∧ freed X h h'.
Proof.
  revert h m cap p lo hi X E. induction fuel as [|fuel IH];
    intros h m cap p lo hi X E (t & X0 & Ht & -> & Hn & Hok) HX Hf; [lia|].
  cbn [free_btree]. brun Ht. apply NoDup_cons in HX as [Hp HX].
  assert (∀ h1, freed X0 h h1 -> freed (p :: X0) h (mk_heap (hnext h1) (delete p (hmem h1)))) as Hdel.
  { intros h1 [Hnx Hf1]. split; [done|]. intros q. unfold hget. cbn [hmem].
    destruct (decide (q = p)) as [->|Hne].
    - rewrite lookup_delete_eq, decide_True by left. done.
    - rewrite lookup_delete_ne by done. specialize (Hf1 q). unfold hget in Hf1. rewrite Hf1.
      destruct (decide (q ∈ X0)) as [Hin|Hin]; [by rewrite decide_True by by right|].
      rewrite decide_False; [done|]. by intros [|]%elem_of_cons. }
  destruct m as [|m].
  - destruct Hok as (Hr & _ & ->). rewrite (rep_leaf _ _ _ Hr). bstep. eexists. split; [done|].
    apply Hdel. split; [done|]. intros q. by rewrite decide_False by apply not_elem_of_nil.
  - destruct Hok as (P0 & c0 & Q0 & Hr & Ha). rewrite (irep_inner _ _ _ _ Hr).
    destruct (around_at d _ P0 c0 Q0 lo hi X0 E 0 Ha) as (P & c & Q & Ha' & Hl & Hks & Hcs); [lia|].
    destruct P; [|done]. rewrite <- Hks, <- Hcs in Hr.
    destruct Ha' as (lo' & hi' & X1 & X2 & X3 & E1 & E2 & E3 & (-> & -> & ->) & Hb & Hc & Hq & -> & ->).
    destruct (free_kids fuel h t m c Q lo hi' hi X2 X3 E2 E3 0) as (h1 & Hrun & Hf1); try done.
    + intros h2 c2 l r X E HT HX2. eapply IH; [done..|lia].
    + intros j x Hx. by eapply irep_child.
    + rewrite (irep_n _ _ _ _ Hr), length_pq_keys. cbn [length Nat.add]. brun Hrun. eauto.
Qed.
End grown.
