(* ===== verification/BtreeLively.v ===== *)
(** * Iterating over trees of any height

    [lively h p X E L]: the tree at [p] is in order, has the nodes [X] and the
    entries [E], and its leaves are on the thread [L].  Following the links from its
    leftmost leaf then meets some of its leaves, each once and in order, and
    strays without levels: what iterators see is a sublist of the levels. *)

From Stdlib Require Import ZArith Lia.
From stdpp Require Import prelude list gmap fin_maps.
From stdpp Require Import options.
From S2P Require Import Prelude Decimal Btree BtreeLeaf BtreeUsed BtreeIter BtreeSide BtreeCursor.
From S2P Require Import BtreeOps BtreeMap BtreeTree BtreeHide BtreeKids BtreeGrow BtreeThread.
From S2P Require Import BtreeHalves BtreeSplit BtreePut BtreeGrown.

Local Open Scope Z_scope.

(** ** Sublists *)

Lemma sublist_restrict {A} (S T L : list A) :
  NoDup L -> S `sublist_of` L -> T `sublist_of` L -> T ⊆ S -> T `sublist_of` S.
Proof.
  intros Hd HS. revert T. induction HS as [|x S L HS IH|x S L HS IH]; intros T HT Hsub.
  - by apply sublist_nil_r in HT as ->.
  - apply NoDup_cons in Hd as [Hx Hd]. apply sublist_cons_r in HT as [HT|(T' & -> & HT)].
    + apply sublist_cons, IH; [done..|]. intros y Hy.
      specialize (Hsub y Hy). apply elem_of_cons in Hsub as [->|]; [|done].
      destruct Hx. by apply (sublist_subseteq _ _ HT).
    + apply sublist_skip, IH; [done..|]. intros y Hy.
      assert (y ∈ x :: S) as [->|]%elem_of_cons by (apply Hsub; by right); [|done].
      destruct Hx. by apply (sublist_subseteq _ _ HT).
  - apply NoDup_cons in Hd as [Hx Hd]. apply sublist_cons_r in HT as [HT|(T' & -> & HT)]; [by apply IH|].
    destruct Hx. apply (sublist_subseteq _ _ HS). apply Hsub. left.
Qed.

Lemma sublist_bind {A B} (f : A -> list B) (S T : list A) :
  T `sublist_of` S -> (T ≫= f) `sublist_of` (S ≫= f).
Proof.
  induction 1 as [|x T S HS IH|x T S HS IH]; cbn; [done|by apply sublist_app|].
  by apply sublist_inserts_l.
Qed.

Lemma bind_filter {A B} (P : A -> Prop) `{!∀ x, Decision (P x)} (f : A -> list B) (S : list A) :
  (∀ x, x ∈ S -> ¬ P x -> f x = []) -> filter P S ≫= f = S ≫= f.
Proof.
  induction S as [|x S IH]; intros Hf; [done|]. rewrite filter_cons. destruct (decide (P x)) as [Hx|Hx]; cbn.
  - f_equal. apply IH. intros y Hy. apply Hf. by right.
  - rewrite (Hf x) by (done || left). apply IH. intros y Hy. apply Hf. by right.
Qed.

Lemma bind_ext {A B} (f g : A -> list B) (S : list A) : (∀ x, x ∈ S -> f x = g x) -> S ≫= f = S ≫= g.
Proof.
  induction S as [|x S IH]; intros Hf; cbn; [done|]. rewrite (Hf x) by left. f_equal. apply IH.
  intros y Hy. apply Hf. by right.
Qed.

Section lively.
Context `{BKey K}.
#[local] Abbreviation entry := (K * btree_val)%type.
Implicit Types (E F : list entry) (t : btree_s K) (h : heap K) (p q c : positive).
Implicit Types (lo hi : option Z) (X Y L : list positive) (V : list entry).
Implicit Types (P : list (positive * K)) (Q : list (K * positive)).
Variable d : bool.

(** ** The entries of the nodes *)

(** What a leaf holds; nothing at other addresses. *)
Definition node_ents t : list entry :=
  if innerp t then []
  else zip (take (n t) (key t)) (omap (λ u, match u with Ual_v v => Some v | Ual_t _ => None end)
                                      (take (n t) (val t))).

Definition ents h q : list entry := match hget h q with Some t => node_ents t | None => [] end.

Lemma rep_ents b t F : leaf_rep b t F -> node_ents t = F.
Proof.
  intros Hr. unfold node_ents. rewrite (rep_leaf _ _ _ Hr), (rep_n _ _ _ Hr), (rep_key _ _ _ Hr).
  destruct (rep_val _ _ _ Hr) as (junk & -> & _).
  rewrite !take_app_le, !take_ge by (rewrite ?length_fmap; done).
  clear Hr. induction F as [|[k v] F IH]; [done|]. simpl. f_equal. apply IH.
Qed.

Lemma ents_at b h q t F : hget h q = Some t -> leaf_rep b t F -> ents h q = F.
Proof. intros Ht Hr. unfold ents. rewrite Ht. by eapply rep_ents. Qed.

Lemma ents_inner h q t : hget h q = Some t -> innerp t = true -> ents h q = [].
Proof. intros Ht Hi. unfold ents, node_ents. by rewrite Ht, Hi. Qed.
#[local] Abbreviation subtree :=
  (positive -> option Z -> option Z -> list positive -> list entry -> Prop).

Lemma pre_ents (T : subtree) (g : positive -> list entry) P lo b X E :
  (∀ c lo hi X E, T c lo hi X E -> E = X ≫= g) -> pre d T P lo b X E -> E = X ≫= g.
Proof.
  intros HT. revert lo X E. induction P as [|[c k] P IH]; simpl; intros lo X E.
  - by intros (_ & -> & ->).
  - intros (z & X1 & X2 & E1 & E2 & _ & _ & Hc & Hp & -> & ->).
    by rewrite bind_app, (HT _ _ _ _ _ Hc), (IH _ _ _ Hp).
Qed.

Lemma post_ents (T : subtree) (g : positive -> list entry) Q b hi X E :
  (∀ c lo hi X E, T c lo hi X E -> E = X ≫= g) -> post d T Q b hi X E -> E = X ≫= g.
Proof.
  intros HT. revert b X E. induction Q as [|[k c] Q IH]; simpl; intros b X E.
  - by intros (_ & -> & ->).
  - intros (z & b' & X1 & X2 & E1 & E2 & _ & _ & _ & Hc & Hq & -> & ->).
    by rewrite bind_app, (HT _ _ _ _ _ Hc), (IH _ _ _ Hq).
Qed.

(** The entries of a tree are those of its nodes in order. *)
Lemma ptree_ents h m cap p lo hi X E : ptree d h m cap p lo hi X E -> E = X ≫= ents h.
Proof.
  revert cap p lo hi X E. induction m as [|m IH]; intros cap p lo hi X E (t & X0 & Ht & -> & _ & Hok).
  - destruct Hok as (Hr & _ & ->). cbn. by rewrite (ents_at _ _ _ _ _ Ht Hr), app_nil_r.
  - destruct Hok as (P & c & Q & Hr & l & r & X1 & X2 & X3 & E1 & E2 & E3 & Hp & _ & Hc & Hq & -> & ->).
    cbn. rewrite (ents_inner _ _ _ Ht (irep_inner _ _ _ _ Hr)), !bind_app. cbn [app].
    by rewrite <- (IH _ _ _ _ _ _ Hc), <- (pre_ents _ _ _ _ _ _ _ (IH 62%nat) Hp),
      <- (post_ents _ _ _ _ _ _ _ (IH 62%nat) Hq).
Qed.

(** ** New values in the leaves *)

(** Inner nodes are as they were, and leaves hold the same keys. *)
Definition reworked X h h' : Prop := ∀ q t, q ∈ X -> hget h q = Some t ->
  ∃ t', hget h' q = Some t' ∧
    if innerp t then node_like t t'
    else ∀ F, leaf_rep d t F -> ∃ F', leaf_rep d t' F' ∧ F'.*1 = F.*1.

Section rework.
#[local] Set Default Proof Using "Type*".
Context (T T' : subtree) (Y : list positive) (g : positive -> list entry).
Hypothesis HT : ∀ c lo hi X E, X ⊆ Y -> T c lo hi X E -> T' c lo hi X (X ≫= g).

Lemma pre_rework P lo b X E : X ⊆ Y -> pre d T P lo b X E -> pre d T' P lo b X (X ≫= g).
Proof.
  revert lo X E. induction P as [|[c k] P IH]; simpl; intros lo X E HX.
  - by intros (-> & -> & _).
  - intros (z & X1 & X2 & E1 & E2 & Hk & Hb & Hc & Hp & -> & ->). apply list_subseteq_app_iff_l in HX as [H1 H2].
    exists z, X1, X2, (X1 ≫= g), (X2 ≫= g). rewrite bind_app. split_and!; eauto.
Qed.

Lemma post_rework Q b hi X E : X ⊆ Y -> post d T Q b hi X E -> post d T' Q b hi X (X ≫= g).
Proof.
  revert b X E. induction Q as [|[k c] Q IH]; simpl; intros b X E HX.
  - by intros (-> & -> & _).
  - intros (z & b' & X1 & X2 & E1 & E2 & Hk & Hz & Hb & Hc & Hq & -> & ->).
    apply list_subseteq_app_iff_l in HX as [H1 H2].
    exists z, b', X1, X2, (X1 ≫= g), (X2 ≫= g). rewrite bind_app. split_and!; eauto.
Qed.

Lemma around_rework P c Q lo hi X E :
  X ⊆ Y -> around d T P c Q lo hi X E -> around d T' P c Q lo hi X (X ≫= g).
Proof.
  intros HX (l & r & X1 & X2 & X3 & E1 & E2 & E3 & Hp & Hb & Hc & Hq & -> & ->).
  apply list_subseteq_app_iff_l in HX as [H1 [H2 H3]%list_subseteq_app_iff_l].
  exists l, r, X1, X2, X3, (X1 ≫= g), (X2 ≫= g), (X3 ≫= g). rewrite !bind_app.
  split_and!; try done; eauto using pre_rework, post_rework.
Qed.
End rework.

Lemma ptree_rework h h' m cap p lo hi X E :
  reworked X h h' -> ptree d h m cap p lo hi X E -> ptree d h' m cap p lo hi X (X ≫= ents h').
Proof.
  revert cap p lo hi X E. induction m as [|m IH];
    intros cap p lo hi X E HX (t & X0 & Ht & -> & Hn & Hok);
    destruct (HX p t) as (t' & Ht' & Hl); [left|done| |left|done|].
  - destruct Hok as (Hr & Hw & ->). rewrite (rep_leaf _ _ _ Hr) in Hl.
    destruct (Hl E Hr) as (F' & Hr' & Hk). exists t', []. cbn.
    rewrite (ents_at _ _ _ _ _ Ht' Hr'), app_nil_r. split_and!; [done..| |done|by eapply within_keys|done].
    rewrite (rep_n _ _ _ Hr'), <- (length_fmap fst), Hk, length_fmap, <- (rep_n _ _ _ Hr). done.
  - destruct Hok as (P & c & Q & Hr & Ha). rewrite (irep_inner _ _ _ _ Hr) in Hl.
    exists t', X0. cbn [mbind list_bind]. rewrite (ents_inner h' p t'); [|done|].
    2: { rewrite (proj1 (proj2 Hl)). by apply (irep_inner _ _ _ _ Hr). }
    split_and!; [done..|by rewrite (proj1 Hl)|]. cbn [kidsT node_ok]. exists P, c, Q.
    split; [by eapply node_like_inner|].
    eapply (around_rework _ _ X0); [|done|exact Ha]. intros c' l r X1 E1 Hs Hc. eapply IH; [|exact Hc].
    intros q tq Hq. apply HX. right. by apply Hs.
Qed.

(** ** The chain of leaves *)

Lemma thread_chain h L L1 q L2 :
  fwd h L [] -> Forall (leaf_ok d h) L -> L = L1 ++ q :: L2 ->
  ∃ C, chain d word_leaf h (Some q) C ∧ C.*1 `sublist_of` q :: L2.
Proof.
  intros Hf HL. remember (length L2) as k eqn:Hk. revert L1 q L2 Hk.
  induction (Nat.lt_wf_0 k) as [k _ IH]. intros L1 q L2 Hk HeL.
  pose proof Hf as Hf2. rewrite HeL in Hf2. apply fwd_app in Hf2 as [_ [Hq _]].
  assert (leaf_ok d h q) as (t & F & Ht & Hr & Hw).
  { rewrite Forall_forall in HL. apply HL. rewrite HeL. apply elem_of_app. right. left. }
  unfold link in Hq. rewrite Ht in Hq. simpl in Hq. destruct (next t) as [r|] eqn:Hn.
  - destruct (Hq r eq_refl) as [Hin|Hin]; [|by apply not_elem_of_nil in Hin].
    apply list_elem_of_split in Hin as (M1 & M2 & HM).
    destruct (IH (length M2)) with (L1 := L1 ++ q :: M1) (q := r) (L2 := M2) as (C & HC & Hs).
    { rewrite Hk, HM, length_app. simpl. lia. } { done. } { rewrite HeL, HM. by app_norm. }
    exists ((q, F) :: C). split; [econstructor; [done..|by rewrite Hn]|].
    cbn [fmap list_fmap fst]. apply sublist_skip. rewrite HM. by apply sublist_inserts_l.
  - exists [(q, F)]. split; [econstructor; [done..|rewrite Hn; constructor]|].
    apply sublist_skip, sublist_nil_l.
Qed.

(** The leftmost leaf depends on the tree only. *)
Lemma ptree_leftmost h m cap p lo hi X E :
  ptree d h m cap p lo hi X E ->
  ∃ l, l ∈ X ∧ leafb h l = true ∧
    ∀ fuel h', (m < fuel)%nat -> (∀ q, q ∈ X -> hget h' q = hget h q) -> leftmost fuel h' p = Some l.
Proof.
  revert cap p lo hi X E. induction m as [|m IH]; intros cap p lo hi X E (t & X0 & Ht & -> & _ & Hok).
  - destruct Hok as (Hr & _ & ->). exists p. split; [left|]. split.
    { unfold leafb. by rewrite Ht, (rep_leaf _ _ _ Hr). }
    intros [|fuel] h' Hf Hs; [lia|]. cbn [leftmost]. rewrite Hs by left. brun Ht.
    by rewrite (rep_leaf _ _ _ Hr).
  - destruct Hok as (P & c & Q & Hr & Ha).
    destruct (around_at d _ P c Q lo hi X0 E 0 Ha) as (P' & c' & Q' & Ha' & HP & Hk & Hc); [lia|].
    destruct P'; [|done]. destruct Ha' as (l & r & X1 & X2 & X3 & E1 & E2 & E3 & _ & _ & Hc' & _ & -> & _).
    rewrite <- Hk, <- Hc in Hr.
    pose proof (irep_child _ _ _ _ _ _ Hr (pq_kids_at [] c' Q')) as Hch. cbn [length] in Hch.
    destruct (IH _ _ _ _ _ _ Hc') as (q & Hin & Hl & Hq). exists q. split_and!; [|done|].
    + right. rewrite !elem_of_app. auto.
    + intros [|fuel] h' Hf Hs; [lia|]. cbn [leftmost]. rewrite Hs by left. brun Ht.
      rewrite (irep_inner _ _ _ _ Hr). brun Hch. apply Hq; [lia|]. intros r' Hr'. apply Hs.
      right. rewrite !elem_of_app. auto.
Qed.

(** The leaves that iterators meet. *)
Record reached h p X L C : Prop := {
  re_side : side d word_leaf h p C;
  re_on : C.*1 ⊆ L;
  re_leaf : Forall (leaf_ok d h) C.*1;
  re_stray q : q ∈ C.*1 -> q ∉ X -> barren d h q;
  re_order : filter (λ q, q ∈ X) C.*1 `sublist_of` X;
}.

Record lively h p X E L : Prop := {
  lv_grown : grown d h p X E;
  lv_thread : threaded d h p X L;
}.

Lemma lively_reached h p X E L : lively h p X E L -> ∃ C, reached h p X L C.
Proof.
  intros [Hg [HT _]]. destruct Hg as [(m & HP) HX _ _].
  pose proof (tree_height _ _ _ _ _ _ _ (ptree_tree _ _ _ _ _ _ _ _ _ HP)) as Hm.
  destruct (ptree_leftmost _ _ _ _ _ _ _ _ HP) as (l & HlX & Hlf & Hl).
  pose proof (threads_in _ _ _ _ _ HT HlX Hlf) as Hin.
  apply list_elem_of_split in Hin as (L1 & L2 & HL).
  destruct (thread_chain h L L1 l L2 (th_fwd _ _ _ _ HT) (th_leaf _ _ _ _ HT) HL) as (C & HC & Hs).
  assert (C.*1 `sublist_of` L) as HsL by (rewrite HL; by apply sublist_inserts_l).
  exists C. constructor.
  - split; [eapply sublist_NoDup; [|exact HsL]; apply (th_nodup _ _ _ _ HT)|].
    exists l. split; [|done]. apply Hl; [unfold height_fuel; lia|done].
  - intros q Hq. by apply (sublist_subseteq _ _ HsL).
  - apply Forall_forall. intros q Hq. eapply threads_leaf; [exact HT|]. by apply (sublist_subseteq _ _ HsL).
  - intros q Hq. apply (th_stray _ _ _ _ HT). by apply (sublist_subseteq _ _ HsL).
  - etrans; [|apply (sublist_filter (λ q, leafb h q) X)].
    apply (sublist_restrict _ _ L); [apply (th_nodup _ _ _ _ HT)|apply (th_order _ _ _ _ HT)| |].
    + etrans; [apply sublist_filter|done].
    + intros q [Hq Hc]%list_elem_of_filter. apply elem_of_leaves. split; [|done]. apply (leaf_ok_leafb d).
      eapply threads_leaf; [exact HT|]. by apply (sublist_subseteq _ _ HsL).
Qed.

(** *** Their levels *)

Definition levels_at h q : list entry := levels (ents h q).

Lemma cells_levels (C : list (positive * list entry)) : (cells C).*2 = C ≫= (λ x, levels x.2).
Proof.
  induction C as [|[q F] C IH]; [done|]. rewrite cells_cons, fmap_app, IH. cbn. f_equal.
  unfold live_from. by rewrite drop_0, live_at_levels.
Qed.

Lemma levels_bind (g : positive -> list entry) X : levels (X ≫= g) = X ≫= (λ q, levels (g q)).
Proof. induction X as [|q X IH]; [done|]. by rewrite !bind_cons, levels_app, IH. Qed.

Lemma reached_levels h p X L C :
  reached h p X L C -> (cells C).*2 = filter (λ q, q ∈ X) C.*1 ≫= levels_at h.
Proof.
  intros [(_ & l & _ & Hc) _ Hl Hst _]. rewrite bind_filter.
  - rewrite cells_levels. clear Hl Hst. induction Hc as [|q t F C Ht Hr Hq Hc IH]; [done|].
    cbn. unfold levels_at at 1. by rewrite (ents_at _ _ _ _ _ Ht Hr), IH.
  - intros q Hq Hn. destruct (Hst q Hq Hn) as (t & F & Ht & Hr & HF). unfold levels_at.
    by rewrite (ents_at _ _ _ _ _ Ht Hr).
Qed.

(** What is shown of the chain. *)
Definition shown h C : list entry := (cells (hide_cells h C)).*2.

Lemma shown_chain h C : shown h C `sublist_of` (cells C).*2.
Proof.
  unfold shown. rewrite !cells_levels. unfold hide_cells.
  induction C as [|[q F] C IH]; [done|].
  rewrite fmap_cons, !bind_cons. cbn [fst snd]. apply sublist_app; [|exact IH].
  destruct (hget h q); [apply hide_levels|done].
Qed.

Lemma grown_levels h p X E : grown d h p X E -> levels E = X ≫= levels_at h.
Proof. intros [(m & HT) _ _ _]. rewrite (ptree_ents _ _ _ _ _ _ _ _ HT) at 1. apply levels_bind. Qed.

Lemma reached_sublist h p X E L C :
  grown d h p X E -> reached h p X L C -> (cells C).*2 `sublist_of` levels E.
Proof.
  intros Hg Hr. rewrite (reached_levels _ _ _ _ _ Hr), (grown_levels _ _ _ _ Hg).
  by eapply sublist_bind, re_order.
Qed.

(** ** What becomes of it *)

Lemma side_fun R1 R2 h p C C' : side d R1 h p C -> side d R2 h p C' -> C' = C.
Proof.
  intros (_ & l & Hl & Hc) (_ & l' & Hl' & Hc'). assert (l' = l) as -> by congruence. by eapply chain_fun.
Qed.

(** *** Sweeping [used] words *)

Lemma used_rep t u F : leaf_rep d t F -> leaf_rep d (set_used u t) F.
Proof. by apply node_like_leaf. Qed.

Lemma combed_none Y h h' q : combed Y h h' -> hget h q = None -> hget h' q = None.
Proof.
  intros [[[_ Hd] _] _] Hq. apply not_elem_of_dom. rewrite Hd. by apply not_elem_of_dom.
Qed.

Lemma lively_combed Y h h' p X E L : combed Y h h' -> lively h p X E L -> lively h' p X E L.
Proof.
  intros Hcb [[(m & HT) HX Hwf Hsp] [HL Hp]]. pose proof Hcb as [[[Hnx Hdom] _] Hget].
  assert (∀ q, leafb h' q = leafb h q ∧ link h' q = link h q) as Hsame.
  { intros q. unfold leafb, link. destruct (hget h q) as [t|] eqn:Ht.
    - by destruct (Hget q t Ht) as (u & -> & _).
    - by rewrite (combed_none _ _ _ _ Hcb Ht). }
  split; [constructor|].
  - exists m. eapply ptree_alike; [|exact HT]. intros q t _ Ht. destruct (Hget q t Ht) as (u & Ht' & _). by eexists.
  - done.
  - intros q t Ht. rewrite Hnx. destruct (hget h q) as [t0|] eqn:Ht0; [by eapply Hwf|].
    by rewrite (combed_none _ _ _ _ Hcb Ht0) in Ht.
  - intros t Ht. destruct (hget h p) as [t0|] eqn:Ht0.
    + destruct (Hget p t0 Ht0) as (u & Ht' & _). simplify_eq. exact (Hsp t0 eq_refl).
    + by rewrite (combed_none _ _ _ _ Hcb Ht0) in Ht.
  - split.
    + eapply threads_same; [exact HL|by intros; apply Hsame|]. intros q Hq.
      destruct (threads_leaf _ _ _ _ _ HL Hq) as (t & F & Ht & Hr & Hw).
      destruct (Hget q t Ht) as (u & Ht' & Hu). split_and!; [|by apply Hsame|].
      * exists (set_used u t), F. split_and!; [done|by apply used_rep|by apply Hu].
      * intros Hn. destruct (th_stray _ _ _ _ HL q Hq Hn) as (t2 & F2 & Ht2 & Hr2 & HF2). simplify_eq.
        exists (set_used u t), F2. split_and!; [done|by apply used_rep|done].
    + rewrite (proj1 (Hsame p)), (proj2 (Hsame p)). done.
Qed.

(** *** Changes elsewhere *)

(** Only nodes in [W] may have changed, and new ones been made. *)
Record away (W : list positive) h h' : Prop := {
  aw_wf : heap_wf h';
  aw_next : (hnext h <= hnext h')%positive;
  aw_keep : ∀ q t, q ∉ W -> hget h q = Some t -> hget h' q = Some t;
}.

Lemma lively_same W h h' p X E L q :
  away W h h' -> lively h p X E L -> X ++ L ## W -> q ∈ X ++ L -> hget h' q = hget h q.
Proof.
  intros [_ _ Ha] [[(m & HT) _ _ _] [HL _]] Hd Hq.
  assert (is_Some (hget h q)) as [t Ht].
  { apply elem_of_app in Hq as [Hq|Hq]; [by eapply ptree_dom|].
    destruct (threads_leaf _ _ _ _ _ HL Hq) as (t & F & Ht & _). eauto. }
  rewrite Ht. apply Ha; [|done]. intros Hz. by apply (Hd q).
Qed.

Lemma lively_away W h h' p X E L :
  away W h h' -> X ++ L ## W -> lively h p X E L -> lively h' p X E L.
Proof.
  intros Ha Hd Hl. pose proof (λ q, lively_same W h h' p X E L q Ha Hl Hd) as Hs.
  pose proof Hl as [[(m & HT) HX Hwf Hsp] [HL Hp]].
  pose proof (ptree_root _ _ _ _ _ _ _ _ _ HT) as HpX.
  assert (∀ q, q ∈ X -> hget h' q = hget h q) as HsX by (intros; apply Hs, elem_of_app; by left).
  assert (∀ q, q ∈ L -> hget h' q = hget h q) as HsL by (intros; apply Hs, elem_of_app; by right).
  split; [constructor|].
  - exists m. eapply ptree_alike; [|exact HT]. intros q t Hq Ht. exists t. by rewrite HsX.
  - done.
  - apply Ha.
  - intros t. rewrite HsX by done. apply Hsp.
  - split.
    + eapply threads_same; [exact HL| |].
      * intros q Hq. unfold leafb. by rewrite HsX.
      * intros q Hq. unfold link. rewrite HsL by done. split_and!; [|done|].
        -- destruct (threads_leaf _ _ _ _ _ HL Hq) as (t & F & Ht & Hr & Hw). exists t, F. by rewrite HsL.
        -- intros Hn. destruct (th_stray _ _ _ _ HL q Hq Hn) as (t & F & Ht & Hr). exists t, F. by rewrite HsL.
    + unfold leafb, link. rewrite HsX by done. exact Hp.
Qed.

Lemma side_away W h h' p X E L C :
  away W h h' -> X ++ L ## W -> lively h p X E L -> side d word_leaf h p C ->
  side d word_leaf h' p C ∧ shown h' C = shown h C.
Proof.
  intros Ha Hdis Hl HC. pose proof (λ q, lively_same W h h' p X E L q Ha Hl Hdis) as Hs.
  assert (∀ q, q ∈ X -> hget h' q = hget h q) as HsX by (intros; apply Hs, elem_of_app; by left).
  assert (∀ q, q ∈ L -> hget h' q = hget h q) as HsL by (intros; apply Hs, elem_of_app; by right).
  destruct (lively_reached _ _ _ _ _ Hl) as (C2 & Hr).
  pose proof (side_fun _ _ _ _ _ _ HC (re_side _ _ _ _ _ Hr)) as ->.
  destruct (re_side _ _ _ _ _ Hr) as (Hd & l & Hlm & Hc). pose proof (re_on _ _ _ _ _ Hr) as Hon.
  destruct Hl as [[(m & HT) _ _ _] _].
  pose proof (tree_height _ _ _ _ _ _ _ (ptree_tree _ _ _ _ _ _ _ _ _ HT)) as Hm.
  assert (ptree d h' m 63 p None None X E) as HT2.
  { eapply ptree_alike; [|exact HT]. intros q t Hq Ht. exists t. by rewrite HsX. }
  pose proof (tree_height _ _ _ _ _ _ _ (ptree_tree _ _ _ _ _ _ _ _ _ HT2)) as Hm2.
  destruct (ptree_leftmost _ _ _ _ _ _ _ _ HT) as (l' & _ & _ & Hll).
  rewrite (Hll (height_fuel h) h) in Hlm by (done || unfold height_fuel; lia). injection Hlm as ->.
  split.
  - split; [done|]. exists l. rewrite (Hll (height_fuel h') h') by (done || unfold height_fuel; lia).
    split; [done|]. clear -Hc Hon HsL. induction Hc as [|q t F C Ht Hr Hq Hc IH]; [constructor|].
    cbn [fmap list_fmap fst] in Hon. econstructor; [rewrite HsL by (apply Hon; left); done|done..|].
    apply IH. intros r Hr'. apply Hon. by right.
  - unfold shown, hide_cells. do 2 f_equal. apply list_fmap_ext. intros i [q F] HqF. cbn [fst snd].
    rewrite HsL; [done|]. apply Hon, list_elem_of_fmap. exists (q, F). split; [done|].
    by eapply list_elem_of_lookup_2.
Qed.
End lively.
