(* ===== verification/BtreeStates.v ===== *)
(** * What a side of any size stores and shows

    [side_state h p M V W]: the tree at [p], of any height, stores the levels [M]
    and shows the levels [V] to iterators, some of [M] in order; [W] are the
    nodes it depends on.  Puts, clearing and iteration keep such a state;
    iteration leaves what is hidden alone. *)

From Stdlib Require Import ZArith Lia.
From stdpp Require Import prelude list gmap fin_maps.
From stdpp Require Import options.
From S2P Require Import Prelude Decimal Btree BtreeLeaf BtreeUsed BtreeIter BtreeSide BtreeCursor.
From S2P Require Import BtreeOps BtreeMap BtreeTree BtreeHide BtreeSight BtreeKids BtreeGrow BtreeThread.
From S2P Require Import BtreeHalves BtreeSplit BtreePut BtreeGrown BtreeLively.

Local Open Scope Z_scope.

Section states.
Context `{BKey K}.
#[local] Abbreviation entry := (K * btree_val)%type.
Implicit Types (E F V : list entry) (t : btree_s K) (h : heap K) (p q c : positive).
Implicit Types (M : gmap Z btree_val) (X Y W S L : list positive) (A : list (vptr * entry)).
Variable d : bool.

Definition side_state h p M V W : Prop := ∃ X E L C,
  lively d h p X E L ∧ side d word_leaf h p C ∧ shown h C = V ∧ lmap d (levels E) = M ∧ W = X ++ L.

(** The chain of a side is the one its leaves are on. *)
Lemma state_reached h p X E L C : lively d h p X E L -> side d word_leaf h p C -> reached d h p X L C.
Proof.
  intros Hl HC. destruct (lively_reached _ _ _ _ _ _ Hl) as (C' & Hr).
  by rewrite (side_fun _ _ _ _ _ _ _ (re_side _ _ _ _ _ _ Hr) HC).
Qed.

Lemma lively_state h p X E L :
  lively d h p X E L -> ∃ V, side_state h p (lmap d (levels E)) V (X ++ L).
Proof.
  intros Hl. destruct (lively_reached _ _ _ _ _ _ Hl) as (C & Hr). exists (shown h C), X, E, L, C.
  split_and!; try done. apply Hr.
Qed.

Lemma state_wf h p M V W : side_state h p M V W -> heap_wf h.
Proof. intros (X & E & L & C & [Hg _] & _). apply Hg. Qed.

(** The nodes of a side exist. *)
Lemma state_old h p M V W q : side_state h p M V W -> q ∈ W -> (q < hnext h)%positive.
Proof.
  intros (X & E & L & C & [[(m & HT) _ Hwf _] [HL _]] & _ & _ & _ & ->) [Hq|Hq]%elem_of_app.
  - destruct (ptree_dom _ _ _ _ _ _ _ _ _ _ HT Hq) as [t Ht]. by eapply Hwf.
  - destruct (threads_leaf _ _ _ _ _ HL Hq) as (t & F & Ht & _). by eapply Hwf.
Qed.

(** ** What is shown is stored *)

Lemma lmap_sublist V E : ksorted d None E.*1 -> V `sublist_of` E -> lmap d V ⊆ lmap d E.
Proof.
  intros Hs HV. apply map_subseteq_spec. intros z v. rewrite !(lmap_lookup d None); [|done|].
  - intros (e & He & Hrest). exists e. split; [|done]. by apply (sublist_subseteq _ _ HV).
  - eapply ksorted_sublist; [|exact Hs]. by apply sublist_fst.
Qed.

Lemma shown_sublist h p X E L C :
  lively d h p X E L -> side d word_leaf h p C -> shown h C `sublist_of` levels E.
Proof.
  intros Hl HC. pose proof (state_reached _ _ _ _ _ _ Hl HC) as Hr.
  etrans; [apply shown_chain|]. eapply reached_sublist; [apply Hl|done].
Qed.

Lemma state_sound h p M V W :
  side_state h p M V W -> ksorted d None V.*1 ∧ Forall (λ e, live e = true) V ∧ lmap d V ⊆ M.
Proof.
  intros (X & E & L & C & Hl & HC & <- & <- & _). pose proof (shown_sublist _ _ _ _ _ _ Hl HC) as Hs.
  pose proof (grown_sorted _ _ _ _ _ (lv_grown _ _ _ _ _ _ Hl)) as HE.
  split_and!.
  - eapply ksorted_sublist; [by apply sublist_fst|]. by apply levels_sorted.
  - apply Forall_forall. intros e He. apply (sublist_subseteq _ _ Hs), elem_of_levels in He. apply He.
  - apply lmap_sublist; [by apply levels_sorted|done].
Qed.

(** ** Changes elsewhere *)

Lemma state_away Y h h' p M V W :
  away Y h h' -> W ## Y -> side_state h p M V W -> side_state h' p M V W.
Proof.
  intros Ha Hd (X & E & L & C & Hl & HC & <- & <- & ->).
  destruct (side_away _ _ _ _ _ _ _ _ _ Ha Hd Hl HC) as [HC' Hs]. exists X, E, L, C.
  split_and!; [by eapply lively_away|done..].
Qed.
End states.

Section views.
Context `{BKey K}.
#[local] Abbreviation entry := (K * btree_val)%type.
Implicit Types (E F V : list entry) (t : btree_s K) (h : heap K) (p q c : positive).
Implicit Types (M : gmap Z btree_val) (X Y W S L : list positive) (A : list (vptr * entry)).

Lemma leafwise_wf Y h h' : leafwise Y h h' -> heap_wf h -> heap_wf h'.
Proof.
  intros [[Hn Hd] Hw] Hwf q t Ht. rewrite Hn.
  assert (q ∈ dom (hmem h)) as [t0 Ht0]%elem_of_dom by (rewrite <- Hd; apply elem_of_dom; by exists t).
  by eapply Hwf.
Qed.

Lemma leafwise_away Y W h h' : leafwise Y h h' -> Y ⊆ W -> heap_wf h -> away W h h'.
Proof.
  intros Hw HY Hwf. split; [by eapply leafwise_wf|by rewrite (proj1 (proj1 Hw))|]. intros q t Hq Ht.
  rewrite (leafwise_other Y h h' q Hw); [done|]. intros HqY. by apply Hq, HY.
Qed.

(** ** Iterating and writing through iterators *)

(** Nodes that change do so in values and [used] words only. *)
Definition mild h h' : Prop := ∀ q t, hget h q = Some t ->
  ∃ u vs, hget h' q = Some (set_used u (set_val vs t)).

Lemma mild_combed Y h h' : combed Y h h' -> mild h h'.
Proof.
  intros [_ Hg] q t Ht. destruct (Hg q t Ht) as (u & Ht' & _). exists u, (val t). rewrite Ht'. by destruct t.
Qed.

Lemma mild_hset h q t vs : hget h q = Some t -> mild h (hset q (set_val vs t) h).
Proof.
  intros Ht r tr Hr. destruct (decide (r = q)) as [->|Hne].
  - rewrite hget_hset_eq. simplify_eq. exists (used t), vs. by destruct t.
  - rewrite hget_hset_ne by done. exists (used tr), (val tr). rewrite Hr. by destruct tr.
Qed.

#[export] Instance mild_preorder : PreOrder mild.
Proof.
  split.
  - intros h q t Ht. exists (used t), (val t). rewrite Ht. by destruct t.
  - intros h1 h2 h3 H12 H23 q t Ht. destruct (H12 q t Ht) as (u & vs & Ht2).
    destruct (H23 q _ Ht2) as (u' & vs' & Ht3). exists u', vs'. rewrite Ht3. by destruct t.
Qed.

(** *** Sides that are one leaf, with room *)

Definition solo h p : Prop := ∃ t, hget h p = Some t ∧ innerp t = false ∧ (n t <= 62)%nat.

Lemma solo_mild h h' p : mild h h' -> solo h p -> solo h' p.
Proof. intros Hm (t & Ht & Hi & Hn). destruct (Hm p t Ht) as (u & vs & Ht'). by exists (set_used u (set_val vs t)). Qed.

Lemma solo_away d Y h h' p M V W :
  away Y h h' -> W ## Y -> side_state d h p M V W -> solo h p -> solo h' p.
Proof.
  intros Ha Hd (X & E & L & C & [[(m & HT) _ _ _] _] & _ & _ & _ & ->) (t & Ht & Hrest).
  exists t. split; [|done]. apply (aw_keep _ _ _ Ha); [|done]. intros Hp. apply (Hd p); [|done].
  apply elem_of_app. left. by eapply ptree_root.
Qed.

(** The chain of a leaf starts there. *)
Lemma side_here d R h p C t :
  side d R h p C -> hget h p = Some t -> innerp t = false ->
  ∃ F C', C = (p, F) :: C' ∧ leaf_rep d t F ∧ chain d R h (next t) C'.
Proof.
  intros (_ & l & Hll & Hc) Ht Hi. unfold height_fuel in Hll. cbn [leftmost] in Hll. revert Hll. brun Ht.
  rewrite Hi. intros [= <-]. inversion Hc as [|q t0 F C' Ht0 Hr0 _ Hc']; subst. simplify_eq. eauto.
Qed.

(** What a side that is one leaf stores and shows. *)
Lemma leaf_side d h p M V W t :
  side_state d h p M V W -> hget h p = Some t -> innerp t = false ->
  ∃ F, leaf_rep d t F ∧ word_node t ∧ next t = None ∧ splitp t = (63 <=? length F)%nat ∧ ksorted d None F.*1 ∧
    M = lmap d (levels F) ∧ V = levels (hide_ents (used t) F).
Proof.
  intros (X & E & L & C & Hl & HC & <- & <- & ->) Ht Hi. pose proof (lv_grown _ _ _ _ _ _ Hl) as Hg.
  pose proof Hg as [(m & HT) _ _ Hsp]. pose proof (ptree_root _ _ _ _ _ _ _ _ _ HT) as HpX.
  destruct HT as (t' & X0 & Ht' & -> & _ & Hok). simplify_eq. destruct m as [|m].
  2: { by rewrite (node_ok_inner _ _ (S m) _ _ _ _ _ ltac:(done) Hok) in Hi. }
  destruct Hok as (Hr & _ & ->). destruct (lv_thread _ _ _ _ _ _ Hl) as [HL Hlk].
  assert (leafb h p = true) as Hlf by (unfold leafb; by rewrite Ht, Hi).
  specialize (Hlk Hlf). unfold link in Hlk. rewrite Ht in Hlk. cbn in Hlk.
  pose proof (threads_in _ _ _ _ _ HL HpX Hlf) as HpL.
  destruct (threads_leaf _ _ _ _ _ HL HpL) as (t2 & F2 & Ht2 & _ & Hw). simplify_eq.
  destruct (side_here d _ h p C t HC Ht Hi) as (F & C' & -> & Hr0 & Hc').
  assert (F = E) as -> by by eapply leaf_rep_inj.
  rewrite Hlk in Hc'. inversion Hc'; subst. exists E. rewrite (Hsp _ Ht), (rep_n _ _ _ Hr).
  split_and!; try done; [by eapply grown_sorted|].
  unfold shown, hide_cells. cbn [fmap list_fmap fst snd]. rewrite Ht, cells_levels.
  cbn. by rewrite app_nil_r.
Qed.

(** The cell [vp] is the entry [e] of a leaf. *)
Definition cell_at d h (vp : vptr) (e : entry) : Prop :=
  ∃ t F, hget h vp.1 = Some t ∧ leaf_rep d t F ∧ F !! vp.2 = Some e.

(** While one iterates over the leaves [S] of the side on the nodes [W], of
    which the cells [A] are shown: [J] holds of the rest of the heap, and [Hid]
    is hidden. *)
Section tend.
#[local] Set Default Proof Using "Type*".
Variables (d : bool) (p : positive) (S W : list positive) (J : heap K -> Prop) (Hid : gmap Z btree_val).
Hypothesis HS : S ⊆ W.
Hypothesis HJ : ∀ h h', J h -> away W h h' -> mild h h' -> J h'.

Record tend h A : Prop := {
  tn_rest : J h;
  tn_sorted : ksorted d None A.*2.*1;
  tn_live : Forall (λ e, live e = true) A.*2;
  tn_tree : ∃ X E L, lively d h p X E L ∧ lmap d (levels E) = lmap d A.*2 ∪ Hid ∧ W = X ++ L ∧
                     ∀ vp e, (vp, e) ∈ A -> vp.1 ∈ X ∧ cell_at d h vp e;
  tn_hidden : lmap d A.*2 ##ₘ Hid;
}.

Lemma tend_comb h h' A : tend h A -> combed S h h' -> tend h' A.
Proof.
  intros [HR Hs Hl (X & E & L & Hlv & HM & HW & HA) Hd] Hc. pose proof Hc as [Hw Hget].
  constructor; try done.
  - eapply HJ; [done| |by eapply mild_combed].
    eapply leafwise_away; [done..|]. apply (gn_wf _ _ _ _ _ (lv_grown _ _ _ _ _ _ Hlv)).
  - exists X, E, L. split_and!; [by eapply lively_combed|done..|]. intros vp e Hin.
    destruct (HA vp e Hin) as (HX & t & F & Ht & Hr & He). split; [done|].
    destruct (Hget _ t Ht) as (u & Ht' & _). exists (set_used u t), F. split_and!; [done|by apply used_rep|done].
Qed.

(** A cell that is written: the others are as they were. *)
Lemma cell_at_poke h vp e v t F vs vp' e' :
  hget h vp.1 = Some t -> leaf_rep d t F -> F !! vp.2 = Some e ->
  leaf_rep d (set_val vs t) (alter (set_ent v) vp.2 F) ->
  vp' ≠ vp -> cell_at d h vp' e' -> cell_at d (hset vp.1 (set_val vs t) h) vp' e'.
Proof.
  intros Ht Hr He Hr' Hne (t2 & F2 & Ht2 & Hr2 & He2). destruct (decide (vp'.1 = vp.1)) as [Heq|Hn].
  - rewrite Heq in Ht2. simplify_eq. assert (F2 = F) as -> by by eapply leaf_rep_inj.
    exists (set_val vs t), (alter (set_ent v) vp.2 F). rewrite Heq, hget_hset_eq. split_and!; [done..|].
    rewrite list_lookup_alter_ne; [done|]. intros Hj. apply Hne. destruct vp, vp'. simpl in *. congruence.
  - exists t2, F2. by rewrite hget_hset_ne.
Qed.

Lemma lmap_revalue A1 vp e A2 v z :
  ksorted d None (A1 ++ (vp, e) :: A2).*2.*1 -> Forall (λ e, live e = true) (A1 ++ (vp, e) :: A2).*2 ->
  ord d e.1 = Some z ->
  let A' := A1 ++ (if live (set_ent v e) then [(vp, set_ent v e)] else []) ++ A2 in
  lmap d A'.*2 = partial_alter (λ _, val_opt v) z (lmap d (A1 ++ (vp, e) :: A2).*2) ∧
  ksorted d None A'.*2.*1 ∧ Forall (λ e, live e = true) A'.*2.
Proof.
  intros Hs Hl Hz. rewrite !fmap_app, fmap_cons in *. cbn [fst snd] in *. cbv zeta.
  set (B := A1.*2 ++ e :: A2.*2) in *.
  assert (∀ L : list entry, Forall (λ e, live e = true) L -> levels L = L) as Hall.
  { unfold levels. induction 1 as [|x L Hx _ IH]; [done|]. rewrite filter_cons_True by by rewrite Hx. by rewrite IH. }
  assert (levels (alter (set_ent v) (length A1.*2) B) =
          A1.*2 ++ (if live (set_ent v e) then [(vp, set_ent v e)] else []).*2 ++ A2.*2) as HB.
  { unfold B. rewrite alter_app_r_alt, Nat.sub_diag by done. cbn [alter list_alter].
    apply Forall_app in Hl as [H1 [_ H2]%Forall_cons]. rewrite levels_app, levels_cons, !Hall by done.
    by destruct (live (set_ent v e)). }
  assert (ksorted d None B.*1) as HsB by (unfold B; by rewrite fmap_app).
  assert (ksorted d None (alter (set_ent v) (length A1.*2) B).*1) as HsA.
  { by rewrite alter_keys. }
  assert ((A1 ++ (if live (set_ent v e) then [(vp, set_ent v e)] else []) ++ A2).*2 =
          levels (alter (set_ent v) (length A1.*2) B)) as -> by (by rewrite !fmap_app, HB).
  split_and!.
  - rewrite (alter_map d None B (length A1.*2) e z v) by (done || by apply list_lookup_middle).
    by rewrite (Hall B).
  - by apply levels_sorted.
  - apply Forall_forall. intros x Hx%elem_of_levels. apply Hx.
Qed.

Lemma tend_poke h h' A vp e v :
  tend h A -> (vp, e) ∈ A -> NoDup A.*1 -> vp.1 ∈ S -> seen_vp h vp e ->
  poke vp v h = Some h' -> tend h' (revalue vp v A).
Proof.
  intros [HR Hs Hl (X & E & L & Hlv & HM & HW & HA) Hd] Hin HdA HvS _ Hpk.
  destruct (HA vp e Hin) as (HvX & t & F & Ht & Hr & He).
  pose proof (lv_grown _ _ _ _ _ _ Hlv) as Hgn.
  destruct (list_elem_of_split _ _ Hin) as (A1 & A2 & HeA).
  assert (∃ z, ord d e.1 = Some z) as [z Hz].
  { destruct (list_elem_of_lookup_1 A.*2.*1 e.1) as [i Hi].
    - apply list_elem_of_fmap. exists e. split; [done|]. apply list_elem_of_fmap. by exists (vp, e).
    - destruct (ksorted_lookup d None _ i e.1 Hs Hi) as (z & Hz & _). eauto. }
  destruct (grown_store d h p X E vp t F e z v Hgn HvX Ht Hr He Hz)
    as (h2 & E2 & Hpk2 & Hgn2 & Hg2 & _ & HM2).
  assert (h2 = h') as -> by congruence.
  destruct (leaf_rep_poke d t F vp.2 v e Hr He) as (vs & Hst & Hr').
  assert (h' = hset vp.1 (set_val vs t) h) as Hh'.
  { unfold poke in Hpk. revert Hpk. brun Ht. brun Hst. congruence. }
  pose proof (rep_leaf _ _ _ Hr) as Hi.
  assert (leafwise S h h') as Hw by (rewrite Hh'; by eapply leafwise_hset).
  rewrite HeA in Hs, Hl, HdA. destruct (lmap_revalue A1 vp e A2 v z Hs Hl Hz) as (HmA & HsA & HlA).
  rewrite HeA, (revalue_split _ _ _ _ _ HdA).
  assert (Hid !! z = None) as Hhz.
  { eapply map_disjoint_Some_l; [exact Hd|]. apply (lmap_lookup d None); [by rewrite HeA|].
    exists e. split; [rewrite HeA, fmap_app; apply elem_of_app; right; left|done]. }
  constructor; try done.
  - eapply HJ; [done| |rewrite Hh'; by apply mild_hset]. eapply leafwise_away; [done..|]. apply Hgn.
  - exists X, E2, L. split; [|split_and!; [|done|]].
    { constructor; [done|]. rewrite Hh'. eapply threaded_poke; [done..|]. apply Hlv. }
    + rewrite HM2, HM, HmA, HeA. apply map_eq. intros y. destruct (decide (y = z)) as [->|Hne].
      * rewrite lookup_partial_alter_eq, lookup_union, lookup_partial_alter_eq, Hhz. by destruct (val_opt v).
      * rewrite lookup_partial_alter_ne, !lookup_union, lookup_partial_alter_ne by done. done.
    + intros vp' e' Hin'. assert (vp' = vp ∧ e' = set_ent v e ∨ (vp', e') ∈ A1 ++ A2) as [[-> ->]|Hin2].
      { rewrite !elem_of_app in *. destruct (live (set_ent v e)); [|rewrite elem_of_nil in Hin'; tauto].
        rewrite list_elem_of_singleton in Hin'. destruct Hin' as [|[[= -> ->]|]]; tauto. }
      * split; [done|]. exists (set_val vs t), (alter (set_ent v) vp.2 F). rewrite Hh', hget_hset_eq.
        split_and!; [done..|]. by rewrite list_lookup_alter_eq, He.
      * destruct (HA vp' e') as [HX' Hcell].
        { rewrite HeA, elem_of_app, elem_of_cons. apply elem_of_app in Hin2. tauto. }
        split; [done|]. rewrite Hh'. eapply cell_at_poke; [done..| |done].
        intros ->. rewrite fmap_app, fmap_cons in HdA. cbn [fst] in HdA.
        apply (NoDup_perm _ (vp :: A1.*1 ++ A2.*1)) in HdA; [|solve_Permutation].
        apply NoDup_cons in HdA as [Hn _]. apply Hn. rewrite <- fmap_app. apply list_elem_of_fmap. by exists (vp, e').
  - rewrite HeA in Hd. rewrite HmA. apply map_disjoint_spec. intros y a b Ha Hb.
    rewrite lookup_partial_alter in Ha. case_decide; [congruence|].
    by eapply map_disjoint_spec.
Qed.

#[export] Instance tend_tended : Tended S tend.
Proof. split; [exact tend_comb|exact tend_poke]. Qed.
End tend.

(** A shown cell is a level of a leaf of the chain. *)
Lemma shown_cell d h p X E L C vp e :
  lively d h p X E L -> side d word_leaf h p C -> (vp, e) ∈ cells (hide_cells h C) ->
  vp.1 ∈ X ∧ cell_at d h vp e.
Proof.
  intros Hl HC Hin. pose proof (state_reached _ _ _ _ _ _ _ Hl HC) as Hr. destruct HC as (_ & l & _ & Hc).
  assert (∃ F, (vp.1, F) ∈ hide_cells h C ∧ F !! vp.2 = Some e ∧ live e = true) as (F' & HF' & He & Hlv).
  { clear -Hin. induction (hide_cells h C) as [|[q F] C' IH]; [by apply not_elem_of_nil in Hin|].
    rewrite cells_cons in Hin. apply elem_of_app in Hin as [Hin|Hin].
    - apply live_at_elem in Hin as (Hq & _ & He & Hlv). cbn [fst snd] in *. rewrite Nat.sub_0_r in He.
      exists F. rewrite Hq. split; [left|done].
    - destruct (IH Hin) as (F' & HF' & Hrest). exists F'. split; [by right|done]. }
  apply list_elem_of_fmap in HF' as ([q F] & [= Hq ->] & HqF). cbn [snd] in He.
  destruct (chain_get _ _ _ _ _ _ _ Hc HqF) as (t & Ht & Hrep). rewrite Ht in He.
  rewrite hide_ents_lookup in He. destruct (F !! vp.2) as [e0|] eqn:He0; [|done]. cbn in He.
  destruct (unseen (used t) vp.2 e0.2); [injection He as <-; done|]. injection He as ->.
  split; [|by exists t, F; rewrite Hq].
  destruct (decide (vp.1 ∈ X)) as [|Hn]; [done|]. exfalso.
  destruct (re_stray _ _ _ _ _ _ Hr vp.1) as (t' & F2 & Ht' & Hr' & HF2); [|done|].
  - rewrite Hq. apply list_elem_of_fmap. by exists (q, F).
  - rewrite Hq in Ht'. simplify_eq. assert (F2 = F) as -> by by eapply leaf_rep_inj.
    assert (e ∈ levels F) as Hbad; [|rewrite HF2 in Hbad; by apply not_elem_of_nil in Hbad].
    apply elem_of_levels. split; [done|]. by eapply list_elem_of_lookup_2.
Qed.

(** Iterating over a side: what is shown is what the iterator meets, and in the
    end the side shows what is left of it, with the same levels hidden. *)
Lemma state_open ctz0 d h p M V W (J : heap K -> Prop) :
  (63 <= ctz0)%nat -> (∀ h h', J h -> away W h h' -> mild h h' -> J h') ->
  J h -> side_state d h p M V W ->
  let Hid := M ∖ lmap d V in
  ∃ S A, Cursor ctz0 (on_view d p S (tend d p W J Hid)) (leafwise S) ∧
    A.*2 = V ∧ NoDup A.*1 ∧ (length A < 64 * size (hmem h) + 1)%nat ∧
    (∀ k0, on_view d p S (tend d p W J Hid) h A (iter0 k0 p) A) ∧
    ∀ h' A' it B, on_view d p S (tend d p W J Hid) h' A' it B ->
      J h' ∧ side_state d h' p (lmap d A'.*2 ∪ Hid) A'.*2 W ∧ lmap d A'.*2 ##ₘ Hid.
Proof.
  intros Hctz HJ HJh Hst Hid. destruct (state_sound _ _ _ _ _ _ Hst) as (Hs & Hlv & Hsub).
  destruct Hst as (X & E & L & C & Hl & HC & HV & HM & HW).
  pose proof (state_reached _ _ _ _ _ _ _ Hl HC) as Hr.
  exists C.*1, (cells (hide_cells h C)). fold (shown h C). pose proof (hide_side _ _ _ _ HC) as HhC.
  assert (C.*1 ⊆ W) as HCW.
  { rewrite HW. intros q Hq. apply elem_of_app. right. by apply (re_on _ _ _ _ _ _ Hr). }
  assert (Cursor ctz0 (on_view d p C.*1 (tend d p W J Hid)) (leafwise C.*1)) as HCur.
  { apply view_cursor; [done|]. by apply tend_tended. }
  assert (∀ k0, on_view d p C.*1 (tend d p W J Hid) h (cells (hide_cells h C)) (iter0 k0 p)
                  (cells (hide_cells h C))) as Ho.
  { intros k0. split; [|split; [by intros q [= ->]; left|]].
    - apply on_side_open; [done|apply hide_cells_addr].
    - constructor; try (fold (shown h C); rewrite HV; done); [done| |].
      + exists X, E, L. fold (shown h C). rewrite HV, HM. split_and!; [done| |done|].
        * unfold Hid. by rewrite map_difference_union.
        * intros vp e. by eapply shown_cell.
      + fold (shown h C). rewrite HV. by apply map_disjoint_difference_r1. }
  split_and!; [done|done|apply cells_NoDup, HhC| |done|].
  - pose proof (cur_fuel (ctz0 := ctz0) _ _ _ _ (Ho knan)). lia.
  - intros h' A' it B ((C' & A1 & HC' & HS & -> & _ & _) & _ & [HJ' _ _ (X' & E' & L' & Hl' & HM' & HW' & _) Hd']).
    destruct (lively_reached _ _ _ _ _ _ Hl') as (C2 & Hr2). pose proof (re_side _ _ _ _ _ _ Hr2) as HC2.
    pose proof (side_fun _ _ _ _ _ _ _ (hide_side _ _ _ _ HC2) HC') as ->.
    split_and!; [done| |done]. exists X', E', L', C2. split_and!; done.
Qed.
End views.
