(* ===== verification/BtreeStateOps.v ===== *)
(** * Operations on sides of any size

    Making a side, [btree_put] and the store to the cell it returns,
    [btree_clr] on a [side_state]: what is stored afterwards, and that the
    other side is not touched. *)

From Stdlib Require Import ZArith Lia.
From stdpp Require Import prelude list gmap fin_maps.
From stdpp Require Import options.
From S2P Require Import Prelude Decimal Btree BtreeLeaf BtreeUsed BtreeIter BtreeSide BtreeCursor.
From S2P Require Import BtreeOps BtreeMap BtreeTree BtreeHide BtreeSight BtreeKids BtreeGrow BtreeThread.
From S2P Require Import BtreeHalves BtreeSplit BtreePut BtreeGrown BtreeLively BtreeStates.

Local Open Scope Z_scope.

Section ops.
Context `{BKey K}.
#[local] Abbreviation entry := (K * btree_val)%type.
Implicit Types (E F V : list entry) (t : btree_s K) (h : heap K) (p q c : positive) (k : K).
Implicit Types (X Y L W : list positive) (M : gmap Z btree_val).

(** ** Making a side *)

Lemma make_away d h h' p : heap_wf h -> make_btree h d = (h', p) -> away [] h h'.
Proof.
  intros Hwf [= <- <-]. split.
  - intros q t. unfold hget. cbn [hmem hnext]. destruct (decide (q = hnext h)) as [->|]; [lia|].
    rewrite lookup_insert_ne by done. intros Hq%Hwf. lia.
  - cbn. lia.
  - intros q t _ Hq. unfold hget. cbn [hmem]. rewrite lookup_insert_ne; [done|].
    intros <-. apply Hwf in Hq. lia.
Qed.

Lemma make_state d h h' p : heap_wf h -> make_btree h d = (h', p) -> side_state d h' p ∅ [] [p; p].
Proof.
  intros Hwf Hm. pose proof (grown_make d h h' p Hwf Hm) as Hg.
  assert (lively d h' p [p] [] [p]) as Hl.
  { split; [done|]. injection Hm as <- <-.
    assert (hget (mk_heap (Pos.succ (hnext h)) (<[hnext h := node0 d]> (hmem h))) (hnext h) =
              Some (node0 d)) as Hp by apply lookup_insert_eq.
    apply threaded_single; [|unfold link; by rewrite Hp]. exists (node0 d), []. split_and!; [done| |].
    - constructor; try done; [simpl; lia|]. exists (replicate 64 ual_zero). by split.
    - unfold word_node. simpl. lia. }
  destruct (lively_state d h' p [p] [] [p] Hl) as (V & HV).
  pose proof (state_sound d h' p _ V _ HV) as (_ & _ & Hsub). destruct V as [|e V]; [done|].
  destruct HV as (X & E & L & C & Hl' & HC & HV & HM & _).
  pose proof (shown_sublist _ _ _ _ _ _ _ Hl' HC) as Hs.
  rewrite HV in Hs. pose proof (grown_size d h' p X E (lv_grown _ _ _ _ _ _ Hl')) as Hsz.
  rewrite HM in Hsz. destruct (levels E); [by apply sublist_nil_r in Hs|done].
Qed.

(** ** [btree_put] *)

(** What had the nodes [W] has the nodes [W'] now, those it had and new ones. *)
Definition moved h h' W W' : Prop :=
  away W h h' ∧ ∀ q, q ∈ W' -> q ∈ W ∨ (hnext h <= q)%positive.

Lemma moved_trans h h1 h2 W W1 W2 : heap_wf h -> moved h h1 W W1 -> moved h1 h2 W1 W2 -> moved h h2 W W2.
Proof.
  intros Hwf [[Hwf1 Hn1 Hk1] H1] [[Hwf2 Hn2 Hk2] H2]. split; [split; [done|lia|]|].
  - intros q t Hq Ht. apply Hk2; [|by apply Hk1]. intros [|]%H1; [done|]. apply Hwf in Ht. lia.
  - intros q [Hq|Hq]%H2; [by apply H1|]. right. lia.
Qed.

Lemma away_refl h W : heap_wf h -> away W h h.
Proof. intros Hwf. by split. Qed.

Lemma away_trans h h1 h2 W : away W h h1 -> away W h1 h2 -> away W h h2.
Proof. intros [_ Hn1 Hk1] [Hwf2 Hn2 Hk2]. split; [done|lia|eauto]. Qed.

Lemma away_weaken h h' W W' : away W h h' -> W ⊆ W' -> away W' h h'.
Proof. intros [Hwf Hn Hk] Hs. split; [done..|]. intros q t Hq. apply Hk. intros Hq'. by apply Hq, Hs. Qed.

Lemma moved_stay h h' W : away W h h' -> moved h h' W W.
Proof. intros Ha. split; [done|]. by left. Qed.

Lemma state_put d h p M V W k z :
  side_state d h p M V W -> ord d k = Some z ->
  ∃ h1 r w (lost : bool), btree_put h p k = Some (h1, r) ∧ load h1 r = Some w ∧ M !! z = val_opt w ∧
    (lost = true -> (62 <= size M)%nat ∧ M !! z = None) ∧
    ∀ v, ∃ h2 V2 W2, poke r v h1 = Some h2 ∧ moved h h2 W W2 ∧
      side_state d h2 p (if lost then M else partial_alter (λ _, val_opt v) z M) V2 W2.
Proof.
  intros (X & E & L & C & Hl & HC & _ & <- & ->) Hz. pose proof Hl as [Hg Hth].
  destruct (btree_put_grown d h p X E k z Hg Hz)
    as (h1 & r & w & X' & E' & lost & Hput & Hld & Hm & _ & _ & _ & _ & Hlost & Hno & Hst).
  exists h1, r, w, lost. split_and!; try done.
  - intros Hb. destruct (Hno Hb) as [Hin HN]. split; [|done]. rewrite (grown_size d h p X E Hg).
    eapply split_lost_full; [done|by apply Hlost|done].
  - intros v. destruct (Hst v) as (h2 & E2 & Hpk & Hg2 & Hgr & Hth2 & HM).
    destruct (Hth2 L Hth) as (L2 & HL2 & Hfrom).
    destruct (lively_state d h2 p X' E2 L2) as (V2 & HV2); [done|].
    exists h2, V2, (X' ++ L2). split_and!; [done|split|by rewrite <- HM].
    + split; [apply Hgr..|]. intros q t Hq. apply (gr_frame _ _ _ _ Hgr). intros HX. apply Hq, elem_of_app. by left.
    + intros q [Hq|Hq]%elem_of_app; rewrite elem_of_app.
      * destruct (gr_new _ _ _ _ Hgr q Hq); tauto.
      * destruct (Hfrom q Hq) as [|[|]]; tauto.
Qed.

(** A side that is one leaf with room: nothing is lost, the level written is
    shown, and so are the others that were, but for one. *)
Lemma solo_put h p k d t F :
  hget h p = Some t -> leaf_rep d t F -> splitp t = (63 <=? length F)%nat -> (length F <= 62)%nat ->
  let G := put_ents d k F in
  ∃ t1, btree_put h p k = Some (hset p t1 h, (p, put_idx d k F)) ∧ leaf_rep d t1 G ∧
    used t1 = put_used d k F (used t).
Proof.
  intros Ht Hr Hsp Hl G. destruct (leaf_add_rep d t F k Hr Hl) as (t' & Hadd & Hr' & _ & Hus).
  unfold btree_put. brun Ht. rewrite Hsp, (proj2 (Nat.leb_gt _ _)) by lia. bstep. brun Ht.
  rewrite (rep_leaf _ _ _ Hr). cbn [negb]. brun Hadd. unfold hupd. rewrite hget_hset_eq. bstep.
  eexists. unfold hset at 1. cbn [hmem hnext hset]. rewrite insert_insert_eq. split; [reflexivity|].
  split; [|done]. by apply (node_like_leaf d t').
Qed.

Lemma state_put_solo d h p M V W k z h1 r v h2 M2 V2 W2 :
  side_state d h p M V W -> solo h p -> ord d k = Some z ->
  btree_put h p k = Some (h1, r) -> poke r v h1 = Some h2 -> side_state d h2 p M2 V2 W2 ->
  M2 = partial_alter (λ _, val_opt v) z M ∧ sighted d z v V V2 ∧ ((size M < 62)%nat -> solo h2 p).
Proof.
  intros Hs (t & Ht & Hi & Hn) Hz Hput Hpk Hs2.
  destruct (leaf_side d h p M V W t Hs Ht Hi) as (F & Hr & Hw & _ & Hsp & Hk & -> & ->).
  rewrite (rep_n _ _ _ Hr) in Hn. destruct (solo_put h p k d t F Ht Hr Hsp Hn) as (t1 & Hput1 & Hr1 & Hu1).
  rewrite Hput1 in Hput. injection Hput as <- <-.
  assert (ksorted d None (put_ents d k F).*1) as Hk1 by by eapply put_ents_sorted.
  destruct (put_cell d None k z F Hk1 Hz) as (e & He & Hez).
  destruct (leaf_rep_poke d t1 _ (put_idx d k F) v e Hr1 He) as (vs & Hst & Hr2).
  unfold poke in Hpk. cbn [fst snd] in Hpk. rewrite hget_hset_eq in Hpk. revert Hpk. bstep. brun Hst. intros [= <-].
  destruct (leaf_side d _ p M2 V2 W2 (set_val vs t1) Hs2) as (F2 & HrF & _ & _ & _ & _ & -> & ->).
  - apply hget_hset_eq.
  - apply (rep_leaf _ _ _ Hr2).
  - assert (F2 = alter (set_ent v) (put_idx d k F) (put_ents d k F)) as -> by by eapply leaf_rep_inj.
    cbn [used set_val]. rewrite Hu1. split_and!.
    + rewrite (alter_map d None _ _ e z v Hk1 He Hez). by rewrite put_levels.
    + by apply (put_sight d None).
    + intros Hsz. eexists. rewrite hget_hset_eq. split_and!; [done|apply (rep_leaf _ _ _ Hr2)|].
      rewrite (rep_n _ _ _ Hr2), length_alter, put_ents_length. destruct (home d k F); [lia|].
      destruct (forallb live F) eqn:Hall; [|lia].
      rewrite (lmap_size d None) in Hsz by by apply levels_sorted.
      assert (levels F = F) as HF; [|rewrite HF in Hsz; lia].
      clear -Hall. induction F as [|e F IH]; [done|]. simpl in Hall. apply andb_prop in Hall as [He HF].
      rewrite levels_cons, He, IH by done. done.
Qed.

(** ** [btree_clr] *)

Lemma clr_chain_vals fuel h p h' :
  clr_chain fuel h p = Some h' -> ∀ q t, hget h q = Some t -> ∃ vs, hget h' q = Some (set_val vs t).
Proof.
  revert h p. induction fuel as [|fuel IH]; intros h p; [done|]. cbn [clr_chain].
  destruct (hget h p) as [t|] eqn:Ht; bstep; [|done].
  unfold clr_leaf. destruct (foldl _ _ _) as [vs|]; bstep; [|done]. cbn [next set_val].
  assert (∀ q tq, hget h q = Some tq -> ∃ vs', hget (hset p (set_val vs t) h) q = Some (set_val vs' tq)) as H1.
  { intros q tq Hq. destruct (decide (q = p)) as [->|Hne].
    - rewrite hget_hset_eq. simplify_eq. eauto.
    - rewrite hget_hset_ne by done. exists (val tq). by destruct tq. }
  destruct (next t) as [r|]; [|by intros [= <-]]. intros Hrun q tq Hq.
  destruct (H1 q tq Hq) as (vs1 & Hq1). destruct (IH _ _ Hrun _ _ Hq1) as (vs2 & Hq2).
  exists vs2. by rewrite Hq2.
Qed.

(** Levels of different nodes have different keys. *)
Lemma levels_apart d (g : positive -> list entry) X q q' e e' z :
  ksorted d None (X ≫= g).*1 -> q ∈ X -> q' ∈ X -> q ≠ q' -> e ∈ g q -> e' ∈ g q' ->
  ord d e.1 = Some z -> ord d e'.1 = Some z -> False.
Proof.
  intros Hs Hq Hq' Hne He He' Hz Hz'. apply list_elem_of_split in Hq as (X1 & X2 & ->).
  rewrite bind_app, bind_cons in Hs. apply list_elem_of_lookup in He as [i Hi].
  pose proof (lookup_lt_Some _ _ _ Hi) as Hlt. set (A := X1 ≫= g) in *. set (B := X2 ≫= g) in *.
  assert ((A ++ g q ++ B) !! (length A + i)%nat = Some e) as Hei.
  { rewrite lookup_app_r by lia. rewrite Nat.add_sub'. by apply lookup_app_l_Some. }
  assert (e' ∈ A ∨ e' ∈ B) as [[j Hj]%list_elem_of_lookup|[j Hj]%list_elem_of_lookup].
  { rewrite elem_of_app, elem_of_cons in Hq'. destruct Hq' as [Hq'|[->|Hq']]; [left|done|right];
      apply list_elem_of_bind; eauto. }
  - pose proof (lookup_lt_Some _ _ _ Hj).
    assert (length A + i = j)%nat; [|lia]. eapply (ksorted_unique d None _ _ _ e e' z Hs Hei); [|done..].
    by apply lookup_app_l_Some.
  - assert (length A + i = length A + (length (g q) + j))%nat; [|lia].
    eapply (ksorted_unique d None _ _ _ e e' z Hs Hei); [|done..].
    rewrite lookup_app_r, Nat.add_sub', lookup_app_r, Nat.add_sub' by lia. done.
Qed.

Lemma sublist_bind_fun {B} (f g : positive -> list B) X :
  (∀ q, q ∈ X -> f q `sublist_of` g q) -> X ≫= f `sublist_of` X ≫= g.
Proof.
  induction X as [|q X IH]; intros Hf; [done|]. rewrite !bind_cons. apply sublist_app; [apply Hf; left|].
  apply IH. intros r Hr. apply Hf. by right.
Qed.

(** The nodes after the chain of leaves is cleared. *)
Section clr.
Context (d : bool) h h' p X E L (C : list (positive * list entry)).
Hypothesis Hl : lively d h p X E L.
Hypothesis HC : side d word_leaf h p C.
Hypothesis Hw : leafwise C.*1 h h'.
Hypothesis HC' : side d used_leaf h' p (clr_cells C).
Hypothesis Hvals : ∀ q t, hget h q = Some t -> ∃ vs, hget h' q = Some (set_val vs t).

Lemma clr_in q : q ∈ C.*1 -> ∃ t t' F, hget h q = Some t ∧ leaf_rep d t F ∧ hget h' q = Some t' ∧
  leaf_rep d t' (nil_ents F) ∧ next t' = next t ∧ used t' = used t.
Proof using HC HC' Hvals.
  intros Hq. destruct HC as (_ & l & _ & Hc). destruct HC' as (_ & l' & _ & Hc').
  apply list_elem_of_fmap in Hq as ([q' F] & -> & Hin). cbn [fst].
  destruct (chain_get _ _ _ _ _ _ _ Hc Hin) as (t & Ht & Hr).
  destruct (Hvals _ _ Ht) as (vs & Ht').
  assert ((q', nil_ents F) ∈ clr_cells C) as Hin' by (unfold clr_cells; apply list_elem_of_fmap; by exists (q', F)).
  destruct (chain_get _ _ _ _ _ _ _ Hc' Hin') as (t' & Ht2 & Hr'). simplify_eq.
  by exists t, (set_val vs t), F.
Qed.

Lemma clr_out q : q ∉ C.*1 -> hget h' q = hget h q.
Proof using Hw. by apply leafwise_other. Qed.

Lemma nil_ents_fst F : (nil_ents F).*1 = F.*1.
Proof. unfold nil_ents. rewrite <- list_fmap_compose. by apply list_fmap_ext. Qed.

Lemma clr_levels q : levels_at h' q = if decide (q ∈ C.*1) then [] else levels_at h q.
Proof using Hw HC HC' Hvals.
  unfold levels_at. case_decide as Hq.
  - destruct (clr_in q Hq) as (t & t' & F & _ & _ & Ht' & Hr' & _).
    rewrite (ents_at _ _ _ _ _ Ht' Hr'). apply nil_ents_levels.
  - unfold ents. by rewrite clr_out.
Qed.

Lemma clr_lively : lively d h' p X (X ≫= ents h') L.
Proof using All.
  pose proof Hl as [[(m & HT) HX Hwf Hsp] [HL Hlk]].
  assert (∀ q, link h' q = link h q ∧ leafb h' q = leafb h q) as Hsame.
  { intros q. unfold link, leafb. destruct (decide (q ∈ C.*1)) as [Hq|Hq]; [|by rewrite clr_out].
    destruct (clr_in q Hq) as (t & t' & F & Ht & Hr & Ht' & Hr' & Hn & _). rewrite Ht, Ht'. simpl.
    by rewrite Hn, (rep_leaf _ _ _ Hr), (rep_leaf _ _ _ Hr'). }
  split; [constructor|split].
  - exists m. eapply ptree_rework; [|exact HT]. intros q t _ Ht. destruct (decide (q ∈ C.*1)) as [Hq|Hq].
    + destruct (clr_in q Hq) as (t2 & t' & F & Ht2 & Hr & Ht' & Hr' & _). simplify_eq.
      exists t'. split; [done|]. rewrite (rep_leaf _ _ _ Hr). intros F2 HF2.
      assert (F2 = F) as -> by by eapply leaf_rep_inj. exists (nil_ents F). split; [done|apply nil_ents_fst].
    + exists t. rewrite clr_out by done. split; [done|]. destruct (innerp t); [done|eauto].
  - done.
  - by eapply leafwise_wf.
  - intros t' Ht'. destruct (ptree_root _ _ _ _ _ _ _ _ _ HT) as [|]; destruct HT as (t & ? & Ht & _);
      destruct (Hvals _ _ Ht) as (vs & Ht2); simplify_eq; exact (Hsp t Ht).
  - eapply threads_same; [exact HL|by intros; apply Hsame|]. intros q Hq.
    split_and!; [|by apply Hsame|].
    + destruct (threads_leaf _ _ _ _ _ HL Hq) as (t & F & Ht & Hr & Hwd).
      destruct (decide (q ∈ C.*1)) as [Hin|Hin]; [|exists t, F; by rewrite clr_out].
      destruct (clr_in q Hin) as (t2 & t' & F' & Ht2 & Hr2 & Ht' & Hr' & _ & Hu). simplify_eq.
      exists t', (nil_ents F'). split_and!; [done..|]. unfold word_node. by rewrite Hu.
    + intros Hn. destruct (th_stray _ _ _ _ HL q Hq Hn) as (t & F & Ht & Hr & HF).
      destruct (decide (q ∈ C.*1)) as [Hin|Hin]; [|exists t, F; by rewrite clr_out].
      destruct (clr_in q Hin) as (t2 & t' & F' & Ht2 & Hr2 & Ht' & Hr' & _). simplify_eq.
      exists t', (nil_ents F'). split_and!; [done..|]. apply nil_ents_levels.
  - rewrite (proj1 (Hsame p)), (proj2 (Hsame p)). exact Hlk.
Qed.

(** The levels on the chain are gone, the others stay. *)
Lemma clr_lmap :
  lmap d (levels (X ≫= ents h')) ⊆ lmap d (levels E) ∧
  lmap d (levels (X ≫= ents h')) ##ₘ lmap d (shown h C).
Proof using All.
  pose proof (state_reached _ _ _ _ _ _ _ Hl HC) as Hr.
  pose proof (lv_grown _ _ _ _ _ _ Hl) as Hg. pose proof (grown_levels _ _ _ _ _ Hg) as HE.
  pose proof (levels_sorted _ _ _ (grown_sorted _ _ _ _ _ Hg)) as Hs.
  assert (levels (X ≫= ents h') = X ≫= levels_at h') as HE' by apply levels_bind.
  rewrite HE'. assert ((X ≫= levels_at h') `sublist_of` levels E) as Hsub.
  { rewrite HE. apply sublist_bind_fun. intros q _. rewrite clr_levels. case_decide; [apply sublist_nil_l|done]. }
  split; [by apply lmap_sublist|]. apply map_disjoint_spec. intros z v v'.
  rewrite (lmap_lookup d None); [|eapply ksorted_sublist; [by apply sublist_fst|done]].
  pose proof (shown_sublist _ _ _ _ _ _ _ Hl HC) as Hsh.
  rewrite (lmap_lookup d None); [|eapply ksorted_sublist; [by apply sublist_fst|done]].
  intros (e & He & Hz & _) (e' & He' & Hz' & _). apply list_elem_of_bind in He as (q & He & Hq).
  rewrite clr_levels in He. case_decide as Hqc; [by apply not_elem_of_nil in He|].
  apply (sublist_subseteq _ _ (shown_chain h C)) in He'. rewrite (reached_levels _ _ _ _ _ _ Hr) in He'.
  apply list_elem_of_bind in He' as (q' & He' & [HqX Hq']%list_elem_of_filter).
  eapply (levels_apart d (levels_at h) X q q' e e' z); try done; [by rewrite <- HE|]. by intros ->.
Qed.
End clr.

Lemma state_clr d h p M V W :
  side_state d h p M V W ->
  ∃ h' M', btree_clr h p = Some h' ∧ side_state d h' p M' [] W ∧ away W h h' ∧ mild h h' ∧
    (solo h p -> M' = ∅) ∧ M' ⊆ M ∧ M' ##ₘ lmap d V.
Proof.
  intros (X & E & L & C & Hl & HC & <- & <- & ->). pose proof (state_reached _ _ _ _ _ _ _ Hl HC) as Hr.
  destruct (btree_clr_side d h p C HC) as (h' & Hrun & Hw & HC').
  assert (∀ q t, hget h q = Some t -> ∃ vs, hget h' q = Some (set_val vs t)) as Hvals.
  { unfold btree_clr in Hrun. destruct (leftmost _ _ _); [|done]. by eapply clr_chain_vals. }
  exists h', (lmap d (levels (X ≫= ents h'))). split; [done|]. split; [|split; [|split; [|split]]].
  - exists X, (X ≫= ents h'), L, (clr_cells C). split_and!; [by eapply clr_lively| | |done..].
    + destruct HC' as (Hd & l & Hll & Hc). split; [done|]. exists l. split; [done|].
      eapply chain_weaken; [|exact Hc]. intros t F. apply used_word.
    + pose proof (shown_chain h' (clr_cells C)) as Hs. rewrite clr_cells_nil in Hs.
      by apply sublist_nil_r in Hs.
  - eapply leafwise_away; [done| |apply (gn_wf _ _ _ _ _ (lv_grown _ _ _ _ _ _ Hl))].
    intros q Hq. apply elem_of_app. right. by apply (re_on _ _ _ _ _ _ Hr).
  - intros q t Ht. destruct (Hvals q t Ht) as (vs & Ht'). exists (used t), vs. rewrite Ht'. by destruct t.
  - intros (t & Ht & Hi & _). pose proof Hl as [[(m & HT) _ _ _] _].
    pose proof HT as (t0 & X0 & Ht0 & HX & _ & Hok). simplify_eq. destruct m as [|m].
    2: { by rewrite (node_ok_inner _ _ (S m) _ _ _ _ _ ltac:(done) Hok) in Hi. }
    destruct Hok as (_ & _ & ->). rewrite levels_bind. cbn. rewrite app_nil_r.
    change (levels (ents h' p)) with (levels_at h' p).
    rewrite (clr_levels d h h' p C HC Hw HC' Hvals). rewrite decide_True; [done|].
    destruct (side_here d _ h p C t HC Ht Hi) as (F & C' & -> & _). left.
  - by eapply clr_lmap.
Qed.
End ops.
