(* ===== verification/BtreeUnwind.v ===== *)
(** * Putting the level an iterator shows

    [btree_put] of the level that an iterator has just shown, on a side that is one
    leaf with room: it returns the very cell and leaves the heap as it is, so
    the iteration can go on. *)

From Stdlib Require Import ZArith Lia.
From stdpp Require Import prelude list gmap fin_maps.
From stdpp Require Import options.
From S2P Require Import Prelude Decimal Btree BtreeLeaf BtreeUsed BtreeIter BtreeSide BtreeCursor.
From S2P Require Import BtreeOps BtreeMap BtreeTree BtreeHide BtreeSight BtreeKids BtreeGrow BtreeThread.
From S2P Require Import BtreeHalves BtreeSplit BtreePut BtreeGrown BtreeLively BtreeStates BtreeStateOps.

Local Open Scope Z_scope.

Section unwind.
Context `{BKey K}.
#[local] Abbreviation entry := (K * btree_val)%type.
Implicit Types (E F V : list entry) (t : btree_s K) (h : heap K) (p q c : positive) (k : K).
Implicit Types (A L : list (vptr * entry)).

(** A key of a leaf is found where it is. *)
Lemma place_self d b E j e :
  ksorted d b E.*1 -> E !! j = Some e -> place d e.1 E = j ∧ home d e.1 E = true.
Proof.
  unfold home. revert b j. induction E as [|e0 E IH]; intros b [|j] Hs Hj; try done; cbn [place];
    inversion Hs as [|b' k0 z0 ks Hz0 _ Hs' E1 E2]; subst.
  - injection Hj as ->. rewrite (before_spec d e.1 e.1 z0 z0 Hz0 Hz0), Z.ltb_irrefl. cbn.
    by rewrite (keq_spec d e.1 e.1 z0 z0 Hz0 Hz0), Z.eqb_refl.
  - cbn in Hj. destruct (ksorted_lookup d _ E.*1 j e.1 Hs') as (z & Hz & Hlt).
    { rewrite list_lookup_fmap. by apply (f_equal (fmap fst)) in Hj. }
    rewrite (before_spec d e0.1 e.1 z0 z Hz0 Hz), (proj2 (Z.ltb_lt z0 z)) by by apply Hlt.
    destruct (IH _ j Hs' Hj) as [-> Hh]. by split.
Qed.

(** Putting a key whose [used] bit is set changes nothing. *)
Lemma put_same h p d t F j e :
  hget h p = Some t -> leaf_rep d t F -> splitp t = (63 <=? length F)%nat -> (length F <= 62)%nat ->
  ksorted d None F.*1 -> F !! j = Some e -> Z.testbit (used t) (Z.of_nat j) = true ->
  btree_put h p e.1 = Some (h, (p, j)).
Proof.
  intros Ht Hr Hsp Hl Hs Hj Hb. destruct (place_self d None F j e Hs Hj) as [Hp Hh].
  assert (leaf_add t e.1 = Some (t, j, splitp t)) as Hadd.
  { unfold leaf_add. brun (key_scan_spec d t F e.1 Hr).
    destruct (key_at_place d t F e.1 Hr) as (ki & Hki & Hkeq). brun Hki.
    rewrite Hkeq, Hh, Hp. bstep. rewrite Hsp, (rep_n _ _ _ Hr). do 3 f_equal.
    assert (Z.lor (used t) (Z.shiftl 1 (Z.of_nat j)) = used t) as ->; [|by destruct t].
    apply Z.bits_inj'. intros i Hi. rewrite lor_bit_testbit by lia.
    destruct (Z.eqb_spec i (Z.of_nat j)) as [->|]; [by rewrite Hb|by rewrite orb_false_r]. }
  unfold btree_put. brun Ht. rewrite Hsp, (proj2 (Nat.leb_gt 63 _)) by lia. bstep. brun Ht.
  rewrite (rep_leaf _ _ _ Hr). cbn [negb]. brun Hadd. unfold hupd. rewrite hget_hset_eq. bstep.
  assert (hset p (set_splitp (splitp t) t) (hset p t h) = h) as ->; [|done].
  unfold hset. cbn [hmem hnext]. rewrite insert_insert_eq.
  replace (set_splitp (splitp t) t) with t by by destruct t. rewrite insert_id by done. by destruct h.
Qed.

(** The level shown by an iterator over a side that is one leaf. *)
Lemma view_put d p S W (J : heap K -> Prop) Hid h A it L vp e :
  on_view d p S (tend d p W J Hid) h A it L -> (vp, e) ∈ A -> solo h p ->
  btree_put h p e.1 = Some (h, vp).
Proof.
  intros (Hs & _ & [_ _ _ (X & E & Lv & Hl & _ & _ & HA) _]) Hin (t & Ht & Hi & Hn).
  destruct (HA vp e Hin) as (HX & t' & F & Ht' & Hr & He).
  pose proof (lv_grown _ _ _ _ _ _ Hl) as Hg. pose proof Hg as [(m & HT) _ _ Hsp].
  destruct HT as (t0 & X0 & Ht0 & -> & _ & Hok). simplify_eq. destruct m as [|m].
  2: { by rewrite (node_ok_inner _ _ (Datatypes.S m) _ _ _ _ _ ltac:(done) Hok) in Hi. }
  destruct Hok as (Hr0 & _ & ->). apply list_elem_of_singleton in HX. destruct vp as [q j]. cbn [fst snd] in *.
  subst q. simplify_eq. assert (F = E) as -> by by eapply leaf_rep_inj.
  apply (put_same h p d t E j e); try done.
  - by rewrite (Hsp _ Ht), (rep_n _ _ _ Hr).
  - by rewrite <- (rep_n _ _ _ Hr).
  - by eapply grown_sorted.
  - destruct Hs as (C & A1 & Hsd & _ & -> & _). destruct Hsd as (_ & l & _ & Hc).
    assert (∃ G t1, hget (hide h) p = Some t1 ∧ leaf_rep d t1 G ∧ G !! j = Some e ∧ live e = true)
      as (G & t1 & Ht1 & Hr1 & HG & Hlv).
    { clear -Hc Hin. induction Hc as [|q t1 G C Ht1 Hr1 _ _ IH]; [by apply not_elem_of_nil in Hin|].
      rewrite cells_cons in Hin. apply elem_of_app in Hin as [Hin|Hin]; [|by apply IH].
      apply live_at_elem in Hin as (Hq & _ & HG & Hlv). cbn [fst snd] in *. rewrite Nat.sub_0_r in HG. subst q.
      by exists G, t1. }
    destruct (hide_val h (p, j) e.2) as (t2 & Ht2 & _ & Hb); cbn [fst snd] in *.
    + unfold load. cbn [fst snd]. brun Ht1. exact (rep_cell _ _ _ _ _ Hr1 HG).
    + unfold live in Hlv. by destruct (btree_val_nil_p e.2).
    + intros t2 Ht2. by simplify_eq.
    + by simplify_eq.
Qed.
End unwind.
