(* ===== verification/Books.v ===== *)
(** * books.c: order books on two trees

    [quos[0]] holds the asks, best (lowest) price first, [quos[1]] the bids,
    best (highest) price first.  books.c is compiled for two price types; the
    section below is generic in the cast to [px_t] and in [quantizepx], and
    its end instantiates it for [BOOKSD64], the build of the tools. *)

From Stdlib Require Import ZArith Lia.
From stdpp Require Import prelude list gmap.
From stdpp Require Import options.
From S2P Require Import Prelude Decimal Dfp754D64 Btree.

Local Open Scope Z_scope.

(** ** Times *)

Definition NATV : Z := 2 ^ 64 - 1.
Definition NSECS : Z := 1000000000.
Definition USECS : Z := 1000000.
Definition MSECS : Z := 1000.

Definition min_tv (t1 t2 : Z) : Z := if t1 <=? t2 then t1 else t2.
Definition max_tv (t1 t2 : Z) : Z := if t2 <=? t1 then t1 else t2.

(** ** Quotes *)

(** [book_side_t] and [book_lvl_t]: the parser stores numbers outside of the
    enumerations in these types, so they are kept as integers. *)
Definition BOOK_SIDE_UNK : Z := 0.
Definition BOOK_SIDE_ASK : Z := 1.
Definition BOOK_SIDE_BID : Z := 2.
Definition BOOK_SIDE_CLR : Z := 3.
Definition BOOK_SIDE_DEL : Z := 4.
Definition NBOOK_SIDES : Z := 5.
Definition BOOK_LVL_0 : Z := 0.
Definition BOOK_LVL_1 : Z := 1.
Definition BOOK_LVL_2 : Z := 2.
Definition BOOK_LVL_3 : Z := 3.

(** Prices as keys; [_Decimal32] and [_Decimal64] compare alike. *)
#[export] Instance dec_key : BKey dec := {|
  krank := drank; knan := DNan; krank_nan := eq_refl;
|}.

Abbreviation bheap := (heap dec).
Abbreviation biter := (btree_iter dec).

Record book_t := mk_book { quo_ask : positive; quo_bid : positive }.

Record book_quo := mk_quo { qs : Z; qf : Z; qp : dec; qq : dec; qt : Z }.

(** All bits zero, as a decimal member of a partially initialised struct. *)
Definition dzeroed : dec := bobs64 0.
Definition NOT_A_QUO : book_quo := mk_quo BOOK_SIDE_UNK 0 dzeroed dzeroed 0.
Definition NOT_A_QUO_P (q : book_quo) : bool := qs q =? 0.

Record book_pdo_t := mk_pdo { base : dec; term : dec; yngt : Z; oldt : Z }.

(** [b.BOOK(s)]; other sides index outside of [quos]. *)
Definition BOOK (b : book_t) (s : Z) : option positive :=
  if s =? BOOK_SIDE_ASK then Some (quo_ask b)
  else if s =? BOOK_SIDE_BID then Some (quo_bid b) else None.

Definition make_book (h : bheap) : bheap * book_t :=
  let '(h, a) := make_btree h false in
  let '(h, b) := make_btree h true in
  (h, mk_book a b).

Definition free_book (h : bheap) (b : book_t) : option bheap :=
  h ← free_btree (height_fuel h) h (quo_ask b);
  free_btree (height_fuel h) h (quo_bid b).

(** Iterations of a [for (...; btree_iter_next(&i);)] loop never exceed the
    number of cells in the heap, plus the last, failing call. *)
Definition cells_fuel (h : bheap) : nat := S (64 * size (hmem h)).

Definition book_clr (h : bheap) (b : book_t) : option bheap :=
  h ← btree_clr h (quo_bid b);
  btree_clr h (quo_ask b).

Section books.
Variable ctz0 : nat.
(** The cast [(px_t)] and [quantizepx]. *)
Variable px_cast : dec -> dec.
Variable quantizepx : dec -> dec -> dec.

Definition quantizeqx : dec -> dec -> dec := quantized64.

Definition iter (p : positive) : biter := iter0 dzeroed p.

(** [BOOK_SIDE_DEL]'s loops: a quote traded through is emptied, the one
    traded at is reduced. *)
Fixpoint del_loop (fuel : nat) (beyond at_ : dec -> dec -> bool) (h : bheap)
    (i : biter) (q : book_quo) : option bheap :=
  match fuel with
  | O => None
  | S fuel =>
    '(h, i, b) ← btree_iter_next ctz0 h i;
    if (b : bool) && at_ (it_k i) (qp q) then
      vp ← it_v i;
      v ← load h vp;
      let x := if beyond (it_k i) (qp q) then dzero else dsub (vq v) (qq q) in
      h ← poke vp (mk_val x (vt v)) h;
      del_loop fuel beyond at_ h i q
    else Some h
  end.

(** Exchange the cell at [q]'s level: store [x] and [q]'s time, hand back
    the old quantity and time. *)
Definition swap_cell (h : bheap) (vp : vptr) (f : btree_val -> dec) (q : book_quo) :
    option (bheap * book_quo) :=
  tmp ← load h vp;
  let o := vq tmp in
  let t := vt tmp in
  h ← poke vp (mk_val (f tmp) (qt q)) h;
  Some (h, mk_quo (qs q) (qf q) (qp q) o t).

Definition book_add (h : bheap) (b : book_t) (q : book_quo) :
    option (bheap * book_quo) :=
  if (qs q =? BOOK_SIDE_BID) || (qs q =? BOOK_SIDE_ASK) then
    p ← BOOK b (qs q);
    if qf q =? BOOK_LVL_3 then
      '(h, vp) ← btree_put h p (qp q);
      swap_cell h vp (fun tmp => let s := dadd (qq q) (vq tmp) in
                                 if dge s dzero then s else dzero) q
    else if qf q =? BOOK_LVL_2 then
      '(h, vp) ← btree_put h p (qp q);
      swap_cell h vp (fun _ => qq q) q
    else if qf q =? BOOK_LVL_1 then
      if dlt (qq q) dzero then Some (h, NOT_A_QUO)
      else
        h ← btree_clr h p;
        if is_nan (qp q) then Some (h, q)
        else
          '(h, vp) ← btree_put h p (qp q);
          swap_cell h vp (fun _ => qq q) q
    else Some (h, NOT_A_QUO)
  else if qs q =? BOOK_SIDE_CLR then
    h ← book_clr h b; Some (h, q)
  else if qs q =? BOOK_SIDE_DEL then
    h ← del_loop (cells_fuel h) dlt dle h
          (iter (quo_ask b)) q;
    h ← del_loop (cells_fuel h) dgt dge h
          (iter (quo_bid b)) q;
    Some (h, q)
  else Some (h, NOT_A_QUO).

(** One of the loops of [book_exp]. *)
Fixpoint exp_loop (fuel : nat) (h : bheap) (i : biter) (t : Z) : option bheap :=
  match fuel with
  | O => None
  | S fuel =>
    '(h, i, b) ← btree_iter_next ctz0 h i;
    if (b : bool) then
      vp ← it_v i;
      v ← load h vp;
      h ← if vt v <=? t then poke vp btree_val_nil h else Some h;
      exp_loop fuel h i t
    else Some h
  end.

Definition book_exp (h : bheap) (b : book_t) (t : Z) : option bheap :=
  if t =? 0 then Some h
  else if t =? NATV then book_clr h b
  else
    h ← exp_loop (cells_fuel h) h (iter (quo_ask b)) t;
    exp_loop (cells_fuel h) h (iter (quo_bid b)) t.

Definition book_top (h : bheap) (b : book_t) (s : Z) : option (bheap * book_quo) :=
  p ← BOOK b s;
  '(h, i, ok) ← btree_iter_next ctz0 h (iter p);
  if negb ok then Some (h, NOT_A_QUO)
  else
    vp ← it_v i;
    v ← load h vp;
    Some (h, mk_quo s BOOK_LVL_1 (it_k i) (vq v) (vt v)).

(** The levels written to [p] and [q]; their number is the result. *)
Fixpoint tops_loop (n : nat) (h : bheap) (i : biter) (acc : list (dec * dec)) :
    option (bheap * list (dec * dec)) :=
  match n with
  | O => Some (h, acc)
  | S n =>
    '(h, i, ok) ← btree_iter_next ctz0 h i;
    if (ok : bool) then
      vp ← it_v i;
      v ← load h vp;
      tops_loop n h i (acc ++ [(it_k i, vq v)])
    else Some (h, acc)
  end.

Definition book_tops (h : bheap) (b : book_t) (s : Z) (n : nat) :
    option (bheap * list (dec * dec)) :=
  p ← BOOK b s;
  tops_loop n h (iter p) [].

(** Label [only_p]: without an array for the quantities. *)
Fixpoint tops_p_loop (n : nat) (h : bheap) (i : biter) (acc : list dec) :
    option (bheap * list dec) :=
  match n with
  | O => Some (h, acc)
  | S n =>
    '(h, i, ok) ← btree_iter_next ctz0 h i;
    if (ok : bool) then tops_p_loop n h i (acc ++ [it_k i]) else Some (h, acc)
  end.

Definition book_tops_p (h : bheap) (b : book_t) (s : Z) (n : nat) :
    option (bheap * list dec) :=
  p ← BOOK b s;
  tops_p_loop n h (iter p) [].

(** [for (; more P Q && btree_iter_next(&i);)] with [P += i.k * i.v->q] and
    [Q += i.v->q]. *)
Fixpoint accum_loop (fuel : nat) (more : dec -> dec -> bool) (h : bheap)
    (i : biter) (P Q : dec) : option (bheap * biter * dec * dec) :=
  match fuel with
  | O => None
  | S fuel =>
    if more P Q then
      '(h, i, ok) ← btree_iter_next ctz0 h i;
      if (ok : bool) then
        vp ← it_v i;
        v ← load h vp;
        accum_loop fuel more h i (dadd P (dmul (it_k i) (vq v))) (dadd Q (vq v))
      else Some (h, i, P, Q)
    else Some (h, i, P, Q)
  end.

Definition book_ctop (h : bheap) (b : book_t) (s : Z) (q : dec) :
    option (bheap * book_quo) :=
  p ← BOOK b s;
  '(h, i, P, Q) ← accum_loop (cells_fuel h) (fun _ Q => dlt Q q) h (iter p) dzero dzero;
  if dlt Q q then Some (h, NOT_A_QUO)
  else
    let P := if dgt Q q then dsub P (dmul (it_k i) (dsub Q q)) else P in
    vp ← it_v i;
    v ← load h vp;
    Some (h, mk_quo s BOOK_LVL_1 (quantizepx (px_cast (ddiv P q)) (it_k i))
                    (quantizeqx q (vq v)) (vt v)).

Fixpoint ctops_loop (n : nat) (h : bheap) (i : biter) (c C R Q : dec)
    (acc : list (dec * dec)) : option (bheap * list (dec * dec)) :=
  match n with
  | O => Some (h, acc)
  | S n =>
    '(h, i, c, C) ← accum_loop (cells_fuel h) (fun _ C => dlt C R) h i c C;
    if dlt C R then Some (h, acc)
    else
      vp ← it_v i;
      v ← load h vp;
      let px := quantizepx
        (px_cast (ddiv (dsub c (dmul (it_k i) (dsub C R))) R)) (it_k i) in
      ctops_loop n h i c C (dadd R Q) Q (acc ++ [(px, quantizeqx R (vq v))])
  end.

Definition book_ctops (h : bheap) (b : book_t) (s : Z) (Q : dec) (n : nat) :
    option (bheap * list (dec * dec)) :=
  p ← BOOK b s;
  ctops_loop n h (iter p) dzero dzero Q Q [].

Fixpoint ctops_p_loop (n : nat) (h : bheap) (i : biter) (c C R Q : dec)
    (acc : list dec) : option (bheap * list dec) :=
  match n with
  | O => Some (h, acc)
  | S n =>
    '(h, i, c, C) ← accum_loop (cells_fuel h) (fun _ C => dlt C R) h i c C;
    if dlt C R then Some (h, acc)
    else
      let px := quantizepx
        (px_cast (ddiv (dsub c (dmul (it_k i) (dsub C R))) R)) (it_k i) in
      ctops_p_loop n h i c C (dadd R Q) Q (acc ++ [px])
  end.

Definition book_ctops_p (h : bheap) (b : book_t) (s : Z) (Q : dec) (n : nat) :
    option (bheap * list dec) :=
  p ← BOOK b s;
  ctops_p_loop n h (iter p) dzero dzero Q Q [].

Definition book_vtop (h : bheap) (b : book_t) (s : Z) (v : dec) :
    option (bheap * book_quo) :=
  p ← BOOK b s;
  '(h, i, P, Q) ← accum_loop (cells_fuel h) (fun P _ => dlt P v) h (iter p) dzero dzero;
  if dlt P v then Some (h, NOT_A_QUO)
  else
    let Q := if dgt P v then dsub Q (ddiv (dsub P v) (it_k i)) else Q in
    vp ← it_v i;
    w ← load h vp;
    Some (h, mk_quo s BOOK_LVL_1 (quantizepx (px_cast (ddiv v Q)) (it_k i))
                    (quantizeqx Q (vq w)) (vt w)).

Fixpoint vtops_loop (n : nat) (h : bheap) (i : biter) (c C r v : dec)
    (acc : list (dec * dec)) : option (bheap * list (dec * dec)) :=
  match n with
  | O => Some (h, acc)
  | S n =>
    '(h, i, c, C) ← accum_loop (cells_fuel h) (fun c _ => dlt c r) h i c C;
    if dlt c r then Some (h, acc)
    else
      let Q := dsub C (ddiv (dsub c r) (it_k i)) in
      vp ← it_v i;
      w ← load h vp;
      let px := quantizepx (px_cast (ddiv r Q)) (it_k i) in
      vtops_loop n h i c C (dadd r v) v (acc ++ [(px, quantizeqx Q (vq w))])
  end.

Definition book_vtops (h : bheap) (b : book_t) (s : Z) (v : dec) (n : nat) :
    option (bheap * list (dec * dec)) :=
  p ← BOOK b s;
  vtops_loop n h (iter p) dzero dzero v v [].

Fixpoint vtops_p_loop (n : nat) (h : bheap) (i : biter) (c C r v : dec)
    (acc : list dec) : option (bheap * list dec) :=
  match n with
  | O => Some (h, acc)
  | S n =>
    '(h, i, c, C) ← accum_loop (cells_fuel h) (fun c _ => dlt c r) h i c C;
    if dlt c r then Some (h, acc)
    else
      let Q := dsub C (ddiv (dsub c r) (it_k i)) in
      let px := quantizepx (px_cast (ddiv r Q)) (it_k i) in
      vtops_p_loop n h i c C (dadd r v) v (acc ++ [px])
  end.

Definition book_vtops_p (h : bheap) (b : book_t) (s : Z) (v : dec) (n : nat) :
    option (bheap * list dec) :=
  p ← BOOK b s;
  vtops_p_loop n h (iter p) dzero dzero v v [].

(** The loop of [book_pdo] over the limit [lmt]. *)
Fixpoint pdo_loop (fuel : nat) (s : Z) (lmt : dec) (h : bheap) (i : biter)
    (q : dec) (r : book_pdo_t) : option (bheap * book_pdo_t) :=
  match fuel with
  | O => None
  | S fuel =>
    if dgt q dzero then
      '(h, i, ok) ← btree_iter_next ctz0 h i;
      if (ok : bool) &&
         ((s =? BOOK_SIDE_BID) && dge (it_k i) lmt ||
          (s =? BOOK_SIDE_ASK) && dle (it_k i) lmt) then
        vp ← it_v i;
        v ← load h vp;
        let Q := if dle (vq v) q then vq v else q in
        let r := mk_pdo (dadd (base r) Q) (dadd (term r) (dmul (it_k i) Q))
                        (max_tv (yngt r) (vt v)) (min_tv (oldt r) (vt v)) in
        pdo_loop fuel s lmt h i (dsub q Q) r
      else Some (h, r)
    else Some (h, r)
  end.

Definition book_pdo (h : bheap) (b : book_t) (s : Z) (q lmt : dec) :
    option (bheap * book_pdo_t) :=
  let r := mk_pdo dzero dzero 0 NATV in
  let lmt := if negb (is_nan lmt) then lmt
             else if s =? BOOK_SIDE_BID then DInf true
             else if s =? BOOK_SIDE_ASK then DInf false
             else lmt in
  p ← BOOK b s;
  pdo_loop (cells_fuel h) s lmt h (iter p) q r.

(** ** The public iterator *)

Definition book_iter (b : book_t) (s : Z) : option biter :=
  p ← BOOK b s; Some (iter p).

(** The iterator, and [iter->q] and [iter->t] when there is a next quote. *)
Definition book_iter_next (h : bheap) (i : biter) :
    option (bheap * biter * option btree_val) :=
  '(h, i, ok) ← btree_iter_next ctz0 h i;
  if (ok : bool) then vp ← it_v i; tmp ← load h vp; Some (h, i, Some tmp)
  else Some (h, i, None).
End books.

(** ** The [BOOKSD64] instance *)

Definition px_cast64 (x : dec) : dec := x.
Definition bookd64_ctop (ctz0 : nat) := book_ctop ctz0 px_cast64 quantized64.
Definition bookd64_ctops (ctz0 : nat) := book_ctops ctz0 px_cast64 quantized64.
Definition bookd64_vtop (ctz0 : nat) := book_vtop ctz0 px_cast64 quantized64.
Definition bookd64_vtops (ctz0 : nat) := book_vtops ctz0 px_cast64 quantized64.
