(* ===== verification/BtreeTheorems.v ===== *)
(** * btree.c: the theorems

    What the tree promises its clients, stated on the operations of btree.c,
    and the places where it does not keep the promise: a level whose [used] bit
    is lost when a stale cell is reused, and levels that no iterator sees after
    the root was split.  Each theorem with hypotheses is followed by an instance
    on a concrete tree of decimal prices. *)

From Stdlib Require Import ZArith Lia.
From stdpp Require Import prelude list gmap fin_maps.
From stdpp Require Import options.
From S2P Require Import Prelude Decimal Btree BtreeLeaf BtreeUsed BtreeIter BtreeSide BtreeOps.
From S2P Require Import BtreeMap BtreeTree BtreeSplit Books.

Local Open Scope Z_scope.

Section theorems.
Context `{BKey K}.
#[local] Abbreviation entry := (K * btree_val)%type.
Implicit Types (E : list entry) (k : K) (h : heap K) (p : positive).

(** [*btree_put(t, k) = v] on a root leaf with room is an update of the
    finite map of levels at [k] (a nil [v] deletes), the pointer returned leads
    to the old value, the order of the keys is kept and no other node is
    touched. *)
Theorem btree_put_correct d h p E u k z v :
  leaf_side d h p E u -> ksorted d None E.*1 -> (length E <= 62)%nat -> ord d k = Some z ->
  ∃ h1 h2 vp w E' u',
    btree_put h p k = Some (h1, vp) ∧ load h1 vp = Some w ∧ poke vp v h1 = Some h2 ∧
    leaf_side d h2 p E' u' ∧ ksorted d None E'.*1 ∧
    lmap d (levels E) !! z = val_opt w ∧
    lmap d (levels E') = partial_alter (λ _, val_opt v) z (lmap d (levels E)) ∧
    ∀ q, q ≠ p -> hget h2 q = hget h q.
Proof.
  intros Hs Hk Hl Hz.
  destruct (put_store_leaf d h p E u k v Hs Hl) as (h1 & h2 & Hput & Hload & Hpoke & Hw & Hs2).
  exists h1, h2, (p, put_idx d k E), (prior d k E), (upsert d k v E), (put_used d k E u).
  split_and!; try done.
  - by eapply upsert_sorted.
  - by apply prior_map.
  - by apply upsert_map.
  - intros q Hq. apply (leafwise_other [p] h h2 q Hw). by rewrite list_elem_of_singleton.
Qed.

(** C15: [*btree_put(t, k) = v] in a tree that is a single leaf of at most 62 cells,
    in order, all of whose levels iterators see: unless [k] is NaN, the map of levels is updated at [k],
    and iterators see every level of the updated map, provided the cell that is
    reused carries no stale [used] bit (or no level has to move across it).  No other
    node changes. *)
Theorem btree_put_visible d h p E u k z v :
  leaf_side d h p E u -> used_ok u E -> ksorted d None E.*1 -> ord d k = Some z ->
  (length E <= 62)%nat -> used_safe d k E u ->
  ∃ h1 h2 vp E' u',
    btree_put h p k = Some (h1, vp) ∧ poke vp v h1 = Some h2 ∧
    leaf_side d h2 p E' u' ∧ ksorted d None E'.*1 ∧ side d used_leaf h2 p [(p, E')] ∧
    lmap d (levels E') = partial_alter (λ _, val_opt v) z (lmap d (levels E)) ∧
    ∀ q, q ≠ p -> hget h2 q = hget h q.
Proof.
  intros Hs Hok Hsort Hz Hl Hsafe.
  destruct (put_store_leaf d h p E u k v Hs Hl) as (h1 & h2 & Hput & _ & Hpoke & Hw & Hs2).
  exists h1, h2, (p, put_idx d k E), (upsert d k v E), (put_used d k E u).
  split_and!; try done.
  - by eapply upsert_sorted.
  - eapply leaf_side_side; [done|]. by apply used_ok_upsert.
  - by apply upsert_map.
  - intros q Hq. eapply leafwise_other; [exact Hw|set_solver].
Qed.

(** C29: in [btree_put], when the reused cell has a stale bit and levels move
    across it, the level next to it loses its bit: it stays in the leaf but no
    longer counts as used. *)
Theorem btree_put_hides d h p E u k :
  leaf_side d h p E u -> used_ok u E -> (length E <= 62)%nat -> ¬ used_safe d k E u ->
  ∃ h' vp t' E' j e, btree_put h p k = Some (h', vp) ∧ hget h' p = Some t' ∧
    leaf_rep d t' E' ∧ E' !! j = Some e ∧ live e = true ∧ e ∈ levels E ∧
    Z.testbit (used t') (Z.of_nat j) = false.
Proof.
  intros Hs Hok Hl Hun.
  destruct (btree_put_leaf d h p E u k Hs Hl) as (h' & Hput & _ & (t' & Ht & Hr & Hu & _)).
  destruct (used_lost_put d k E u Hok Hl Hun) as (e & j & He & Hlive & Hj & Hbit).
  exists h', (p, put_idx d k E), t', (put_ents d k E), j, e.
  split_and!; try done; [|by rewrite Hu].
  apply elem_of_levels. split; [done|]. by eapply list_elem_of_lookup_2.
Qed.

(** C23: [btree_get] in a tree of any height returns the cell of the level, and
    nothing (or a cell that counts as nil) when there is no such level; the
    descent terminates. *)
Theorem btree_get_correct d h m p E k z :
  tree d h m p None None E -> ord d k = Some z ->
  ∃ r, btree_get h p k = Some r ∧
    match r with
    | Some vp => ∃ v, load h vp = Some v ∧ lmap d (levels E) !! z = val_opt v
    | None => lmap d (levels E) !! z = None
    end.
Proof. apply btree_get_tree. Qed.

(** [btree_rem] returns the level and deletes it from the map, and every
    other level stays visible. *)
Theorem btree_rem_correct d h p E u k z :
  leaf_side d h p E u -> ksorted d None E.*1 -> ord d k = Some z ->
  ∃ h' w E', btree_rem h p k = Some (h', w) ∧ leaf_side d h' p E' u ∧ E'.*1 = E.*1 ∧
    (used_ok u E -> used_ok u E') ∧
    lmap d (levels E) !! z = val_opt w ∧
    lmap d (levels E') = delete z (lmap d (levels E)).
Proof.
  intros Hs Hk Hz. destruct (btree_rem_map d h p E u k z Hs Hk Hz)
    as (h' & w & E' & H1 & _ & H2 & H3 & H4 & H5 & H6).
  exists h', w, E'. done.
Qed.

(** C26: [btree_clr] empties every leaf of the side, whatever the [used] words
    were, touches no other node, and leaves a side iterators agree with. *)
Theorem btree_clr_correct d h p C :
  side d word_leaf h p C ->
  ∃ h', btree_clr h p = Some h' ∧ side d used_leaf h' p (clr_cells C) ∧
        cells (clr_cells C) = [] ∧ ∀ q, q ∉ C.*1 -> hget h' q = hget h q.
Proof.
  intros Hs. destruct (btree_clr_side d h p C Hs) as (h' & H1 & Hw & H2).
  exists h'. split_and!; [done..|apply clr_cells_nil|]. intros q. by apply leafwise_other.
Qed.

(** [btree_top] finds the first level of the chain, whether or not its
    [used] bit is set. *)
Theorem btree_top_correct d h p C :
  side d any_leaf h p C ->
  btree_top h p = Some ((λ c, (c.2.1, c.1)) <$> head (cells C)).
Proof. apply btree_top_side. Qed.

(** C16: an iterator over a side whose levels all have their bits set yields the
    next level ahead (its key, and a pointer to its value), or reports the end
    if there is none; the heap changes in [used] bits of dead cells only.  This
    holds for any result of [__builtin_ctzll(0)]. *)
Theorem btree_iter_next_correct ctz0 d h it L :
  iter_at d h it L ->
  ∃ h' it' b, btree_iter_next ctz0 h it = Some (h', it', b) ∧ pruned h h' ∧
    match L with
    | [] => b = false ∧ it_v it' = None ∧ iter_at d h' it' []
    | (vp, e) :: L' => b = true ∧ it_v it' = Some vp ∧ it_k it' = e.1 ∧
                       load h' vp = Some e.2 ∧ iter_at d h' it' L'
    end.
Proof.
  intros Hi. destruct (iter_next_spec ctz0 d h it L Hi) as (h' & it' & b & H1 & H2 & H3).
  exists h', it', b. split_and!; [done..|]. destruct L as [|[vp e] L]; [done|].
  destruct H3 as (? & ? & ? & Hl%live_vp_load & ?). done.
Qed.

(** [root_split] turns a full root leaf into a tree of height one over the
    same entries, in the same order, its leaves chained left to right. *)
Theorem root_split_correct d h p t E :
  heap_wf h -> hget h p = Some t -> leaf_rep d t E -> within d None None E ->
  length E = 63%nat ->
  ∃ h' l r, root_split h p = Some h' ∧ tree d h' 1 p None None E ∧
    side d any_leaf h' p [(l, take 32 E); (r, drop 32 E)].
Proof.
  intros Hwf Ht Hr Hw Hl.
  destruct (root_split_tree d h p t E Hwf Ht Hr Hw Hl) as (h' & l & r & H1 & H2 & (Hd & H3) & _).
  exists h', l, r. split_and!; [done..|]. split; [done|].
  destruct H3 as (x & Hx & Hc). exists x. split; [done|]. by eapply chain_weaken; [|exact Hc].
Qed.

(** After [root_split] the new leaves start with empty [used] words: where
    [__builtin_ctzll(0)] is 63 or more, an iterator sees none of the levels. *)
Theorem root_split_invisible ctz0 d h p t E k0 :
  (63 <= ctz0)%nat -> heap_wf h -> hget h p = Some t -> leaf_rep d t E ->
  within d None None E -> length E = 63%nat ->
  ∃ h' h2 it, root_split h p = Some h' ∧
    btree_iter_next ctz0 h' (iter0 k0 p) = Some (h2, it, false).
Proof.
  intros Hz Hwf Ht Hr Hw Hl.
  destruct (root_split_tree d h p t E Hwf Ht Hr Hw Hl)
    as (h' & l & r & H1 & H2 & (Hd & x & Hx & Hc) & Hu).
  destruct (tree_child0 _ _ _ _ _ _ _ H2) as (tp & _ & _ & _ & Htp & Hin & _).
  assert (chain d unused_leaf h' (Some x) [(l, take 32 E); (r, drop 32 E)]) as Hc'.
  { inversion Hc as [|x' tl El C' Hl' Hrl Hql Hcl]; subst.
    inversion Hcl as [|y tr Er C2 Hr' Hrr Hqr Hcr Hn]; subst.
    econstructor; [done..|by apply (Hu l); [left|]|]. rewrite <- Hn.
    econstructor; [done..|by apply (Hu r); [right|]|]. inversion Hcr. constructor. }
  assert (x = l) as -> by by inversion Hc'.
  destruct (iter_chain_blind d ctz0 (height_fuel h') h' l (mk_iter (Some l) 0 k0 None)
              (take 32 E) [(r, drop 32 E)]) as (h2 & it & Hrun); [done..| |].
  { pose proof (chain_fuel _ _ _ _ _ Hc' Hd). unfold height_fuel. simpl in *. lia. }
  exists h', h2, it. split; [done|]. unfold btree_iter_next. cbn [it_t iter0].
  brun Htp. brun Hx. rewrite Hin. exact Hrun.
Qed.
End theorems.

(** ** Instances *)

(** Deciding the representation invariants on concrete leaves. *)
Section checks.
Context `{BKey K}.

Fixpoint ksortedb (d : bool) (b : option Z) (ks : list K) : bool :=
  match ks with
  | [] => true
  | k :: ks =>
    match ord d k with
    | Some z => match b with Some y => y <? z | None => true end && ksortedb d (Some z) ks
    | None => false
    end
  end.

Lemma ksortedb_ok d b ks : ksortedb d b ks = true -> ksorted d b ks.
Proof.
  revert b. induction ks as [|k ks IH]; intros b; simpl; [constructor|].
  destruct (ord d k) as [z|] eqn:Hz; [|done]. intros [Hb Hs]%andb_prop.
  econstructor; [done| |by apply IH]. intros y ->. lia.
Qed.

Fixpoint used_okb (u : Z) (i : nat) (E : list (K * btree_val)) : bool :=
  match E with
  | [] => true
  | e :: E => (negb (live e) || Z.testbit u (Z.of_nat i)) && used_okb u (S i) E
  end.

Lemma used_okb_ok u E : 0 <= u < 2 ^ 64 -> used_okb u 0 E = true -> used_ok u E.
Proof.
  intros Hu Hb. split; [done|]. intros i e He Hl.
  assert (∀ j, used_okb u j E = true -> Z.testbit u (Z.of_nat (j + i)) = true) as Hgen.
  { clear Hb. revert i He. induction E as [|e0 E IH]; intros i He j; [done|].
    simpl. intros [H1 H2]%andb_prop. destruct i as [|i]; simpl in He.
    - simplify_eq. rewrite Hl in H1. by rewrite Nat.add_0_r.
    - rewrite Nat.add_succ_r. by apply (IH i He (S j)). }
  exact (Hgen 0%nat Hb).
Qed.
End checks.

Definition px (m : Z) : dec := DFin false m 0.
Definition lv (p q t : Z) : dec * btree_val := (px p, mk_val (px q) t).

(** Three asks. *)
Definition asks3 : list (dec * btree_val) := [lv 10 5 1; lv 11 7 2; lv 12 3 3].
Definition heap3 : heap dec := hset 1 (mk_leaf false asks3 7) empty_heap.

Lemma asks3_sorted : ksorted false None asks3.*1.
Proof. apply ksortedb_ok. vm_compute. reflexivity. Qed.

Lemma asks3_used : used_ok 7 asks3.
Proof. apply used_okb_ok; [lia|]. vm_compute. reflexivity. Qed.

Lemma heap3_leaf : leaf_side false heap3 1 asks3 7.
Proof. apply mk_leaf_side. simpl. lia. Qed.

Lemma heap3_side : side false used_leaf heap3 1 [(1%positive, asks3)].
Proof. eapply leaf_side_side; [apply heap3_leaf|apply asks3_used]. Qed.

(** The place of a whole price on the number line of the asks. *)
Definition place_of (m : Z) : Z := default 0 (ord false (px m)).

Lemma btree_put_correct_witness :
  ∃ h1 vp w E', btree_put heap3 1 (px 11) = Some (h1, vp) ∧ load h1 vp = Some w ∧
    lmap false (levels asks3) !! place_of 11 = val_opt w ∧
    lmap false (levels E') =
      partial_alter (λ _, val_opt (mk_val (px 9) 4)) (place_of 11) (lmap false (levels asks3)).
Proof.
  destruct (btree_put_correct false heap3 1 asks3 7 (px 11) (place_of 11) (mk_val (px 9) 4)
              heap3_leaf asks3_sorted ltac:(simpl; lia) ltac:(vm_compute; reflexivity))
    as (h1 & h2 & vp & w & E' & u' & H1 & H2 & _ & _ & _ & H3 & H4 & _).
  exists h1, vp, w, E'. exact (conj H1 (conj H2 (conj H3 H4))).
Defined.

Lemma btree_put_visible_witness :
  ∃ h1 h2 vp E', btree_put heap3 1 (px 9) = Some (h1, vp) ∧
    poke vp (mk_val (px 2) 4) h1 = Some h2 ∧ side false used_leaf h2 1 [(1%positive, E')] ∧
    lmap false (levels E') = <[place_of 9 := mk_val (px 2) 4]> (lmap false (levels asks3)).
Proof.
  destruct (btree_put_visible false heap3 1 asks3 7 (px 9) (place_of 9) (mk_val (px 2) 4)
              heap3_leaf asks3_used asks3_sorted ltac:(vm_compute; reflexivity) ltac:(simpl; lia)
              ltac:(do 3 right; vm_compute; reflexivity))
    as (h1 & h2 & vp & E' & u' & H1 & H2 & _ & _ & H3 & H4 & _).
  exists h1, h2, vp, E'. split_and!; [exact H1|exact H2|exact H3|]. rewrite H4. reflexivity.
Defined.

(** Three asks of which the second was traded away; its bit is still set. *)
Definition asks3_stale : list (dec * btree_val) := [lv 10 5 1; lv 11 0 2; lv 12 3 3].
Definition heap3_stale : heap dec := hset 1 (mk_leaf false asks3_stale 7) empty_heap.

Lemma btree_put_hides_witness :
  ∃ h' vp t' E' j e, btree_put heap3_stale 1 (px 9) = Some (h', vp) ∧ hget h' 1 = Some t' ∧
    leaf_rep false t' E' ∧ E' !! j = Some e ∧ live e = true ∧ e ∈ levels asks3_stale ∧
    Z.testbit (used t') (Z.of_nat j) = false.
Proof.
  apply (btree_put_hides false heap3_stale 1 asks3_stale 7 (px 9)).
  - apply mk_leaf_side. simpl. lia.
  - apply used_okb_ok; [lia|]. vm_compute. reflexivity.
  - simpl. lia.
  - intros [Hx|[Hx|[[Hx _]|Hx]]]; vm_compute in Hx; discriminate Hx.
Defined.

Lemma btree_rem_correct_witness :
  ∃ h' w E', btree_rem heap3 1 (px 12) = Some (h', w) ∧
    lmap false (levels asks3) !! place_of 12 = val_opt w ∧
    lmap false (levels E') = delete (place_of 12) (lmap false (levels asks3)).
Proof.
  destruct (btree_rem_correct false heap3 1 asks3 7 (px 12) (place_of 12)
              heap3_leaf asks3_sorted ltac:(vm_compute; reflexivity))
    as (h' & w & E' & H1 & _ & _ & _ & H2 & H3).
  exists h', w, E'. exact (conj H1 (conj H2 H3)).
Defined.

Lemma btree_clr_correct_witness :
  ∃ h', btree_clr heap3 1 = Some h' ∧
        side false used_leaf h' 1 (clr_cells [(1%positive, asks3)]).
Proof.
  destruct (btree_clr_correct false heap3 1 [(1%positive, asks3)]) as (h' & H1 & H2 & _).
  - destruct heap3_side as (Hd & l & Hl & Hc). split; [exact Hd|]. exists l. split; [exact Hl|].
    exact (chain_weaken _ _ _ _ _ _ used_word Hc).
  - exists h'. exact (conj H1 H2).
Defined.

Lemma btree_top_correct_witness :
  btree_top heap3 1 = Some (Some (px 10, (1%positive, 0%nat))).
Proof.
  rewrite (btree_top_correct false heap3 1 [(1%positive, asks3)]); [vm_compute; reflexivity|].
  destruct heap3_side as (Hd & l & Hl & Hc). split; [exact Hd|]. exists l. split; [exact Hl|].
  exact (chain_weaken _ _ any_leaf _ _ _ (fun _ _ _ => I) Hc).
Defined.

Lemma btree_iter_next_correct_witness :
  ∃ h' it', btree_iter_next 5 heap3 (iter0 dzero 1) = Some (h', it', true) ∧ it_k it' = px 10.
Proof.
  destruct (btree_iter_next_correct 5 false heap3 (iter0 dzero 1) (cells [(1%positive, asks3)])
              (iter_at_open _ _ _ _ _ heap3_side))
    as (h' & it' & b & H1 & _ & H2 & _ & H3 & _).
  exists h', it'. subst b. exact (conj H1 H3).
Defined.

(** A full leaf of asks, about to be split. *)
Definition asks63 : list (dec * btree_val) :=
  (λ i, lv (Z.of_nat i) 1 1) <$> seq 1 63.
Definition heap63 : heap dec :=
  mk_heap 2 (<[1%positive := mk_leaf false asks63 (2 ^ 63 - 1)]> ∅).

Lemma heap63_wf : heap_wf heap63.
Proof.
  intros q t Hq. unfold hget, heap63 in Hq. simpl in Hq.
  apply lookup_insert_Some in Hq as [[<- _]|[_ Hq]]; [simpl; lia|]. by rewrite lookup_empty in Hq.
Qed.

Lemma asks63_within : within false None None asks63.
Proof. split; [apply ksortedb_ok; vm_compute; reflexivity|done]. Qed.

Lemma asks63_rep : leaf_rep false (mk_leaf false asks63 (2 ^ 63 - 1)) asks63.
Proof. apply mk_leaf_rep. unfold asks63. len. Qed.

Lemma root_split_correct_witness :
  ∃ h' l r, root_split heap63 1 = Some h' ∧ tree false h' 1 1 None None asks63 ∧
    side false any_leaf h' 1 [(l, take 32 asks63); (r, drop 32 asks63)].
Proof.
  apply (root_split_correct false heap63 1 (mk_leaf false asks63 (2 ^ 63 - 1)) asks63
           heap63_wf eq_refl asks63_rep asks63_within eq_refl).
Defined.

Lemma root_split_invisible_witness :
  ∃ h' h2 it, root_split heap63 1 = Some h' ∧
    btree_iter_next 64 h' (iter0 dzero 1) = Some (h2, it, false).
Proof.
  apply (root_split_invisible 64 false heap63 1 (mk_leaf false asks63 (2 ^ 63 - 1)) asks63 dzero
           ltac:(lia) heap63_wf eq_refl asks63_rep asks63_within eq_refl).
Defined.

Lemma btree_get_correct_witness :
  ∃ h' r, root_split heap63 1 = Some h' ∧ btree_get h' 1 (px 40) = Some r ∧
    match r with
    | Some vp => ∃ v, load h' vp = Some v ∧ lmap false (levels asks63) !! place_of 40 = val_opt v
    | None => lmap false (levels asks63) !! place_of 40 = None
    end.
Proof.
  destruct (root_split_tree false heap63 1 _ asks63 heap63_wf eq_refl asks63_rep
              asks63_within eq_refl) as (h' & l & r & H1 & H2 & _).
  destruct (btree_get_correct false h' 1 1 asks63 (px 40) (place_of 40) H2
              ltac:(vm_compute; reflexivity)) as (x & Hx & Hm).
  exists h', x. exact (conj H1 (conj Hx Hm)).
Defined.
