(* ===== verification/BtreePuts.v ===== *)
(** * btree.c: the theorems on trees of any height

    [node_split], [btree_put] and [btree_rem] on trees in order; sequences of
    puts; and when a put is lost.  The instances use whole numbers as keys. *)

From Stdlib Require Import ZArith Lia.
From stdpp Require Import prelude list gmap fin_maps.
From stdpp Require Import options.
From S2P Require Import Prelude Decimal Btree BtreeLeaf BtreeUsed BtreeIter BtreeSide BtreeOps.
From S2P Require Import BtreeMap BtreeTree BtreeKids BtreeGrow BtreeSplit BtreePut BtreeGrown.
From S2P Require Import BtreeTheorems.

Local Open Scope Z_scope.

Section puts.
Context `{BKey K}.
#[local] Abbreviation entry := (K * btree_val)%type.
Implicit Types (E : list entry) (t : btree_s K) (k : K) (h : heap K) (p c : positive).
Implicit Types (lo hi : option Z) (X : list positive) (M : gmap Z btree_val).
Variable d : bool.

(** What clients do with the tree: [*btree_put(t, k) = v], time and again. *)
Fixpoint puts h p (kvs : list (K * btree_val)) : option (heap K) :=
  match kvs with
  | [] => Some h
  | (k, v) :: kvs => '(h, vp) ← btree_put h p k; h ← poke vp v h; puts h p kvs
  end.

(** The same on a finite map: each put updates the map, except where the tree
    loses the write, which takes a new level on a tree that has 62. *)
Inductive put_steps p : heap K -> gmap Z btree_val -> list (K * btree_val) -> heap K -> gmap Z btree_val -> Prop :=
  | puts_done h M : put_steps p h M [] h M
  | puts_kept h M k z v kvs h1 r h2 h' M' :
    ord d k = Some z -> btree_put h p k = Some (h1, r) -> poke r v h1 = Some h2 -> ¬ split_lost d h p k r ->
    put_steps p h2 (partial_alter (λ _, val_opt v) z M) kvs h' M' -> put_steps p h M ((k, v) :: kvs) h' M'
  | puts_lost h M k z v kvs h1 r h2 h' M' :
    ord d k = Some z -> btree_put h p k = Some (h1, r) -> poke r v h1 = Some h2 -> split_lost d h p k r ->
    M !! z = None -> (62 <= size M)%nat ->
    put_steps p h2 M kvs h' M' -> put_steps p h M ((k, v) :: kvs) h' M'.

(** So every put counts while there are fewer levels. *)
Lemma put_steps_few p h M k z v kvs h' M' :
  put_steps p h M ((k, v) :: kvs) h' M' -> ord d k = Some z -> (size M < 62)%nat ->
  ∃ h2, put_steps p h2 (partial_alter (λ _, val_opt v) z M) kvs h' M'.
Proof.
  intros Hp Hz Hs. inversion Hp as [|???????????Hz'???Hr|??????????????????]; subst; [|lia].
  assert (z0 = z) as -> by congruence. by eexists.
Qed.

(** C5: [node_split] of a full child (63 keys, some level alive) keeps the tree
    in order and loses no level, whether it makes a sibling or takes over one
    without levels, in front or behind; it touches only nodes of the tree. *)
Theorem node_split_correct (fuel m : nat) h pp t P c Q lo hi lo' hi' XA Xc XB EA Ec EB ct :
  hget h pp = Some t -> inner_rep d t (pq_keys P Q) (pq_kids P c Q) -> (n t <= 62)%nat ->
  pre d (ptree d h m 62) P lo lo' XA EA -> bnd lo' hi' ->
  ptree d h m 63 c lo' hi' Xc Ec -> post d (ptree d h m 62) Q hi' hi XB EB ->
  hget h c = Some ct -> n ct = 63%nat -> levels Ec ≠ [] ->
  NoDup (pp :: XA ++ Xc ++ XB) -> heap_wf h -> (m < fuel)%nat ->
  ∃ h' X' E', node_split fuel h pp (length P) = Some h' ∧ ptree d h' (S m) 63 pp lo hi X' E' ∧
    levels E' = levels (EA ++ Ec ++ EB) ∧ NoDup X' ∧ heap_wf h' ∧
    ∀ q tq, q ∉ pp :: XA ++ Xc ++ XB -> hget h q = Some tq -> hget h' q = Some tq.
Proof.
  intros Ht Hr Hn Hp Hb (ct' & X0 & Hct' & -> & _ & Hok) Hq Hct Hcn Hne HX Hwf Hf.
  assert (ct' = ct) as -> by congruence.
  destruct (node_split_run d fuel h m pp t P c Q lo hi lo' hi' XA X0 XB EA Ec EB ct)
    as (h' & X' & EA' & EB' & tl & Hrun & HT & HlA & HlB & Hg & _); try done.
  { unfold emptyb. by destruct (levels Ec). }
  exists h', X', (EA' ++ Ec ++ EB'). rewrite !levels_app, HlA, HlB. destruct Hg. split_and!; done.
Qed.

(** C2: [btree_put] on a tree of any height returns; the tree stays in order
    with the same levels; the cell returned holds the level at [k]; and storing
    [v] to it updates the finite map of levels at [k] - unless the leaf was split
    and [k] went to its upper half, when the store changes nothing. *)
Theorem btree_put_tree_correct h p X E k z :
  grown d h p X E -> ord d k = Some z ->
  ∃ h1 r w X' E', btree_put h p k = Some (h1, r) ∧ load h1 r = Some w ∧
    lmap d (levels E) !! z = val_opt w ∧ grown d h1 p X' E' ∧ levels E' = levels E ∧
    ∀ v, ∃ h2 E2, poke r v h1 = Some h2 ∧ grown d h2 p X' E2 ∧
      (split_lost d h p k r -> lmap d (levels E2) = lmap d (levels E)) ∧
      (¬ split_lost d h p k r ->
       lmap d (levels E2) = partial_alter (λ _, val_opt v) z (lmap d (levels E))) ∧
      ∀ q tq, q ∉ X -> hget h q = Some tq -> hget h2 q = Some tq.
Proof.
  intros Hgn Hz. destruct (btree_put_grown d h p X E k z Hgn Hz)
    as (h1 & r & w & X' & E' & lost & H1 & H2 & H3 & H4 & _ & _ & H5 & Hlost & _ & Hst).
  exists h1, r, w, X', E'. split_and!; try done. intros v.
  destruct (Hst v) as (h2 & E2 & Hpk & Hgn2 & Hg & _ & Hm). exists h2, E2. split_and!; try done.
  - intros Hl%Hlost. by rewrite Hl in Hm.
  - intros Hl. destruct lost; [|done]. by destruct Hl; apply Hlost.
  - intros q tq. by eapply gr_frame.
Qed.

(** C11: a put that is lost: the leaf [k] belongs to held 62 levels, [k] is new
    and among the upper half of 63; the value stored through the pointer that
    [btree_put] returned cannot be looked up. *)
Theorem btree_put_loses h p X E k z h1 r v :
  grown d h p X E -> ord d k = Some z -> btree_put h p k = Some (h1, r) ->
  split_lost d h p k r ->
  ∃ h2 o, poke r v h1 = Some h2 ∧ btree_get h2 p k = Some o ∧
    ∀ vp, o = Some vp -> ∃ w, load h2 vp = Some w ∧ btree_val_nil_p w = true.
Proof.
  intros Hgn Hz Hput Hl. destruct (btree_put_grown d h p X E k z Hgn Hz)
    as (h1' & r' & w & X' & E' & lost & H1 & _ & _ & _ & _ & _ & _ & Hlost & Hno & Hst).
  assert (h1' = h1 ∧ r' = r) as [-> ->] by (split; congruence).
  destruct (Hst v) as (h2 & E2 & Hpk & Hgn2 & _ & _ & Hm). apply Hlost in Hl. rewrite Hl in Hm.
  destruct (grown_tree _ _ _ _ _ Hgn2) as (m & HT).
  destruct (btree_get_tree d h2 m p E2 k z HT Hz) as (o & Ho & Hfd).
  exists h2, o. split_and!; try done. intros vp ->. destruct Hfd as (x & Hx & Hmx).
  exists x. split; [done|]. rewrite Hm, (proj2 (Hno Hl)) in Hmx. unfold val_opt in Hmx.
  by destruct (btree_val_nil_p x).
Qed.

(** C24: [btree_rem] on a tree of any height hands out the level at [k] and
    deletes it; the tree stays in order. *)
Theorem btree_rem_tree_correct h p X E k z :
  grown d h p X E -> ord d k = Some z ->
  ∃ h' w E', btree_rem h p k = Some (h', w) ∧ grown d h' p X E' ∧
    lmap d (levels E) !! z = val_opt w ∧ lmap d (levels E') = delete z (lmap d (levels E)) ∧
    ∀ q tq, q ∉ X -> hget h q = Some tq -> hget h' q = Some tq.
Proof.
  intros Hgn Hz. destruct (btree_rem_grown d h p X E k z Hgn Hz)
    as (h' & w & E' & H1 & H2 & Hg & _ & H3 & H4).
  exists h', w, E'. split_and!; try done. intros q tq. by eapply gr_frame.
Qed.

(** C9: any sequence of puts of prices (none of them NaN) into a tree of any height
    that is in order and shares no node with itself runs, and the tree then holds the
    map that results from the updates one by one.  An update is lost exactly when the
    leaf is split in that put and the level goes to its upper half ([split_lost]); the
    level is then new, and the tree has at least 62 levels at that moment. *)
Theorem puts_correct h p X E kvs :
  grown d h p X E -> Forall (λ kv, is_Some (ord d kv.1)) kvs ->
  ∃ h' X' E', puts h p kvs = Some h' ∧ grown d h' p X' E' ∧
    put_steps p h (lmap d (levels E)) kvs h' (lmap d (levels E')).
Proof.
  revert h X E. induction kvs as [|[k v] kvs IH]; intros h X E Hgn Hf.
  - exists h, X, E. split_and!; [done|done|constructor].
  - apply Forall_cons in Hf as [[z Hz] Hf]. cbn [fst] in Hz.
    destruct (btree_put_grown d h p X E k z Hgn Hz)
      as (h1 & r & w & X1 & E1 & b & Hput & _ & _ & _ & _ & _ & _ & Hlost & Hno & Hst).
    destruct (Hst v) as (h2 & E2 & Hpk & Hgn2 & _ & _ & Hm).
    destruct (IH h2 X1 E2 Hgn2 Hf) as (h' & X' & E' & Hrun & Hgn' & Hsteps).
    exists h', X', E'. cbn [puts]. brun Hput. brun Hpk. split_and!; try done. rewrite Hm in Hsteps.
    destruct b.
    + destruct (Hno eq_refl) as [Hin HN]. eapply puts_lost; try done; [by apply Hlost|].
      rewrite (grown_size _ _ _ _ _ Hgn). eapply split_lost_full; [done|by apply Hlost|done].
    + eapply puts_kept; try done. by intros ?%Hlost.
Qed.

(** C25: [free_btree] on a tree of any height returns: it frees each node of the
    tree once, and nothing else. *)
Theorem free_btree_correct h p X E :
  grown d h p X E ->
  ∃ h', free_btree (height_fuel h) h p = Some h' ∧ hnext h' = hnext h ∧
    ∀ q, hget h' q = if decide (q ∈ X) then None else hget h q.
Proof.
  intros [(m & HT) HX _ _]. pose proof (tree_height _ _ _ _ _ _ _ (ptree_tree _ _ _ _ _ _ _ _ _ HT)).
  destruct (free_ptree d (height_fuel h) h m 63 p None None X E HT HX) as (h' & Hrun & Hnx & Hf);
    [unfold height_fuel; lia|]. by exists h'.
Qed.
End puts.

(** ** Instances *)

(** Whole numbers and a NaN. *)
#[local] Instance wkey : BKey (option Z) := {| krank k := k; knan := None; krank_nan := eq_refl |}.

Definition wlv (i : nat) : option Z * btree_val := (Some (Z.of_nat i), mk_val (px 1) 1).

(** A root with two leaves: the levels 1 to 5, and [c] levels from 101 on. *)
Definition low5 : list (option Z * btree_val) := wlv <$> seq 1 5.
Definition high (c : nat) : list (option Z * btree_val) := wlv <$> seq 101 c.

Definition root2 : btree_s (option Z) :=
  mk_node 1 true false false 0 (Some 5 :: replicate 63 None)
    (Ual_t (Some 2%positive) :: Ual_t (Some 3%positive) :: replicate 62 ual_zero) None.

Definition heap2 (c : nat) : heap (option Z) :=
  mk_heap 4 (<[1%positive := root2]> (<[2%positive := mk_leaf false low5 0]>
            (<[3%positive := mk_leaf false (high c) 0]> ∅))).

Lemma heap2_wf c : heap_wf (heap2 c).
Proof.
  intros q t Hq. unfold hget, heap2 in Hq. cbn [hmem] in Hq.
  repeat (apply lookup_insert_Some in Hq as [[<- _]|[_ Hq]]; [simpl; lia|]).
  by rewrite lookup_empty in Hq.
Qed.

Lemma root2_rep : inner_rep false root2 (pq_keys [(2%positive, Some 5)] [])
                                        (pq_kids [(2%positive, Some 5)] 3 []).
Proof. constructor; try done; [by exists (replicate 63 None)|by exists (replicate 62 ual_zero)]. Qed.

Definition upto_max (m : Z) (E : list (option Z * btree_val)) : bool :=
  forallb (fun e => match ord false e.1 with Some z => z <=? m | None => true end) E.

Lemma within_check lo m E :
  ksortedb false lo E.*1 = true -> upto_max m E = true -> within false lo (Some m) E.
Proof.
  intros Hs%ksortedb_ok Hu. split; [done|]. intros e z Hin He y [= <-].
  unfold upto_max in Hu. rewrite forallb_forall in Hu. specialize (Hu e).
  rewrite He in Hu. apply Z.leb_le, Hu. by apply list_elem_of_In.
Qed.

Lemma heap2_low c : ptree false (heap2 c) 0 62 2 None (Some 5) [2%positive] low5.
Proof.
  exists (mk_leaf false low5 0), []. split_and!; [done|done|simpl; lia|].
  split_and!; [apply mk_leaf_rep; simpl; lia|by apply within_check|done].
Qed.

Lemma heap2_high c :
  (c <= 63)%nat -> ksortedb false (Some 5) (high c).*1 = true ->
  ptree false (heap2 c) 0 63 3 (Some 5) None [3%positive] (high c).
Proof.
  intros Hc Hs%ksortedb_ok. assert (length (high c) = c) as Hl by (unfold high; len).
  exists (mk_leaf false (high c) 0), []. split_and!; [done|done|simpl; lia|].
  split_and!; [apply mk_leaf_rep; lia|by split|done].
Qed.

Lemma heap2_pre c :
  pre false (ptree false (heap2 c) 0 62) [(2%positive, Some 5)] None (Some 5) [2%positive] low5.
Proof.
  exists 5, [2%positive], [], low5, []. split_and!; try done. apply heap2_low.
Qed.

Lemma heap2_grown : grown false (heap2 62) 1 [1; 2; 3]%positive (low5 ++ high 62).
Proof.
  constructor.
  - exists 1%nat, root2, [2; 3]%positive. split_and!; [done|done|simpl; lia|].
    exists [(2%positive, Some 5)], 3%positive, []. split; [apply root2_rep|].
    exists (Some 5), None, [2%positive], [3%positive], [], low5, (high 62), [].
    split_and!; [apply heap2_pre|done| |done|done|by rewrite app_nil_r].
    destruct (heap2_high 62 ltac:(lia) eq_refl) as (t & X0 & Ht & HX & _ & Hok).
    exists t, X0. split_and!; [exact Ht|exact HX| |exact Hok].
    assert (t = mk_leaf false (high 62) 0) as -> by (by injection Ht). vm_compute. lia.
  - by apply (bool_decide_unpack _).
  - apply heap2_wf.
  - intros t [= <-]. done.
Qed.

Lemma node_split_correct_witness :
  ∃ h' X' E', node_split 1 (heap2 63) 1 1 = Some h' ∧
    ptree false h' 1 63 1 None None X' E' ∧ levels E' = levels (low5 ++ high 63).
Proof.
  pose proof (heap2_high 63 ltac:(lia) eq_refl) as Hc.
  destruct (node_split_correct false 1 0 (heap2 63) 1 root2 [(2%positive, Some 5)] 3 [] None None
              (Some 5) None [2%positive] [3%positive] [] low5 (high 63) []
              (mk_leaf false (high 63) 0) eq_refl root2_rep ltac:(simpl; lia) (heap2_pre 63)
              ltac:(done) Hc ltac:(done) eq_refl eq_refl ltac:(by vm_compute)
              ltac:(by apply (bool_decide_unpack _)) (heap2_wf 63) ltac:(lia))
    as (h' & X' & E' & H1 & H2 & H3 & _).
  exists h', X', E'. rewrite app_nil_r in H3. exact (conj H1 (conj H2 H3)).
Defined.

Lemma btree_put_tree_correct_witness :
  ∃ h1 r w, btree_put (heap2 62) 1 (Some 7) = Some (h1, r) ∧ load h1 r = Some w ∧
    lmap false (levels (low5 ++ high 62)) !! 7 = val_opt w.
Proof.
  destruct (btree_put_tree_correct false (heap2 62) 1 _ _ (Some 7) 7 heap2_grown eq_refl)
    as (h1 & r & w & X' & E' & H1 & H2 & H3 & _).
  exists h1, r, w. exact (conj H1 (conj H2 H3)).
Defined.

(** The 63rd level of the right leaf is lost. *)
Lemma btree_put_loses_witness :
  ∃ h1 r h2 o, btree_put (heap2 62) 1 (Some 163) = Some (h1, r) ∧
    poke r (mk_val (px 4) 2) h1 = Some h2 ∧ btree_get h2 1 (Some 163) = Some o ∧
    ∀ vp, o = Some vp -> ∃ w, load h2 vp = Some w ∧ btree_val_nil_p w = true.
Proof.
  assert (snd <$> btree_put (heap2 62) 1 (Some 163) = Some (3%positive, 62%nat)) as Hp
    by (vm_compute; reflexivity).
  destruct (btree_put (heap2 62) 1 (Some 163)) as [[h1 r]|] eqn:Hput; [|discriminate Hp].
  injection Hp as ->.
  destruct (btree_put_loses false (heap2 62) 1 _ _ (Some 163) 163 h1 (3%positive, 62%nat)
              (mk_val (px 4) 2) heap2_grown eq_refl Hput) as (h2 & o & H1 & H2 & H3).
  - split; [discriminate|]. exists (high 62). split; [|split; [vm_compute; reflexivity|simpl; lia]].
    exists (mk_leaf false (high 62) 0). split; [reflexivity|]. split; [apply mk_leaf_rep; simpl; lia|].
    split; [simpl; lia|vm_compute; reflexivity].
  - exists h1, (3%positive, 62%nat), h2, o. exact (conj eq_refl (conj H1 (conj H2 H3))).
Defined.

Lemma btree_rem_tree_correct_witness :
  ∃ h' w E', btree_rem (heap2 62) 1 (Some 110) = Some (h', w) ∧
    lmap false (levels (low5 ++ high 62)) !! 110 = val_opt w ∧
    lmap false (levels E') = delete 110 (lmap false (levels (low5 ++ high 62))).
Proof.
  destruct (btree_rem_tree_correct false (heap2 62) 1 _ _ (Some 110) 110 heap2_grown eq_refl)
    as (h' & w & E' & H1 & _ & H2 & H3 & _).
  exists h', w, E'. exact (conj H1 (conj H2 H3)).
Defined.

(** Three puts into a fresh tree: none is lost. *)
Lemma puts_correct_witness :
  ∃ h' E', puts (make_btree (@empty_heap (option Z)) false).1 1
             [(Some 3, mk_val (px 1) 1); (Some 2, mk_val (px 5) 2); (Some 3, mk_val (px 0) 3)] = Some h' ∧
    lmap false (levels E') = {[ 2 := mk_val (px 5) 2 ]}.
Proof.
  destruct (puts_correct false (make_btree (@empty_heap (option Z)) false).1 1 [1%positive] []
              [(Some 3, mk_val (px 1) 1); (Some 2, mk_val (px 5) 2); (Some 3, mk_val (px 0) 3)])
    as (h' & X' & E' & H1 & _ & H2).
  - eapply (grown_make false empty_heap); [|reflexivity]. intros q t Hq.
    unfold hget in Hq. simpl in Hq. by rewrite lookup_empty in Hq.
  - repeat constructor; by eexists.
  - exists h', E'. split; [exact H1|].
    eapply put_steps_few in H2 as [h2 H2]; [|reflexivity|vm_compute; lia].
    eapply put_steps_few in H2 as [h3 H2]; [|reflexivity|vm_compute; lia].
    eapply put_steps_few in H2 as [h4 H2]; [|reflexivity|vm_compute; lia].
    assert (∀ h M M', put_steps false 1 h M [] h' M' -> M' = M) as Hn by (intros ??? Hp; by inversion Hp).
    rewrite (Hn _ _ _ H2). vm_compute. reflexivity.
Defined.

Lemma free_btree_correct_witness :
  ∃ h', free_btree (height_fuel (heap2 62)) (heap2 62) 1 = Some h' ∧
    hget h' 1 = None ∧ hget h' 2 = None ∧ hget h' 3 = None.
Proof.
  destruct (free_btree_correct false (heap2 62) 1 _ _ heap2_grown) as (h' & H1 & _ & H2).
  exists h'. split; [exact H1|]. rewrite !H2. split_and!; reflexivity.
Defined.
