(* ===== verification/BooksLoops.v ===== *)
(** * The loops of books.c over a side

    Each loop of books.c, run against any iterator that honours the contract
    [Cursor], computes a function of the list of levels.  The functions are
    the reference definitions: no heap, no iterator, no fuel. *)

From Stdlib Require Import ZArith Lia.
From stdpp Require Import prelude list gmap.
From stdpp Require Import options.
From S2P Require Import Prelude Decimal Btree BtreeLeaf BtreeIter BtreeSide BtreeCursor Books.

Local Open Scope Z_scope.

Abbreviation level := (dec * btree_val)%type.

(** ** Reference definitions *)

(** The best [n] levels as prices and quantities. *)
Definition tops_of (n : nat) (L : list level) : list (dec * dec) :=
  (λ e, (e.1, vq e.2)) <$> take n L.

(** Consume levels while [more]: what is left, the last level consumed, and the
    sums of price times quantity and of quantity. *)
Fixpoint accum (more : dec -> dec -> bool) (L : list level) (last : option level) (P Q : dec) :
    list level * option level * dec * dec :=
  if more P Q then
    match L with
    | [] => ([], last, P, Q)
    | e :: L => accum more L (Some e) (dadd P (dmul e.1 (vq e.2))) (dadd Q (vq e.2))
    end
  else (L, last, P, Q).

(** The side after trades up to [q]: levels beyond its price go, the one at it
    is reduced. *)
Definition keep_pos (e : level) : list level := if live e then [e] else [].

Fixpoint trade (beyond at_ : dec -> dec -> bool) (q : book_quo) (L : list level) : list level :=
  match L with
  | [] => []
  | e :: L' =>
    if at_ e.1 (qp q) then
      keep_pos (e.1, mk_val (if beyond e.1 (qp q) then dzero else dsub (vq e.2) (qq q)) (vt e.2))
      ++ trade beyond at_ q L'
    else L
  end.

(** The levels younger than [t]. *)
Definition younger (t : Z) (L : list level) : list level := filter (λ e, t < vt e.2) L.

(** Fill [q] from the levels up to the limit. *)
Definition in_limit (s : Z) (lmt k : dec) : bool :=
  (s =? BOOK_SIDE_BID) && dge k lmt || (s =? BOOK_SIDE_ASK) && dle k lmt.

Fixpoint fill_from (s : Z) (lmt : dec) (L : list level) (q : dec) (r : book_pdo_t) : book_pdo_t :=
  if dgt q dzero then
    match L with
    | [] => r
    | e :: L =>
      if in_limit s lmt e.1 then
        let Q := if dle (vq e.2) q then vq e.2 else q in
        fill_from s lmt L (dsub q Q)
          (mk_pdo (dadd (base r) Q) (dadd (term r) (dmul e.1 Q))
                  (max_tv (yngt r) (vt e.2)) (min_tv (oldt r) (vt e.2)))
      else r
    end
  else r.

#[local] Set Default Proof Using "Type*".

(** The best price for [q] units, and for multiples of [Q]: the levels are
    consumed until they hold enough, and the last one only in part.  [None] when
    no level was touched at all, where the code reads through a null pointer. *)
Section quotes.
Variable px_cast : dec -> dec.
Variable quantizepx : dec -> dec -> dec.

Definition ctop_of (s : Z) (q : dec) (L : list level) : option book_quo :=
  let '(_, last, P, Q) := accum (λ _ Q, dlt Q q) L None dzero dzero in
  if dlt Q q then Some NOT_A_QUO
  else
    e ← last;
    let P := if dgt Q q then dsub P (dmul e.1 (dsub Q q)) else P in
    Some (mk_quo s BOOK_LVL_1 (quantizepx (px_cast (ddiv P q)) e.1)
                 (quantizeqx q (vq e.2)) (vt e.2)).

Definition vtop_of (s : Z) (v : dec) (L : list level) : option book_quo :=
  let '(_, last, P, Q) := accum (λ P _, dlt P v) L None dzero dzero in
  if dlt P v then Some NOT_A_QUO
  else
    e ← last;
    let Q := if dgt P v then dsub Q (ddiv (dsub P v) e.1) else Q in
    Some (mk_quo s BOOK_LVL_1 (quantizepx (px_cast (ddiv v Q)) e.1)
                 (quantizeqx Q (vq e.2)) (vt e.2)).

Fixpoint ctops_of (n : nat) (L : list level) (last : option level) (c C R Q : dec) :
    option (list (dec * dec)) :=
  match n with
  | O => Some []
  | S n =>
    let '(L, last, c, C) := accum (λ _ C, dlt C R) L last c C in
    if dlt C R then Some []
    else
      e ← last;
      r ← ctops_of n L last c C (dadd R Q) Q;
      Some ((quantizepx (px_cast (ddiv (dsub c (dmul e.1 (dsub C R))) R)) e.1,
             quantizeqx R (vq e.2)) :: r)
  end.

Fixpoint vtops_of (n : nat) (L : list level) (last : option level) (c C r v : dec) :
    option (list (dec * dec)) :=
  match n with
  | O => Some []
  | S n =>
    let '(L, last, c, C) := accum (λ c _, dlt c r) L last c C in
    if dlt c r then Some []
    else
      e ← last;
      let Q := dsub C (ddiv (dsub c r) e.1) in
      x ← vtops_of n L last c C (dadd r v) v;
      Some ((quantizepx (px_cast (ddiv r Q)) e.1, quantizeqx Q (vq e.2)) :: x)
  end.
End quotes.

Section loops.
Context {ctz0 : nat}.
Context {R : bheap -> list (vptr * level) -> biter -> list (vptr * level) -> Prop}.
Context {F : bheap -> bheap -> Prop}.
Context `{HC : !Cursor ctz0 R F}.
Variable px_cast : dec -> dec.
Variable quantizepx : dec -> dec -> dec.
Implicit Types (h : bheap) (it : biter) (A L : list (vptr * level)).

(** A step of the iterator with its outcome named. *)
Ltac step_end HR h' it' :=
  destruct (cur_end _ _ _ HR) as (h' & it' & Hstep & HF & HR'); brun Hstep.
Ltac step_next HR h' it' :=
  destruct (cur_next _ _ _ _ _ _ HR)
    as (h' & it' & Hstep & Hv & Hk & Hload & Hlive & HF & HR' & Hpoke);
  brun Hstep; cbn [andb negb].

Lemma tops_loop_spec n h A it L acc :
  R h A it L ->
  ∃ h' it', tops_loop ctz0 n h it acc = Some (h', acc ++ tops_of n L.*2) ∧
            F h h' ∧ R h' A it' (drop n L).
Proof.
  revert h it L acc. induction n as [|n IH]; intros h it L acc HR; cbn [tops_loop].
  { exists h, it. unfold tops_of. rewrite take_0, app_nil_r, drop_0. by split_and!. }
  destruct L as [|[vp e] L].
  - step_end HR h' it'. exists h', it'. unfold tops_of. simpl. by rewrite app_nil_r.
  - step_next HR h' it'. brun Hv. brun Hload.
    destruct (IH h' it' L (acc ++ [(it_k it', vq e.2)]) HR') as (h2 & it2 & Hrun & HF2 & HR2).
    exists h2, it2. split_and!; [|by etrans|done].
    rewrite Hrun, <- app_assoc, Hk. done.
Qed.

(** What the iterator shows: the last level it moved to. *)
Definition shows h it (last : option level) : Prop :=
  match last with
  | None => it_v it = None
  | Some e => it_k it = e.1 ∧ ∃ vp, it_v it = Some vp ∧ load h vp = Some e.2
  end.

Lemma accum_loop_spec more fuel h A it L last P Q :
  R h A it L -> shows h it last -> (length L < fuel)%nat ->
  ∃ h' it' L' last' P' Q',
    accum_loop ctz0 fuel more h it P Q = Some (h', it', P', Q') ∧
    accum more L.*2 last P Q = (L'.*2, last', P', Q') ∧
    F h h' ∧ R h' A it' L' ∧ (length L' <= length L)%nat ∧
    (more P' Q' = false -> shows h' it' last').
Proof.
  revert h it L last P Q. induction fuel as [|fuel IH]; intros h it L last P Q HR Hs Hf;
    [lia|]. cbn [accum_loop].
  destruct (more P Q) eqn:Hm.
  2: { exists h, it, L, last, P, Q. split_and!; try done.
       destruct L; cbn [fmap list_fmap accum]; by rewrite Hm. }
  destruct L as [|[vp e] L].
  - step_end HR h' it'. exists h', it', [], last, P, Q. cbn [fmap list_fmap accum].
    rewrite Hm. by split_and!.
  - step_next HR h' it'. brun Hv. brun Hload. rewrite Hk.
    destruct (IH h' it' L (Some e) (dadd P (dmul e.1 (vq e.2))) (dadd Q (vq e.2)))
      as (h2 & it2 & L2 & last2 & P2 & Q2 & Hrun & Hacc & HF2 & HR2 & Hlen & Hsh);
      [done|simpl; eauto|simpl in Hf; lia|].
    exists h2, it2, L2, last2, P2, Q2. cbn [fmap list_fmap accum snd]. rewrite Hm.
    split_and!; try done; [by etrans|simpl; lia].
Qed.

Lemma del_loop_spec beyond at_ fuel h A A1 it L q :
  R h A it L -> A = A1 ++ L -> NoDup A.*1 -> (length L < fuel)%nat ->
  ∃ h' A2 it' L', del_loop ctz0 fuel beyond at_ h it q = Some h' ∧ F h h' ∧
    R h' (A1 ++ A2) it' L' ∧ A2.*2 = trade beyond at_ q L.*2.
Proof.
  revert h it A A1 L. induction fuel as [|fuel IH]; intros h it A A1 L HR HA Hd Hf; [lia|].
  cbn [del_loop]. destruct L as [|[vp e] L].
  - step_end HR h' it'. exists h', [], it', []. rewrite <- HA. done.
  - step_next HR h' it'. rewrite Hk. cbn [fmap list_fmap trade snd].
    destruct (at_ e.1 (qp q)).
    + brun Hv. brun Hload.
      set (v := mk_val (if beyond e.1 (qp q) then dzero else dsub (vq e.2) (qq q)) (vt e.2)).
      destruct (Hpoke v) as (h2 & Hp2 & HF2 & HR2). brun Hp2.
      subst A. rewrite revalue_split in HR2 by done.
      set (N := if live (set_ent v e) then [(vp, set_ent v e)] else []) in HR2.
      destruct (IH h2 it' (A1 ++ N ++ L) (A1 ++ N) L HR2) as (h3 & A2 & it3 & L3 & Hrun & HF3 & HR3 & HA2).
      * by rewrite app_assoc.
      * revert Hd. rewrite !fmap_app, fmap_cons. unfold N.
        destruct (live (set_ent v e)); simpl; [done|].
        rewrite !NoDup_app, NoDup_cons. set_solver.
      * simpl in Hf. lia.
      * exists h3, (N ++ A2), it3, L3. split_and!; [done|exact (transitivity HF (transitivity HF2 HF3))|by rewrite app_assoc|].
        rewrite fmap_app, HA2. f_equal. unfold N, keep_pos. cbn [snd].
        fold v. change (live (e.1, v)) with (live (set_ent v e)).
        by destruct (live (set_ent v e)).
    + exists h', ((vp, e) :: L), it', L. rewrite <- HA. done.
Qed.

Lemma exp_loop_spec fuel h A A1 it L t :
  R h A it L -> A = A1 ++ L -> NoDup A.*1 -> (length L < fuel)%nat ->
  ∃ h' A2 it', exp_loop ctz0 fuel h it t = Some h' ∧ F h h' ∧
    R h' (A1 ++ A2) it' [] ∧ A2.*2 = younger t L.*2.
Proof.
  revert h it A A1 L. induction fuel as [|fuel IH]; intros h it A A1 L HR HA Hd Hf; [lia|].
  cbn [exp_loop]. destruct L as [|[vp e] L].
  - step_end HR h' it'. exists h', [], it'. rewrite <- HA. done.
  - step_next HR h' it'. brun Hv. brun Hload. unfold younger. cbn [fmap list_fmap snd].
    rewrite filter_cons. cbn [snd]. destruct (Z.leb_spec (vt e.2) t) as [Hle|Hgt].
    + rewrite decide_False by lia.
      destruct (Hpoke btree_val_nil) as (h2 & Hp2 & HF2 & HR2). brun Hp2.
      subst A. rewrite revalue_split in HR2 by done. simpl in HR2.
      destruct (IH h2 it' (A1 ++ L) A1 L HR2 eq_refl) as (h3 & A2 & it3 & Hrun & HF3 & HR3 & HA2).
      * revert Hd. rewrite !fmap_app, fmap_cons, !NoDup_app, NoDup_cons. set_solver.
      * simpl in Hf. lia.
      * exists h3, A2, it3. split_and!; [done|exact (transitivity HF (transitivity HF2 HF3))|done..].
    + rewrite decide_True by lia. bstep.
      destruct (IH h' it' A (A1 ++ [(vp, e)]) L HR') as (h3 & A2 & it3 & Hrun & HF3 & HR3 & HA2).
      * by rewrite <- app_assoc.
      * done.
      * simpl in Hf. lia.
      * exists h3, ((vp, e) :: A2), it3. rewrite <- app_assoc in HR3.
        split_and!; [done|by etrans|done|]. cbn [fmap list_fmap snd]. by rewrite HA2.
Qed.

Lemma pdo_loop_spec fuel s lmt h A it L q r :
  R h A it L -> (length L < fuel)%nat ->
  ∃ h' it' L', pdo_loop ctz0 fuel s lmt h it q r = Some (h', fill_from s lmt L.*2 q r) ∧
    F h h' ∧ R h' A it' L'.
Proof.
  revert h it L q r. induction fuel as [|fuel IH]; intros h it L q r HR Hf; [lia|].
  cbn [pdo_loop]. destruct (dgt q dzero) eqn:Hq.
  2: { exists h, it, L. destruct L; cbn [fmap list_fmap fill_from]; rewrite Hq; by split_and!. }
  destruct L as [|[vp e] L].
  - step_end HR h' it'. exists h', it', []. cbn [fmap list_fmap fill_from]. by rewrite Hq.
  - step_next HR h' it'. rewrite Hk. cbn [fmap list_fmap fill_from snd]. rewrite Hq.
    fold (in_limit s lmt e.1). destruct (in_limit s lmt e.1).
    + brun Hv. brun Hload.
      edestruct (IH h' it' L) as (h2 & it2 & L2 & Hrun & HF2 & HR2); [done|simpl in Hf; lia|].
      rewrite Hrun. exists h2, it2, L2. split_and!; [done|by etrans|done].
    + by exists h', it', L.
Qed.

(** What is read through the iterator after an accumulation. *)
Lemma shows_deref {B} h it last (f : dec -> btree_val -> option B) :
  shows h it last ->
  (vp ← it_v it; v ← load h vp; f (it_k it) v) = (e ← last; f e.1 e.2).
Proof.
  destruct last as [e|]; simpl.
  - intros (Hk & vp & Hv & Hl). brun Hv. brun Hl. by rewrite Hk.
  - intros Hv. by brun Hv.
Qed.

Lemma ctops_loop_spec n h A it L last c C R0 Q acc :
  R h A it L -> shows h it last ->
  match ctops_of px_cast quantizepx n L.*2 last c C R0 Q with
  | Some r => ∃ h' it' L', ctops_loop ctz0 px_cast quantizepx n h it c C R0 Q acc =
                           Some (h', acc ++ r) ∧ F h h' ∧ R h' A it' L'
  | None => ctops_loop ctz0 px_cast quantizepx n h it c C R0 Q acc = None
  end.
Proof.
  revert h it L last c C R0 acc. induction n as [|n IH];
    intros h it L last c C R0 acc HR Hs; cbn [ctops_of ctops_loop].
  { exists h, it, L. rewrite app_nil_r. by split_and!. }
  destruct (accum_loop_spec (λ _ C, dlt C R0) (cells_fuel h) h A it L last c C)
    as (h1 & it1 & L1 & last1 & c1 & C1 & Hrun & Hacc & HF1 & HR1 & _ & Hs1); [done..| |].
  { pose proof (cur_fuel _ _ _ _ HR). unfold cells_fuel. lia. }
  rewrite Hacc. brun Hrun. destruct (dlt C1 R0) eqn:Hlt.
  { exists h1, it1, L1. rewrite app_nil_r. by split_and!. }
  specialize (Hs1 eq_refl).
  rewrite (shows_deref h1 it1 last1 (λ k v, ctops_loop ctz0 px_cast quantizepx n h1 it1 c1 C1
    (dadd R0 Q) Q (acc ++ [(quantizepx (px_cast (ddiv (dsub c1 (dmul k (dsub C1 R0))) R0)) k,
                            quantizeqx R0 (vq v))])) Hs1).
  destruct last1 as [e|]; [|done]. bstep.
  set (x := (_, quantizeqx _ _)).
  specialize (IH h1 it1 L1 (Some e) c1 C1 (dadd R0 Q) (acc ++ [x]) HR1 Hs1).
  destruct (ctops_of _ _ n _ _ _ _ _ _) as [r|]; bstep; [|done].
  destruct IH as (h2 & it2 & L2 & Hrun2 & HF2 & HR2). exists h2, it2, L2.
  rewrite Hrun2, <- app_assoc. split_and!; [done|by etrans|done].
Qed.

Lemma vtops_loop_spec n h A it L last c C r0 v acc :
  R h A it L -> shows h it last ->
  match vtops_of px_cast quantizepx n L.*2 last c C r0 v with
  | Some r => ∃ h' it' L', vtops_loop ctz0 px_cast quantizepx n h it c C r0 v acc =
                           Some (h', acc ++ r) ∧ F h h' ∧ R h' A it' L'
  | None => vtops_loop ctz0 px_cast quantizepx n h it c C r0 v acc = None
  end.
Proof.
  revert h it L last c C r0 acc. induction n as [|n IH];
    intros h it L last c C r0 acc HR Hs; cbn [vtops_of vtops_loop].
  { exists h, it, L. rewrite app_nil_r. by split_and!. }
  destruct (accum_loop_spec (λ c _, dlt c r0) (cells_fuel h) h A it L last c C)
    as (h1 & it1 & L1 & last1 & c1 & C1 & Hrun & Hacc & HF1 & HR1 & _ & Hs1); [done..| |].
  { pose proof (cur_fuel _ _ _ _ HR). unfold cells_fuel. lia. }
  rewrite Hacc. brun Hrun. destruct (dlt c1 r0) eqn:Hlt.
  { exists h1, it1, L1. rewrite app_nil_r. by split_and!. }
  specialize (Hs1 eq_refl). cbv zeta.
  rewrite (shows_deref h1 it1 last1 (λ k w, vtops_loop ctz0 px_cast quantizepx n h1 it1 c1 C1
    (dadd r0 v) v (acc ++ [(quantizepx (px_cast (ddiv r0 (dsub C1 (ddiv (dsub c1 r0) k)))) k,
                            quantizeqx (dsub C1 (ddiv (dsub c1 r0) k)) (vq w))])) Hs1).
  destruct last1 as [e|]; [|done]. bstep.
  set (x := (_, quantizeqx _ _)).
  specialize (IH h1 it1 L1 (Some e) c1 C1 (dadd r0 v) (acc ++ [x]) HR1 Hs1).
  destruct (vtops_of _ _ n _ _ _ _ _ _) as [r|]; bstep; [|done].
  destruct IH as (h2 & it2 & L2 & Hrun2 & HF2 & HR2). exists h2, it2, L2.
  rewrite Hrun2, <- app_assoc. split_and!; [done|by etrans|done].
Qed.
End loops.
