(* ===== verification/BooksSpec.v ===== *)
(** * books.c: what a book shows

    The class [Shown V] is what the queries need of a book: [V h b B] says that
    in heap [h] book [b] shows the levels [B false] on the ask side and [B true]
    on the bid side, best price first, and that iterating over a side works.
    The queries of books.c compute functions of [B] and leave the book alone;
    expiry and trades, and clearing if the book is [Clearable], change it as
    the reference definitions say.

    [book_at] is one such [V]: sides that span any number of leaves, with every
    level's [used] bit set, whatever [__builtin_ctzll(0)] returns. *)

From Stdlib Require Import ZArith Lia.
From stdpp Require Import prelude list gmap.
From stdpp Require Import options.
From S2P Require Import Prelude Decimal Dfp754D64 Btree BtreeLeaf BtreeUsed BtreeIter.
From S2P Require Import BtreeSide BtreeCursor BtreeOps Books BooksLoops.

Local Open Scope Z_scope.

(** ** The abstract book *)

Abbreviation sides := (bool -> list level).

(** The direction of a side's tree: the bids descend. *)
Definition dir (s : Z) : bool := s =? BOOK_SIDE_BID.

Definition two_sided (s : Z) : Prop := s = BOOK_SIDE_ASK ∨ s = BOOK_SIDE_BID.

Definition root (b : book_t) (d : bool) : positive := if d then quo_bid b else quo_ask b.

Definition upd {A} (d : bool) (x : A) (f : bool -> A) : bool -> A :=
  λ d', if Bool.eqb d' d then x else f d'.

(** [X]: the leaves of each side. *)
Definition book_on (h : bheap) (b : book_t) (X : bool -> list positive) (B : sides) : Prop :=
  X false ## X true ∧
  ∀ d, ∃ C, side d used_leaf h (root b d) C ∧ C.*1 = X d ∧ (cells C).*2 = B d.

Definition book_at (h : bheap) (b : book_t) (B : sides) : Prop := ∃ X, book_on h b X B.

(** Books are compared by what they show. *)
Lemma book_on_ext h b X B B' : (∀ d, B d = B' d) -> book_on h b X B -> book_on h b X B'.
Proof. intros He (Hx & Hs). split; [done|]. intros d. rewrite <- He. apply Hs. Qed.

Lemma book_at_ext h b B B' : (∀ d, B d = B' d) -> book_at h b B -> book_at h b B'.
Proof. intros He (X & Hb). exists X. by eapply book_on_ext. Qed.

#[export] Instance book_at_proper h b :
  Proper (pointwise_relation bool eq ==> iff) (book_at h b).
Proof. intros B B' He. split; apply book_at_ext; done. Qed.

Lemma BOOK_root b s : two_sided s -> BOOK b s = Some (root b (dir s)).
Proof. by intros [-> | ->]. Qed.

(** Iterating over one side of a book, and putting the book back together. *)
Lemma book_on_open h b X B d :
  book_on h b X B ->
  ∃ A, A.*2 = B d ∧ NoDup A.*1 ∧ (length A < cells_fuel h)%nat ∧
    on_side d (root b d) (X d) h A (iter (root b d)) A ∧
    ∀ h' A' it L', keeps (X d) h h' -> on_side d (root b d) (X d) h' A' it L' ->
                   book_on h' b X (upd d A'.*2 B).
Proof.
  intros (Hx & Hs). destruct (Hs d) as (C & HC & HX & HB).
  exists (cells C). split_and!; [done|by apply cells_NoDup, HC| |by apply on_side_open|].
  { pose proof (cells_length _ _ _ _ _ HC). unfold cells_fuel. lia. }
  intros h' A' it L' Hk (C' & A1 & HC' & HX' & -> & _ & _). split; [done|].
  intros d'. unfold upd. destruct (Bool.eqb_spec d' d) as [->|Hne]; [eauto|].
  destruct (Hs d') as (C2 & HC2 & HX2 & HB2). exists C2. split; [|done].
  apply Hk; [done|]. rewrite HX2. destruct d, d'; set_solver.
Qed.

Lemma book_at_open h b B d :
  book_at h b B ->
  ∃ X A, A.*2 = B d ∧ NoDup A.*1 ∧ (length A < cells_fuel h)%nat ∧
    on_side d (root b d) X h A (iter (root b d)) A ∧
    ∀ h' A' it L', keeps X h h' -> on_side d (root b d) X h' A' it L' ->
                   book_at h' b (upd d A'.*2 B).
Proof.
  intros (X & Hb). destruct (book_on_open h b X B d Hb) as (A & HA & Hd & Hf & Ho & Hback).
  exists (X d), A. split_and!; [done..|]. intros h' A' it L' Hk Ho'. exists X. by eapply Hback.
Qed.

Lemma upd_same {A} d (f : bool -> A) d' : upd d (f d) f d' = f d'.
Proof. unfold upd. by destruct (Bool.eqb_spec d' d) as [->|]. Qed.

(** ** What queries rely on *)

(** Books that can be looked at: a side opens as an iterator that honours the
    contract, and what was done to it shows afterwards. *)
Class Shown (ctz0 : nat) (V : bheap -> book_t -> sides -> Prop) : Prop := {
  sh_ext h b B B' : (∀ d, B d = B' d) -> V h b B -> V h b B';
  sh_open h b B d :
    V h b B ->
    ∃ R F A, Cursor ctz0 R F ∧ A.*2 = B d ∧ NoDup A.*1 ∧ (length A < cells_fuel h)%nat ∧
      R h A (iter (root b d)) A ∧
      ∀ h' A' it L', F h h' -> R h' A' it L' -> V h' b (upd d A'.*2 B);
}.

Class Clearable (V : bheap -> book_t -> sides -> Prop) : Prop :=
  cl_clr h b B : V h b B -> ∃ h', book_clr h b = Some h' ∧ V h' b (λ _, []).

#[export] Instance book_at_shown ctz0 : Shown ctz0 book_at.
Proof.
  split; [exact book_at_ext|]. intros h b B d (X & A & HA & Hd & Hf & Ho & Hback)%(book_at_open _ _ _ d).
  exists (on_side d (root b d) X), (keeps X), A. split_and!; try done. apply _.
Qed.

(** A read-only pass over a side. *)
Lemma shown_read ctz0 V `{!Shown ctz0 V} h b B d :
  V h b B ->
  ∃ R F A, Cursor ctz0 R F ∧ A.*2 = B d ∧ (length A < cells_fuel h)%nat ∧
    R h A (iter (root b d)) A ∧ ∀ h' it L', F h h' -> R h' A it L' -> V h' b B.
Proof.
  intros Hb. destruct (sh_open h b B d Hb) as (R & F & A & HC & HA & _ & Hf & Ho & Hback).
  exists R, F, A. split_and!; try done. intros h' it L' Hk Ho'.
  eapply sh_ext; [|by eapply Hback]. intros d'. rewrite HA. apply upd_same.
Qed.

(** ** Queries *)

Section queries.
#[local] Set Default Proof Using "Type*".
Context (ctz0 : nat) {V : bheap -> book_t -> sides -> Prop} `{HV : !Shown ctz0 V}.

Definition top_of (s : Z) (L : list level) : book_quo :=
  match L with
  | [] => NOT_A_QUO
  | e :: _ => mk_quo s BOOK_LVL_1 e.1 (vq e.2) (vt e.2)
  end.

(** [book_top] returns the best level of the side asked for, or
    [NOT_A_QUO] when the side is empty. *)
Theorem book_top_correct h b B s :
  two_sided s -> V h b B ->
  ∃ h', book_top ctz0 h b s = Some (h', top_of s (B (dir s))) ∧ V h' b B.
Proof.
  intros Hs Hb. unfold book_top. brun (BOOK_root b s Hs).
  destruct (shown_read ctz0 V h b B (dir s) Hb) as (R & F & A & HC & <- & _ & Ho & Hback).
  destruct A as [|[vp e] A].
  - destruct (cur_end (ctz0 := ctz0) _ _ _ Ho) as (h' & it' & Hrun & HF & HR). brun Hrun.
    exists h'. eauto.
  - destruct (cur_next (ctz0 := ctz0) _ _ _ _ _ _ Ho)
      as (h' & it' & Hrun & Hv & Hk & Hl & _ & HF & HR & _).
    brun Hrun. cbn [negb]. brun Hv. brun Hl. rewrite Hk. exists h'. eauto.
Qed.

Lemma book_tops_run h b B s n :
  two_sided s -> V h b B ->
  ∃ h', book_tops ctz0 h b s n = Some (h', tops_of n (B (dir s))) ∧ V h' b B.
Proof.
  intros Hs Hb. unfold book_tops. brun (BOOK_root b s Hs).
  destruct (shown_read ctz0 V h b B (dir s) Hb) as (R & F & A & HC & <- & _ & Ho & Hback).
  destruct (tops_loop_spec (ctz0 := ctz0) n h A _ A [] Ho) as (h' & it' & Hrun & HF & HR).
  exists h'. rewrite Hrun. eauto.
Qed.

(** C18: [book_tops] writes the prices and quantities of the best [n] levels,
    in order, and returns their number. *)
Theorem book_tops_correct h b B s n :
  two_sided s -> V h b B ->
  ∃ h', book_tops ctz0 h b s n = Some (h', tops_of n (B (dir s))) ∧ V h' b B.
Proof. apply book_tops_run. Qed.

Variable px_cast : dec -> dec.
Variable quantizepx : dec -> dec -> dec.

(** What a query promises, given its reference result: a null pointer is read
    exactly when the reference result is undefined. *)
Definition answers {T} (run : option (bheap * T)) (ref : option T) (b : book_t) (B : sides) : Prop :=
  match ref with
  | Some r => ∃ h', run = Some (h', r) ∧ V h' b B
  | None => run = None
  end.

Lemma book_ctop_run h b B s q :
  two_sided s -> V h b B ->
  answers (book_ctop ctz0 px_cast quantizepx h b s q)
          (ctop_of px_cast quantizepx s q (B (dir s))) b B.
Proof.
  intros Hs Hb. unfold answers, book_ctop, ctop_of. brun (BOOK_root b s Hs).
  destruct (shown_read ctz0 V h b B (dir s) Hb) as (R & F & A & HC & <- & Hf & Ho & Hback).
  destruct (accum_loop_spec (ctz0 := ctz0) (λ _ Q, dlt Q q) (cells_fuel h) h A _ A None dzero dzero Ho)
    as (h1 & it1 & L1 & last & P & Q & Hrun & Hacc & HF & HR & _ & Hsh); [done..|].
  rewrite Hacc. brun Hrun. destruct (dlt Q q) eqn:Hlt; [eauto|]. specialize (Hsh eq_refl).
  destruct last as [e|]; simpl in Hsh.
  - destruct Hsh as (Hk & vp & Hv & Hl). bstep. brun Hv. brun Hl. rewrite Hk. eauto.
  - by brun Hsh.
Qed.

(** C19: [book_ctop] answers with the average price at which [q] units can be
    had: levels are consumed until they hold [q], the last one in part. *)
Theorem book_ctop_correct h b B s q :
  two_sided s -> V h b B ->
  answers (book_ctop ctz0 px_cast quantizepx h b s q)
          (ctop_of px_cast quantizepx s q (B (dir s))) b B.
Proof. apply book_ctop_run. Qed.

(** [book_vtop] answers with the average price and the quantity that can
    be had for the amount [v]. *)
Theorem book_vtop_correct h b B s v :
  two_sided s -> V h b B ->
  answers (book_vtop ctz0 px_cast quantizepx h b s v)
          (vtop_of px_cast quantizepx s v (B (dir s))) b B.
Proof.
  intros Hs Hb. unfold answers, book_vtop, vtop_of. brun (BOOK_root b s Hs).
  destruct (shown_read ctz0 V h b B (dir s) Hb) as (R & F & A & HC & <- & Hf & Ho & Hback).
  destruct (accum_loop_spec (ctz0 := ctz0) (λ P _, dlt P v) (cells_fuel h) h A _ A None dzero dzero Ho)
    as (h1 & it1 & L1 & last & P & Q & Hrun & Hacc & HF & HR & _ & Hsh); [done..|].
  rewrite Hacc. brun Hrun. destruct (dlt P v) eqn:Hlt; [eauto|]. specialize (Hsh eq_refl).
  destruct last as [e|]; simpl in Hsh.
  - destruct Hsh as (Hk & vp & Hv & Hl). bstep. brun Hv. brun Hl. rewrite Hk. eauto.
  - by brun Hsh.
Qed.

Lemma book_ctops_run h b B s Q n :
  two_sided s -> V h b B ->
  answers (book_ctops ctz0 px_cast quantizepx h b s Q n)
          (ctops_of px_cast quantizepx n (B (dir s)) None dzero dzero Q Q) b B.
Proof.
  intros Hs Hb. unfold answers, book_ctops. brun (BOOK_root b s Hs).
  destruct (shown_read ctz0 V h b B (dir s) Hb) as (R & F & A & HC & <- & _ & Ho & Hback).
  pose proof (ctops_loop_spec (ctz0 := ctz0) px_cast quantizepx n h A _ A None
                dzero dzero Q Q [] Ho eq_refl) as Hl.
  destruct (ctops_of _ _ n _ _ _ _ _ _) as [r|]; [|done].
  destruct Hl as (h' & it' & L' & Hrun & HF & HR). eauto.
Qed.

(** C20: [book_ctops] answers with the average prices of the first [n]
    multiples of [Q], as far as the side holds them. *)
Theorem book_ctops_correct h b B s Q n :
  two_sided s -> V h b B ->
  answers (book_ctops ctz0 px_cast quantizepx h b s Q n)
          (ctops_of px_cast quantizepx n (B (dir s)) None dzero dzero Q Q) b B.
Proof. apply book_ctops_run. Qed.

Lemma book_vtops_run h b B s v n :
  two_sided s -> V h b B ->
  answers (book_vtops ctz0 px_cast quantizepx h b s v n)
          (vtops_of px_cast quantizepx n (B (dir s)) None dzero dzero v v) b B.
Proof.
  intros Hs Hb. unfold answers, book_vtops. brun (BOOK_root b s Hs).
  destruct (shown_read ctz0 V h b B (dir s) Hb) as (R & F & A & HC & <- & _ & Ho & Hback).
  pose proof (vtops_loop_spec (ctz0 := ctz0) px_cast quantizepx n h A _ A None
                dzero dzero v v [] Ho eq_refl) as Hl.
  destruct (vtops_of _ _ n _ _ _ _ _ _) as [r|]; [|done].
  destruct Hl as (h' & it' & L' & Hrun & HF & HR). eauto.
Qed.

(** C21: [book_vtops] answers with average price and quantity for the first [n]
    multiples of the amount [v]. *)
Theorem book_vtops_correct h b B s v n :
  two_sided s -> V h b B ->
  answers (book_vtops ctz0 px_cast quantizepx h b s v n)
          (vtops_of px_cast quantizepx n (B (dir s)) None dzero dzero v v) b B.
Proof. apply book_vtops_run. Qed.

(** The limit a NaN stands for. *)
Definition limit_of (s : Z) (lmt : dec) : dec :=
  if is_nan lmt then DInf (dir s) else lmt.

(** C22: [book_pdo] fills [q] level by level up to the limit (a NaN is no
    limit) and reports base and terms and the youngest and oldest time. *)
Theorem book_pdo_correct h b B s q lmt :
  two_sided s -> V h b B ->
  ∃ h', book_pdo ctz0 h b s q lmt =
        Some (h', fill_from s (limit_of s lmt) (B (dir s)) q (mk_pdo dzero dzero 0 NATV)) ∧
        V h' b B.
Proof.
  intros Hs Hb. unfold book_pdo. brun (BOOK_root b s Hs).
  destruct (shown_read ctz0 V h b B (dir s) Hb) as (R & F & A & HC & <- & Hf & Ho & Hback).
  replace (if negb (is_nan lmt) then lmt else _) with (limit_of s lmt).
  2: { unfold limit_of. destruct (is_nan lmt); [|done]. by destruct Hs as [-> | ->]. }
  destruct (pdo_loop_spec (ctz0 := ctz0) (cells_fuel h) s (limit_of s lmt) h A _ A q
              (mk_pdo dzero dzero 0 NATV) Ho Hf) as (h' & it' & L' & Hrun & HF & HR).
  exists h'. rewrite Hrun. eauto.
Qed.

(** The calls of [book_iter_next] a client makes until it is told to stop. *)
Fixpoint drain (fuel : nat) (h : bheap) (i : biter) : option (bheap * list level) :=
  match fuel with
  | O => None
  | S fuel =>
    '(h, i, r) ← book_iter_next ctz0 h i;
    match r with
    | Some v => '(h, L) ← drain fuel h i; Some (h, (it_k i, v) :: L)
    | None => Some (h, [])
    end
  end.

Lemma drain_spec {R F} `{HC : !Cursor ctz0 R F} fuel (h : bheap) A it L :
  R h A it L -> (length L < fuel)%nat ->
  ∃ h' it', drain fuel h it = Some (h', L.*2) ∧ F h h' ∧ R h' A it' [].
Proof.
  revert h it L. induction fuel as [|fuel IH]; intros h it L Ho Hf; [lia|].
  cbn [drain]. unfold book_iter_next. destruct L as [|[vp e] L].
  - destruct (cur_end (ctz0 := ctz0) _ _ _ Ho) as (h' & it' & Hrun & HF & HR). brun Hrun. eauto.
  - destruct (cur_next (ctz0 := ctz0) _ _ _ _ _ _ Ho)
      as (h' & it' & Hrun & Hv & Hk & Hl & _ & HF & HR & _).
    brun Hrun. brun Hv. brun Hl.
    destruct (IH h' it' L HR) as (h2 & it2 & Hd & HF2 & HR2); [simpl in Hf; lia|].
    brun Hd. exists h2, it2. rewrite Hk. split_and!; [by destruct e|by etrans|done].
Qed.

Lemma book_drain h b B s :
  two_sided s -> V h b B ->
  ∃ i h', book_iter b s = Some i ∧ drain (cells_fuel h) h i = Some (h', B (dir s)) ∧ V h' b B.
Proof.
  intros Hs Hb. unfold book_iter. rewrite (BOOK_root b s Hs).
  destruct (shown_read ctz0 V h b B (dir s) Hb) as (R & F & A & HC & <- & Hf & Ho & Hback).
  destruct (drain_spec _ _ _ _ _ Ho Hf) as (h' & it' & Hrun & HF & HR).
  exists (iter (root b (dir s))), h'. split_and!; [done|done|by eapply Hback].
Qed.

(** C17: a client that calls [book_iter_next] until it fails sees the levels of
    the side, each once and in order, and terminates. *)
Theorem book_iter_correct h b B s :
  two_sided s -> V h b B ->
  ∃ i h', book_iter b s = Some i ∧ drain (cells_fuel h) h i = Some (h', B (dir s)) ∧
          V h' b B.
Proof. apply book_drain. Qed.
End queries.

(** ** Without quantities *)

Section only_p.
Variable ctz0 : nat.
Variable px_cast : dec -> dec.
Variable quantizepx : dec -> dec -> dec.

(** [runp] finds the prices of whatever [run] finds. *)
Definition prices_of (run : option (bheap * list (dec * dec))) (runp : option (bheap * list dec)) :
    Prop :=
  ∀ h l, run = Some (h, l) -> runp = Some (h, l.*1).

Lemma prices_snoc (acc : list (dec * dec)) p q : (acc ++ [(p, q)]).*1 = acc.*1 ++ [p].
Proof. by rewrite fmap_app. Qed.

(** The reads of the quantity that only one variant makes. *)
Ltac extra_reads :=
  repeat match goal with |- prices_of (?x ≫= _) _ => destruct x; bstep; [|done] end.

Lemma tops_p_loop_eq n h i acc :
  prices_of (tops_loop ctz0 n h i acc) (tops_p_loop ctz0 n h i acc.*1).
Proof.
  revert h i acc. induction n as [|n IH]; intros h i acc; cbn [tops_loop tops_p_loop].
  { by intros h' l [= <- <-]. }
  destruct (btree_iter_next ctz0 h i) as [[[h1 i1] [|]]|]; bstep;
    [|by intros h' l [= <- <-]|done].
  extra_reads. erewrite <- prices_snoc. apply IH.
Qed.

Lemma ctops_p_loop_eq n h i c C R Q acc :
  prices_of (ctops_loop ctz0 px_cast quantizepx n h i c C R Q acc)
            (ctops_p_loop ctz0 px_cast quantizepx n h i c C R Q acc.*1).
Proof.
  revert h i c C R acc. induction n as [|n IH]; intros h i c C R acc;
    cbn [ctops_loop ctops_p_loop].
  { by intros h' l [= <- <-]. }
  destruct (accum_loop _ _ _ _ _ _ _) as [[[[h1 i1] c1] C1]|]; bstep; [|done].
  destruct (dlt _ R); [by intros h' l [= <- <-]|].
  extra_reads. erewrite <- prices_snoc. apply IH.
Qed.

Lemma vtops_p_loop_eq n h i c C r v acc :
  prices_of (vtops_loop ctz0 px_cast quantizepx n h i c C r v acc)
            (vtops_p_loop ctz0 px_cast quantizepx n h i c C r v acc.*1).
Proof.
  revert h i c C r acc. induction n as [|n IH]; intros h i c C r acc;
    cbn [vtops_loop vtops_p_loop].
  { by intros h' l [= <- <-]. }
  destruct (accum_loop _ _ _ _ _ _ _) as [[[[h1 i1] c1] C1]|]; bstep; [|done].
  destruct (dlt _ r); [by intros h' l [= <- <-]|].
  extra_reads. erewrite <- prices_snoc. apply IH.
Qed.

(** C27: the queries for several levels find the same prices when they are
    called without an array for the quantities. *)
Theorem only_p_correct h b s q n :
  prices_of (book_tops ctz0 h b s n) (book_tops_p ctz0 h b s n) ∧
  prices_of (book_ctops ctz0 px_cast quantizepx h b s q n)
            (book_ctops_p ctz0 px_cast quantizepx h b s q n) ∧
  prices_of (book_vtops ctz0 px_cast quantizepx h b s q n)
            (book_vtops_p ctz0 px_cast quantizepx h b s q n).
Proof.
  unfold book_tops, book_tops_p, book_ctops, book_ctops_p, book_vtops, book_vtops_p.
  destruct (BOOK b s) as [p|]; bstep; [|done].
  split_and!; [apply (tops_p_loop_eq _ _ _ [])|apply (ctops_p_loop_eq _ _ _ _ _ _ _ [])
              |apply (vtops_p_loop_eq _ _ _ _ _ _ _ [])].
Qed.
End only_p.

(** ** Changes *)

Lemma book_on_clr_side h b X B d :
  book_on h b X B ->
  ∃ h', btree_clr h (root b d) = Some h' ∧ book_on h' b X (upd d [] B) ∧ keeps (X d) h h'.
Proof.
  intros (Hx & Hs). destruct (Hs d) as (C & HC & HX & HB).
  destruct (btree_clr_side d h (root b d) C) as (h' & Hrun & Hw & HC').
  { destruct HC as (Hd & l & Hl & Hc). split; [done|]. exists l. split; [done|].
    eapply chain_weaken; [|done]. apply used_word. }
  exists h'. rewrite HX in Hw. split_and!; [done| |by apply leafwise_keeps].
  split; [done|]. intros d'. unfold upd. destruct (Bool.eqb_spec d' d) as [->|Hne].
  - exists (clr_cells C). split_and!; [done|by rewrite clr_addr|by rewrite clr_cells_nil].
  - destruct (Hs d') as (C2 & HC2 & HX2 & HB2). exists C2. split; [|done].
    eapply leafwise_keeps; eauto. rewrite HX2. destruct d, d'; set_solver.
Qed.

(** All nodes of both sides. *)
Definition both (X : bool -> list positive) : list positive := X false ++ X true.

Lemma keeps_weaken (X Y : list positive) (h h' : bheap) : X ⊆ Y -> keeps X h h' -> keeps Y h h'.
Proof. intros Hs Hk d p C HC Hd. apply Hk; [done|]. set_solver. Qed.

Lemma keeps_both d X (h h' : bheap) : keeps (X d) h h' -> keeps (both X) h h'.
Proof. apply keeps_weaken. unfold both. destruct d; set_solver. Qed.

Lemma book_clr_on h b X B :
  book_on h b X B -> ∃ h', book_clr h b = Some h' ∧ book_on h' b X (λ _, []) ∧ keeps (both X) h h'.
Proof.
  intros Hb. destruct (book_on_clr_side h b X B true Hb) as (h1 & H1 & Hb1 & Hk1).
  destruct (book_on_clr_side h1 b X _ false Hb1) as (h2 & H2 & Hb2 & Hk2).
  exists h2. unfold book_clr. unfold root in *. brun H1. split_and!; [done| |].
  - eapply book_on_ext; [|done]. by intros [].
  - etrans; by eapply keeps_both.
Qed.

Lemma book_clr_run h b B :
  book_at h b B -> ∃ h', book_clr h b = Some h' ∧ book_at h' b (λ _, []).
Proof.
  intros (X & Hb). destruct (book_clr_on h b X B Hb) as (h' & ? & ? & _).
  exists h'. split; [done|by exists X].
Qed.

#[export] Instance book_at_clearable : Clearable book_at.
Proof. exact book_clr_run. Qed.

(** A book on the leaves [X], and sides elsewhere are as they were in [h0]. *)
Definition book_framed (h0 : bheap) (X : bool -> list positive) (h : bheap) b B : Prop :=
  book_on h b X B ∧ keeps (both X) h0 h.

#[export] Instance book_framed_shown ctz0 h0 X : Shown ctz0 (book_framed h0 X).
Proof.
  split.
  - intros h b B B' He [Hb Hk]. split; [by eapply book_on_ext|done].
  - intros h b B d [Hb Hk]. destruct (book_on_open h b X B d Hb) as (A & HA & Hd & Hf & Ho & Hback).
    exists (on_side d (root b d) (X d)), (keeps (X d)), A. split_and!; try done; [apply _|].
    intros h' A' it L' Hk' Ho'. split; [by eapply Hback|]. etrans; [done|by eapply keeps_both].
Qed.

#[export] Instance book_framed_clearable h0 X : Clearable (book_framed h0 X).
Proof.
  intros h b B [Hb Hk]. destruct (book_clr_on h b X B Hb) as (h' & Hrun & Hb' & Hk').
  exists h'. split; [done|]. split; [done|by etrans].
Qed.

Section changes.
#[local] Set Default Proof Using "Type*".
Context (ctz0 : nat) {V : bheap -> book_t -> sides -> Prop} `{HV : !Shown ctz0 V}.

(** [book_clr], and a quote with side CLR, empty both sides. *)
Theorem book_clr_correct `{HC : !Clearable V} h b B q :
  V h b B -> qs q = BOOK_SIDE_CLR ->
  ∃ h', book_clr h b = Some h' ∧ book_add ctz0 h b q = Some (h', q) ∧ V h' b (λ _, []).
Proof.
  intros Hb Hq. destruct (cl_clr h b B Hb) as (h' & Hrun & Hb').
  exists h'. split_and!; [done| |done].
  transitivity (h1 ← book_clr h b; Some (h1, q)); [unfold book_add; by rewrite Hq|].
  by brun Hrun.
Qed.

Lemma exp_side h b B d t :
  V h b B ->
  ∃ h', exp_loop ctz0 (cells_fuel h) h (iter (root b d)) t = Some h' ∧
        V h' b (upd d (younger t (B d)) B).
Proof.
  intros Hb. destruct (sh_open h b B d Hb) as (R & F & A & HC & HA & Hd & Hf & Ho & Hback).
  destruct (exp_loop_spec (ctz0 := ctz0) (cells_fuel h) h A [] _ A t Ho eq_refl Hd Hf)
    as (h' & A2 & it' & Hrun & HF & HR & HA2).
  exists h'. split; [done|]. rewrite <- HA, <- HA2. by eapply Hback.
Qed.

(** The book after expiry at [t]. *)
Definition expired (t : Z) (B : sides) : sides :=
  λ d, if t =? 0 then B d else if t =? NATV then [] else younger t (B d).

Lemma book_exp_run `{HC : !Clearable V} h b B t :
  V h b B -> ∃ h', book_exp ctz0 h b t = Some h' ∧ V h' b (expired t B).
Proof.
  intros Hb. unfold book_exp, expired. destruct (t =? 0); [by exists h|].
  destruct (t =? NATV); [by apply (cl_clr h b B)|].
  destruct (exp_side h b B false t Hb) as (h1 & H1 & Hb1).
  destruct (exp_side h1 b _ true t Hb1) as (h2 & H2 & Hb2).
  exists h2. unfold root in *. brun H1. split; [done|]. eapply sh_ext; [|done]. by intros [].
Qed.

(** C14: [book_exp] removes exactly the levels last touched at [t] or before - those
    of time [t] itself too, where books.h:223 speaks of quotes older than [t]; time 0
    removes nothing and the invalid time removes everything. *)
Theorem book_exp_correct `{HC : !Clearable V} h b B t :
  V h b B ->
  ∃ h', book_exp ctz0 h b t = Some h' ∧
        V h' b (λ d, if t =? 0 then B d
                     else if t =? NATV then [] else younger t (B d)).
Proof. apply book_exp_run. Qed.

Lemma del_side h b B d beyond at_ q :
  V h b B ->
  ∃ h', del_loop ctz0 (cells_fuel h) beyond at_ h (iter (root b d)) q = Some h' ∧
        V h' b (upd d (trade beyond at_ q (B d)) B).
Proof.
  intros Hb. destruct (sh_open h b B d Hb) as (R & F & A & HC & HA & Hd & Hf & Ho & Hback).
  destruct (del_loop_spec (ctz0 := ctz0) beyond at_ (cells_fuel h) h A [] _ A q Ho eq_refl Hd Hf)
    as (h' & A2 & it' & L' & Hrun & HF & HR & HA2).
  exists h'. split; [done|]. rewrite <- HA, <- HA2. by eapply Hback.
Qed.

Lemma add_del_run h b B q :
  V h b B -> qs q = BOOK_SIDE_DEL ->
  ∃ h', book_add ctz0 h b q = Some (h', q) ∧
        V h' b (λ d, if d then trade dgt dge q (B true) else trade dlt dle q (B false)).
Proof.
  intros Hb Hq. unfold book_add. rewrite Hq. cbn [Z.eqb orb BOOK_SIDE_DEL BOOK_SIDE_BID
    BOOK_SIDE_ASK BOOK_SIDE_CLR Pos.eqb].
  destruct (del_side h b B false dlt dle q Hb) as (h1 & H1 & Hb1).
  destruct (del_side h1 b _ true dgt dge q Hb1) as (h2 & H2 & Hb2).
  exists h2. unfold root in *. brun H1. brun H2. split; [done|].
  eapply sh_ext; [|done]. by intros [].
Qed.

(** C12: a trade (side DEL) removes the levels that were traded through and
    reduces the one traded at, on both sides. *)
Theorem book_add_del_correct h b B q :
  V h b B -> qs q = BOOK_SIDE_DEL ->
  ∃ h', book_add ctz0 h b q = Some (h', q) ∧
        V h' b (λ d, if d then trade dgt dge q (B true) else trade dlt dle q (B false)).
Proof. apply add_del_run. Qed.
End changes.
