(* ===== verification/BooksAdd.v ===== *)
(** * books.c: adding quotes

    While both trees are single leaves, a book is two finite maps from prices
    to values.  [quote_step] is the abstract machine: what one quote does to
    the maps and what it reports back.  [book_add] implements it. *)

From Stdlib Require Import ZArith Lia.
From stdpp Require Import prelude list gmap fin_maps.
From stdpp Require Import options.
From S2P Require Import Prelude Decimal Dfp754D64 Btree BtreeLeaf BtreeUsed BtreeIter.
From S2P Require Import BtreeSide BtreeCursor BtreeOps BtreeMap Books BooksLoops BooksSpec.

Local Open Scope Z_scope.

(** ** The abstract machine *)

(** Prices (their place in the order of the side) to values, per side. *)
Abbreviation levels_map := (bool -> gmap Z btree_val).

(** The value a quote stores over [w]. *)
Definition stored (q : book_quo) (w : btree_val) : btree_val :=
  mk_val (if qf q =? BOOK_LVL_3
          then let s := dadd (qq q) (vq w) in if dge s dzero then s else dzero
          else qq q) (qt q).

(** The quote handed back: the value that was there before. *)
Definition replaced (q : book_quo) (w : btree_val) : book_quo :=
  mk_quo (qs q) (qf q) (qp q) (vq w) (vt w).

Inductive quote_step (q : book_quo) (M : levels_map) : book_quo -> levels_map -> Prop :=
  (** A level is set or changed; [w] is the level's value, or some value that
      counts as nil when there is no such level. *)
  | step_level z w M' :
    two_sided (qs q) -> qf q = BOOK_LVL_2 ∨ qf q = BOOK_LVL_3 ->
    ord (dir (qs q)) (qp q) = Some z ->
    M (dir (qs q)) !! z = val_opt w ->
    M' (dir (qs q)) = partial_alter (λ _, val_opt (stored q w)) z (M (dir (qs q))) ->
    M' (negb (dir (qs q))) = M (negb (dir (qs q))) ->
    quote_step q M (replaced q w) M'
  (** A top-of-book quote replaces the whole side. *)
  | step_top z M' :
    two_sided (qs q) -> qf q = BOOK_LVL_1 -> dlt (qq q) dzero = false ->
    is_nan (qp q) = false -> ord (dir (qs q)) (qp q) = Some z ->
    M' (dir (qs q)) = partial_alter (λ _, val_opt (mk_val (qq q) (qt q))) z ∅ ->
    M' (negb (dir (qs q))) = M (negb (dir (qs q))) ->
    quote_step q M (replaced q btree_val_nil) M'
  (** Without a price it only empties the side. *)
  | step_top_nan M' :
    two_sided (qs q) -> qf q = BOOK_LVL_1 -> dlt (qq q) dzero = false ->
    is_nan (qp q) = true ->
    M' (dir (qs q)) = ∅ -> M' (negb (dir (qs q))) = M (negb (dir (qs q))) ->
    quote_step q M q M'
  (** Clearing the book. *)
  | step_clr M' :
    qs q = BOOK_SIDE_CLR -> (∀ d, M' d = ∅) -> quote_step q M q M'
  (** Quotes that are refused. *)
  | step_odd :
    two_sided (qs q) -> qf q = BOOK_LVL_1 -> dlt (qq q) dzero = true ->
    quote_step q M NOT_A_QUO M
  | step_invalid :
    qs q < BOOK_SIDE_ASK ∨ NBOOK_SIDES <= qs q ∨
    two_sided (qs q) ∧ (qf q < BOOK_LVL_1 ∨ BOOK_LVL_3 < qf q) ->
    quote_step q M NOT_A_QUO M.

(** ** The representation *)

(** Entries and [used] word of each side. *)
Abbreviation leaves := (bool -> list level * Z).

Implicit Type S : leaves.

Definition book_leaf (h : bheap) (b : book_t) (S : leaves) : Prop :=
  quo_ask b ≠ quo_bid b ∧
  ∀ d, leaf_side d h (root b d) (S d).1 (S d).2 ∧ ksorted d None (S d).1.*1.

(** The maps it stands for. *)
Definition maps_of (S : leaves) : levels_map := λ d, lmap d (levels (S d).1).

Lemma root_inj b d d' : quo_ask b ≠ quo_bid b -> root b d = root b d' -> d = d'.
Proof. destruct d, d'; simpl; congruence. Qed.

Lemma leaf_side_keep d h h' p q E u :
  leafwise [q] h h' -> p ≠ q -> leaf_side d h p E u -> leaf_side d h' p E u.
Proof.
  intros [_ Hw] Hne (t & Ht & Hrest). destruct (Hw _ _ Ht) as (t' & Ht' & [->|(Hin & _)]).
  - by exists t.
  - by apply list_elem_of_singleton in Hin.
Qed.

(** Replacing the side in direction [d]. *)
Lemma book_leaf_upd h h' b S d E' u' :
  book_leaf h b S -> leafwise [root b d] h h' ->
  leaf_side d h' (root b d) E' u' -> ksorted d None E'.*1 ->
  book_leaf h' b (upd d (E', u') S).
Proof.
  intros [Hne Hs] Hw Hl Hk. split; [done|]. intros d'. unfold upd.
  destruct (Bool.eqb_spec d' d) as [->|Hd]; [done|]. split; [|apply Hs].
  eapply leaf_side_keep; [done| |apply Hs]. intros ?%root_inj; done.
Qed.

Lemma book_leaf_at h b S :
  book_leaf h b S -> (∀ d, used_ok (S d).2 (S d).1) -> book_at h b (λ d, levels (S d).1).
Proof.
  intros [Hne Hs] Hok. exists (λ d, [root b d]). split; [set_solver|].
  intros d. exists [(root b d, (S d).1)]. split_and!; [|done|apply leaf_cells].
  destruct (Hs d) as [Hl _]. by eapply leaf_side_side.
Qed.

Lemma upd_other {A} d (x : A) f : upd d x f (negb d) = f (negb d).
Proof. by destruct d. Qed.
Lemma upd_this {A} d (x : A) f : upd d x f d = x.
Proof. unfold upd. by rewrite Bool.eqb_reflx. Qed.

(** ** A new book *)

Lemma new_book_leaf (h : bheap) :
  ∃ h' b, make_book h = (h', b) ∧ book_leaf h' b (λ _, ([], 0)).
Proof.
  eexists _, _. split; [reflexivity|].
  assert (∀ d, leaf_side d (make_book h).1 (root (make_book h).2 d) [] 0) as Hl.
  { intros d. exists (node0 d).
    assert (leaf_rep (K := dec) d (node0 d) []) as Hr.
    { constructor; try done; [simpl; lia|]. exists (replicate NVAL ual_zero). done. }
    split_and!; try done. destruct d; cbn.
    - by rewrite lookup_insert_eq.
    - rewrite lookup_insert_ne by (simpl; lia). by rewrite lookup_insert_eq. }
  split; [cbn; lia|]. intros d. split; [apply Hl|constructor].
Qed.

(** ** [book_add] *)

#[export] Instance two_sided_dec s : Decision (two_sided s).
Proof. unfold two_sided. apply _. Defined.

Lemma ord_num d p : is_nan p = false -> ∃ z, ord d p = Some z.
Proof. unfold ord. cbn. destruct p; simpl; [done|eauto..]. Qed.

(** Store [f old] at [q]'s level: what LVL_2, LVL_3 and, after clearing, LVL_1
    quotes do. *)
Lemma put_swap h b S d z (f : btree_val -> dec) q :
  book_leaf h b S -> (length (S d).1 <= 62)%nat -> ord d (qp q) = Some z ->
  let w := prior d (qp q) (S d).1 in
  let v := mk_val (f w) (qt q) in
  ∃ h', ('(h1, vp) ← btree_put h (root b d) (qp q); swap_cell h1 vp f q) =
          Some (h', replaced q w) ∧ leafwise [root b d] h h' ∧
    book_leaf h' b (upd d (upsert d (qp q) v (S d).1, put_used d (qp q) (S d).1 (S d).2) S).
Proof.
  intros Hb Hl Hz w v. destruct (proj2 Hb d) as [Hs Hk].
  destruct (put_store_leaf d h (root b d) _ _ (qp q) v Hs Hl)
    as (h1 & h2 & Hput & Hload & Hpoke & Hw & Hs2).
  exists h2. brun Hput. unfold swap_cell. brun Hload. fold w. fold v. brun Hpoke. split; [done|]. split; [done|].
  eapply book_leaf_upd; eauto. by eapply upsert_sorted.
Qed.

Lemma upsert_step S d k z v u :
  ksorted d None (S d).1.*1 -> ord d k = Some z ->
  maps_of (upd d (upsert d k v (S d).1, u) S) d =
    partial_alter (λ _, val_opt v) z (maps_of S d) ∧
  maps_of (upd d (upsert d k v (S d).1, u) S) (negb d) = maps_of S (negb d).
Proof.
  intros Hk Hz. unfold maps_of. rewrite upd_this, upd_other. split; [|done].
  by apply (upsert_map d k z).
Qed.

Lemma growth S d k v u d' :
  (length (upd d (upsert d k v (S d).1, u) S d').1 <= Datatypes.S (length (S d').1))%nat.
Proof.
  unfold upd. destruct (Bool.eqb_spec d' d) as [->|]; cbn [fst]; [|lia].
  rewrite upsert_length. apply put_ents_length_le.
Qed.

(** The side emptied. *)
Lemma clr_swap h b S d :
  book_leaf h b S ->
  ∃ h', btree_clr h (root b d) = Some h' ∧ leafwise [root b d] h h' ∧
        book_leaf h' b (upd d (nil_ents (S d).1, (S d).2) S).
Proof.
  intros Hb. destruct (proj2 Hb d) as [Hs Hk].
  destruct (btree_clr_leaf d h (root b d) _ _ Hs) as (h' & Hrun & Hw & Hs').
  exists h'. split; [done|]. split; [done|]. eapply book_leaf_upd; eauto. by rewrite nil_ents_keys.
Qed.

(** What is asked of a quote: the price of a level is a number, and a trade
    goes by its own theorem. *)
Definition quote_ok (q : book_quo) : Prop :=
  qs q ≠ BOOK_SIDE_DEL ∧
  (qf q = BOOK_LVL_2 ∨ qf q = BOOK_LVL_3 -> is_nan (qp q) = false).

Section add.
Variable ctz0 : nat.

(** The roots of a book, and what changes nothing else. *)
Definition roots (b : book_t) : list positive := [quo_ask b; quo_bid b].

Lemma roots_only b d (h h' : bheap) : leafwise [root b d] h h' -> leafwise (roots b) h h'.
Proof. apply leafwise_weaken. unfold roots. destruct d; simpl; set_solver. Qed.

(** What a step of [book_add] on [S] has to deliver. *)
Definition adds (h : bheap) (b : book_t) (S : leaves) (q : book_quo) : Prop :=
  ∃ h' r S', book_add ctz0 h b q = Some (h', r) ∧ leafwise (roots b) h h' ∧ book_leaf h' b S' ∧
    quote_step q (maps_of S) r (maps_of S') ∧
    ∀ d, (length (S' d).1 <= Datatypes.S (length (S d).1))%nat.

Lemma book_add_side h b q :
  two_sided (qs q) ->
  book_add ctz0 h b q =
    if qf q =? BOOK_LVL_3 then
      '(h, vp) ← btree_put h (root b (dir (qs q))) (qp q);
      swap_cell h vp (λ tmp, let s := dadd (qq q) (vq tmp) in
                             if dge s dzero then s else dzero) q
    else if qf q =? BOOK_LVL_2 then
      '(h, vp) ← btree_put h (root b (dir (qs q))) (qp q); swap_cell h vp (λ _, qq q) q
    else if qf q =? BOOK_LVL_1 then
      if dlt (qq q) dzero then Some (h, NOT_A_QUO)
      else
        h ← btree_clr h (root b (dir (qs q)));
        if is_nan (qp q) then Some (h, q)
        else '(h, vp) ← btree_put h (root b (dir (qs q))) (qp q); swap_cell h vp (λ _, qq q) q
    else Some (h, NOT_A_QUO).
Proof. unfold book_add. by intros [-> | ->]. Qed.

Lemma add_level h b S q :
  book_leaf h b S -> two_sided (qs q) -> (length (S (dir (qs q))).1 <= 62)%nat ->
  qf q = BOOK_LVL_2 ∨ qf q = BOOK_LVL_3 -> is_nan (qp q) = false -> adds h b S q.
Proof.
  intros Hb Hs Hl Hf Hn. set (d := dir (qs q)) in *. destruct (ord_num d _ Hn) as [z Hz].
  pose proof (proj2 (proj2 Hb d)) as Hk.
  set (f := λ w, vq (stored q w)).
  destruct (put_swap h b S d z f q Hb Hl Hz) as (h' & Hrun & Hw & Hb').
  eexists h', _, _. split_and!; [|by eapply roots_only|exact Hb'| |apply growth].
  - rewrite (book_add_side h b q Hs). fold d. rewrite <- Hrun. unfold f, stored.
    by destruct Hf as [-> | ->].
  - set (w := prior d (qp q) (S d).1).
    destruct (upsert_step S d (qp q) z (mk_val (f w) (qt q))
                (put_used d (qp q) (S d).1 (S d).2) Hk Hz) as [H1 H2].
    eapply (step_level q _ z w); eauto. by apply prior_map.
Qed.

Lemma add_top h b S q :
  book_leaf h b S -> two_sided (qs q) -> (length (S (dir (qs q))).1 <= 62)%nat ->
  qf q = BOOK_LVL_1 -> adds h b S q.
Proof.
  intros Hb Hs Hl Hf. unfold adds. rewrite (book_add_side h b q Hs), Hf. cbn [Z.eqb Pos.eqb
    BOOK_LVL_1 BOOK_LVL_2 BOOK_LVL_3].
  destruct (dlt (qq q) dzero) eqn:Hlt.
  { exists h, NOT_A_QUO, S. split_and!; [done..|by apply step_odd|lia]. }
  set (d := dir (qs q)) in *. destruct (clr_swap h b S d Hb) as (h1 & Hclr & Hw1%roots_only & Hb1). brun Hclr.
  set (S1 := upd d (nil_ents (S d).1, (S d).2) S) in *.
  assert (S1 d = (nil_ents (S d).1, (S d).2)) as HS1 by apply upd_this.
  assert (maps_of S1 d = ∅) as HM1 by (unfold maps_of; rewrite HS1; cbn [fst];
    by rewrite nil_ents_levels).
  assert (maps_of S1 (negb d) = maps_of S (negb d)) as HM2 by (unfold maps_of, S1;
    by rewrite upd_other).
  assert (∀ d', length (S1 d').1 = length (S d').1) as HL1.
  { intros d'. unfold S1, upd. destruct (Bool.eqb_spec d' d) as [->|]; [|done].
    cbn [fst]. unfold nil_ents. by rewrite length_fmap. }
  destruct (is_nan (qp q)) eqn:Hn.
  { exists h1, q, S1. split_and!; [done..|by apply step_top_nan|].
    intros d'. rewrite HL1. lia. }
  destruct (ord_num d _ Hn) as [z Hz]. pose proof (proj2 (proj2 Hb1 d)) as Hk.
  destruct (put_swap h1 b S1 d z (λ _, qq q) q Hb1) as (h' & Hrun & Hw%roots_only & Hb'); [by rewrite HL1|done|].
  rewrite Hrun. eexists h', _, _. split_and!; [done|by etrans|exact Hb'| |].
  - destruct (upsert_step S1 d (qp q) z (mk_val (qq q) (qt q))
                (put_used d (qp q) (S1 d).1 (S1 d).2) Hk Hz) as [H1 H2].
    rewrite HS1 at 1. cbn [fst]. rewrite prior_nil.
    eapply (step_top q _ z); eauto; [by rewrite HM1 in H1|by rewrite HM2 in H2].
  - intros d'. rewrite <- HL1. apply growth.
Qed.

Lemma add_clr h b S q : book_leaf h b S -> qs q = BOOK_SIDE_CLR -> adds h b S q.
Proof.
  intros Hb Hq. destruct (clr_swap h b S true Hb) as (h1 & H1 & Hw1%roots_only & Hb1).
  destruct (clr_swap h1 b _ false Hb1) as (h2 & H2 & Hw2%roots_only & Hb2).
  exists h2, q. eexists. split_and!; [|by etrans|exact Hb2|..].
  - transitivity (h' ← book_clr h b; Some (h', q)); [unfold book_add; by rewrite Hq|].
    unfold book_clr. unfold root in *. brun H1. by brun H2.
  - apply step_clr; [done|]. intros d. unfold maps_of, upd.
    destruct d; cbn [Bool.eqb fst]; by rewrite nil_ents_levels.
  - intros d. unfold upd, nil_ents. destruct d; cbn [Bool.eqb fst]; rewrite length_fmap; lia.
Qed.

Lemma add_run h b S q :
  book_leaf h b S -> quote_ok q -> (∀ d, (length (S d).1 <= 62)%nat) -> adds h b S q.
Proof.
  intros Hb [Hdel Hpx] Hl. destruct (decide (two_sided (qs q))) as [Hs|Hs].
  - destruct (decide (qf q = BOOK_LVL_1)); [by apply add_top|].
    destruct (decide (qf q = BOOK_LVL_2 ∨ qf q = BOOK_LVL_3)); [apply add_level; auto|].
    exists h, NOT_A_QUO, S. split_and!; [|done|done| |lia].
    + rewrite (book_add_side h b q Hs).
      destruct (Z.eqb_spec (qf q) BOOK_LVL_3), (Z.eqb_spec (qf q) BOOK_LVL_2),
        (Z.eqb_spec (qf q) BOOK_LVL_1); naive_solver.
    + apply step_invalid. do 2 right. split; [done|].
      unfold BOOK_LVL_1, BOOK_LVL_2, BOOK_LVL_3 in *. lia.
  - destruct (decide (qs q = BOOK_SIDE_CLR)); [by apply add_clr|].
    exists h, NOT_A_QUO, S. split_and!; [|done|done| |lia].
    + unfold book_add. unfold two_sided in Hs.
      destruct (Z.eqb_spec (qs q) BOOK_SIDE_BID), (Z.eqb_spec (qs q) BOOK_SIDE_ASK),
        (Z.eqb_spec (qs q) BOOK_SIDE_CLR), (Z.eqb_spec (qs q) BOOK_SIDE_DEL); naive_solver.
    + apply step_invalid. unfold two_sided, BOOK_SIDE_ASK, BOOK_SIDE_BID, BOOK_SIDE_CLR,
        BOOK_SIDE_DEL, NBOOK_SIDES in *. lia.
Qed.

(** C1: [book_add] implements the abstract machine on a book whose sides are
    single leaves of at most 62 cells each: for every quote but a trade, provided
    that a level quote (L2, L3) has a price, it succeeds; its result and the maps afterwards
    are those of a step; a side gains at most one cell, and no node of another
    book is touched.  A level quote hands back the level's old quantity and
    time.  A top-of-book quote (L1) does not, against what books.h:214 promises: its
    side has been cleared by then, and what it hands back as the old value is nil. *)
Theorem book_add_correct h b S q :
  book_leaf h b S -> quote_ok q -> (∀ d, (length (S d).1 <= 62)%nat) ->
  ∃ h' r S', book_add ctz0 h b q = Some (h', r) ∧ book_leaf h' b S' ∧
    quote_step q (maps_of S) r (maps_of S') ∧
    (∀ d, (length (S' d).1 <= Datatypes.S (length (S d).1))%nat) ∧
    ∀ p, p ∉ roots b -> hget h' p = hget h p.
Proof.
  intros Hb Hq Hl. destruct (add_run h b S q Hb Hq Hl) as (h' & r & S' & H1 & H2 & H3 & H4 & H5).
  exists h', r, S'. split_and!; try done. intros p. by apply leafwise_other.
Qed.

(** ** Sequences of quotes *)

(** Feeding quotes to a book, collecting what [book_add] hands back. *)
Fixpoint add_all (h : bheap) (b : book_t) (Q : list book_quo) :
    option (bheap * list book_quo) :=
  match Q with
  | [] => Some (h, [])
  | q :: Q =>
    '(h, r) ← book_add ctz0 h b q;
    '(h, rs) ← add_all h b Q;
    Some (h, r :: rs)
  end.

Inductive quote_steps : list book_quo -> levels_map -> list book_quo -> levels_map -> Prop :=
  | steps_nil M : quote_steps [] M [] M
  | steps_cons q Q M r M1 rs M2 :
    quote_step q M r M1 -> quote_steps Q M1 rs M2 -> quote_steps (q :: Q) M (r :: rs) M2.

Lemma add_all_run h b S Q :
  book_leaf h b S -> Forall quote_ok Q -> (∀ d, (length (S d).1 + length Q <= 63)%nat) ->
  ∃ h' rs S', add_all h b Q = Some (h', rs) ∧ book_leaf h' b S' ∧
    quote_steps Q (maps_of S) rs (maps_of S').
Proof.
  intros Hb HQ. revert h S Hb. induction HQ as [|q Q Hq HQ IH]; intros h S Hb Hl.
  { exists h, [], S. split_and!; [done..|constructor]. }
  destruct (add_run h b S q Hb Hq) as (h1 & r & S1 & H1 & _ & Hb1 & Hst & Hg).
  { intros d. specialize (Hl d). simpl in Hl. lia. }
  destruct (IH h1 S1 Hb1) as (h2 & rs & S2 & H2 & Hb2 & Hst2).
  { intros d. specialize (Hl d). specialize (Hg d). simpl in Hl. lia. }
  exists h2, (r :: rs), S2. cbn [add_all]. brun H1. brun H2.
  split_and!; [done..|by econstructor].
Qed.

(** Any sequence of up to 63 quotes on a new book is a run of the abstract
    machine from the empty maps. *)
Theorem book_build_correct (h : bheap) Q :
  Forall quote_ok Q -> (length Q <= 63)%nat ->
  ∃ h1 b h' rs S', make_book h = (h1, b) ∧ add_all h1 b Q = Some (h', rs) ∧
    book_leaf h' b S' ∧ quote_steps Q (λ _, ∅) rs (maps_of S').
Proof.
  intros HQ Hl. destruct (new_book_leaf h) as (h1 & b & Hm & Hb).
  destruct (add_all_run h1 b (λ _, ([], 0)) Q Hb HQ) as (h' & rs & S' & H1 & H2 & H3).
  { intros d. simpl. lia. }
  exists h1, b, h', rs, S'. done.
Qed.

(** Quotes that set a level to a positive quantity. *)
Definition quote_pos (q : book_quo) : Prop :=
  two_sided (qs q) ∧ qf q = BOOK_LVL_2 ∧ is_nan (qp q) = false ∧ dle (qq q) dzero = false.

Definition book_full (S : leaves) : Prop := ∀ d, full (S d).2 (S d).1.

Lemma add_pos_run h b S q :
  book_leaf h b S -> book_full S -> quote_pos q -> (∀ d, (length (S d).1 <= 62)%nat) ->
  ∃ h' r S', book_add ctz0 h b q = Some (h', r) ∧ book_leaf h' b S' ∧ book_full S' ∧
    quote_step q (maps_of S) r (maps_of S') ∧
    ∀ d, (length (S' d).1 <= Datatypes.S (length (S d).1))%nat.
Proof.
  intros Hb Hfull (Hs & Hf & Hn & Hpos) Hl. set (d := dir (qs q)).
  destruct (ord_num d _ Hn) as [z Hz]. pose proof (proj2 (proj2 Hb d)) as Hk.
  destruct (put_swap h b S d z (λ _, qq q) q Hb (Hl d) Hz) as (h' & Hrun & _ & Hb').
  eexists h', _, _. split_and!; [|exact Hb'| | |apply growth].
  - rewrite (book_add_side h b q Hs), Hf. exact Hrun.
  - intros d'. unfold upd. destruct (Bool.eqb_spec d' d) as [->|]; [|apply Hfull].
    cbn [fst snd]. by apply full_upsert; [apply Hfull|apply Hl|].
  - set (w := prior d (qp q) (S d).1).
    destruct (upsert_step S d (qp q) z (mk_val (qq q) (qt q))
                (put_used d (qp q) (S d).1 (S d).2) Hk Hz) as [H1 H2].
    eapply (step_level q _ z w); eauto; [by apply prior_map|].
    fold d. rewrite H1. unfold stored. by rewrite Hf.
Qed.

(** C8: a new book fed with up to 63 quotes that set levels shows all of them:
    iteration over either side, and so every query, sees exactly the final
    map, best price first. *)
Theorem book_build_visible (h : bheap) Q :
  Forall quote_pos Q -> (length Q <= 63)%nat ->
  ∃ h1 b h' rs M B, make_book h = (h1, b) ∧ add_all h1 b Q = Some (h', rs) ∧
    quote_steps Q (λ _, ∅) rs M ∧ book_at h' b B ∧
    ∀ d, lmap d (B d) = M d ∧ ksorted d None (B d).*1.
Proof.
  intros HQ Hl. destruct (new_book_leaf h) as (h1 & b & Hm & Hb).
  assert (Hfull : book_full (λ _, ([], 0))).
  { intros d. split_and!; try done. intros j Hj.
    rewrite Z.bits_0. symmetry. apply Z.ltb_ge. done. }
  assert (Hgen : ∀ Q h S, Forall quote_pos Q -> book_leaf h b S -> book_full S ->
    (∀ d, (length (S d).1 + length Q <= 63)%nat) ->
    ∃ h' rs S', add_all h b Q = Some (h', rs) ∧ book_leaf h' b S' ∧ book_full S' ∧
      quote_steps Q (maps_of S) rs (maps_of S')).
  { clear. intros Q h S HQ. revert h S. induction HQ as [|q Q Hq HQ IH]; intros h S Hb Hf Hl.
    { exists h, [], S. split_and!; [done..|constructor]. }
    destruct (add_pos_run h b S q Hb Hf Hq) as (h1 & r & S1 & H1 & Hb1 & Hf1 & Hst & Hg).
    { intros d. specialize (Hl d). simpl in Hl. lia. }
    destruct (IH h1 S1 Hb1 Hf1) as (h2 & rs & S2 & H2 & Hb2 & Hf2 & Hst2).
    { intros d. specialize (Hl d). specialize (Hg d). simpl in Hl. lia. }
    exists h2, (r :: rs), S2. cbn [add_all]. brun H1. brun H2.
    split_and!; [done..|by econstructor]. }
  destruct (Hgen Q h1 _ HQ Hb Hfull) as (h' & rs & S' & H1 & H2 & H3 & H4);
    [intros d; simpl; lia|].
  exists h1, b, h', rs, (maps_of S'), (λ d, levels (S' d).1). split_and!; try done.
  - apply book_leaf_at; [done|]. intros d. apply full_used_ok, H3.
  - intros d. split; [done|]. apply levels_sorted, H2.
Qed.
End add.
