(* ===== verification/BooksGrown.v ===== *)
(** * Books of any size

    A book whose sides are search trees of any height.  [level_step] is the
    abstract machine for quotes that set or change a level: it updates the
    map of the side, except that a new level may be lost when its side has 62
    levels or more.  [book_add] implements it and keeps to its own nodes. *)

From Stdlib Require Import ZArith Lia.
From stdpp Require Import prelude list gmap fin_maps.
From stdpp Require Import options.
From S2P Require Import Prelude Decimal Dfp754D64 Btree BtreeLeaf BtreeUsed BtreeIter.
From S2P Require Import BtreeSide BtreeCursor BtreeOps BtreeMap BtreeTree BtreeKids BtreeGrow.
From S2P Require Import BtreeSplit BtreePut BtreeGrown BtreeTheorems BtreePuts.
From S2P Require Import Books BooksLoops BooksSpec BooksAdd.

Local Open Scope Z_scope.

(** ** The abstract machine *)

Definition level_quote (q : book_quo) : Prop :=
  two_sided (qs q) ∧ (qf q = BOOK_LVL_2 ∨ qf q = BOOK_LVL_3) ∧ is_nan (qp q) = false.

Inductive level_step (q : book_quo) (M : levels_map) : book_quo -> levels_map -> Prop :=
  (** A level is set or changed; [w] is the level's value, or some value that
      counts as nil when there is no such level. *)
  | level_set z w M' :
    ord (dir (qs q)) (qp q) = Some z ->
    M (dir (qs q)) !! z = val_opt w ->
    M' (dir (qs q)) = partial_alter (λ _, val_opt (stored q w)) z (M (dir (qs q))) ->
    M' (negb (dir (qs q))) = M (negb (dir (qs q))) ->
    level_step q M (replaced q w) M'
  (** A new level is lost. *)
  | level_lost z w M' :
    ord (dir (qs q)) (qp q) = Some z ->
    M (dir (qs q)) !! z = None -> val_opt w = None ->
    (62 <= size (M (dir (qs q))))%nat ->
    (∀ d, M' d = M d) ->
    level_step q M (replaced q w) M'.

(** ** The representation *)

(** Nodes and entries of each side. *)
Abbreviation nodes := (bool -> list positive).
Abbreviation entries := (bool -> list level).

Definition feet (X : nodes) : list positive := X false ++ X true.

Record book_grown (h : bheap) (b : book_t) (X : nodes) (E : entries) : Prop := {
  bg_side : ∀ d, grown d h (root b d) (X d) (E d);
  bg_feet : NoDup (feet X);
}.

Definition maps_in (E : entries) : levels_map := λ d, lmap d (levels (E d)).

Lemma feet_split X d :
  ∃ L R, feet X = L ++ X d ++ R ∧ L ++ R = X (negb d) ∧
    ∀ x, feet (upd d x X) = L ++ x ++ R.
Proof.
  destruct d; cbn.
  - exists (X false), []. rewrite !app_nil_r. split_and!; [done..|]. intros x.
    unfold feet. cbn. by rewrite app_nil_r.
  - exists [], (X true). split_and!; done.
Qed.

Lemma grown_old d (h : bheap) p X E q : grown d h p X E -> q ∈ X -> (q < hnext h)%positive.
Proof.
  intros [(m & HT) _ Hwf _] Hin. destruct (ptree_dom _ _ _ _ _ _ _ _ _ _ HT Hin) as [t Ht].
  by eapply Hwf.
Qed.

Lemma book_old h b X E q : book_grown h b X E -> q ∈ feet X -> (q < hnext h)%positive.
Proof. intros [Hs _] [Hin|Hin]%elem_of_app; by eapply grown_old. Qed.

(** A tree away from what changes is still there. *)
Lemma grown_keep d (h h' : bheap) p X E Y Y' :
  grown d h p X E -> grew h Y h' Y' -> X ## Y -> grown d h' p X E.
Proof.
  intros [(m & HT) HX Hwf Hsp] Hg Hd.
  assert (∀ q t, q ∈ X -> hget h q = Some t -> hget h' q = Some t) as Hkeep.
  { intros q t Hq. eapply gr_frame; [exact Hg|]. intros Hy. by apply (Hd q). }
  constructor; [|done|by eapply gr_wf|].
  - exists m. eapply ptree_alike; [|done]. intros q t Hq Ht. exists t. split; [by apply Hkeep|done].
  - intros t Ht. pose proof HT as (t0 & X0 & Ht0 & -> & _).
    rewrite (Hkeep p t0) in Ht; [|left|done]. simplify_eq. by apply Hsp.
Qed.

(** Replacing the side in direction [d]. *)
Lemma book_grown_upd h h' b X E d x e :
  book_grown h b X E -> grown d h' (root b d) x e -> grew h (X d) h' x ->
  book_grown h' b (upd d x X) (upd d e E) ∧ grew h (feet X) h' (feet (upd d x X)).
Proof.
  intros Hb Hg Hgr. pose proof Hb as [Hs Hf]. destruct (feet_split X d) as (L & R & HX & HLR & Hupd).
  assert (grew h (feet X) h' (feet (upd d x X))) as Hgf.
  { rewrite Hupd, HX. apply grew_frame; [by rewrite <- HX| |done].
    intros q Hin. eapply book_old; [exact Hb|]. rewrite HX. set_solver. }
  split; [|done]. split; [|by eapply gr_nodup].
  intros d'. unfold upd. destruct (Bool.eqb_spec d' d) as [->|Hne]; [done|].
  eapply grown_keep; [apply Hs|exact Hgr|].
  assert (X (negb d) ## X d) as Hdis.
  { rewrite <- HLR. rewrite HX in Hf. intros q Hin Hd.
    apply (NoDup_perm _ (X d ++ L ++ R)) in Hf; [|solve_Permutation].
    apply NoDup_app in Hf as (_ & Hf & _). by eapply Hf. }
  replace d' with (negb d) by by destruct d, d'. done.
Qed.

(** ** [book_add] of a level *)

Section add.
Variable ctz0 : nat.

Lemma put_swap_grown h b X E d z (f : btree_val -> dec) q :
  book_grown h b X E -> ord d (qp q) = Some z ->
  ∃ h' w X' E' (lost : bool),
    ('(h1, vp) ← btree_put h (root b d) (qp q); swap_cell h1 vp f q) = Some (h', replaced q w) ∧
    book_grown h' b X' E' ∧ grew h (feet X) h' (feet X') ∧
    maps_in E d !! z = val_opt w ∧
    (lost = true -> (62 <= size (maps_in E d))%nat ∧ val_opt w = None) ∧
    maps_in E' d = (if lost then maps_in E d
                    else partial_alter (λ _, val_opt (mk_val (f w) (qt q))) z (maps_in E d)) ∧
    maps_in E' (negb d) = maps_in E (negb d).
Proof.
  intros Hb Hz. pose proof (bg_side _ _ _ _ Hb d) as Hgn.
  destruct (btree_put_grown d h (root b d) (X d) (E d) (qp q) z Hgn Hz)
    as (h1 & r & w & x & e1 & lost & Hput & Hld & Hm & _ & _ & _ & _ & Hlost & Hno & Hst).
  destruct (Hst (mk_val (f w) (qt q))) as (h2 & e2 & Hpk & Hgn2 & Hg2 & _ & Hm2).
  destruct (book_grown_upd h h2 b X E d x e2 Hb Hgn2 Hg2) as [Hb' Hg'].
  exists h2, w, (upd d x X), (upd d e2 E), lost. split_and!; try done.
  - brun Hput. unfold swap_cell. brun Hld. by brun Hpk.
  - intros Hl. destruct (Hno Hl) as [Hin HN]. unfold maps_in. split; [|congruence].
    rewrite (grown_size _ _ _ _ _ Hgn). eapply split_lost_full; [done|by apply Hlost|done].
  - unfold maps_in. by rewrite upd_this.
  - unfold maps_in. by rewrite upd_other.
Qed.

Lemma add_level_run h b X E q :
  book_grown h b X E -> level_quote q ->
  ∃ h' r X' E', book_add ctz0 h b q = Some (h', r) ∧ book_grown h' b X' E' ∧
    grew h (feet X) h' (feet X') ∧ level_step q (maps_in E) r (maps_in E').
Proof.
  intros Hb (Hs & Hf & Hn). destruct (ord_num (dir (qs q)) _ Hn) as [z Hz].
  set (f := λ w, vq (stored q w)).
  destruct (put_swap_grown h b X E (dir (qs q)) z f q Hb Hz)
    as (h' & w & X' & E' & lost & Hrun & Hb' & Hg & Hm & Hlost & Hmd & Hmo).
  exists h', (replaced q w), X', E'. split_and!; try done.
  - rewrite (book_add_side ctz0 h b q Hs), <- Hrun. unfold f, stored. by destruct Hf as [-> | ->].
  - destruct lost.
    + destruct (Hlost eq_refl) as [H62 Hw]. eapply level_lost; try done; [congruence|].
      intros d. by destruct d, (dir (qs q)).
    + by eapply level_set.
Qed.
End add.

(** [book_add] on a book of any size implements the abstract machine: it
    returns, sets or changes the level of a level quote (or, once the side has 62
    levels or more, may lose a new level), hands out what was there, and keeps
    both sides in order; no node outside of the book changes. *)
Theorem book_add_level_correct ctz0 h b X E q :
  book_grown h b X E -> level_quote q ->
  ∃ h' r X' E', book_add ctz0 h b q = Some (h', r) ∧ book_grown h' b X' E' ∧
    level_step q (maps_in E) r (maps_in E') ∧
    ∀ p t, p ∉ feet X -> hget h p = Some t -> hget h' p = Some t.
Proof.
  intros Hb Hq. destruct (add_level_run ctz0 h b X E q Hb Hq) as (h' & r & X' & E' & H1 & H2 & Hg & H3).
  exists h', r, X', E'. split_and!; try done. intros p t. by eapply gr_frame.
Qed.

(** ** Making and freeing a book *)

Lemma grew_make h d h' p : heap_wf h -> make_btree h d = (h', p) -> grew (K := dec) h [] h' [p].
Proof.
  intros Hwf [= <- <-]. constructor; cbn [hnext]; [|lia|apply NoDup_singleton| |].
  - intros q t. unfold hget. cbn [hmem hnext]. destruct (decide (q = hnext h)) as [->|]; [lia|].
    rewrite lookup_insert_ne by done. intros Hq%Hwf. lia.
  - intros q ->%list_elem_of_singleton. right. lia.
  - intros q t _ Hq. unfold hget. cbn [hmem]. rewrite lookup_insert_ne; [done|].
    intros <-. specialize (Hwf _ _ Hq). lia.
Qed.

Definition fresh_nodes (b : book_t) : nodes := λ d, [root b d].

Lemma make_book_run h h' b :
  heap_wf h -> make_book h = (h', b) ->
  book_grown h' b (fresh_nodes b) (λ _, []) ∧ grew h [] h' (feet (fresh_nodes b)).
Proof.
  intros Hwf. unfold make_book. destruct (make_btree h false) as [h1 a] eqn:Ha.
  destruct (make_btree h1 true) as [h2 p] eqn:Hp. intros [= <- <-].
  pose proof (grew_make _ _ _ _ Hwf Ha) as Hg1. pose proof (gr_wf _ _ _ _ Hg1) as Hwf1.
  pose proof (grew_make _ _ _ _ Hwf1 Hp) as Hg2.
  assert (a ≠ p) as Hne. { injection Ha as <- <-. injection Hp as <- <-. simpl. lia. }
  assert (grew h [] h2 [a; p]) as Hg.
  { apply (grew_trans h [] h1 [a] h2 [a; p]); [done..|].
    apply (grew_frame h1 [a] [] [] h2 [p]); [apply NoDup_singleton| |done].
    intros q ->%list_elem_of_singleton. injection Ha as <- <-. simpl. lia. }
  split; [|done]. split; [|by eapply gr_nodup].
  intros []; cbn [root quo_ask quo_bid fresh_nodes]; [by apply (grown_make true h1)|].
  apply (grown_keep false h1 h2 a [a] [] [] [p]); [by apply (grown_make false h)|exact Hg2|].
  by intros q _ ?%not_elem_of_nil.
Qed.

Lemma grown_free d (h : bheap) p X E :
  grown d h p X E -> ∃ h', free_btree (height_fuel h) h p = Some h' ∧ freed X h h'.
Proof.
  intros [(m & HT) HX _ _]. pose proof (tree_height _ _ _ _ _ _ _ (ptree_tree _ _ _ _ _ _ _ _ _ HT)).
  eapply free_ptree; [done..|]. unfold height_fuel. lia.
Qed.

(** What is there still when others are freed. *)
Lemma freed_grown d (h h' : bheap) p X E Y :
  freed Y h h' -> grown d h p X E -> X ## Y -> grown d h' p X E.
Proof.
  intros Hf [(m & HT) HX Hwf Hsp] Hd. pose proof Hf as [Hnx Hget]. constructor; [|done| |].
  - exists m. eapply ptree_alike; [|done]. by eapply freed_alike.
  - intros q t. rewrite Hget, Hnx. case_decide; [done|]. apply Hwf.
  - intros t. rewrite Hget. case_decide; [done|]. apply Hsp.
Qed.

Lemma free_book_run h b X E :
  book_grown h b X E -> ∃ h', free_book h b = Some h' ∧ freed (feet X) h h'.
Proof.
  intros [Hs Hf]. unfold free_book, feet in *. apply NoDup_app in Hf as (_ & Hdis & _).
  destruct (grown_free _ _ _ _ _ (Hs false)) as (h1 & H1 & Hf1). cbn [root] in H1. brun H1.
  assert (grown true h1 (quo_bid b) (X true) (E true)) as Hs1.
  { eapply freed_grown; [exact Hf1|apply (Hs true)|]. intros q Hq Hq'. by eapply Hdis. }
  destruct (grown_free _ _ _ _ _ Hs1) as (h2 & H2 & Hf2).
  exists h2. split; [done|]. by eapply freed_app.
Qed.

Lemma empty_heap_wf : heap_wf (empty_heap : bheap).
Proof. intros q t Hq. unfold hget in Hq. simpl in Hq. by rewrite lookup_empty in Hq. Qed.

(** A bid for a new book. *)
Lemma book_add_level_correct_witness :
  let q := mk_quo BOOK_SIDE_BID BOOK_LVL_2 (px 9) (px 4) 4 in
  ∃ h' r, book_add 64 (make_book empty_heap).1 (mk_book 1 2) q = Some (h', r) ∧
    (∃ w, r = replaced q w ∧ btree_val_nil_p w = true) ∧
    ∀ p t, p ∉ [1; 2]%positive -> hget (make_book empty_heap).1 p = Some t -> hget h' p = Some t.
Proof.
  set (q := mk_quo BOOK_SIDE_BID BOOK_LVL_2 (px 9) (px 4) 4). cbv zeta.
  destruct (make_book_run empty_heap (make_book empty_heap).1 (mk_book 1 2) empty_heap_wf eq_refl)
    as [Hb _].
  destruct (book_add_level_correct 64 _ _ _ _ q Hb) as (h' & r & X' & E' & H1 & _ & H2 & H3).
  - split; [by right|]. split; [by left|reflexivity].
  - exists h', r. split; [exact H1|]. split; [|exact H3].
    assert (∀ w (z : Z), maps_in (λ _, []) true !! z = val_opt w -> btree_val_nil_p w = true) as Hnil.
    { intros w z. unfold maps_in. simpl. rewrite lookup_empty. unfold val_opt.
      by destruct (btree_val_nil_p w). }
    destruct H2 as [z w M' _ Hw _ _|z w M' _ _ Hw _ _]; exists w; (split; [reflexivity|]);
      [exact (Hnil w z Hw)|]. unfold val_opt in Hw. destruct (btree_val_nil_p w); [reflexivity|discriminate].
Defined.
