(* ===== verification/BooksAny.v ===== *)
(** * Books of any size, whatever their history

    An abstract book has the levels each side stores and those it shows, and knows
    whether a side may have been split.  [book_state h b A W]: the sides of the
    book [b] are trees of any height that do as [A] says, and depend on the nodes
    [W].  [big_step] is the abstract machine for all quotes on such books.  A side
    that had fewer than 62 levels all along shows the level a quote sets, and
    loses sight of one other level at most; on any side what is hidden stays stored.
    [book_add] implements it, any sequence of quotes runs, and every query
    answers from what is shown.  Needs [__builtin_ctzll(0)] to be 63 or more. *)

From Stdlib Require Import ZArith Lia.
From stdpp Require Import prelude list gmap fin_maps.
From stdpp Require Import options.
From S2P Require Import Prelude Decimal Dfp754D64 Btree BtreeLeaf BtreeUsed BtreeIter.
From S2P Require Import BtreeSide BtreeCursor BtreeOps BtreeMap BtreeTree BtreeHide BtreeSight BtreeKids BtreeGrow.
From S2P Require Import BtreeSplit BtreePut BtreeGrown BtreeLively BtreeStates BtreeStateOps BtreeUnwind.
From S2P Require Import Books BooksLoops BooksSpec BooksAdd BooksGrown.

Local Open Scope Z_scope.

(** ** The representation *)

Record abook := mk_abook { ab_maps : levels_map; ab_sides : sides; ab_split : bool -> bool }.
Implicit Types A : abook.

Record book_state (h : bheap) (b : book_t) A (W : nodes) : Prop := {
  bs_side d : side_state d h (root b d) (ab_maps A d) (ab_sides A d) (W d);
  bs_solo d : ab_split A d = false -> solo h (root b d);
  bs_apart : W false ## W true;
}.

(** What is shown is stored, best price first. *)
Definition shows A : Prop :=
  ∀ d, ksorted d None (ab_sides A d).*1 ∧ Forall (λ e, live e = true) (ab_sides A d) ∧
       lmap d (ab_sides A d) ⊆ ab_maps A d.

Lemma book_shows h b A W : book_state h b A W -> shows A.
Proof. intros Hb d. eapply state_sound, Hb. Qed.

Lemma book_state_wf h b A W : book_state h b A W -> heap_wf h.
Proof. intros Hb. eapply state_wf, (bs_side _ _ _ _ Hb true). Qed.

Lemma elem_of_feet q (W : nodes) : q ∈ feet W <-> ∃ d, q ∈ W d.
Proof.
  unfold feet. rewrite elem_of_app. split; [intros [|]; eauto|]. intros [[] Hq]; tauto.
Qed.

Lemma book_state_old h b A W q : book_state h b A W -> q ∈ feet W -> (q < hnext h)%positive.
Proof. intros Hb [d Hq]%elem_of_feet. by eapply state_old, Hq; apply Hb. Qed.

(** Abstract books are compared side by side. *)
Definition same_side (d : bool) A A' : Prop :=
  ab_maps A' d = ab_maps A d ∧ ab_sides A' d = ab_sides A d ∧ ab_split A' d = ab_split A d.

Lemma book_state_ext h b A A' W : (∀ d, same_side d A A') -> book_state h b A W -> book_state h b A' W.
Proof.
  intros He [Hs Ho Ha]. split; [| |done]; intros d; destruct (He d) as (HM & HB & HG).
  - rewrite HM, HB. apply Hs.
  - rewrite HG. apply Ho.
Qed.

Lemma apart_sides (W : nodes) d : W false ## W true -> W d ## W (negb d).
Proof. intros Ha. destruct d; [|done]. intros q H1 H2. by apply (Ha q). Qed.

Lemma other_side d d' : d' ≠ d -> d' = negb d.
Proof. by destruct d, d'. Qed.

(** Changes elsewhere. *)
Lemma book_state_away Y h h' b A W :
  away Y h h' -> feet W ## Y -> book_state h b A W -> book_state h' b A W.
Proof.
  intros Ha Hd [Hs Ho Hap].
  assert (∀ d, W d ## Y) as Hdd by (intros d q Hq; apply Hd, elem_of_feet; eauto).
  split; [| |done]; intros d.
  - by eapply state_away.
  - intros Hg. eapply solo_away; [exact Ha|apply Hdd|apply Hs|by apply Ho].
Qed.

(** Replacing the side in direction [d]. *)
Definition aupd (d : bool) (m : gmap Z btree_val) (v : list level) (g : bool) A : abook :=
  mk_abook (upd d m (ab_maps A)) (upd d v (ab_sides A)) (upd d g (ab_split A)).

Lemma book_state_upd h h' b A W d m v g w :
  book_state h b A W -> side_state d h' (root b d) m v w -> (g = false -> solo h' (root b d)) ->
  moved h h' (W d) w ->
  book_state h' b (aupd d m v g A) (upd d w W) ∧ moved h h' (feet W) (feet (upd d w W)).
Proof.
  intros Hb Hd Hg [Ha Hw]. pose proof Hb as [Hs Ho Hap].
  assert (W (negb d) ## W d) as Hn by (intros q H1 H2; by apply (apart_sides W d Hap q)).
  split; [split|split].
  - intros d'. cbn. unfold upd. destruct (Bool.eqb_spec d' d) as [->|Hne]; [done|].
    apply other_side in Hne as ->. by eapply state_away.
  - intros d'. cbn. unfold upd. destruct (Bool.eqb_spec d' d) as [->|Hne]; [done|].
    apply other_side in Hne as ->. intros Hf. by eapply solo_away; [exact Ha|exact Hn|apply Hs|apply Ho].
  - assert (w ## W (negb d)) as Hww.
    { intros q Hq Hq'. destruct (Hw q Hq) as [Hin|Hge]; [by apply (Hn q)|].
      pose proof (state_old _ _ _ _ _ _ _ (Hs (negb d)) Hq'). lia. }
    destruct d; unfold upd; cbn in *; [|done]. intros q H1 H2. by apply (Hww q).
  - eapply away_weaken; [exact Ha|]. intros q Hq. apply elem_of_feet. eauto.
  - intros q [d' Hq]%elem_of_feet. rewrite elem_of_feet. revert Hq. unfold upd.
    destruct (Bool.eqb_spec d' d) as [->|Hne]; [|eauto]. intros [|]%Hw; eauto.
Qed.

Lemma upd_self {T} d (f : bool -> T) d' : upd d (f d) f d' = f d'.
Proof. unfold upd. by destruct (Bool.eqb_spec d' d) as [->|]. Qed.

Lemma book_state_same h h' b A W d m v g :
  book_state h b A W -> side_state d h' (root b d) m v (W d) -> (g = false -> solo h' (root b d)) ->
  away (W d) h h' ->
  book_state h' b (aupd d m v g A) W ∧ away (feet W) h h'.
Proof.
  intros Hb Hd Hg Ha. destruct (book_state_upd h h' b A W d m v g (W d) Hb Hd Hg) as [[Hs Ho _] [Haf _]];
    [by apply moved_stay|]. split; [|done]. split; [|done|apply Hb]. intros d'.
  specialize (Hs d'). by rewrite upd_self in Hs.
Qed.

(** ** Iterating leaves alone what is hidden *)

(** [A] with other levels shown, and the same hidden. *)
Definition hidden_of A : levels_map := λ d, ab_maps A d ∖ lmap d (ab_sides A d).

Definition shown_as A (B : sides) : abook :=
  mk_abook (λ d, lmap d (B d) ∪ hidden_of A d) B (ab_split A).

(** [J] holds of the heap around the book. *)
Record book_hidden A (W : nodes) (J : bheap -> Prop) (h : bheap) (b : book_t) (B : sides) : Prop := {
  bh_state : book_state h b (shown_as A B) W;
  bh_disjoint d : lmap d (B d) ##ₘ hidden_of A d;
  bh_around : J h;
}.

Lemma shown_as_self A d : shows A -> same_side d (shown_as A (ab_sides A)) A.
Proof.
  intros Hs. split_and!; [|done..]. cbn. unfold hidden_of. by rewrite map_difference_union by apply Hs.
Qed.

Lemma book_state_hidden h b A W (J : bheap -> Prop) :
  book_state h b A W -> J h -> book_hidden A W J h b (ab_sides A).
Proof.
  intros Hs HJ. pose proof (book_shows _ _ _ _ Hs) as Hsh. split; [|intros d|done].
  - eapply book_state_ext; [|exact Hs]. intros d.
    destruct (shown_as_self A d Hsh) as (H1 & H2 & H3). by split_and!.
  - by apply map_disjoint_difference_r1.
Qed.

(** Iterating over a side; the levels shown of a side that was never split can
    be put while it lasts. *)
Lemma book_hidden_open ctz0 A W (J : bheap -> Prop) h b B d :
  (63 <= ctz0)%nat -> (∀ h h', J h -> away (feet W) h h' -> J h') -> book_hidden A W J h b B ->
  ∃ R F C, Cursor ctz0 R F ∧ C.*2 = B d ∧ NoDup C.*1 ∧ (length C < cells_fuel h)%nat ∧
    R h C (iter (root b d)) C ∧
    (∀ h' C' it L', F h h' -> R h' C' it L' -> book_hidden A W J h' b (upd d C'.*2 B)) ∧
    (ab_split A d = false -> ∀ h' C' it L' vp e, R h' C' it L' -> (vp, e) ∈ C' ->
       btree_put h' (root b d) e.1 = Some (h', vp)).
Proof.
  intros Hctz HJ [Hs Hd Hj]. pose proof (bs_apart _ _ _ _ Hs) as Hap.
  pose proof (bs_side _ _ _ _ Hs) as Hss. cbn [shown_as ab_maps ab_sides] in Hss.
  destruct (state_open ctz0 d h (root b d) (lmap d (B d) ∪ hidden_of A d) (B d) (W d)
    (λ h, side_state (negb d) h (root b (negb d)) (lmap (negb d) (B (negb d)) ∪ hidden_of A (negb d))
            (B (negb d)) (W (negb d)) ∧
          (∀ d', ab_split A d' = false -> solo h (root b d')) ∧ J h))
    as (S & C & HC & HA & HdA & Hf & Ho & Hback).
  - done.
  - intros h1 h2 (H1 & H2 & H3) Ha Hm. split_and!.
    + eapply state_away; [exact Ha| |exact H1]. intros q Hq Hq'. by apply (apart_sides W d Hap q).
    + intros d' Hd'. eapply solo_mild; [exact Hm|]. by apply H2.
    + eapply HJ; [exact H3|]. eapply away_weaken; [exact Ha|]. intros q Hq. apply elem_of_feet. eauto.
  - split_and!; [apply (Hss (negb d))|apply Hs|done].
  - apply (Hss d).
  - assert ((lmap d (B d) ∪ hidden_of A d) ∖ lmap d (B d) = hidden_of A d) as HH.
    { rewrite map_difference_union_distr_l, map_difference_diag, (left_id_L _ _). by apply map_difference_disjoint. }
    eexists _, _, C. split; [exact HC|]. split_and!; [done|done|unfold cells_fuel; lia|apply Ho| |].
    + intros h' C' it L' _ HR. destruct (Hback _ _ _ _ HR) as ((Hn & Hg & HJ') & Hst & Hdis). rewrite HH in Hst, Hdis.
      split; [split; [|exact Hg|done]| |done]; intros d'; cbn; unfold upd;
        destruct (Bool.eqb_spec d' d) as [->|Hne]; try done.
      apply other_side in Hne as ->. exact Hn.
    + intros Hg h' C' it L' vp e HR Hin. destruct (Hback _ _ _ _ HR) as ((_ & Hsolo & _) & _ & _).
      eapply view_put; [exact HR|exact Hin|by apply Hsolo].
Qed.

Lemma book_hidden_shown ctz0 A W (J : bheap -> Prop) :
  (63 <= ctz0)%nat -> (∀ h h', J h -> away (feet W) h h' -> J h') -> Shown ctz0 (book_hidden A W J).
Proof.
  intros Hctz HJ. split.
  - intros h b B B' He [Hs Hd Hj]. split; [|intros d; rewrite <- He; done|done].
    eapply book_state_ext; [|exact Hs]. intros d. split_and!; cbn; by rewrite ?He.
  - intros h b B d Hb. destruct (book_hidden_open ctz0 A W J h b B d Hctz HJ Hb)
      as (R & F & C & HC & HA & Hd & Hf & Ho & Hback & _). by exists R, F, C.
Qed.

(** ** The abstract machine *)

(** A side is cleared: what was shown is gone, and what was hidden too unless
    the side has been split. *)
Definition side_cleared (d : bool) A A' : Prop :=
  ab_maps A' d ⊆ ab_maps A d ∧ ab_maps A' d ##ₘ lmap d (ab_sides A d) ∧
  (ab_split A d = false -> ab_maps A' d = ∅) ∧ ab_sides A' d = [] ∧ ab_split A' d = ab_split A d.

Definition cleared (d : bool) A A' : Prop := side_cleared d A A' ∧ same_side (negb d) A A'.

(** Setting a level of a side that has not been split: it is not lost, it is
    shown, and the others are shown as they were, but for one. *)
Definition in_sight (q : book_quo) A (r : book_quo) A' : Prop :=
  let d := dir (qs q) in
  ab_split A d = false ->
  (∃ z w, ord d (qp q) = Some z ∧ r = replaced q w ∧ ab_maps A d !! z = val_opt w ∧
     ab_maps A' d = partial_alter (λ _, val_opt (stored q w)) z (ab_maps A d) ∧
     sighted d z (stored q w) (ab_sides A d) (ab_sides A' d)) ∧
  ((size (ab_maps A d) < 62)%nat -> ab_split A' d = false).

Definition level_set_in (q : book_quo) A (r : book_quo) A' : Prop :=
  level_step q (ab_maps A) r (ab_maps A') ∧ same_side (negb (dir (qs q))) A A' ∧ in_sight q A r A'.

(** What a trade leaves of a side. *)
Definition traded (q : book_quo) (B : sides) : sides :=
  λ d, if d then trade dgt dge q (B true) else trade dlt dle q (B false).

Inductive big_step (q : book_quo) A : book_quo -> abook -> Prop :=
  (** A level is set, changed, or lost. *)
  | big_level r A' : level_quote q -> level_set_in q A r A' -> big_step q A r A'
  (** A top-of-book quote: the side is cleared before. *)
  | big_top A1 r A' :
    two_sided (qs q) -> qf q = BOOK_LVL_1 -> dlt (qq q) dzero = false -> is_nan (qp q) = false ->
    cleared (dir (qs q)) A A1 -> level_set_in q A1 r A' -> big_step q A r A'
  (** Without a price it only clears the side. *)
  | big_top_nan A' :
    two_sided (qs q) -> qf q = BOOK_LVL_1 -> dlt (qq q) dzero = false -> is_nan (qp q) = true ->
    cleared (dir (qs q)) A A' -> big_step q A q A'
  (** Clearing the book. *)
  | big_clr A' : qs q = BOOK_SIDE_CLR -> (∀ d, side_cleared d A A') -> big_step q A q A'
  (** A trade. *)
  | big_del : qs q = BOOK_SIDE_DEL -> big_step q A q (shown_as A (traded q (ab_sides A)))
  (** Quotes that are refused. *)
  | big_odd :
    two_sided (qs q) -> qf q = BOOK_LVL_1 -> dlt (qq q) dzero = true -> big_step q A NOT_A_QUO A
  | big_invalid :
    ¬ two_sided (qs q) ∧ qs q ≠ BOOK_SIDE_CLR ∧ qs q ≠ BOOK_SIDE_DEL ∨
    two_sided (qs q) ∧ (qf q < BOOK_LVL_1 ∨ BOOK_LVL_3 < qf q) ->
    big_step q A NOT_A_QUO A.

(** What is asked of a quote: the price of a level is a number. *)
Definition priced (q : book_quo) : Prop :=
  two_sided (qs q) -> qf q = BOOK_LVL_2 ∨ qf q = BOOK_LVL_3 -> is_nan (qp q) = false.

(** ** [book_add] *)

(** Setting a level of a side, as a step of the machine. *)
Lemma put_level_any h b A W q :
  book_state h b A W -> is_nan (qp q) = false ->
  ∃ h' r A' W',
    ('(h1, vp) ← btree_put h (root b (dir (qs q))) (qp q);
     swap_cell h1 vp (λ w, vq (stored q w)) q) = Some (h', r) ∧
    book_state h' b A' W' ∧ moved h h' (feet W) (feet W') ∧ level_set_in q A r A'.
Proof.
  intros Hs Hn. set (d := dir (qs q)). destruct (ord_num d _ Hn) as [z Hz].
  destruct (state_put d h _ _ _ _ (qp q) z (bs_side _ _ _ _ Hs d) Hz)
    as (h1 & vp & w & lost & Hput & Hld & Hm & Hlost & Hst).
  destruct (Hst (stored q w)) as (h2 & V2 & W2 & Hpk & Hmv & Hs2).
  set (g := ab_split A d || (62 <=? size (ab_maps A d))%nat).
  set (M2 := if lost then ab_maps A d else partial_alter (λ _, val_opt (stored q w)) z (ab_maps A d)) in *.
  assert (ab_split A d = false -> M2 = partial_alter (λ _, val_opt (stored q w)) z (ab_maps A d) ∧
    sighted d z (stored q w) (ab_sides A d) V2 ∧ ((size (ab_maps A d) < 62)%nat -> solo h2 (root b d))) as Hsolo.
  { intros Hg. eapply state_put_solo; [apply (bs_side _ _ _ _ Hs d)|by apply Hs|exact Hz|exact Hput|exact Hpk|exact Hs2]. }
  destruct (book_state_upd h h2 b A W d _ _ g _ Hs Hs2) as [Hs' Hmv']; [|done|].
  { unfold g. intros [Hg Hsz]%orb_false_iff. apply Hsolo; [done|]. apply Nat.leb_gt in Hsz. lia. }
  eexists h2, (replaced q w), _, _. split.
  { brun Hput. unfold swap_cell. brun Hld. replace (mk_val (vq (stored q w)) (qt q)) with (stored q w).
    - by brun Hpk.
    - unfold stored. by destruct (_ =? _). }
  split; [exact Hs'|]. split; [done|]. split_and!.
  - unfold M2. destruct lost.
    + destruct (Hlost eq_refl) as [H62 HN]. eapply level_lost; try done; [congruence|].
      intros d'. cbn. unfold upd. by destruct (Bool.eqb_spec d' d) as [->|].
    + eapply level_set; [exact Hz|exact Hm|cbn; by rewrite upd_this|cbn; by rewrite upd_other].
  - split_and!; cbn; by rewrite upd_other.
  - intros Hg. fold d in Hg |- *. destruct (Hsolo Hg) as (HM & HV & _). split.
    + exists z, w. cbn. rewrite !upd_this. by rewrite HM.
    + intros Hsz. cbn. rewrite upd_this. unfold g. rewrite Hg. apply Nat.leb_gt. lia.
Qed.

Lemma clr_any h b A W d :
  book_state h b A W ->
  ∃ h' A', btree_clr h (root b d) = Some h' ∧ book_state h' b A' W ∧ away (feet W) h h' ∧ cleared d A A'.
Proof.
  intros Hs. destruct (state_clr d h _ _ _ _ (bs_side _ _ _ _ Hs d)) as (h' & m & Hrun & Hs' & Ha & Hm & He & Hsub & Hdis).
  destruct (book_state_same _ _ _ _ _ d _ _ (ab_split A d) Hs Hs') as [Hb' Ha']; [|done|].
  { intros Hg. eapply solo_mild; [exact Hm|]. by apply Hs. }
  eexists h', _. split; [done|]. split; [exact Hb'|]. split; [done|]. split.
  - split_and!; cbn; rewrite ?upd_this; try done. intros Hg. by apply He, Hs.
  - split_and!; cbn; by rewrite upd_other.
Qed.

Lemma book_clr_any h b A W :
  book_state h b A W ->
  ∃ h' A', book_clr h b = Some h' ∧ book_state h' b A' W ∧ away (feet W) h h' ∧ ∀ d, side_cleared d A A'.
Proof.
  intros Hs. destruct (clr_any h b A W true Hs) as (h1 & A1 & H1 & Hs1 & Ha1 & [Hc1 (Hm1 & Hv1 & Hg1)]).
  destruct (clr_any h1 b A1 W false Hs1) as (h2 & A2 & H2 & Hs2 & Ha2 & [Hc2 (Hm2 & Hv2 & Hg2)]).
  cbn [negb] in *. exists h2, A2. split_and!; [|done|by eapply away_trans|].
  - unfold book_clr. unfold root in *. brun H1. by brun H2.
  - unfold side_cleared in *. intros []; [by rewrite Hm2, Hv2, Hg2|]. by rewrite <- Hm1, <- Hv1, <- Hg1.
Qed.

(** [book_add] is a step of the machine, and keeps to the nodes of the book. *)
Definition adds_any ctz0 h b A W q : Prop :=
  ∃ h' r A' W', book_add ctz0 h b q = Some (h', r) ∧ book_state h' b A' W' ∧
    moved h h' (feet W) (feet W') ∧ big_step q A r A'.

Lemma book_state_stay h b A W : book_state h b A W -> moved h h (feet W) (feet W).
Proof. intros Hs. eapply moved_stay, away_refl, book_state_wf, Hs. Qed.

Lemma add_level_any ctz0 h b A W q :
  book_state h b A W -> level_quote q -> adds_any ctz0 h b A W q.
Proof.
  intros Hs Hq. pose proof Hq as (H2 & Hf & Hn).
  destruct (put_level_any h b A W q Hs Hn) as (h' & r & A' & W' & Hrun & Hs' & Hmv & Hst).
  exists h', r, A', W'. split_and!; [|done|done|by apply big_level]. rewrite (book_add_side ctz0 h b q H2), <- Hrun.
  unfold stored. by destruct Hf as [-> | ->].
Qed.

Lemma add_top_any ctz0 h b A W q :
  book_state h b A W -> two_sided (qs q) -> qf q = BOOK_LVL_1 -> adds_any ctz0 h b A W q.
Proof.
  intros Hs H2 Hf. unfold adds_any. rewrite (book_add_side ctz0 h b q H2), Hf.
  cbn [Z.eqb Pos.eqb BOOK_LVL_1 BOOK_LVL_2 BOOK_LVL_3].
  destruct (dlt (qq q) dzero) eqn:Hlt.
  { exists h, NOT_A_QUO, A, W. split_and!; [done..|by eapply book_state_stay|by apply big_odd]. }
  destruct (clr_any h b A W (dir (qs q)) Hs) as (h1 & A1 & Hclr & Hs1 & Ha & Hc). brun Hclr.
  destruct (is_nan (qp q)) eqn:Hn.
  { eexists h1, q, A1, W. split_and!; [done|exact Hs1|by apply moved_stay|by apply big_top_nan]. }
  destruct (put_level_any h1 b A1 W q Hs1 Hn) as (h' & r & A' & W' & Hrun & Hs' & Hmv & Hst).
  exists h', r, A', W'. rewrite <- Hrun. unfold stored. rewrite Hf. split_and!; [done|done| |].
  { eapply moved_trans; [by eapply book_state_wf|by apply moved_stay|done]. }
  by eapply big_top.
Qed.

Lemma add_clr_any ctz0 h b A W q :
  book_state h b A W -> qs q = BOOK_SIDE_CLR -> adds_any ctz0 h b A W q.
Proof.
  intros Hs Hq. destruct (book_clr_any h b A W Hs) as (h' & A' & Hrun & Hs' & Ha & HA).
  exists h', q, A', W. split_and!; [|done|by apply moved_stay|by apply big_clr].
  transitivity (h' ← book_clr h b; Some (h', q)); [unfold book_add; by rewrite Hq|]. by brun Hrun.
Qed.

Lemma add_del_any ctz0 h b A W q :
  (63 <= ctz0)%nat -> book_state h b A W -> qs q = BOOK_SIDE_DEL -> adds_any ctz0 h b A W q.
Proof.
  intros Hctz Hs Hq. set (V := book_hidden A W (away (feet W) h)).
  assert (Shown ctz0 V) as HV by (apply book_hidden_shown; [done|intros ??; apply away_trans]).
  assert (V h b (ab_sides A)) as Hb by (apply book_state_hidden, away_refl; [done|by eapply book_state_wf]).
  destruct (add_del_run ctz0 h b _ q Hb Hq) as (h' & Hrun & Hs').
  assert (V h' b (traded q (ab_sides A))) as [Hst _ Ha].
  { eapply (sh_ext (V := V)); [|exact Hs']. by intros []. }
  exists h', q, (shown_as A (traded q (ab_sides A))), W. split; [done|]. split; [exact Hst|]. split; [by apply moved_stay|by apply big_del].
Qed.

(** [book_add] on a book of any size. *)
Lemma add_any_run ctz0 h b A W q :
  (63 <= ctz0)%nat -> book_state h b A W -> priced q -> adds_any ctz0 h b A W q.
Proof.
  intros Hctz Hs Hp. destruct (decide (two_sided (qs q))) as [H2|H2].
  - destruct (decide (qf q = BOOK_LVL_1)); [by apply add_top_any|].
    destruct (decide (qf q = BOOK_LVL_2 ∨ qf q = BOOK_LVL_3)) as [Hf|Hf].
    { apply add_level_any; [done|]. split_and!; [done..|by apply Hp]. }
    exists h, NOT_A_QUO, A, W. split_and!; [|done|by eapply book_state_stay|].
    + rewrite (book_add_side ctz0 h b q H2).
      destruct (Z.eqb_spec (qf q) BOOK_LVL_3), (Z.eqb_spec (qf q) BOOK_LVL_2),
        (Z.eqb_spec (qf q) BOOK_LVL_1); naive_solver.
    + apply big_invalid. right. split; [done|]. unfold BOOK_LVL_1, BOOK_LVL_2, BOOK_LVL_3 in *. lia.
  - destruct (decide (qs q = BOOK_SIDE_CLR)); [by apply add_clr_any|].
    destruct (decide (qs q = BOOK_SIDE_DEL)); [by apply add_del_any|].
    exists h, NOT_A_QUO, A, W. split_and!; [|done|by eapply book_state_stay|by apply big_invalid; left].
    unfold book_add. unfold two_sided in H2.
    destruct (Z.eqb_spec (qs q) BOOK_SIDE_BID), (Z.eqb_spec (qs q) BOOK_SIDE_ASK),
      (Z.eqb_spec (qs q) BOOK_SIDE_CLR), (Z.eqb_spec (qs q) BOOK_SIDE_DEL); naive_solver.
Qed.
