(* ===== verification/BooksHistory.v ===== *)
(** * Books: made, fed with any quotes, looked at, freed

    A book of any size from its making to its end.  [big_steps] are runs of the
    abstract machine; any sequence of quotes is one, and whatever was fed to a
    book its queries answer from the levels it shows.  Expiry on such books. *)

From Stdlib Require Import ZArith Lia.
From stdpp Require Import prelude list gmap fin_maps.
From stdpp Require Import options.
From S2P Require Import Prelude Decimal Dfp754D64 Btree BtreeLeaf BtreeUsed BtreeIter.
From S2P Require Import BtreeSide BtreeCursor BtreeOps BtreeMap BtreeTree BtreeHide BtreeSight BtreeKids BtreeGrow.
From S2P Require Import BtreeSplit BtreePut BtreeGrown BtreeTheorems BtreePuts BtreeLively BtreeStates BtreeStateOps.
From S2P Require Import Books BooksLoops BooksSpec BooksAdd BooksGrown BooksAny.

Local Open Scope Z_scope.

(** ** Making and freeing *)

Implicit Types A : abook.

Definition made_nodes (b : book_t) : nodes := λ d, [root b d; root b d].

Definition empty_abook : abook := mk_abook (λ _, ∅) (λ _, []) (λ _, false).

Lemma make_book_any h h' b :
  heap_wf h -> make_book h = (h', b) ->
  book_state h' b empty_abook (made_nodes b) ∧ moved h h' [] (feet (made_nodes b)).
Proof.
  intros Hwf. unfold make_book. destruct (make_btree h false) as [h1 a] eqn:Ha.
  destruct (make_btree h1 true) as [h2 p] eqn:Hp. intros [= <- <-].
  pose proof (make_away _ _ _ _ Hwf Ha) as Haw1. pose proof (make_away _ _ _ _ (aw_wf _ _ _ Haw1) Hp) as Haw2.
  pose proof (make_state _ _ _ _ Hwf Ha) as Hs1. pose proof (make_state _ _ _ _ (aw_wf _ _ _ Haw1) Hp) as Hs2.
  assert (a = hnext h ∧ p = Pos.succ a) as [Hna Hne].
  { injection Ha as <- <-. by injection Hp as <- <-. }
  split; [split|split].
  - intros []; cbn [root quo_ask quo_bid]; [done|].
    eapply state_away; [exact Haw2| |exact Hs1]. by intros q _ ?%not_elem_of_nil.
  - assert (∀ h0 h1 d c, make_btree h0 d = (h1, c) -> solo h1 c) as Hsolo.
    { intros h0 h3 d c [= <- <-]. exists (node0 d). split_and!; [apply lookup_insert_eq|done|simpl; lia]. }
    intros [] _; cbn [root quo_ask quo_bid]; [by eapply Hsolo|].
    eapply solo_away; [exact Haw2| |exact Hs1|by eapply Hsolo]. by intros q _ ?%not_elem_of_nil.
  - unfold made_nodes. cbn [root quo_ask quo_bid]. intros q. rewrite !elem_of_cons, elem_of_nil. lia.
  - by eapply away_trans.
  - intros q [[] Hq]%elem_of_feet; unfold made_nodes in Hq; cbn [root quo_ask quo_bid] in Hq;
      rewrite !elem_of_cons, elem_of_nil in Hq; right; lia.
Qed.

(** A side has the nodes of its tree among those it depends on. *)
Lemma state_grown d (h : bheap) p M V W :
  side_state d h p M V W -> ∃ X E, grown d h p X E ∧ X ⊆ W.
Proof.
  intros (X & E & L & C & [Hg _] & _ & _ & _ & ->). exists X, E. split; [done|].
  intros q Hq. apply elem_of_app. by left.
Qed.

Lemma freed_away (h h' : bheap) X W : heap_wf h -> freed X h h' -> X ⊆ W -> away W h h'.
Proof.
  intros Hwf [Hn Hg] Hs. split.
  - intros q t. rewrite Hg, Hn. case_decide; [done|]. apply Hwf.
  - by rewrite Hn.
  - intros q t Hq. rewrite Hg, decide_False; [done|]. intros Hx. by apply Hq, Hs.
Qed.

Lemma free_book_any h b A W :
  book_state h b A W -> ∃ h', free_book h b = Some h' ∧ away (feet W) h h'.
Proof.
  intros Hb. destruct (state_grown _ _ _ _ _ _ (bs_side _ _ _ _ Hb false)) as (X0 & E0 & Hg0 & Hs0).
  destruct (state_grown _ _ _ _ _ _ (bs_side _ _ _ _ Hb true)) as (X1 & E1 & Hg1 & Hs1).
  set (X := λ d : bool, if d then X1 else X0). set (E := λ d : bool, if d then E1 else E0).
  destruct (free_book_run h b X E) as (h' & Hrun & Hf).
  - split; [by intros []|]. apply NoDup_app. split_and!; [apply Hg0| |apply Hg1].
    intros q Hq Hq'. by apply (bs_apart _ _ _ _ Hb q); [apply Hs0|apply Hs1].
  - exists h'. split; [done|]. eapply freed_away; [by eapply book_state_wf|exact Hf|].
    intros q [[] Hq]%elem_of_feet; apply elem_of_feet; [exists true|exists false]; auto.
Qed.

(** ** Runs of the machine *)

Inductive big_steps : list book_quo -> abook -> list book_quo -> abook -> Prop :=
  | bigs_nil A : big_steps [] A [] A
  | bigs_cons q Q A r A1 rs A2 :
    big_step q A r A1 -> shows A1 -> big_steps Q A1 rs A2 -> big_steps (q :: Q) A (r :: rs) A2.

Section any.
Variable ctz0 : nat.
Hypothesis Hctz : (63 <= ctz0)%nat.
#[local] Set Default Proof Using "Type*".

Lemma add_all_any h b A W Q :
  book_state h b A W -> Forall priced Q ->
  ∃ h' rs A' W', add_all ctz0 h b Q = Some (h', rs) ∧ book_state h' b A' W' ∧
    moved h h' (feet W) (feet W') ∧ big_steps Q A rs A'.
Proof.
  intros Hb HQ. revert h A W Hb. induction HQ as [|q Q Hq HQ IH]; intros h A W Hb.
  { exists h, [], A, W. split_and!; [done..|by eapply book_state_stay|constructor]. }
  destruct (add_any_run ctz0 h b A W q Hctz Hb Hq) as (h1 & r & A1 & W1 & H1 & Hb1 & Hm1 & Hs1).
  destruct (IH h1 A1 W1 Hb1) as (h2 & rs & A2 & W2 & H2 & Hb2 & Hm2 & Hs2).
  exists h2, (r :: rs), A2, W2. cbn [add_all]. brun H1. brun H2. split_and!; [done..| |].
  - eapply moved_trans; [by eapply book_state_wf|done..].
  - econstructor; [done|by eapply book_shows|done].
Qed.

(** ** Looking at a book of any size *)

(** Whatever is stored. *)
Definition book_any (W : nodes) (J : bheap -> Prop) (h : bheap) (b : book_t) (B : sides) : Prop :=
  (∃ A, book_state h b A W ∧ ∀ d, ab_sides A d = B d) ∧ J h.

Lemma book_any_shown W (J : bheap -> Prop) :
  (∀ h h', J h -> away (feet W) h h' -> J h') -> Shown ctz0 (book_any W J).
Proof.
  intros HJ. split.
  - intros h b B B' He [(A & Hs & HB) Hj]. split; [|done]. exists A. split; [done|]. intros d. by rewrite HB.
  - intros h b B d [(A & Hs & HB) Hj].
    pose proof (book_hidden_shown ctz0 A W J Hctz HJ) as HV.
    destruct (sh_open h b _ d (book_state_hidden _ _ _ _ J Hs Hj)) as (R & F & C & HC & HA & Hd & Hf & Ho & Hback).
    exists R, F, C. split_and!; try done; [by rewrite HA|]. intros h' C' it L' HF HR.
    destruct (Hback h' C' it L' HF HR) as [Hst _ Hj']. split; [|done]. eexists. split; [exact Hst|].
    intros d'. cbn. unfold upd. by destruct (Bool.eqb d' d).
Qed.

Lemma book_any_clearable W (J : bheap -> Prop) :
  (∀ h h', J h -> away (feet W) h h' -> J h') -> Clearable (book_any W J).
Proof.
  intros HJ h b B [(A & Hs & _) Hj]. destruct (book_clr_any h b A W Hs) as (h' & A' & Hrun & Hs' & Ha & Hc).
  exists h'. split; [done|]. split; [|by eapply HJ]. exists A'. split; [done|]. intros d. apply Hc.
Qed.

(** ** Expiry *)

(** What is left of a book at time [t]. *)
Inductive ages (t : Z) A : abook -> Prop :=
  | ages_never : t = 0 -> ages t A A
  | ages_all A' : t ≠ 0 -> t = NATV -> (∀ d, side_cleared d A A') -> ages t A A'
  | ages_some : t ≠ 0 -> t ≠ NATV -> ages t A (shown_as A (λ d, younger t (ab_sides A d))).

Lemma book_exp_any h b A W t :
  book_state h b A W ->
  ∃ h' A', book_exp ctz0 h b t = Some h' ∧ book_state h' b A' W ∧ away (feet W) h h' ∧ ages t A A'.
Proof.
  intros Hs. unfold book_exp. destruct (Z.eqb_spec t 0) as [->|H0].
  { exists h, A. split_and!; [done..|by eapply away_refl, book_state_wf|by apply ages_never]. }
  destruct (Z.eqb_spec t NATV) as [->|H1].
  { destruct (book_clr_any h b A W Hs) as (h' & A' & Hrun & Hs' & Ha & HA).
    exists h', A'. split_and!; [done..|by apply ages_all]. }
  set (V := book_hidden A W (away (feet W) h)).
  assert (Shown ctz0 V) as HV by (apply book_hidden_shown; [done|intros ??; apply away_trans]).
  assert (V h b (ab_sides A)) as Hb by (apply book_state_hidden, away_refl; [done|by eapply book_state_wf]).
  destruct (exp_side ctz0 h b _ false t Hb) as (h1 & Hrun1 & Hb1).
  destruct (exp_side ctz0 h1 b _ true t Hb1) as (h2 & Hrun2 & Hb2).
  assert (V h2 b (λ d, younger t (ab_sides A d))) as [Hst _ Ha].
  { eapply (sh_ext (V := V)); [|exact Hb2]. by intros []. }
  unfold root in *. brun Hrun1. eexists h2, _. split_and!; [done|exact Hst|done|by apply ages_some].
Qed.
End any.

(** ** Theorems *)


(** C7: a book's whole life: any number of quotes on a new book, level quotes (L2,
    L3) with a price and all others without restriction, runs, and is a run of the
    abstract machine from the empty book; afterwards the best level and the
    iterators of either side answer from the levels shown, which are among
    those stored and in order; freeing the book returns, and whatever else was in the
    heap is as it was.  This is for machines where [__builtin_ctzll(0)], whose value
    its documentation leaves open, is 63 or more (64 where it is the instruction TZCNT);
    the heap to start with is any whose next address is free. *)
Theorem book_history_correct ctz0 h Q :
  (63 <= ctz0)%nat -> heap_wf h -> Forall priced Q ->
  ∃ h1 b h' rs A, make_book h = (h1, b) ∧ add_all ctz0 h1 b Q = Some (h', rs) ∧
    big_steps Q empty_abook rs A ∧ shows A ∧
    (∀ s, two_sided s ->
      (∃ h2, book_top ctz0 h' b s = Some (h2, top_of s (ab_sides A (dir s)))) ∧
      ∃ i h2, book_iter b s = Some i ∧ drain ctz0 (cells_fuel h') h' i = Some (h2, ab_sides A (dir s))) ∧
    ∃ h2, free_book h' b = Some h2 ∧
      ∀ p t, hget h p = Some t -> hget h' p = Some t ∧ hget h2 p = Some t.
Proof.
  intros Hctz Hwf HQ. destruct (make_book h) as [h1 b] eqn:Hm.
  destruct (make_book_any _ _ _ Hwf Hm) as [Hb [Ha1 Hn1]].
  destruct (add_all_any ctz0 Hctz h1 b _ _ Q Hb HQ) as (h' & rs & A & W & Hrun & Hb' & Hm' & Hst).
  exists h1, b, h', rs, A. split_and!; [done..|by eapply book_shows| |].
  - pose proof (book_any_shown ctz0 Hctz W (λ _, True) ltac:(done)) as HV.
    assert (book_any W (λ _, True) h' b (ab_sides A)) as Hany by (split; [by exists A|done]). intros s Hs. split.
    + destruct (book_top_correct ctz0 h' b _ s Hs Hany) as (h2 & Hr & _). by exists h2.
    + destruct (book_drain ctz0 h' b _ s Hs Hany) as (i & h2 & Hi & Hd & _). by exists i, h2.
  - destruct (free_book_any _ _ _ _ Hb') as (h2 & Hf & Ha2). exists h2. split; [done|].
    pose proof (moved_trans _ _ _ _ _ _ Hwf (conj Ha1 Hn1) Hm') as [Ha Hn]. intros p t Ht.
    assert (hget h' p = Some t) as Ht' by (apply (aw_keep _ _ _ Ha); [by intros ?%not_elem_of_nil|done]).
    split; [done|]. apply (aw_keep _ _ _ Ha2); [|done]. intros [Hin|Hge]%Hn; [by apply not_elem_of_nil in Hin|].
    apply Hwf in Ht. lia.
Qed.

(** A quote that sets a level does nothing else. *)
Lemma big_step_level q A r A' : level_quote q -> big_step q A r A' -> level_set_in q A r A'.
Proof.
  intros (H2 & Hf & Hn) Hst. assert (qf q ≠ BOOK_LVL_1) as H1 by (destruct Hf as [-> | ->]; done).
  destruct Hst as [r1 A1 _ Hs| | |A1 Hq|Hq| |[(Hq & _)|(_ & Hq)]]; try done.
  - destruct H2 as [H2|H2]; rewrite H2 in Hq; discriminate.
  - destruct H2 as [H2|H2]; rewrite H2 in Hq; discriminate.
  - unfold BOOK_LVL_1, BOOK_LVL_2, BOOK_LVL_3 in *. lia.
Qed.

(** After a quote that clears the book nothing is shown. *)
Lemma big_step_clr q A r A' :
  qs q = BOOK_SIDE_CLR -> big_step q A r A' -> r = q ∧ ∀ d, ab_sides A' d = [].
Proof.
  intros Hq Hst. assert (¬ two_sided (qs q)) as Hn by (rewrite Hq; by intros [|]).
  destruct Hst as [r1 A1 (H & _)|A1 r1 A2 H|A1 H|A1 _ H|H|H|[(_ & H & _)|(H & _)]]; try done.
  - split; [done|]. intros d. apply H.
  - by rewrite Hq in H.
Qed.

(** A level, a trade and a level that replaces a side, on a new book. *)
Definition some_quotes : list book_quo :=
  [mk_quo BOOK_SIDE_BID BOOK_LVL_2 (px 9) (px 4) 4; mk_quo BOOK_SIDE_DEL 0 (px 9) (px 3) 5;
   mk_quo BOOK_SIDE_BID BOOK_LVL_1 (px 8) (px 2) 6; mk_quo BOOK_SIDE_CLR 0 (px 0) (px 0) 7].

Lemma some_quotes_priced : Forall priced some_quotes.
Proof. repeat (apply Forall_cons; split); [..|by apply Forall_nil]; intros Hs Hf; reflexivity. Qed.


(** After the last quote, which clears the book, nothing is shown. *)
Lemma book_history_correct_witness :
  ∃ h' rs i h2, add_all 64 (make_book empty_heap).1 (mk_book 1 2) some_quotes = Some (h', rs) ∧
    length rs = 4%nat ∧ book_iter (mk_book 1 2) BOOK_SIDE_BID = Some i ∧
    drain 64 (cells_fuel h') h' i = Some (h2, []).
Proof.
  destruct (book_history_correct 64 empty_heap some_quotes ltac:(lia) empty_heap_wf some_quotes_priced)
    as (h1 & b & h' & rs & A & Hm & Hrun & Hst & _ & Hq & _).
  assert (b = mk_book 1 2 ∧ h1 = (make_book empty_heap).1) as [-> ->].
  { split; [exact (eq_sym (f_equal snd Hm))|exact (eq_sym (f_equal fst Hm))]. }
  assert (length rs = 4%nat ∧ ab_sides A true = []) as [Hl HB].
  { unfold some_quotes in Hst. repeat match goal with
    | H : big_steps (_ :: _) _ _ _ |- _ => inversion H; clear H; subst
    | H : big_steps [] _ _ _ |- _ => inversion H; clear H; subst
    end. split; [reflexivity|].
    match goal with H : big_step (mk_quo BOOK_SIDE_CLR _ _ _ _) _ _ _ |- _ =>
      apply big_step_clr in H as [_ HB]; [apply HB|reflexivity] end. }
  destruct (Hq BOOK_SIDE_BID ltac:(by right)) as [_ (i & h2 & Hi & Hd)].
  change (dir BOOK_SIDE_BID) with true in Hd. rewrite HB in Hd.
  exists h', rs, i, h2. split; [exact Hrun|]. split; [exact Hl|]. split; [exact Hi|exact Hd].
Defined.
