(* ===== verification/BooksStock.v ===== *)
(** * Tables of books of any size

    The books that share a heap: each is in order and no two depend on the same
    node.  An operation on one of them that keeps to its nodes leaves the others
    alone; books are made at the end of the table and freed from its front. *)

From Stdlib Require Import ZArith Lia.
From stdpp Require Import prelude list gmap fin_maps.
From stdpp Require Import options.
From S2P Require Import Prelude Decimal Dfp754D64 Btree BtreeLeaf BtreeUsed BtreeIter.
From S2P Require Import BtreeSide BtreeOps BtreeTree BtreeGrow BtreeSplit BtreeLively BtreeStates BtreeStateOps.
From S2P Require Import Books BooksLoops BooksSpec BooksAdd BooksGrown BooksAny BooksHistory.

Local Open Scope Z_scope.

Record stock := mk_stock { k_book : book_t; k_abs : abook; k_nodes : nodes }.

Abbreviation k_shown s := (ab_sides (k_abs s)).

Implicit Types (s : stock) (T L R : list stock) (h : bheap) (Y : list positive).

Definition k_feet s : list positive := feet (k_nodes s).

Definition stands h s : Prop := book_state h (k_book s) (k_abs s) (k_nodes s).

(** No two books depend on the same node. *)
Fixpoint apart T : Prop :=
  match T with [] => True | s :: T => k_feet s ## (T ≫= k_feet) ∧ apart T end.

Record stocked h T : Prop := {
  sk_books : Forall (stands h) T;
  sk_apart : apart T;
  sk_wf : heap_wf h;
}.

Lemma apart_app L R : apart (L ++ R) <-> apart L ∧ apart R ∧ (L ≫= k_feet) ## (R ≫= k_feet).
Proof.
  induction L as [|s L IH]; cbn [app apart].
  - split; [|tauto]. intros Ha. split_and!; [done..|]. by intros q ?%not_elem_of_nil.
  - rewrite IH, bind_app, bind_cons. split.
    + intros [H1 (H2 & H3 & H4)]. split_and!; [|done..|].
      * intros q Hq Hq'. apply (H1 q Hq), elem_of_app. by left.
      * intros q [Hq|Hq]%elem_of_app Hq'; [|by apply (H4 q)]. apply (H1 q Hq), elem_of_app. by right.
    + intros ([H1 H2] & H3 & H4). split_and!; [|done..|].
      * intros q Hq [Hq'|Hq']%elem_of_app; [by apply (H1 q)|]. apply (H4 q); [|done]. apply elem_of_app. by left.
      * intros q Hq Hq'. apply (H4 q); [|done]. apply elem_of_app. by right.
Qed.

Lemma stocked_nil h : heap_wf h -> stocked h [].
Proof. intros Hwf. by split. Qed.

Lemma stocked_old h T q : stocked h T -> q ∈ T ≫= k_feet -> (q < hnext h)%positive.
Proof.
  intros [HB _ _] (s & Hq & Hs)%list_elem_of_bind. rewrite Forall_forall in HB.
  eapply book_state_old; [by apply HB|done].
Qed.

(** Books that are not touched stay. *)
Lemma stands_away Y h h' s : away Y h h' -> k_feet s ## Y -> stands h s -> stands h' s.
Proof. intros Ha Hd. by apply (book_state_away Y). Qed.

Lemma stocked_away Y h h' T : away Y h h' -> (T ≫= k_feet) ## Y -> stocked h T -> stocked h' T.
Proof.
  intros Ha Hd [HB Hap Hwf]. split; [|done|apply Ha]. rewrite Forall_forall in *.
  intros s Hs. specialize (HB s Hs). eapply stands_away; [exact Ha| |done]. intros q Hq. apply Hd, list_elem_of_bind. eauto.
Qed.

(** One book set apart. *)
Lemma stocked_middle h L s R :
  stocked h (L ++ s :: R) <-> stands h s ∧ stocked h (L ++ R) ∧ k_feet s ## ((L ++ R) ≫= k_feet).
Proof.
  split.
  - intros [HB Hap Hwf]. apply Forall_app in HB as [HL [Hs HR]%Forall_cons].
    apply apart_app in Hap as (HaL & [Hs1 HaR] & Hx). rewrite bind_cons in Hx. rewrite bind_app.
    split_and!; [done|split; [by apply Forall_app| |done]|].
    + apply apart_app. split_and!; [done..|]. intros q Hq Hq'. apply (Hx q Hq), elem_of_app. by right.
    + intros q Hq [Hq'|Hq']%elem_of_app; [|by apply (Hs1 q)]. apply (Hx q Hq'), elem_of_app. by left.
  - intros (Hs & [HB Hap Hwf] & Hx). apply Forall_app in HB as [HL HR].
    apply apart_app in Hap as (HaL & HaR & Hlr). rewrite bind_app in Hx. split; [|apply apart_app|done].
    + apply Forall_app. split; [done|]. by apply Forall_cons.
    + cbn [apart]. rewrite bind_cons. split_and!; [done| |done|].
      * intros q Hq Hq'. apply (Hx q Hq), elem_of_app. by right.
      * intros q Hq [Hq'|Hq']%elem_of_app; [|by apply (Hlr q)]. apply (Hx q Hq'), elem_of_app. by left.
Qed.

(** One book changes. *)
Lemma stocked_upd h h' L s R s' :
  stocked h (L ++ s :: R) -> stands h' s' -> moved h h' (k_feet s) (k_feet s') -> stocked h' (L ++ s' :: R).
Proof.
  intros (_ & Hrest & Hd)%stocked_middle Hs' [Ha Hn]. apply stocked_middle. split_and!; [done| |].
  - eapply stocked_away; [exact Ha| |done]. intros q Hq Hq'. by apply (Hd q).
  - intros q Hq Hq'. destruct (Hn q Hq) as [Hin|Hge]; [by apply (Hd q)|].
    pose proof (stocked_old _ _ _ Hrest Hq'). lia.
Qed.

(** A book is made. *)
Definition new_stock (b : book_t) : stock := mk_stock b empty_abook (made_nodes b).

Lemma stocked_make h h' b T :
  stocked h T -> make_book h = (h', b) -> stocked h' (T ++ [new_stock b]).
Proof.
  intros HT Hm. destruct (make_book_any _ _ _ (sk_wf _ _ HT) Hm) as [Hb [Ha Hn]].
  apply stocked_middle. rewrite app_nil_r. split_and!; [exact Hb| |].
  - eapply stocked_away; [exact Ha| |done]. by intros q _ ?%not_elem_of_nil.
  - intros q Hq Hq'. destruct (Hn q Hq) as [Hin|Hge]; [by apply not_elem_of_nil in Hin|].
    pose proof (stocked_old _ _ _ HT Hq'). lia.
Qed.

(** A book is freed. *)
Lemma stocked_free h s T :
  stocked h (s :: T) -> ∃ h', free_book h (k_book s) = Some h' ∧ stocked h' T.
Proof.
  intros HT. apply (stocked_middle h [] s T) in HT as (Hs & Hrest & Hd).
  destruct (free_book_any _ _ _ _ Hs) as (h' & Hrun & Ha). exists h'. split; [done|].
  eapply stocked_away; [exact Ha| |done]. intros q Hq Hq'. by apply (Hd q).
Qed.

(** ** Looking at one book of a table *)

Section view.
Variable ctz0 : nat.
Hypothesis Hctz : (63 <= ctz0)%nat.
#[local] Set Default Proof Using "Type*".

Lemma around_stable s T h h' :
  k_feet s ## (T ≫= k_feet) -> stocked h T -> away (feet (k_nodes s)) h h' -> stocked h' T.
Proof. intros Hd HT Ha. eapply stocked_away; [exact Ha| |done]. intros q Hq Hq'. by apply (Hd q). Qed.

(** The book [s] between [L] and [R], with nothing lost of what it hides. *)
Definition stock_view L s R : bheap -> book_t -> sides -> Prop :=
  book_hidden (k_abs s) (k_nodes s) (λ h, stocked h (L ++ R)).

Lemma stock_shown h L s R : stocked h (L ++ s :: R) -> Shown ctz0 (stock_view L s R).
Proof.
  intros (_ & _ & Hd)%stocked_middle. apply book_hidden_shown; [done|].
  intros h1 h2 HT Ha. by eapply around_stable.
Qed.

Lemma stock_open h L s R : stocked h (L ++ s :: R) -> stock_view L s R h (k_book s) (k_shown s).
Proof. intros (Hs & Hrest & _)%stocked_middle. by apply book_state_hidden. Qed.

(** Nothing happened to the book. *)
Lemma stock_close h h' L s R :
  stocked h (L ++ s :: R) -> stock_view L s R h' (k_book s) (k_shown s) -> stocked h' (L ++ s :: R).
Proof.
  intros (Hs & _ & Hd)%stocked_middle [Hs' _ Hrest]. apply stocked_middle. split_and!; [|done..].
  pose proof (book_shows _ _ _ _ Hs) as Hsh. eapply book_state_ext; [|exact Hs'].
  intros d. by apply shown_as_self.
Qed.

(** It shows other levels. *)
Lemma stock_changed h h' L s R (B : sides) :
  stocked h (L ++ s :: R) -> stock_view L s R h' (k_book s) B ->
  stocked h' (L ++ mk_stock (k_book s) (shown_as (k_abs s) B) (k_nodes s) :: R).
Proof. intros (_ & _ & Hd)%stocked_middle [Hs' _ Hrest]. by apply stocked_middle. Qed.

(** A quote for it, and its expiry. *)
Lemma stock_add h L s R q :
  stocked h (L ++ s :: R) -> priced q ->
  ∃ h' r A W, book_add ctz0 h (k_book s) q = Some (h', r) ∧
    stocked h' (L ++ mk_stock (k_book s) A W :: R) ∧ big_step q (k_abs s) r A ∧ shows A.
Proof.
  intros HT Hq. pose proof HT as (Hs & _ & _)%stocked_middle.
  destruct (add_any_run ctz0 h _ _ _ q Hctz Hs Hq) as (h' & r & A & W & Hrun & Hs' & Hm & Hst).
  exists h', r, A, W. split_and!; [done|by eapply stocked_upd|done|by eapply book_shows].
Qed.

Lemma stock_exp h L s R t :
  stocked h (L ++ s :: R) ->
  ∃ h' A, book_exp ctz0 h (k_book s) t = Some h' ∧
    stocked h' (L ++ mk_stock (k_book s) A (k_nodes s) :: R) ∧ ages t (k_abs s) A ∧ shows A.
Proof.
  intros HT. pose proof HT as (Hs & _ & _)%stocked_middle.
  destruct (book_exp_any ctz0 Hctz h _ _ _ t Hs) as (h' & A & Hrun & Hs' & Ha & Hag).
  exists h', A. split_and!; [done| |done|by eapply book_shows].
  eapply stocked_upd; [done|exact Hs'|by apply moved_stay].
Qed.
End view.
