(* ===== verification/BooksExamples.v ===== *)
(** * Instances of the theorems on books.c

    A book with three asks and two bids, on which each theorem is applied. *)

From Stdlib Require Import ZArith Lia.
From stdpp Require Import prelude list gmap fin_maps.
From stdpp Require Import options.
From S2P Require Import Prelude Decimal Dfp754D64 Btree BtreeLeaf BtreeUsed BtreeIter.
From S2P Require Import BtreeSide BtreeOps BtreeMap BtreeTree Books BtreeTheorems BooksLoops.
From S2P Require Import BooksSpec BooksAdd.

Local Open Scope Z_scope.

Definition bids2 : list level := [lv 9 4 4; lv 8 6 1].

Definition demo : bheap := hset 2 (mk_leaf true bids2 3) heap3.
Definition demo_book : book_t := mk_book 1 2.
Definition demo_leaves : leaves := λ d, if d then (bids2, 3) else (asks3, 7).
Definition demo_sides : sides := λ d, levels (demo_leaves d).1.

Lemma demo_leaf : book_leaf demo demo_book demo_leaves.
Proof.
  split; [done|]. intros []; cbn [demo_leaves fst snd root demo_book quo_ask quo_bid].
  - split; [apply mk_leaf_side; simpl; lia|]. apply ksortedb_ok. vm_compute. reflexivity.
  - split; [|apply asks3_sorted].
    destruct heap3_leaf as (t & Ht & Hrest). exists t. split; [|exact Hrest].
    unfold demo. by rewrite hget_hset_ne by done.
Qed.

Lemma demo_at : book_at demo demo_book demo_sides.
Proof.
  apply (book_leaf_at _ _ _ demo_leaf). intros []; [|exact asks3_used].
  apply used_okb_ok; [simpl; lia|]. vm_compute. reflexivity.
Qed.

Lemma ask_side : two_sided BOOK_SIDE_ASK.
Proof. by left. Qed.
Lemma bid_side : two_sided BOOK_SIDE_BID.
Proof. by right. Qed.

(** ** Queries *)

Lemma book_top_correct_witness :
  ∃ h', book_top 64 demo demo_book BOOK_SIDE_BID =
        Some (h', mk_quo BOOK_SIDE_BID BOOK_LVL_1 (px 9) (px 4) 4).
Proof.
  destruct (book_top_correct 64 demo demo_book demo_sides _ bid_side demo_at) as (h' & H1 & _).
  exists h'. exact H1.
Defined.

Lemma book_tops_correct_witness :
  ∃ h', book_tops 64 demo demo_book BOOK_SIDE_ASK 2 =
        Some (h', [(px 10, px 5); (px 11, px 7)]).
Proof.
  destruct (book_tops_correct 64 demo demo_book demo_sides _ 2 ask_side demo_at) as (h' & H1 & _).
  exists h'. exact H1.
Defined.

Definition is_ans {T} (run : option (bheap * T)) (r : T) : Prop := ∃ h', run = Some (h', r).

Lemma answers_some {T V} (run : option (bheap * T)) ref b B r :
  answers (V := V) run ref b B -> ref = Some r -> is_ans run r.
Proof. intros Ha ->. destruct Ha as (h' & H1 & _). by exists h'. Qed.

Lemma book_ctop_correct_witness :
  ∃ q, ctop_of px_cast64 quantized64 BOOK_SIDE_ASK (px 6) (demo_sides false) = Some q ∧
       qt q = 2 ∧ is_ans (bookd64_ctop 64 demo demo_book BOOK_SIDE_ASK (px 6)) q.
Proof.
  eexists. split; [vm_compute; reflexivity|]. split; [reflexivity|].
  refine (answers_some _ _ _ _ _ (book_ctop_correct 64 px_cast64 quantized64 demo demo_book
            demo_sides _ (px 6) ask_side demo_at) _).
  vm_compute. reflexivity.
Defined.

Lemma book_vtop_correct_witness :
  ∃ q, vtop_of px_cast64 quantized64 BOOK_SIDE_ASK (px 61) (demo_sides false) = Some q ∧
       qt q = 2 ∧ is_ans (bookd64_vtop 64 demo demo_book BOOK_SIDE_ASK (px 61)) q.
Proof.
  eexists. split; [vm_compute; reflexivity|]. split; [reflexivity|].
  refine (answers_some _ _ _ _ _ (book_vtop_correct 64 px_cast64 quantized64 demo demo_book
            demo_sides _ (px 61) ask_side demo_at) _).
  vm_compute. reflexivity.
Defined.

Lemma book_ctops_correct_witness :
  ∃ r, ctops_of px_cast64 quantized64 4 (demo_sides false) None dzero dzero (px 5) (px 5) = Some r ∧
       length r = 3%nat ∧ is_ans (bookd64_ctops 64 demo demo_book BOOK_SIDE_ASK (px 5) 4) r.
Proof.
  eexists. split; [vm_compute; reflexivity|]. split; [reflexivity|].
  refine (answers_some _ _ _ _ _ (book_ctops_correct 64 px_cast64 quantized64 demo demo_book
            demo_sides _ (px 5) 4 ask_side demo_at) _).
  vm_compute. reflexivity.
Defined.

Lemma book_vtops_correct_witness :
  ∃ r, vtops_of px_cast64 quantized64 3 (demo_sides false) None dzero dzero (px 50) (px 50) = Some r ∧
       length r = 3%nat ∧ is_ans (bookd64_vtops 64 demo demo_book BOOK_SIDE_ASK (px 50) 3) r.
Proof.
  eexists. split; [vm_compute; reflexivity|]. split; [reflexivity|].
  refine (answers_some _ _ _ _ _ (book_vtops_correct 64 px_cast64 quantized64 demo demo_book
            demo_sides _ (px 50) 3 ask_side demo_at) _).
  vm_compute. reflexivity.
Defined.

Lemma book_pdo_correct_witness :
  ∃ h', book_pdo 64 demo demo_book BOOK_SIDE_BID (px 7) (px 8) =
        Some (h', mk_pdo (px 7) (px 60) 4 1).
Proof.
  destruct (book_pdo_correct 64 demo demo_book demo_sides _ (px 7) (px 8) bid_side demo_at)
    as (h' & H1 & _).
  exists h'. rewrite H1. vm_compute. reflexivity.
Defined.

Lemma book_iter_correct_witness :
  ∃ i h', book_iter demo_book BOOK_SIDE_ASK = Some i ∧
          drain 64 (cells_fuel demo) demo i = Some (h', asks3).
Proof.
  destruct (book_iter_correct 64 demo demo_book demo_sides _ ask_side demo_at)
    as (i & h' & H1 & H2 & _).
  exists i, h'. exact (conj H1 H2).
Defined.

(** ** Changes *)

Lemma book_clr_correct_witness :
  ∃ h', book_add 64 demo demo_book (mk_quo BOOK_SIDE_CLR 0 dzero dzero 0) =
        Some (h', mk_quo BOOK_SIDE_CLR 0 dzero dzero 0) ∧ book_at h' demo_book (λ _, []).
Proof.
  destruct (book_clr_correct 64 demo demo_book demo_sides (mk_quo BOOK_SIDE_CLR 0 dzero dzero 0)
              demo_at eq_refl) as (h' & _ & H1 & H2).
  exists h'. exact (conj H1 H2).
Defined.

Lemma book_exp_correct_witness :
  ∃ h', book_exp 64 demo demo_book 2 = Some h' ∧
        book_at h' demo_book (λ d, if d then [lv 9 4 4] else [lv 12 3 3]).
Proof.
  destruct (book_exp_correct 64 demo demo_book demo_sides 2 demo_at) as (h' & H1 & H2).
  exists h'. split; [exact H1|]. refine (book_at_ext _ _ _ _ _ H2).
  intros []; vm_compute; reflexivity.
Defined.

Lemma book_add_del_correct_witness :
  ∃ h', book_add 64 demo demo_book (mk_quo BOOK_SIDE_DEL 0 (px 11) (px 2) 9) =
        Some (h', mk_quo BOOK_SIDE_DEL 0 (px 11) (px 2) 9) ∧
        book_at h' demo_book (λ d, if d then bids2 else [lv 11 5 2; lv 12 3 3]).
Proof.
  destruct (book_add_del_correct 64 demo demo_book demo_sides
              (mk_quo BOOK_SIDE_DEL 0 (px 11) (px 2) 9) demo_at eq_refl) as (h' & H1 & H2).
  exists h'. split; [exact H1|]. refine (book_at_ext _ _ _ _ _ H2).
  intros []; vm_compute; reflexivity.
Defined.

Lemma book_add_correct_witness :
  ∃ h' r S', book_add 64 demo demo_book (mk_quo BOOK_SIDE_BID BOOK_LVL_3 (px 9) (px 2) 9) =
               Some (h', r) ∧ book_leaf h' demo_book S' ∧
    quote_step (mk_quo BOOK_SIDE_BID BOOK_LVL_3 (px 9) (px 2) 9) (maps_of demo_leaves)
               r (maps_of S').
Proof.
  destruct (book_add_correct 64 demo demo_book demo_leaves
              (mk_quo BOOK_SIDE_BID BOOK_LVL_3 (px 9) (px 2) 9) demo_leaf)
    as (h' & r & S' & H1 & H2 & H3 & _).
  - split; [discriminate|intros _; reflexivity].
  - intros []; simpl; lia.
  - exists h', r, S'. exact (conj H1 (conj H2 H3)).
Defined.

Definition demo_quotes : list book_quo :=
  [ mk_quo BOOK_SIDE_BID BOOK_LVL_2 (px 9) (px 4) 1;
    mk_quo BOOK_SIDE_ASK BOOK_LVL_2 (px 11) (px 7) 2;
    mk_quo BOOK_SIDE_ASK BOOK_LVL_2 (px 10) (px 5) 3;
    mk_quo BOOK_SIDE_BID BOOK_LVL_2 (px 9) (px 2) 4 ].

Lemma book_build_correct_witness :
  ∃ h1 b h' rs S', make_book empty_heap = (h1, b) ∧ add_all 64 h1 b demo_quotes = Some (h', rs) ∧
    book_leaf h' b S' ∧ quote_steps demo_quotes (λ _, ∅) rs (maps_of S').
Proof.
  apply (book_build_correct 64 empty_heap demo_quotes); [|simpl; lia].
  repeat constructor; cbn; done.
Defined.

Lemma book_build_visible_witness :
  ∃ h1 b h' rs M B, make_book empty_heap = (h1, b) ∧
    add_all 64 h1 b demo_quotes = Some (h', rs) ∧ quote_steps demo_quotes (λ _, ∅) rs M ∧
    book_at h' b B ∧ ∀ d, lmap d (B d) = M d ∧ ksorted d None (B d).*1.
Proof.
  apply (book_build_visible 64 empty_heap demo_quotes); [|simpl; lia].
  repeat constructor; cbn; solve [done | by left | by right].
Defined.

Lemma only_p_correct_witness :
  ∃ h', book_tops_p 64 demo demo_book BOOK_SIDE_ASK 2 = Some (h', [px 10; px 11]).
Proof.
  destruct (book_tops 64 demo demo_book BOOK_SIDE_ASK 2) as [[h' l]|] eqn:E;
    [|vm_compute in E; discriminate].
  exists h'. transitivity (Some (h', l.*1)).
  - apply (proj1 (only_p_correct 64 px_cast64 quantized64 demo demo_book BOOK_SIDE_ASK (px 1) 2)).
    exact E.
  - vm_compute in E. injection E as _ <-. reflexivity.
Defined.
