(* ===== verification/Xquo.v ===== *)
(** * xquo.c: reading quotes and times, writing times

    A line is a list of bytes; what lies behind it in memory is a NUL. *)

From Stdlib Require Import ZArith Lia.
From stdpp Require Import prelude list gmap.
From stdpp Require Import options.
From S2P Require Import Prelude Decimal Dfp754D64 Memrchr Btree Books.

Local Open Scope Z_scope.

(** ** The number parsers of the C library *)

Definition ULONG_MAX : Z := 2 ^ 64 - 1.

Definition isspace (c : Z) : bool := (c =? 32) || ((9 <=? c) && (c <=? 13)).

Fixpoint skip_space (s : list Z) : list Z :=
  match s with
  | c :: s' => if isspace c then skip_space s' else s
  | [] => []
  end.

(** The digits at the head of [s]: their value behind [acc], the rest. *)
Fixpoint read_digits (s : list Z) (acc : Z) : Z * list Z :=
  match s with
  | c :: s' => if is_digit c then read_digits s' (acc * 10 + (c - 48)) else (acc, s)
  | [] => (acc, [])
  end.

(** [strtoul(s, &on, 10)]: value and [on]; without digits the value is [0]
    and [on] is [s]; out of range the value is [ULONG_MAX]. *)
Definition strtoul (s : list Z) : Z * list Z :=
  let p := skip_space s in
  let '(neg, p) :=
    if peek p =? 45 then (true, tl p) else if peek p =? 43 then (false, tl p) else (false, p) in
  if is_digit (peek p) then
    let '(v, r) := read_digits p 0 in
    ((if ULONG_MAX <? v then ULONG_MAX else if neg then u64 (- v) else v), r)
  else (0, s).

(** ** Times *)

(** The time and where the parse stopped; [None] for the end pointer when the
    function returns without setting it. *)
Definition strtotv (ln : list Z) : Z * option (list Z) :=
  let '(s, on) := strtoul ln in
  if s =? 0 then (NATV, Some on)
  else if peek on =? 46 then
    let on := tl on in
    let '(x, moron) := strtoul on in
    let d := Z.of_nat (length on - length moron) in
    if 9 <? d then (NATV, None)
    else if negb (d mod 3 =? 0) then (NATV, None)
    else
      let x := if d =? 9 then x
               else if d =? 6 then u64 (x * MSECS)
               else if d =? 3 then u64 (u64 (x * MSECS) * MSECS)
               else u64 (u64 (u64 (x * MSECS) * MSECS) * MSECS) in
      (u64 (u64 (s * NSECS) + x), Some moron)
  else (u64 (u64 (s * NSECS) + 0), Some on).

(** [for (; ts > 0; ts /= 10, i++) buf[i] = (ts % 10) ^ '0';] followed by the
    reversal: the digits of [ts], most significant first. *)
Fixpoint tv_digits (fuel : nat) (ts : Z) (out : list Z) : list Z :=
  match fuel with
  | O => out
  | S fuel => if 0 <? ts
              then tv_digits fuel (ts / 10) (Z.lxor (ts mod 10) 48 :: out) else out
  end.

(** The nine digits of the nanoseconds, written from the right. *)
Fixpoint tv_nanos (j : nat) (tn : Z) (out : list Z) : list Z :=
  match j with
  | O => out
  | S j => tv_nanos j (tn / 10) (Z.lxor (tn mod 10) 48 :: out)
  end.

(** The bytes written; the return value is their number.  A 64-bit number
    has at most 20 digits. *)
Definition tvtostr (bsz : nat) (t : Z) : list Z :=
  let ts := t / NSECS in
  let tn := t mod NSECS in
  if (bsz <? 19)%nat then []
  else
    let d := if ts =? 0 then [48] else tv_digits 20 ts [] in
    d ++ [46] ++ tv_nanos 9 tn [].

(** ** Quote lines *)

(** [xquo_t]: the quote, the offset of the instrument in the line and its
    length. *)
Record xquo_t := mk_xquo { xq : book_quo; ins : nat; inz : nat }.

Definition NOT_A_XQUO : xquo_t := mk_xquo NOT_A_QUO 0 0.
Definition NOT_A_XQUO_P (x : xquo_t) : bool := NOT_A_QUO_P (xq x).

(** The flavour: the character in front of the price column. *)
Definition read_flavour (f : Z) : Z :=
  let f := Z.lxor f 48 in
  Z.land f (u8 (- Z.b2z (f <? 4))).

(** The side, from the first character of its column.  [<] binds tighter than
    [^]: the guard reads [s ^ ('@' < NBOOK_SIDES) || s == 'T']. *)
Definition read_side (s : Z) : Z :=
  let s := Z.land s (u8 (Z.lnot 0x20)) in
  let guard := negb (Z.lxor s (Z.b2z (64 <? NBOOK_SIDES)) =? 0) || (s =? 84) in
  let s := Z.land s (u8 (- Z.b2z guard)) in
  Z.land s 0xf.

(** [for (; lp > line && lp[-1] != '\t'; lp--);] *)
Fixpoint rewind_tab (line : list Z) (lp : nat) : option nat :=
  match lp with
  | O => Some O
  | S m => b ← line !! m; if b =? 9 then Some lp else rewind_tab line m
  end.

(** The instrument: the column in front of the side, [lp] being where the side
    starts. *)
Definition read_ins (addr : Z) (line : list Z) (lp : nat) (q : book_quo) : option xquo_t :=
  if (0 <? lp)%nat then
    let lp := (lp - 1)%nat in
    i ← memrchr addr line 9 lp;
    let i := match i with Some i => (i + 1)%nat | None => O end in
    Some (mk_xquo q i (lp - i))
  else Some (mk_xquo q 0 0).

(** Flavour, side and instrument in front of the tab at [lp]. *)
Definition read_act (addr : Z) (line : list Z) (lp : nat) (p q : dec) (t : Z) : option xquo_t :=
  if (lp =? 0)%nat then None
  else
    let lp := (lp - 1)%nat in
    f ← line !! lp;
    let f := read_flavour f in
    lp ← rewind_tab line lp;
    s ← line !! lp;
    let s := read_side s in
    if s =? 0 then Some NOT_A_XQUO else read_ins addr line lp (mk_quo s f p q t).

(** [addr] is the address of the line; [None] when a byte outside of the line
    is read or a number parser does not return. *)
Definition read_xquo (addr : Z) (line : list Z) (llen : nat) : option xquo_t :=
  let '(t, _) := strtotv line in
  lp ← memrchr addr line 9 llen;
  match lp with
  | None => Some NOT_A_XQUO
  | Some lp =>
    let llen := lp in
    '(q, _) ← strtod64 (drop (lp + 1) line);
    lp ← memrchr addr line 9 llen;
    match lp with
    | None => Some NOT_A_XQUO
    | Some lp =>
      '(p, on) ← strtod64 (drop (lp + 1) line);
      let p := if (length (drop (lp + 1) line) <=? length on)%nat then DNan else p in
      read_act addr line lp p q t
    end
  end.
