(* ===== verification/XquoSpec.v ===== *)
(** * xquo.c: the theorems

    Times survive printing and reading back; how much buffer printing takes;
    what the side column is read as; what a well-formed line is read as. *)

From Stdlib Require Import ZArith Lia.
From stdpp Require Import prelude list gmap.
From stdpp Require Import options.
From S2P Require Import Prelude Decimal Dfp754D64 Memrchr Btree Books Xquo.

Local Open Scope Z_scope.

(** ** Digits *)

Lemma digit_char d : 0 <= d < 10 -> Z.lxor d 48 = d + 48.
Proof.
  intros Hd. assert (d = 0 ∨ d = 1 ∨ d = 2 ∨ d = 3 ∨ d = 4 ∨ d = 5 ∨ d = 6 ∨ d = 7 ∨ d = 8 ∨ d = 9)
    as Hc by lia.
  repeat destruct Hc as [->|Hc]; try reflexivity. by subst.
Qed.

Lemma is_digit_char d : 0 <= d < 10 -> is_digit (d + 48) = true.
Proof. intros. unfold is_digit. lia. Qed.

Lemma read_digit d out acc :
  0 <= d < 10 -> read_digits (Z.lxor d 48 :: out) acc = read_digits out (acc * 10 + d).
Proof.
  intros Hd. rewrite digit_char by done. cbn [read_digits]. rewrite is_digit_char by done.
  f_equal. lia.
Qed.

Lemma mod10 x : 0 <= x mod 10 < 10.
Proof. apply Z.mod_pos_bound. lia. Qed.

(** Reading the digits of a number gives the number back. *)
Lemma tv_digits_read fuel ts out :
  0 <= ts < 10 ^ Z.of_nat fuel ->
  read_digits (tv_digits fuel ts out) 0 = read_digits out ts.
Proof.
  revert ts out. induction fuel as [|fuel IH]; intros ts out Hts.
  { simpl in *. by replace ts with 0 by lia. }
  cbn [tv_digits]. destruct (Z.ltb_spec 0 ts); [|by replace ts with 0 by lia].
  rewrite IH.
  - rewrite read_digit by apply mod10. f_equal. pose proof (Z.div_mod ts 10). lia.
  - rewrite Nat2Z.inj_succ, Z.pow_succ_r in Hts by lia.
    split; [apply Z.div_pos; lia|]. apply Z.div_lt_upper_bound; lia.
Qed.

Lemma tv_nanos_read j tn out :
  0 <= tn ->
  read_digits (tv_nanos j tn out) 0 = read_digits out (tn mod 10 ^ Z.of_nat j).
Proof.
  revert tn out. induction j as [|j IH]; intros tn out Htn.
  { simpl. by rewrite Z.mod_1_r. }
  cbn [tv_nanos]. rewrite IH by (apply Z.div_pos; lia). rewrite read_digit by apply mod10.
  f_equal. rewrite Nat2Z.inj_succ, Z.pow_succ_r by lia.
  rewrite (Z.rem_mul_r tn 10) by lia. lia.
Qed.

Lemma tv_nanos_length j tn out : length (tv_nanos j tn out) = (j + length out)%nat.
Proof. revert tn out. induction j as [|j IH]; intros; [done|]. cbn. rewrite IH. simpl. lia. Qed.

(** The first character printed is a digit. *)
Lemma digit_cons fuel ts out :
  0 <= ts -> is_digit (peek out) = true -> is_digit (peek (tv_digits fuel ts out)) = true.
Proof.
  revert ts out. induction fuel as [|fuel IH]; intros ts out Hts Ho; [done|].
  cbn [tv_digits]. destruct (0 <? ts); [|done]. apply IH; [apply Z.div_pos; lia|].
  simpl. rewrite digit_char by apply mod10. apply is_digit_char, mod10.
Qed.

Lemma tv_digits_first fuel ts out :
  0 < ts -> (0 < fuel)%nat -> is_digit (peek (tv_digits fuel ts out)) = true.
Proof.
  intros Hts Hf. destruct fuel as [|fuel]; [lia|]. cbn [tv_digits].
  destruct (Z.ltb_spec 0 ts); [|lia]. apply digit_cons; [apply Z.div_pos; lia|].
  simpl. rewrite digit_char by apply mod10. apply is_digit_char, mod10.
Qed.

Lemma tv_nanos_first j tn out :
  0 <= tn -> (0 < j)%nat -> is_digit (peek (tv_nanos j tn out)) = true.
Proof.
  revert tn out. induction j as [|[|j] IH]; intros tn out Htn Hj; [lia| |].
  - simpl. rewrite digit_char by apply mod10. apply is_digit_char, mod10.
  - cbn [tv_nanos] in *. apply IH; [apply Z.div_pos; lia|lia].
Qed.

(** [strtoul] on text that starts with a digit. *)
Lemma strtoul_digits s v r :
  is_digit (peek s) = true -> read_digits s 0 = (v, r) -> v <= ULONG_MAX ->
  strtoul s = (v, r).
Proof.
  intros Hd Hr Hv. unfold strtoul.
  assert (skip_space s = s) as ->.
  { destruct s as [|c s]; [done|]. simpl in *. unfold is_digit, isspace in *.
    destruct (Z.eqb_spec c 32), (Z.leb_spec 9 c), (Z.leb_spec c 13); simpl; try done; lia. }
  unfold is_digit in Hd.
  destruct (Z.eqb_spec (peek s) 45); [lia|]. destruct (Z.eqb_spec (peek s) 43); [lia|].
  unfold is_digit. rewrite Hd, Hr. destruct (Z.ltb_spec ULONG_MAX v); [lia|done].
Qed.

(** ** Times *)

(** What follows a time in a line is no digit. *)
Definition ends_time (rest : list Z) : Prop := is_digit (peek rest) = false.

Lemma read_digits_end rest v : ends_time rest -> read_digits rest v = (v, rest).
Proof. unfold ends_time. destruct rest; simpl; [done|]. by intros ->. Qed.

Lemma tvtostr_read bsz t rest :
  NSECS <= t < 2 ^ 64 -> (19 <= bsz)%nat -> ends_time rest ->
  strtotv (tvtostr bsz t ++ rest) = (t, Some rest).
Proof.
  intros Ht Hb He. unfold tvtostr. destruct (Nat.ltb_spec bsz 19); [lia|].
  set (ts := t / NSECS). set (tn := t mod NSECS).
  assert (0 < ts < 10 ^ 11) as Hts.
  { unfold ts, NSECS in *. split; [apply Z.div_str_pos; lia|apply Z.div_lt_upper_bound; lia]. }
  assert (0 <= tn < 10 ^ 9) as Htn by (unfold tn; apply Z.mod_pos_bound; done).
  destruct (Z.eqb_spec ts 0) as [?|_]; [lia|].
  assert (∀ fuel x out r, tv_digits fuel x out ++ r = tv_digits fuel x (out ++ r)) as Happ.
  { intros fuel. induction fuel as [|fuel IH]; intros x out r; [done|]. cbn [tv_digits].
    destruct (0 <? x); [|done]. by rewrite IH. }
  assert (∀ j x out r, tv_nanos j x out ++ r = tv_nanos j x (out ++ r)) as Happ'.
  { intros j. induction j as [|j IH]; intros x out r; [done|]. cbn [tv_nanos]. by rewrite IH. }
  rewrite <- !app_assoc, Happ', Happ, !app_nil_l. cbn [app].
  set (nano := tv_nanos 9 tn rest).
  assert (strtoul (tv_digits 20 ts (46 :: nano)) = (ts, 46 :: nano)) as Hs.
  { apply strtoul_digits; [apply tv_digits_first; lia| |unfold ULONG_MAX; lia].
    rewrite tv_digits_read by (simpl; lia). done. }
  assert (strtoul nano = (tn, rest)) as Hn.
  { apply strtoul_digits; [apply tv_nanos_first; lia| |unfold ULONG_MAX; lia].
    unfold nano. rewrite tv_nanos_read by lia. rewrite Z.mod_small by (simpl; lia).
    by apply read_digits_end. }
  unfold strtotv. rewrite Hs. destruct (Z.eqb_spec ts 0) as [?|_]; [lia|].
  change (peek (46 :: nano) =? 46) with true. cbv iota. cbn [tl]. rewrite Hn.
  replace (Z.of_nat (length nano - length rest)) with 9.
  2: { unfold nano. rewrite tv_nanos_length. lia. }
  change (9 <? 9) with false. change (negb (9 mod 3 =? 0)) with false.
  change (9 =? 9) with true. cbv iota zeta. do 2 f_equal.
  assert (t = ts * NSECS + tn) as Heq.
  { unfold ts, tn. pose proof (Z.div_mod t NSECS). unfold NSECS in *. lia. }
  unfold u64. rewrite (Z.mod_small (ts * NSECS)) by (unfold NSECS in *; lia).
  rewrite <- Heq. apply Z.mod_small. unfold NSECS in *. lia.
Qed.

Lemma strtotv_word l : 0 <= (strtotv l).1 < 2 ^ 64.
Proof.
  unfold strtotv. destruct (strtoul l) as [s on].
  assert (0 <= NATV < 2 ^ 64) by done.
  destruct (s =? 0); [done|]. destruct (peek on =? 46); [|apply Z.mod_pos_bound; lia].
  destruct (strtoul (tl on)) as [x more]. destruct (9 <? _); [done|].
  destruct (negb _); [done|]. apply Z.mod_pos_bound. lia.
Qed.

(** C38: a time of a second or more that [tvtostr] prints, [strtotv] reads back
    unchanged, and it stops right behind it. *)
Theorem tvtostr_roundtrip bsz t rest :
  NSECS <= t < 2 ^ 64 -> (19 <= bsz)%nat -> ends_time rest ->
  strtotv (tvtostr bsz t ++ rest) = (t, Some rest).
Proof. apply tvtostr_read. Qed.

Lemma tvtostr_roundtrip_witness :
  strtotv (tvtostr 32 1500000000123456789 ++ [9; 69]) = (1500000000123456789, Some [9; 69]).
Proof. apply (tvtostr_roundtrip 32); [unfold NSECS; lia|lia|reflexivity]. Defined.

Lemma tv_digits_length fuel ts out m :
  ts < 10 ^ Z.of_nat m -> (length (tv_digits fuel ts out) <= m + length out)%nat.
Proof.
  revert ts out m. induction fuel as [|fuel IH]; intros ts out m Hts; cbn [tv_digits]; [lia|].
  destruct (Z.ltb_spec 0 ts); [|lia]. destruct m as [|m]; [simpl in Hts; lia|].
  etrans; [apply (IH _ _ m)|simpl; lia].
  rewrite Nat2Z.inj_succ, Z.pow_succ_r in Hts by lia. apply Z.div_lt_upper_bound; lia.
Qed.

Lemma tvtostr_bound bsz t : 0 <= t < 2 ^ 64 -> (length (tvtostr bsz t) <= 21)%nat.
Proof.
  intros Ht. unfold tvtostr. destruct (bsz <? 19)%nat; [simpl; lia|].
  rewrite !length_app, tv_nanos_length. cbn [length].
  destruct (_ =? 0); [simpl; lia|].
  assert (t / NSECS < 10 ^ Z.of_nat 11) as Hts.
  { apply Z.div_lt_upper_bound; unfold NSECS; lia. }
  pose proof (tv_digits_length 20 (t / NSECS) [] 11 Hts) as Hd. cbn [length] in Hd. lia.
Qed.

(** As many as the number has. *)
Lemma tv_digits_exact fuel ts out m :
  (m < fuel)%nat -> 10 ^ Z.of_nat m <= ts < 10 ^ Z.of_nat (S m) ->
  length (tv_digits fuel ts out) = (S m + length out)%nat.
Proof.
  revert ts out m. induction fuel as [|fuel IH]; intros ts out m Hf Hts; [lia|]. cbn [tv_digits].
  assert (0 < 10 ^ Z.of_nat m) by (apply Z.pow_pos_nonneg; lia). rewrite (proj2 (Z.ltb_lt 0 ts)) by lia.
  destruct m as [|m].
  - change (10 ^ Z.of_nat 0) with 1 in Hts. change (10 ^ Z.of_nat 1) with 10 in Hts.
    rewrite (Z.div_small ts 10) by lia. by destruct fuel.
  - rewrite (IH _ _ m); [simpl; lia|lia|]. rewrite !Nat2Z.inj_succ, !Z.pow_succ_r in * by lia.
    split; [apply Z.div_le_lower_bound; lia|apply Z.div_lt_upper_bound; lia].
Qed.

(** C28: [tvtostr] writes nothing into a buffer of less than 19 bytes, and into any
    other as many bytes as the seconds have digits (one at least) and ten more: never
    more than 21, and 20 for every time from 10^9 up to 10^10 seconds, the years 2001
    to 2286.  The guard of 19 does not cover that: such a time overruns a buffer of 19
    bytes by one. *)
Theorem tvtostr_length bsz t :
  0 <= t < 2 ^ 64 ->
  (length (tvtostr bsz t) <= 21)%nat ∧
  ((bsz < 19)%nat -> tvtostr bsz t = []) ∧
  ((19 <= bsz)%nat -> t < NSECS -> length (tvtostr bsz t) = 11%nat) ∧
  ((19 <= bsz)%nat -> ∀ k, 10 ^ Z.of_nat k <= t / NSECS < 10 ^ Z.of_nat (S k) ->
    length (tvtostr bsz t) = (S k + 10)%nat) ∧
  ((19 <= bsz)%nat -> 10 ^ 9 * NSECS <= t < 10 ^ 10 * NSECS -> length (tvtostr bsz t) = 20%nat).
Proof.
  intros Ht. assert ((19 <= bsz)%nat -> ∀ k, 10 ^ Z.of_nat k <= t / NSECS < 10 ^ Z.of_nat (S k) ->
    length (tvtostr bsz t) = (S k + 10)%nat) as Hk.
  { intros Hb k Hts. unfold tvtostr. rewrite (proj2 (Nat.ltb_ge bsz 19)) by lia. cbv zeta.
    assert (0 < 10 ^ Z.of_nat k) by (apply Z.pow_pos_nonneg; lia).
    rewrite (proj2 (Z.eqb_neq _ _)), !length_app, tv_nanos_length by lia.
    rewrite (tv_digits_exact 20 _ [] k); [simpl; lia| |done].
    destruct (decide (k < 20)%nat) as [|Hge]; [done|].
    assert (10 ^ 20 <= 10 ^ Z.of_nat k) by (apply Z.pow_le_mono_r; lia).
    assert (t / NSECS < 10 ^ 11) by (apply Z.div_lt_upper_bound; unfold NSECS; lia). lia. }
  split_and!; [by apply tvtostr_bound| | |exact Hk|].
  - intros Hb. unfold tvtostr. by destruct (Nat.ltb_spec bsz 19); [|lia].
  - intros Hb Hs. unfold tvtostr. rewrite (proj2 (Nat.ltb_ge bsz 19)), (Z.div_small t NSECS) by lia.
    by rewrite !length_app, tv_nanos_length.
  - intros Hb Hs. apply (Hk Hb 9%nat). unfold NSECS in *.
    split; [apply Z.div_le_lower_bound; lia|apply Z.div_lt_upper_bound; lia].
Qed.

Lemma tvtostr_length_witness :
  tvtostr 10 (2 ^ 64 - 1) = [] ∧ length (tvtostr 19 1500000000123456789) = 20%nat.
Proof.
  split; [apply (tvtostr_length 10 (2 ^ 64 - 1) ltac:(lia)); lia|].
  apply (tvtostr_length 19 1500000000123456789 ltac:(lia)); [lia|unfold NSECS; lia].
Defined.

(** ** The side column *)

Lemma byte_cases (P : Z -> bool) :
  forallb (λ n, P (Z.of_nat n)) (seq 0 256) = true -> ∀ s, byte s -> P s = true.
Proof.
  rewrite forallb_forall. intros Hf s Hs. unfold byte in Hs.
  rewrite <- (Z2Nat.id s) by lia. apply (Hf (Z.to_nat s)), in_seq. lia.
Qed.

(** The letters of the documented sides, in either case, and T for trades are
    read as such; but the guard is ineffective: any other character counts by its
    low four bits, so that NUL, blank and others with no such bits give no side. *)
Theorem read_side_correct s :
  byte s ->
  read_side s =
    (if (s =? 65) || (s =? 97) then BOOK_SIDE_ASK
     else if (s =? 66) || (s =? 98) then BOOK_SIDE_BID
     else if (s =? 67) || (s =? 99) then BOOK_SIDE_CLR
     else if (s =? 68) || (s =? 100) || (s =? 84) || (s =? 116) then BOOK_SIDE_DEL
     else s mod 16).
Proof.
  intros Hs. apply Z.eqb_eq. revert s Hs. apply byte_cases. vm_compute. reflexivity.
Qed.

Lemma read_side_correct_witness :
  read_side 97 = BOOK_SIDE_ASK ∧ read_side 84 = BOOK_SIDE_DEL ∧ read_side 69 = NBOOK_SIDES.
Proof.
  rewrite (read_side_correct 97), (read_side_correct 84), (read_side_correct 69)
    by (unfold byte; lia).
  split_and!; reflexivity.
Defined.

(** ** Lines *)

Lemma last_index_unique s c n r r' : last_index s c n r -> last_index s c n r' -> r = r'.
Proof.
  destruct r as [i|], r' as [j|]; simpl; try naive_solver.
  intros (Hi & Hsi & Hni) (Hj & Hsj & Hnj). f_equal.
  destruct (Nat.lt_trichotomy i j) as [?|[?|?]]; [|done|].
  - destruct (Hni j); [lia|done].
  - destruct (Hnj i); [lia|done].
Qed.

(** The last tab in front of a field without tabs. *)
Lemma memrchr_tab addr (a f b : list Z) :
  Forall byte (a ++ 9 :: f ++ b) -> 9 ∉ f ->
  memrchr addr (a ++ 9 :: f ++ b) 9 (length a + 1 + length f) = Some (Some (length a)).
Proof.
  intros Hb Hf. destruct (memrchr_spec addr _ 9 (length a + 1 + length f) Hb) as (r & Hr & Hl).
  { rewrite length_app. simpl. len. }
  rewrite Hr. f_equal. eapply last_index_unique; [exact Hl|]. simpl. split_and!.
  - lia.
  - by rewrite list_lookup_middle.
  - intros j Hj Heq. apply Hf. rewrite lookup_app_r in Heq by lia.
    destruct (j - length a)%nat as [|m] eqn:Hm; [lia|]. simpl in Heq.
    rewrite lookup_app_l in Heq by lia. by eapply list_elem_of_lookup_2.
Qed.

Lemma memrchr_none addr (f b : list Z) :
  Forall byte (f ++ b) -> 9 ∉ f -> memrchr addr (f ++ b) 9 (length f) = Some None.
Proof.
  intros Hb Hf. destruct (memrchr_spec addr _ 9 (length f) Hb) as (r & Hr & Hl).
  { len. }
  rewrite Hr. f_equal. eapply last_index_unique; [exact Hl|]. simpl.
  intros j Hj Heq. apply Hf. rewrite lookup_app_l in Heq by lia. by eapply list_elem_of_lookup_2.
Qed.

Lemma rewind_tab_field (a f b : list Z) :
  9 ∉ f -> rewind_tab (a ++ 9 :: f ++ b) (length a + 1 + length f) = Some (length a + 1)%nat.
Proof.
  intros Hf. assert (∀ m, (m <= length f)%nat ->
    rewind_tab (a ++ 9 :: f ++ b) (length a + 1 + m) = Some (length a + 1)%nat) as Hgen; [|by apply Hgen].
  intros m. induction m as [|m IH]; intros Hm.
  - replace (length a + 1 + 0)%nat with (S (length a)) by lia. cbn [rewind_tab].
    rewrite list_lookup_middle by done. bstep. by replace (length a + 1)%nat with (S (length a)) by lia.
  - replace (length a + 1 + S m)%nat with (S (length a + 1 + m)) by lia. cbn [rewind_tab].
    destruct (lookup_lt_is_Some_2 f m) as [c Hc]; [lia|].
    rewrite lookup_app_r by lia. replace (length a + 1 + m - length a)%nat with (S m) by lia.
    simpl. rewrite (lookup_app_l_Some _ _ _ _ Hc). simpl.
    destruct (Z.eqb_spec c 9) as [->|]; [by destruct Hf; eapply list_elem_of_lookup_2|].
    apply IH. lia.
Qed.

(** The columns of a line from its end, [b] being everything up to the price. *)
Lemma drop_tab (a b : list Z) : drop (length a + 1) (a ++ 9 :: b) = b.
Proof.
  rewrite drop_app_ge by lia. by replace (length a + 1 - length a)%nat with 1%nat by lia.
Qed.

Lemma lookup_after (a : list Z) x b i : i = length a -> (a ++ x :: b) !! i = Some x.
Proof. intros ->. by apply list_lookup_middle. Qed.

Lemma read_xquo_columns addr b pxs qxs p on1 q on2 :
  let line := b ++ 9 :: pxs ++ 9 :: qxs in
  Forall byte line -> 9 ∉ pxs -> 9 ∉ qxs ->
  strtod64 (pxs ++ 9 :: qxs) = Some (p, on1) -> strtod64 qxs = Some (q, on2) ->
  read_xquo addr line (length line) =
    read_act addr line (length b) (if Nat.leb (length (pxs ++ 9 :: qxs)) (length on1) then DNan else p) q (strtotv line).1.
Proof.
  intros line Hb Hpx Hqx Hp Hq. unfold read_xquo. destruct (strtotv line) as [t on] eqn:Htv.
  set (c := b ++ 9 :: pxs). assert (line = c ++ 9 :: qxs ++ []) as Ec.
  { unfold line, c. by rewrite app_nil_r, <- app_assoc. }
  assert (memrchr addr line 9 (length line) = Some (Some (length c))) as Mc.
  { replace (length line) with (length c + 1 + length qxs)%nat
      by (rewrite Ec, app_nil_r, length_app; simpl; lia).
    rewrite Ec. apply memrchr_tab; [by rewrite <- Ec|done]. }
  assert (memrchr addr line 9 (length c) = Some (Some (length b))) as Mb.
  { replace (length c) with (length b + 1 + length pxs)%nat
      by (unfold c; rewrite length_app; simpl; lia). by apply memrchr_tab. }
  assert (drop (length c + 1) line = qxs) as Dc by (rewrite Ec, app_nil_r; apply drop_tab).
  assert (drop (length b + 1) line = pxs ++ 9 :: qxs) as Db by apply drop_tab.
  brun Mc. rewrite Dc. brun Hq. brun Mb. rewrite Db. by brun Hp.
Qed.

(** The same when both numbers end where their columns do. *)
Lemma read_xquo_cols addr b pxs qxs t on p q :
  let line := b ++ 9 :: pxs ++ 9 :: qxs in
  Forall byte line -> 9 ∉ pxs -> 9 ∉ qxs -> strtotv line = (t, on) -> pxs ≠ [] ->
  strtod64 (pxs ++ 9 :: qxs) = Some (p, 9 :: qxs) -> strtod64 qxs = Some (q, []) ->
  read_xquo addr line (length line) = read_act addr line (length b) p q t.
Proof.
  intros line Hb Hpx Hqx Htv Hne Hp Hq. unfold line in *. rewrite (read_xquo_columns _ _ _ _ p (9 :: qxs) q []) by done.
  rewrite Htv, (proj2 (Nat.leb_gt _ _)); [done|]. rewrite length_app. destruct pxs; [done|]. simpl. lia.
Qed.

(** The side column decides. *)
Lemma read_act_side addr a sc fc r p q t :
  let line := a ++ 9 :: [sc; fc] ++ r in
  9 ∉ [sc; fc] ->
  read_act addr line (length a + 3) p q t =
    if read_side sc =? 0 then Some NOT_A_XQUO
    else read_ins addr line (length a + 1) (mk_quo (read_side sc) (read_flavour fc) p q t).
Proof.
  intros line Hsf. unfold read_act. rewrite (proj2 (Nat.eqb_neq _ 0)) by lia.
  assert (line !! (length a + 3 - 1)%nat = Some fc) as Hfc.
  { unfold line. change (9 :: [sc; fc] ++ r) with ([9; sc] ++ fc :: r). rewrite app_assoc.
    apply lookup_after. rewrite length_app. simpl. lia. }
  assert (rewind_tab line (length a + 3 - 1) = Some (length a + 1)%nat) as Hrw.
  { change line with (a ++ 9 :: [sc] ++ (fc :: r)).
    replace (length a + 3 - 1)%nat with (length a + 1 + length [sc])%nat
      by (simpl; lia). apply rewind_tab_field. set_solver. }
  assert (line !! (length a + 1)%nat = Some sc) as Hsc.
  { unfold line. change (9 :: [sc; fc] ++ r) with ([9] ++ sc :: fc :: r). rewrite app_assoc.
    apply lookup_after. rewrite length_app. simpl. lia. }
  brun Hfc. brun Hrw. by brun Hsc.
Qed.


(** "1.500 TAB EUR TAB B2 TAB 1.13 TAB 100" *)
Definition quote_line : list Z :=
  [49; 46; 53; 48; 48] ++ 9 :: [69; 85; 82] ++ 9 :: [66; 50] ++ 9 ::
  [49; 46; 49; 51] ++ 9 :: [49; 48; 48].

