(* ===== verification/XquoLines.v ===== *)
(** * xquo.c: any line

    What [read_xquo] makes of a line, column by column from its end, however long the
    columns are and wherever the numbers in them stop; and which lines are no quotes. *)

From Stdlib Require Import ZArith Lia.
From stdpp Require Import prelude list gmap.
From stdpp Require Import options.
From S2P Require Import Prelude Decimal Dfp754D64 Memrchr Btree Books Xquo XquoSpec.

Local Open Scope Z_scope.

(** ** Columns *)

(** What is in front of the side column: nothing, or columns that end in a tab; the
    last of them is the instrument, at offset [i] and of length [n]. *)
Inductive instrument : list Z -> nat -> nat -> Prop :=
  | ins_none : instrument [] 0 0
  | ins_first c : 9 ∉ c -> instrument (c ++ [9]) 0 (length c)
  | ins_later a c : 9 ∉ c -> instrument (a ++ 9 :: c ++ [9]) (length a + 1) (length c).

(** Back to the beginning of a column. *)
Lemma rewind_instrument pre i n (f b : list Z) :
  instrument pre i n -> 9 ∉ f -> rewind_tab (pre ++ f ++ b) (length pre + length f) = Some (length pre).
Proof.
  intros Hp Hf. assert (pre = [] ∨ ∃ a, pre = a ++ [9]) as [-> | [a ->]].
  { destruct Hp as [|c _|a c _]; [by left|right; by exists c|right; exists (a ++ 9 :: c)]. by rewrite <- app_assoc. }
  - cbn [app length Nat.add]. clear Hp. revert b. induction f as [|x f IH] using rev_ind; intros b; [done|].
    rewrite length_app. cbn [length]. rewrite Nat.add_1_r. cbn [rewind_tab]. rewrite <- app_assoc.
    cbn [app]. rewrite list_lookup_middle by done. bstep.
    destruct (Z.eqb_spec x 9) as [->|]; [set_solver|]. apply IH. set_solver.
  - rewrite <- app_assoc, length_app. cbn [app length]. by apply rewind_tab_field.
Qed.

(** The instrument is found. *)
Lemma read_ins_instrument addr pre i n r q :
  Forall byte (pre ++ r) -> instrument pre i n ->
  read_ins addr (pre ++ r) (length pre) q = Some (mk_xquo q i n).
Proof.
  intros Hb Hp. unfold read_ins. destruct Hp as [|c Hc|a c Hc]; [done|..].
  - rewrite length_app. cbn [length]. rewrite (proj2 (Nat.ltb_lt 0 _)), Nat.add_sub by lia.
    rewrite <- app_assoc in *. brun (memrchr_none addr c _ Hb Hc). by rewrite Nat.sub_0_r.
  - rewrite <- app_assoc in *. cbn [app] in *. rewrite <- app_assoc in *. rewrite !length_app. cbn [length].
    rewrite length_app. cbn [length]. rewrite (proj2 (Nat.ltb_lt 0 _)) by lia.
    replace (length a + S (length c + 1) - 1)%nat with (length a + 1 + length c)%nat by lia.
    brun (memrchr_tab addr a c _ Hb Hc). do 3 f_equal. lia.
Qed.

(** The side column: its first character is the side, its last the flavour. *)
Lemma read_act_columns addr pre i n scs fc r p q t :
  let line := pre ++ (scs ++ [fc]) ++ r in
  Forall byte line -> 9 ∉ scs -> instrument pre i n ->
  read_act addr line (length (pre ++ scs ++ [fc])) p q t =
    Some (if read_side (hd fc scs) =? 0 then NOT_A_XQUO
          else mk_xquo (mk_quo (read_side (hd fc scs)) (read_flavour fc) p q t) i n).
Proof.
  intros line Hb Hs Hp. unfold read_act. rewrite !length_app. cbn [length].
  rewrite (proj2 (Nat.eqb_neq _ 0)) by lia.
  replace (length pre + (length scs + 1) - 1)%nat with (length pre + length scs)%nat by lia.
  assert (line !! (length pre + length scs)%nat = Some fc) as Hf.
  { unfold line. rewrite lookup_app_r, Nat.add_comm, Nat.add_sub by lia. rewrite <- app_assoc. by apply list_lookup_middle. }
  assert (line !! length pre = Some (hd fc scs)) as Hc.
  { unfold line. rewrite lookup_app_r, Nat.sub_diag by lia. by destruct scs. }
  assert (rewind_tab line (length pre + length scs) = Some (length pre)) as Hr.
  { unfold line. rewrite <- app_assoc. by eapply rewind_instrument. }
  brun Hf. brun Hr. brun Hc. destruct (read_side _ =? 0); [done|]. by apply read_ins_instrument.
Qed.

(** ** The line *)

(** C32: any line with a non-empty side column and two more behind it: the time is
    read from the beginning of the line; side and flavour are the first and the last
    character of the side column; price and quantity are what their columns begin with,
    wherever the numbers stop, and a price column without a number gives a NaN; the
    instrument is the column in front of the side, if there is one.  Without a side
    the line is no quote.  The number parser has to return on both columns. *)
Theorem read_xquo_line addr pre i n scs fc pxs qxs p on1 q on2 :
  let line := (pre ++ scs ++ [fc]) ++ 9 :: pxs ++ 9 :: qxs in
  Forall byte line -> instrument pre i n -> 9 ∉ scs -> 9 ∉ pxs -> 9 ∉ qxs ->
  strtod64 (pxs ++ 9 :: qxs) = Some (p, on1) -> strtod64 qxs = Some (q, on2) ->
  read_xquo addr line (length line) =
    Some (if read_side (hd fc scs) =? 0 then NOT_A_XQUO
          else mk_xquo (mk_quo (read_side (hd fc scs)) (read_flavour fc)
                 (if Nat.leb (length (pxs ++ 9 :: qxs)) (length on1) then DNan else p) q (strtotv line).1) i n).
Proof.
  intros line Hb Hi Hs Hpx Hqx Hp Hq. unfold line at 1 2.
  rewrite (read_xquo_columns addr _ pxs qxs p on1 q on2) by done. fold line.
  assert (line = pre ++ (scs ++ [fc]) ++ 9 :: pxs ++ 9 :: qxs) as E by (unfold line; by rewrite <- app_assoc).
  rewrite E in *. by apply read_act_columns.
Qed.

(** [1.5 TAB EUR TAB Bid2 TAB x TAB 100 NL]: a long side column, no price, a line end. *)
Lemma read_xquo_line_witness :
  read_xquo 5 [49; 46; 53; 48; 48; 9; 69; 85; 82; 9; 66; 105; 100; 50; 9; 9; 49; 48; 48; 10] 20 =
    Some (mk_xquo (mk_quo BOOK_SIDE_BID BOOK_LVL_2 DNan (DFin false 100 0) 1500000000) 6 3).
Proof.
  apply (read_xquo_line 5 ([49; 46; 53; 48; 48] ++ 9 :: [69; 85; 82] ++ [9]) 6 3 [66; 105; 100] 50
           [] [49; 48; 48; 10] dzero [9; 49; 48; 48; 10] (DFin false 100 0) [10]).
  - repeat (constructor; [unfold byte; lia|]). constructor.
  - apply (ins_later [49; 46; 53; 48; 48] [69; 85; 82]). set_solver by lia.
  - set_solver by lia.
  - set_solver by lia.
  - set_solver by lia.
  - vm_compute. reflexivity.
  - vm_compute. reflexivity.
Defined.

(** ** Lines that are rejected *)

(** No tab; a single one; or a side column whose first character gives no side. *)
Inductive rejected : list Z -> Prop :=
  | rej_no_tab line : 9 ∉ line -> rejected line
  | rej_one_tab a qxs r :
    9 ∉ a -> 9 ∉ qxs -> strtod64 qxs = Some r -> rejected (a ++ 9 :: qxs)
  | rej_side pre i n scs fc pxs qxs p q :
    instrument pre i n -> 9 ∉ scs -> 9 ∉ pxs -> 9 ∉ qxs ->
    strtod64 (pxs ++ 9 :: qxs) = Some p -> strtod64 qxs = Some q -> read_side (hd fc scs) = 0 ->
    rejected ((pre ++ scs ++ [fc]) ++ 9 :: pxs ++ 9 :: qxs).

Lemma read_xquo_rejected addr line :
  Forall byte line -> rejected line -> read_xquo addr line (length line) = Some NOT_A_XQUO.
Proof.
  intros Hb Hr. destruct Hr as [line Hno|a qxs [q r] Ha Hq Hd|pre i n scs fc pxs qxs [p on1] [q on2] Hi Hs Hpx Hqx Hp Hq Hside].
  - unfold read_xquo. destruct (strtotv line). 
    pose proof (memrchr_none addr line []) as M. rewrite app_nil_r in M. by brun (M Hb Hno).
  - unfold read_xquo. destruct (strtotv (a ++ 9 :: qxs)).
    assert (a ++ 9 :: qxs = a ++ 9 :: qxs ++ []) as E by by rewrite app_nil_r.
    assert (memrchr addr (a ++ 9 :: qxs) 9 (length (a ++ 9 :: qxs)) = Some (Some (length a))) as M.
    { replace (length (a ++ 9 :: qxs)) with (length a + 1 + length qxs)%nat
        by (rewrite length_app; simpl; lia). rewrite E in *. by apply memrchr_tab. }
    brun M. rewrite drop_tab. brun Hd. by brun (memrchr_none addr a (9 :: qxs) Hb Ha).
  - rewrite (read_xquo_columns addr _ pxs qxs p on1 q on2) by done. rewrite <- app_assoc in *.
    rewrite (read_act_columns addr pre i n scs fc) by done. by rewrite Hside.
Qed.
