(* ===== verification/Book2book.v ===== *)
(** * book2book.c: the book converter

    The tool reads quote lines, keeps a book per instrument and prints, after
    each quote, the book in the chosen flavour.  The model is a step function
    on lines: its state holds the heap, the arrays [conx] and [book], and what
    has been written to standard output.  [None] stands for undefined
    behaviour (a write beyond a buffer, an index outside of an array, an
    uninitialised variable) and for a call that does not return. *)

From Stdlib Require Import ZArith Lia.
From stdpp Require Import prelude list gmap.
From stdpp Require Import options.
From S2P Require Import Prelude Decimal Dfp754D64 Memrchr Hash Btree Books Xquo.

Local Open Scope Z_scope.

(** ** Output buffers *)

(** [char buf[256]] filled up to [len]: its contents. *)
Definition BUFSZ : nat := 256.

(** [buf[len++] = c] *)
Definition bputc (c : Z) (buf : list Z) : option (list Z) :=
  if (length buf <? BUFSZ)%nat then Some (buf ++ [c]) else None.

(** [len += pxtostr(buf + len, sizeof(buf) - len, x)] *)
Definition bputd (x : dec) (buf : list Z) : option (list Z) :=
  Some (buf ++ d64tostr (BUFSZ - length buf) x).

(** A field that is left empty unless [c]. *)
Definition bput_if (c : bool) (x : dec) (buf : list Z) : option (list Z) :=
  if c then bputd x buf else Some buf.

(** The decimal digits of [i], as [%zu] prints them. *)
Definition zu (i : nat) : list Z :=
  if (i =? 0)%nat then [48] else tv_digits 20 (Z.of_nat i) [].

(** ** Books *)

(** The output mode [prq]. *)
Inductive prq_mode := PRQ1 | PRQ2 | PRQ3 | PRQN | PRQC | PRQCN | PRQV | PRQVN.
#[export] Instance prq_mode_eq_dec : EqDecision prq_mode.
Proof. solve_decision. Defined.

(** [xbook_t]: the union is used through its arrays when [ntop > 1] and
    through its scalars otherwise. *)
Record xbook_t := mk_xbook {
  xbk : book_t;
  xbids : list dec; xasks : list dec; xbszs : list dec; xaszs : list dec;
  xbid : dec; xask : dec; xbsz : dec; xasz : dec;
}.

(** The options of a run. *)
Record b2b_opts := mk_opts { prq : prq_mode; ntop : nat; cqty : dec }.

Definition make_xbook (o : b2b_opts) (h : bheap) : bheap * xbook_t :=
  let '(h, b) := make_book h in
  let z := if (1 <? ntop o)%nat then replicate (ntop o) dzeroed else [] in
  (h, mk_xbook b z z z z dzeroed dzeroed dzeroed dzeroed).

Definition free_xbook (h : bheap) (xb : xbook_t) : option bheap :=
  free_book h (xbk xb).

(** ** Printers

    Each returns the heap, the book's record of what it printed last and the
    lines written (without the prefix, which precedes every line). *)

Definition prq_out : Type := bheap * xbook_t * list (list Z).

(** [c1 BID ASK BSZ ASZ] with fields left empty. *)
Definition c1_line (bc ac : bool) (bp ap bq aq : dec) : option (list Z) :=
  buf ← bputc 99 [];
  buf ← bputc 49 buf;
  buf ← bputc 9 buf;
  buf ← bput_if bc bp buf;
  buf ← bputc 9 buf;
  buf ← bput_if ac ap buf;
  buf ← bputc 9 buf;
  buf ← bput_if bc bq buf;
  buf ← bputc 9 buf;
  buf ← bput_if ac aq buf;
  bputc 10 buf.

(** [SIDE FLAVOUR PRICE QUANTITY] *)
Definition level_line (s : Z) (f : Z) (p q : dec) : option (list Z) :=
  buf ← bputc (Z.lxor s 64) [];
  buf ← bputc f buf;
  buf ← bputc 9 buf;
  buf ← bputd p buf;
  buf ← bputc 9 buf;
  buf ← bputd q buf;
  bputc 10 buf.

(** [cI B[I] A[I] BQ[I] AQ[I]], level [I] counting from one. *)
Definition cn_line (i : nat) (b a : list (dec * dec)) : option (list Z) :=
  let buf := 99 :: zu (i + 1) in
  let put (l : list (dec * dec)) (f : dec * dec -> dec) (buf : list Z) :=
    match l !! i with Some x => bputd (f x) buf | None => Some buf end in
  buf ← bputc 9 buf;
  buf ← put b fst buf;
  buf ← bputc 9 buf;
  buf ← put a fst buf;
  buf ← bputc 9 buf;
  buf ← put b snd buf;
  buf ← bputc 9 buf;
  buf ← put a snd buf;
  bputc 10 buf.

(** [size_t n = ntop < bn && ntop < an ? ntop : bn < an ? an : bn]. *)
Definition nlevels (ntop bn an : nat) : nat :=
  if (ntop <? bn)%nat && (ntop <? an)%nat then ntop
  else if (bn <? an)%nat then an else bn.

Fixpoint cn_lines (cnt i : nat) (b a : list (dec * dec)) : option (list (list Z)) :=
  match cnt with
  | O => Some []
  | S cnt => l ← cn_line i b a; ls ← cn_lines cnt (S i) b a; Some (l :: ls)
  end.

(** An array of [ntop] cells, zeroed and filled from the front. *)
Definition padded (ntop : nat) (l : list dec) : list dec :=
  l ++ replicate (ntop - length l) dzeroed.

(** [!memcmp(x, y, ...)] *)
Definition same_bits (x y : list dec) : bool :=
  bool_decide (map bits64 x = map bits64 y).

Section b2b.
Variable ctz0 : nat.
Variable opts : b2b_opts.

Definition prq1 (h : bheap) (xb : xbook_t) : option prq_out :=
  '(h, b) ← book_top ctz0 h (xbk xb) BOOK_SIDE_BID;
  '(h, a) ← book_top ctz0 h (xbk xb) BOOK_SIDE_ASK;
  if deq (qp b) (xbid xb) && deq (qq b) (xbsz xb) &&
     deq (qp a) (xask xb) && deq (qq a) (xasz xb)
  then Some (h, xb, [])
  else
    let xb := mk_xbook (xbk xb) (xbids xb) (xasks xb) (xbszs xb) (xaszs xb)
                       (qp b) (qp a) (qq b) (qq a) in
    l ← c1_line (dtrue (qq b)) (dtrue (qq a)) (qp b) (qp a) (qq b) (qq a);
    Some (h, xb, [l]).

Definition prq2 (h : bheap) (xb : xbook_t) (q : book_quo) : option prq_out :=
  l ← level_line (qs q) 50 (qp q) (qq q);
  Some (h, xb, [l]).

Definition prq3 (h : bheap) (xb : xbook_t) (q o : book_quo) : option prq_out :=
  l ← level_line (qs q) 51 (qp q) (dsub (qq q) (qq o));
  Some (h, xb, [l]).

Definition prqn (h : bheap) (xb : xbook_t) : option prq_out :=
  '(h, b) ← book_tops ctz0 h (xbk xb) BOOK_SIDE_BID (ntop opts);
  '(h, a) ← book_tops ctz0 h (xbk xb) BOOK_SIDE_ASK (ntop opts);
  let bp := padded (ntop opts) (map fst b) in
  let bq := padded (ntop opts) (map snd b) in
  let ap := padded (ntop opts) (map fst a) in
  let aq := padded (ntop opts) (map snd a) in
  if same_bits bq (xbszs xb) && same_bits aq (xaszs xb) &&
     same_bits bp (xbids xb) && same_bits ap (xasks xb)
  then Some (h, xb, [])
  else
    ls ← cn_lines (nlevels (ntop opts) (length b) (length a)) 0 b a;
    Some (h, mk_xbook (xbk xb) bp ap bq aq (xbid xb) (xask xb) (xbsz xb) (xasz xb), ls).

(** [prqc] and [prqv] differ in the consolidation they ask for. *)
Definition prqc_with
    (ctop : bheap -> book_t -> Z -> dec -> option (bheap * book_quo))
    (h : bheap) (xb : xbook_t) : option prq_out :=
  '(h, bc) ← ctop h (xbk xb) BOOK_SIDE_BID (cqty opts);
  '(h, ac) ← ctop h (xbk xb) BOOK_SIDE_ASK (cqty opts);
  if deq (qp bc) (xbid xb) && deq (qp ac) (xask xb) then Some (h, xb, [])
  else
    let xb := mk_xbook (xbk xb) (xbids xb) (xasks xb) (xbszs xb) (xaszs xb)
                       (qp bc) (qp ac) (xbsz xb) (xasz xb) in
    l ← c1_line (dtrue (qq bc)) (dtrue (qq ac)) (qp bc) (qp ac) (qq bc) (qq ac);
    Some (h, xb, [l]).

Definition prqc : bheap -> xbook_t -> option prq_out := prqc_with (bookd64_ctop ctz0).
Definition prqv : bheap -> xbook_t -> option prq_out := prqc_with (bookd64_vtop ctz0).

(** Likewise [prqcn] and [prqvn]. *)
Definition prqcn_with
    (ctops : bheap -> book_t -> Z -> dec -> nat -> option (bheap * list (dec * dec)))
    (h : bheap) (xb : xbook_t) : option prq_out :=
  '(h, b) ← ctops h (xbk xb) BOOK_SIDE_BID (cqty opts) (ntop opts);
  '(h, a) ← ctops h (xbk xb) BOOK_SIDE_ASK (cqty opts) (ntop opts);
  let bp := padded (ntop opts) (map fst b) in
  let ap := padded (ntop opts) (map fst a) in
  if same_bits bp (xbids xb) && same_bits ap (xasks xb) then Some (h, xb, [])
  else
    ls ← cn_lines (nlevels (ntop opts) (length b) (length a)) 0 b a;
    Some (h, mk_xbook (xbk xb) bp ap (xbszs xb) (xaszs xb)
                      (xbid xb) (xask xb) (xbsz xb) (xasz xb), ls).

Definition prqcn : bheap -> xbook_t -> option prq_out := prqcn_with (bookd64_ctops ctz0).
Definition prqvn : bheap -> xbook_t -> option prq_out := prqcn_with (bookd64_vtops ctz0).

Definition run_prq (h : bheap) (xb : xbook_t) (q o : book_quo) : option prq_out :=
  match prq opts with
  | PRQ1 => prq1 h xb
  | PRQ2 => prq2 h xb q
  | PRQ3 => prq3 h xb q o
  | PRQN => prqn h xb
  | PRQC => prqc h xb
  | PRQCN => prqcn h xb
  | PRQV => prqv h xb
  | PRQVN => prqvn h xb
  end.

(** ** The processor *)

Record b2b_state := mk_b2b {
  heap_ : bheap;
  conx : list Z;
  books : list xbook_t;
  nbook : nat;
  zbook : nat;
  nctch : nat;
  out : list Z;
}.

Definition set_heap_book (st : b2b_state) (h : bheap) (k : nat) (xb : xbook_t)
    (o : list Z) : option b2b_state :=
  bs ← store k xb (books st);
  Some (mk_b2b h (conx st) bs (nbook st) (zbook st) (nctch st) (out st ++ o)).

(** Print behind the prefix: add quote [r] to book [k], then [prq]. *)
Definition add_print (st : b2b_state) (prfx : list Z) (k : nat) (r : book_quo) :
    option b2b_state :=
  xb ← books st !! k;
  '(h, o) ← book_add ctz0 (heap_ st) (xbk xb) r;
  '(h, xb, ls) ← run_prq h xb r o;
  set_heap_book st h k xb (concat (map (fun l => prfx ++ l) ls)).

(** [while (book_iter_next(&i) && cond) { add level 0; prq; }] *)
Fixpoint unwind_loop (fuel : nat) (st : b2b_state) (prfx : list Z) (k : nat)
    (s : Z) (cond : dec -> bool) (i : biter) : option b2b_state :=
  match fuel with
  | O => None
  | S fuel =>
    '(h, i, r) ← book_iter_next ctz0 (heap_ st) i;
    let st := mk_b2b h (conx st) (books st) (nbook st) (zbook st) (nctch st) (out st) in
    match r with
    | Some _ =>
      if cond (it_k i) then
        st ← add_print st prfx k (mk_quo s BOOK_LVL_2 (it_k i) dzero 0);
        unwind_loop fuel st prfx k s cond i
      else Some st
    | None => Some st
    end
  end.

Definition unwind (st : b2b_state) (prfx : list Z) (k : nat) (s : Z)
    (cond : dec -> bool) : option b2b_state :=
  xb ← books st !! k;
  i ← book_iter (xbk xb) s;
  unwind_loop (cells_fuel (heap_ st)) st prfx k s cond i.

(** [for (k = 0; k < nbook; k++) if (conx[k] == hx) goto unwnd;] *)
Definition find_book (st : b2b_state) (hx : Z) : option nat :=
  scan_up (nbook st) (fun k => c ← conx st !! k; Some (negb (c =? hx))) 0.

(** The book for an instrument: the state with the book initialised if need
    be, and its index; [None] inside for a line that is not for us.  With
    only catch-alls on the command line the index is never assigned. *)
Definition select_book (st : b2b_state) (name : list Z) :
    option (b2b_state * option nat) :=
  hx ← hash name;
  let searched := (0 <? nbook st)%nat || (0 <? zbook st)%nat in
  k ← if searched then find_book st hx else Some O;
  if searched && (k <? nbook st)%nat then Some (st, Some k)
  else if (0 <? nctch st)%nat then
    if searched then Some (st, Some k) else None
  else if (zbook st =? 0)%nat then Some (st, None)
  else
    let z := if (zbook st <=? nbook st)%nat then (zbook st * 2)%nat else zbook st in
    let '(h, xb) := make_xbook opts (heap_ st) in
    Some (mk_b2b h (conx st ++ [hx]) (books st ++ [xb]) (nbook st + 1) z
                 (nctch st) (out st), Some k).

Definition is_prq23 : bool :=
  match prq opts with PRQ2 | PRQ3 => true | _ => false end.

(** From label [unwnd] on. *)
Definition process (st : b2b_state) (prfx : list Z) (k : nat) (q : book_quo) :
    option b2b_state :=
  if (qf q =? BOOK_LVL_1) && is_prq23 then
    st ← unwind st prfx k (qs q)
           (fun p => (qs q =? BOOK_SIDE_BID) && dgt p (qp q) ||
                     (qs q =? BOOK_SIDE_ASK) && dlt p (qp q));
    add_print st prfx k q
  else if (qs q =? BOOK_SIDE_CLR) && is_prq23 then
    st ← unwind st prfx k BOOK_SIDE_BID (fun _ => true);
    unwind st prfx k BOOK_SIDE_ASK (fun _ => true)
  else add_print st prfx k q.

(** One turn of the [getline] loop; [addr] is where the line is stored. *)
Definition b2b_line (addr : Z) (st : b2b_state) (line : list Z) : option b2b_state :=
  q ← read_xquo addr line (length line);
  if NOT_A_XQUO_P q then Some st
  else
    let prfz := (ins q + inz q + (if (inz q =? 0)%nat then 0 else 1))%nat in
    let prfx := take prfz line in
    '(st, k) ← select_book st (take (inz q) (drop (ins q) line));
    match k with
    | None => Some st
    | Some k => process st prfx k (xq q)
    end.

Fixpoint b2b_lines (addr : Z) (st : b2b_state) (ls : list (list Z)) : option b2b_state :=
  match ls with
  | [] => Some st
  | l :: ls => st ← b2b_line addr st l; b2b_lines addr st ls
  end.

(** [free_xbook] of every book at the end. *)
Fixpoint free_books (h : bheap) (bs : list xbook_t) : option bheap :=
  match bs with
  | [] => Some h
  | b :: bs => h ← free_xbook h b; free_books h bs
  end.

(** ** Set-up *)

(** The catch-all arguments: empty, or a star. *)
Definition catchall_p (c : list Z) : bool :=
  match c with [] => true | [x] => x =? 42 | _ => false end.

Definition HX_CATCHALL : Z := u32 (-1).

Fixpoint init_books (args : list (list Z)) (st : b2b_state) : option b2b_state :=
  match args with
  | [] => Some st
  | c :: args =>
    if catchall_p c then init_books args st
    else
      hx ← hash c;
      let '(h, xb) := make_xbook opts (heap_ st) in
      init_books args (mk_b2b h (conx st ++ [hx]) (books st ++ [xb]) (nbook st + 1)
                              (zbook st) (nctch st) (out st))
  end.

(** The state the processor starts in, given the [--instr] arguments. *)
Definition b2b_init (instr : list (list Z)) : option b2b_state :=
  let st0 := mk_b2b empty_heap [] [] 0 0 0 [] in
  match instr with
  | [] => Some (mk_b2b empty_heap [] [] 0 8 0 [])
  | _ =>
    st ← init_books instr st0;
    if (nbook st <? length instr)%nat then
      let '(h, xb) := make_xbook opts (heap_ st) in
      Some (mk_b2b h (conx st ++ [HX_CATCHALL]) (books st ++ [xb]) (nbook st)
                   (zbook st) 1 (out st))
    else Some st
  end.

(** A whole run over the lines of standard input: what it prints. *)
Definition b2b_run (addr : Z) (instr : list (list Z)) (ls : list (list Z)) :
    option (list Z) :=
  st ← b2b_init instr;
  st ← b2b_lines addr st ls;
  h ← free_books (heap_ st) (books st);
  Some (out st).
End b2b.

(** ** Command line *)

(** The parsed options that choose the mode; [-N] and [-C] with their
    arguments. *)
Record b2b_args := mk_args {
  dash1 : bool; dash2 : bool; dash3 : bool;
  dashN : option (list Z); dashC : option (list Z);
}.

(** [None]: the tool reports an error and exits. *)
Definition b2b_options (a : b2b_args) : option b2b_opts :=
  let m := PRQ2 in
  let m := if dash1 a then PRQ1 else m in
  let m := if dash3 a then PRQ3 else m in
  let m := if dash2 a then PRQ2 else m in
  '(m, nt) ←
    match dashN a with
    | None => Some (m, 0)
    | Some s =>
      let '(nt, _) := strtoul s in
      if nt =? 0 then None else Some (if 1 <? nt then PRQN else PRQ1, nt)
    end;
  '(m, c) ←
    match dashC a with
    | None => Some (m, dzeroed)
    | Some s =>
      let m := if negb (peek s =? 47) then (if 1 <? nt then PRQCN else PRQC)
               else (if 1 <? nt then PRQVN else PRQV) in
      let s := if peek s =? 47 then tl s else s in
      '(c, _) ← strtod64 s;
      if dle c dzero then None else Some (m, c)
    end;
  Some (mk_opts m (Z.to_nat nt) c).
