(* ===== verification/Desks.v ===== *)
(** * The table of instruments of both tools

    book2book and booksnap keep a book per instrument in the same way: named on the
    command line or made as instruments come up, with a catch-all at the end if
    one was named.  [desk] is such a table as a value: the hashes of the
    instruments and what is kept of each; [opens] says where a line goes.  The
    arrays of both tools represent such a table ([tabled]), and their search
    ([choice]) finds the row that [opens] names. *)

From Stdlib Require Import ZArith Lia.
From stdpp Require Import prelude list.
From stdpp Require Import options.
From S2P Require Import Prelude Hash Decimal Book2book.

Local Open Scope Z_scope.

(** ** Finding an instrument *)

(** The first cell with hash [hx]. *)
Definition find_key (C : list Z) (hx : Z) : option nat := fst <$> list_find (λ c, c = hx) C.

(** The scan of [conx] stops there, or behind the last cell it looks at. *)
Lemma scan_keys (C : list Z) n hx :
  (n <= length C)%nat ->
  scan_up n (fun k => c ← C !! k; Some (negb (c =? hx))) 0 = Some (default n (find_key (take n C) hx)).
Proof.
  intros Hn. unfold find_key.
  destruct (list_find _ _) as [[k c]|] eqn:E; cbn [default id fmap option_fmap option_map fst].
  - apply list_find_Some in E as (Hk & -> & Hlt).
    pose proof (lookup_lt_Some _ _ _ Hk) as Hl. rewrite length_take in Hl.
    apply scan_up_intro; [lia| |].
    + intros x Hx. destruct (lookup_lt_is_Some_2 C x) as [c' Hc']; [lia|].
      brun Hc'. f_equal. apply negb_true_iff, Z.eqb_neq. apply (Hlt x); [|lia].
      rewrite lookup_take_lt by lia. done.
    + intros _. rewrite lookup_take_lt in Hk by lia. brun Hk. by rewrite Z.eqb_refl.
  - apply list_find_None in E. rewrite Forall_lookup in E.
    apply scan_up_intro; [lia| |lia].
    intros x Hx. destruct (lookup_lt_is_Some_2 C x) as [c' Hc']; [lia|].
    brun Hc'. f_equal. apply negb_true_iff, Z.eqb_neq. apply (E x).
    rewrite lookup_take_lt by lia. done.
Qed.

Lemma find_key_lt C hx k : find_key C hx = Some k -> (k < length C)%nat.
Proof.
  unfold find_key. destruct (list_find _ _) as [[k' c]|] eqn:E; [|done].
  intros [= <-]. apply list_find_Some in E as (Hk & _). by eapply lookup_lt_Some.
Qed.

(** ** Desks *)

(** [d_keys]: the hashes of the instruments with a book of their own; [d_rows]:
    what is kept of them and, at the end, of the catch-all if there is one. *)
Record desk (A : Type) := mk_desk {
  d_open : bool;
  d_ctch : bool;
  d_keys : list Z;
  d_rows : list A;
}.
Arguments mk_desk {A} _ _ _ _.
Arguments d_open {A} _.
Arguments d_ctch {A} _.
Arguments d_keys {A} _.
Arguments d_rows {A} _.

Record desk_ok {A} (d : desk A) : Prop := {
  dk_rows : length (d_rows d) = (length (d_keys d) + if d_ctch d then 1 else 0)%nat;
  dk_open : d_open d = true -> d_ctch d = false;
}.

(** Where a line for the instrument with hash [hx] goes: the index of a row,
    with the desk afterwards (a new row is [a]); nowhere; or, with catch-alls
    only, to a row whose index is never assigned. *)
Definition opens {A} (a : A) (d : desk A) (hx : Z) : option (option (desk A * nat)) :=
  match find_key (d_keys d) hx with
  | Some k => Some (Some (d, k))
  | None =>
    if d_ctch d then
      match d_keys d with [] => None | _ => Some (Some (d, length (d_keys d))) end
    else if d_open d then
      Some (Some (mk_desk true false (d_keys d ++ [hx]) (d_rows d ++ [a]), length (d_keys d)))
    else Some None
  end.

(** The desk a run starts with: [row c] is kept of instrument [c], [rest n] of
    the catch-all behind [n] others. *)
Definition named (instr : list (list Z)) : list (list Z) := filter (λ c, catchall_p c = false) instr.

Definition desk0 {A} (row : list Z -> A) (rest : nat -> A) (instr : list (list Z)) : option (desk A) :=
  match instr with
  | [] => Some (mk_desk true false [] [])
  | _ =>
    C ← mapM hash (named instr);
    let ctch := (length C <? length instr)%nat in
    Some (mk_desk false ctch C ((row <$> named instr) ++ if ctch then [rest (length C)] else []))
  end.

Lemma opens_ok {A} (a : A) d hx d' k :
  desk_ok d -> opens a d hx = Some (Some (d', k)) -> desk_ok d' ∧ (k < length (d_rows d'))%nat.
Proof.
  intros Hd. pose proof Hd as [Hr Ho]. unfold opens. destruct (find_key (d_keys d) hx) as [k0|] eqn:Hk.
  { intros [= <- <-]. apply find_key_lt in Hk. split; [done|]. destruct (d_ctch d); lia. }
  destruct (d_ctch d) eqn:Hc.
  - destruct (d_keys d); [done|]. intros [= <- <-]. split; [done|]. simpl in Hr. simpl. lia.
  - destruct (d_open d); [|done]. intros [= <- <-]. cbn. rewrite length_app. cbn. split; [|lia].
    split; cbn; [|done]. rewrite !length_app. cbn. lia.
Qed.

(** The rows of a desk that is filled anew. *)
Definition with_rows {A} (d : desk A) (R : list A) : desk A := mk_desk (d_open d) (d_ctch d) (d_keys d) R.

(** ** The tools' arrays *)

(** [C]: the hashes, [n] books with one, room for [z], [ct] catch-alls. *)
Record tabled {A} (C : list Z) (n z ct : nat) (d : desk A) : Prop := {
  tb_keys : take (length (d_keys d)) C = d_keys d;
  tb_conx : length C = length (d_rows d);
  tb_n : n = length (d_keys d);
  tb_ctch : ct = if d_ctch d then 1%nat else 0%nat;
  tb_room : if d_open d then (0 < z)%nat else z = 0%nat;
  tb_desk : desk_ok d;
}.

Lemma tabled_length {A} C n z ct (d : desk A) : tabled C n z ct d -> length (d_rows d) = (n + ct)%nat.
Proof. intros [_ _ -> -> _ [Hr _]]. rewrite Hr. by destruct (d_ctch d). Qed.

Lemma tabled_rows {A} C n z ct (d : desk A) R :
  tabled C n z ct d -> length R = length (d_rows d) -> tabled C n z ct (with_rows d R).
Proof. intros [Hk Hc Hn Hct Hz [Hr Ho]] Hl. split; cbn; [done|lia|done..|]. split; cbn; [lia|done]. Qed.

(** The index of the row, and whether it is to be made, as both tools find it. *)
Definition choice (C : list Z) (n z ct : nat) (hx : Z) : option (option (nat * bool)) :=
  let searched := (0 <? n)%nat || (0 <? z)%nat in
  k ← if searched then scan_up n (fun k => c ← C !! k; Some (negb (c =? hx))) 0 else Some O;
  if searched && (k <? n)%nat then Some (Some (k, false))
  else if (0 <? ct)%nat then if searched then Some (Some (k, false)) else None
  else if (z =? 0)%nat then Some None
  else Some (Some (k, true)).

Definition grown_room (n z : nat) : nat := if (z <=? n)%nat then (z * 2)%nat else z.

Lemma choice_opens {A} (a : A) C n z ct d hx :
  tabled C n z ct d ->
  match opens a d hx with
  | None => choice C n z ct hx = None
  | Some None => choice C n z ct hx = Some None
  | Some (Some (d', k)) =>
    choice C n z ct hx = Some (Some (k, false)) ∧ d' = d ∨
    choice C n z ct hx = Some (Some (k, true)) ∧ k = n ∧ d_rows d' = d_rows d ++ [a] ∧
    tabled (C ++ [hx]) (n + 1) (grown_room n z) ct d'
  end.
Proof.
  intros Ht. pose proof (tabled_length _ _ _ _ _ Ht) as Hl. destruct Ht as [Hk HC -> -> Hz [Hr Ho]].
  assert (scan_up (length (d_keys d)) (fun k => c ← C !! k; Some (negb (c =? hx))) 0 =
          Some (default (length (d_keys d)) (find_key (d_keys d) hx))) as Hf.
  { rewrite scan_keys by lia. by rewrite Hk. }
  unfold opens, choice. destruct (find_key (d_keys d) hx) as [k|] eqn:Hfk; cbn [default id] in Hf.
  { pose proof (find_key_lt _ _ _ Hfk) as Hlt. left. rewrite (proj2 (Nat.ltb_lt 0 _)) by lia.
    cbn [orb]. rewrite Hf. bstep. rewrite (proj2 (Nat.ltb_lt k _)) by lia. done. }
  assert ((if (0 <? length (d_keys d))%nat || (0 <? z)%nat
           then scan_up (length (d_keys d)) (fun k => c ← C !! k; Some (negb (c =? hx))) 0 else Some O) =
          Some (length (d_keys d))) as ->.
  { rewrite Hf. destruct (Nat.ltb_spec 0 (length (d_keys d))); [done|].
    destruct (Nat.ltb_spec 0 z); cbn [orb]; [done|]. f_equal. lia. }
  bstep. rewrite Nat.ltb_irrefl, andb_false_r. destruct (d_ctch d) eqn:Hc; cbn [Nat.ltb Nat.leb].
  - destruct (d_open d); [by specialize (Ho eq_refl)|]. subst z. rewrite orb_false_r.
    destruct (d_keys d) as [|x l]; [done|]. by left.
  - destruct (d_open d) eqn:Hop; [|by subst z]. rewrite (proj2 (Nat.eqb_neq z 0)) by lia.
    right. split_and!; [done..|]. split; cbn; rewrite ?length_app; cbn; try lia.
    + rewrite take_ge; [|rewrite length_app; simpl; lia]. f_equal. rewrite <- Hk, take_ge; [done|lia].
    + unfold grown_room. destruct (z <=? _)%nat; lia.
    + split; cbn; [|done]. rewrite !length_app. cbn. lia.
Qed.

Lemma desk0_tabled {A} (row : list Z -> A) rest nm instr C :
  mapM hash (named (nm :: instr)) = Some C ->
  let instr := nm :: instr in
  let ct := (length C <? length instr)%nat in
  ∃ d, desk0 row rest instr = Some d ∧
    d_rows d = (row <$> named instr) ++ (if ct then [rest (length C)] else []) ∧
    tabled (C ++ if ct then [HX_CATCHALL] else []) (length C) 0 (if ct then 1 else 0) d.
Proof.
  intros HC instr0 ct. eexists. split; [unfold desk0, instr0; rewrite HC; reflexivity|]. split; [done|].
  apply mapM_Some, Forall2_length in HC. fold instr0 in HC |- *. fold ct. generalize (named instr0), HC. clear HC.
  intros N HC. split; cbn [d_keys d_rows d_ctch d_open]; try done.
  - by rewrite take_app_length.
  - rewrite !length_app, length_fmap, HC. by destruct ct.
  - split; cbn [d_keys d_rows d_ctch d_open]; [|done]. rewrite length_app, length_fmap, HC. by destruct ct.
Qed.

Lemma open_tabled {A} : tabled [] 0 8 0 (mk_desk (A := A) true false [] []).
Proof. split; cbn; try done. lia. Qed.
