(* ===== verification/Book2bookSpec.v ===== *)
(** * book2book.c: finding the book of an instrument

    The state of the converter is consistent when its arrays have a cell per
    book and no address of the heap is handed out twice.  Looking up an
    instrument finds the first book with its hash, falls back to the catch-all,
    or makes a new, empty book next to the ones there are. *)

From Stdlib Require Import ZArith Lia.
From stdpp Require Import prelude list gmap fin_maps.
From stdpp Require Import options.
From S2P Require Import Prelude Decimal Dfp754D64 Hash Btree BtreeLeaf BtreeUsed BtreeIter.
From S2P Require Import BtreeSide BtreeOps BtreeMap BtreeTree Books BooksLoops BooksSpec.
From S2P Require Import BooksAdd Xquo Book2book Desks.

Local Open Scope Z_scope.

(** ** Growing heaps *)

Lemma leftmost_more (h h' : bheap) f p l :
  hmem h ⊆ hmem h' -> leftmost f h p = Some l -> ∀ f', (f <= f')%nat -> leftmost f' h' p = Some l.
Proof.
  intros Hsub. revert p. induction f as [|f IH]; intros p; cbn [leftmost]; [done|].
  intros Hl [|f'] Hf; [lia|]. cbn [leftmost].
  destruct (hget h p) as [t|] eqn:Ht; [|done].
  assert (hget h' p = Some t) as Ht' by (by eapply lookup_weaken).
  rewrite Ht'. revert Hl. bstep. destruct (innerp t); [|done].
  destruct (child t 0) as [c|]; bstep; [|done]. intros Hl. apply IH; [done|lia].
Qed.

Lemma side_more d (h h' : bheap) p C :
  hmem h ⊆ hmem h' -> side d used_leaf h p C -> side d used_leaf h' p C.
Proof.
  intros Hsub (Hd & l & Hl & Hc). split; [done|]. exists l. split.
  - eapply leftmost_more; [done..|]. unfold height_fuel.
    apply le_n_S. by apply map_subseteq_size.
  - clear Hl Hd. induction Hc; econstructor; eauto. by eapply lookup_weaken.
Qed.

Lemma book_at_more h h' b B : hmem h ⊆ hmem h' -> book_at h b B -> book_at h' b B.
Proof.
  intros Hsub (X & Hx & Hs). exists X. split; [done|]. intros d.
  destruct (Hs d) as (C & HC & HX & HB). exists C. split_and!; eauto using side_more.
Qed.

Lemma make_btree_more (h : bheap) d :
  heap_wf h -> heap_wf (make_btree h d).1 ∧ hmem h ⊆ hmem (make_btree h d).1.
Proof.
  intros Hf. cbn [make_btree fst]. split.
  - intros p t. unfold hget. cbn [hmem hnext].
    destruct (decide (p = hnext h)) as [->|Hne]; [lia|].
    rewrite lookup_insert_ne by done. intros Hp%Hf. lia.
  - cbn [hmem]. apply insert_subseteq. destruct (hmem h !! hnext h) as [t|] eqn:E; [|done].
    apply (Hf (hnext h) t) in E. lia.
Qed.

Lemma make_book_more (h : bheap) :
  heap_wf h ->
  ∃ h' b, make_book h = (h', b) ∧ heap_wf h' ∧ hmem h ⊆ hmem h' ∧ book_at h' b (λ _, []).
Proof.
  intros Hf. destruct (new_book_leaf h) as (h' & b & Hm & Hb). exists h', b.
  destruct (make_btree_more h false Hf) as [Hf1 Hs1].
  destruct (make_btree_more _ true Hf1) as [Hf2 Hs2].
  assert (h' = (make_btree (make_btree h false).1 true).1) as ->.
  { change h' with (h', b).1. by rewrite <- Hm. }
  split_and!; [done..|by etrans|].
  apply (book_leaf_at _ _ _ Hb). intros d. split; [simpl; lia|done].
Qed.

(** ** The table of books *)

Record b2b_wf (st : b2b_state) : Prop := {
  wf_conx : length (conx st) = (nbook st + nctch st)%nat;
  wf_books : length (books st) = (nbook st + nctch st)%nat;
  wf_ctch : nctch st = 0%nat ∨ zbook st = 0%nat;
  wf_room : zbook st = 0%nat ∨ (nbook st <= zbook st)%nat;
  wf_heap : heap_wf (heap_ st);
}.

(** The first of the [nbook] proper books that has hash [hx]. *)
Definition book_of (st : b2b_state) (hx : Z) : option nat :=
  find_key (take (nbook st) (conx st)) hx.

(** The scan of [conx] stops there, or behind the last book. *)
Lemma find_book_spec st hx :
  b2b_wf st -> find_book st hx = Some (default (nbook st) (book_of st hx)).
Proof. intros Hwf. pose proof (wf_conx _ Hwf) as Hc. apply scan_keys. lia. Qed.

Lemma book_of_lt st hx k : book_of st hx = Some k -> (k < nbook st)%nat.
Proof. intros Hk%find_key_lt. rewrite length_take in Hk. lia. Qed.

Section select.
Variable opts : b2b_opts.
#[local] Set Default Proof Using "Type*".

(** The index of a book that is there. *)
Lemma select_known st name hx k :
  b2b_wf st -> hash name = Some hx -> book_of st hx = Some k ->
  select_book opts st name = Some (st, Some k).
Proof.
  intros Hwf Hh Hk. unfold select_book. brun Hh. rewrite (find_book_spec st hx Hwf), Hk.
  apply book_of_lt in Hk. cbn [default id].
  rewrite (proj2 (Nat.ltb_lt 0 (nbook st))) by lia. cbn [orb andb]. bstep.
  by rewrite (proj2 (Nat.ltb_lt k _)) by done.
Qed.

(** In an open table a book is made in the cell behind the last one. *)
Lemma select_new st name hx h xb :
  b2b_wf st -> hash name = Some hx -> book_of st hx = None -> nctch st = 0%nat ->
  zbook st ≠ 0%nat -> make_xbook opts (heap_ st) = (h, xb) ->
  ∃ z, (S (nbook st) <= z)%nat ∧
    select_book opts st name =
    Some (mk_b2b h (conx st ++ [hx]) (books st ++ [xb]) (nbook st + 1) z (nctch st) (out st),
          Some (nbook st)).
Proof.
  intros Hwf Hh Hk Hn Hz Hm. unfold select_book. brun Hh. rewrite (find_book_spec st hx Hwf), Hk.
  destruct Hwf as [Hc Hb _ Hr Hf]. cbn [default id]. rewrite Hn. change (0 <? 0)%nat with false.
  rewrite (proj2 (Nat.ltb_lt 0 (zbook st))), orb_true_r by lia. bstep.
  rewrite Nat.ltb_irrefl. cbn [andb]. rewrite (proj2 (Nat.eqb_neq _ _)) by done. rewrite Hm.
  eexists. split; [|reflexivity]. destruct (Nat.leb_spec (zbook st) (nbook st)); lia.
Qed.

(** A book is made in the cell behind the last one. *)
Definition grown (st : b2b_state) (hx : Z) (st' : b2b_state) : Prop :=
  ∃ xb, conx st' = conx st ++ [hx] ∧ books st' = books st ++ [xb] ∧
        nbook st' = S (nbook st) ∧ nctch st' = nctch st ∧ out st' = out st ∧
        book_at (heap_ st') (xbk xb) (λ _, []) ∧
        ∀ b B, book_at (heap_ st) b B -> book_at (heap_ st') b B.

(** C36: [main] of book2book finds the book of an instrument, in any well-formed
    table (as many hashes and books as are counted, no more books than there is room;
    a catch-all only when instruments were named; the heap's next address is free):
    the first proper book with the instrument's hash, else the catch-all,
    else (when no instruments were named) a new empty book behind the others, whose making
    leaves every other book as it is and the table well-formed; lines for other
    instruments are skipped and the state stays as it is.  When nothing but catch-alls
    were named the index is read uninitialised. *)
Theorem select_book_correct st name :
  b2b_wf st ->
  ∃ hx, hash name = Some hx ∧
    match book_of st hx with
    | Some k => select_book opts st name = Some (st, Some k)
    | None =>
      if decide (0 < nctch st)%nat then
        select_book opts st name =
        (if decide (0 < nbook st)%nat then Some (st, Some (nbook st)) else None)
      else if decide (zbook st = 0)%nat then select_book opts st name = Some (st, None)
      else ∃ st', select_book opts st name = Some (st', Some (nbook st)) ∧
                  grown st hx st' ∧ b2b_wf st'
    end.
Proof.
  intros Hwf. destruct (hash_word name) as (hx & Hh & _). exists hx. split; [done|].
  destruct (book_of st hx) as [k|] eqn:Hk; [by eapply select_known|].
  destruct (decide (0 < nctch st)%nat) as [Hn|Hn].
  { destruct (wf_ctch _ Hwf) as [|Hz]; [lia|]. unfold select_book. brun Hh.
    rewrite (find_book_spec st hx Hwf), Hk, Hz. cbn [default id]. change (0 <? 0)%nat with false.
    rewrite (proj2 (Nat.ltb_lt 0 _) Hn). destruct (Nat.ltb_spec 0 (nbook st)); cbn [orb andb]; bstep.
    - by rewrite Nat.ltb_irrefl, decide_True.
    - by rewrite decide_False by lia. }
  destruct (decide (zbook st = 0%nat)) as [H0|H0].
  { unfold select_book. brun Hh. rewrite (find_book_spec st hx Hwf), Hk, H0. cbn [default id].
    change (0 <? 0)%nat with false. replace (nctch st) with 0%nat by lia.
    destruct (0 <? nbook st)%nat; cbn [orb andb]; bstep; [|done].
    by rewrite Nat.ltb_irrefl. }
  destruct (make_book_more (heap_ st) (wf_heap _ Hwf)) as (h' & b & Hm & Hf' & Hsub & Hnew).
  destruct (select_new st name hx h' (make_xbook opts (heap_ st)).2 Hwf Hh Hk) as (z & Hz & Hsel);
    [lia|done|unfold make_xbook; by rewrite Hm|].
  unfold make_xbook in Hsel. rewrite Hm in Hsel.
  eexists. split; [exact Hsel|]. destruct Hwf as [Hc Hb _ Hr Hf]. split.
  - eexists. cbn. split_and!; try done; [lia|by intros; eapply book_at_more].
  - split; cbn; rewrite ?length_app; cbn [length]; [lia..| |done]. lia.
Qed.
End select.

(** Two instruments in an open table: the first is found again, another makes
    a book of its own. *)
Definition demo_b2b : b2b_opts := mk_opts PRQ2 0 dzeroed.
Definition demo_table : b2b_state :=
  let '(h, xb) := make_xbook demo_b2b empty_heap in mk_b2b h [0x550D7456] [xb] 1 8 0 [].

Lemma demo_table_wf : b2b_wf demo_table.
Proof.
  split; try done; [by left|right; simpl; lia|].
  assert (heap_wf (empty_heap : bheap)) as Hf.
  { intros p t Ht. unfold hget in Ht. simpl in Ht. simplify_map_eq. }
  destruct (make_book_more _ Hf) as (h & b & [= <- _] & Hf' & _). exact Hf'.
Qed.

Lemma select_book_correct_witness :
  select_book demo_b2b demo_table [97] = Some (demo_table, Some 0%nat) ∧
  ∃ st', select_book demo_b2b demo_table [97; 98; 99] = Some (st', Some 1%nat) ∧ nbook st' = 2%nat.
Proof.
  split.
  - destruct (select_book_correct demo_b2b demo_table [97] demo_table_wf) as (hx & Hh & Hsel).
    rewrite hash_a in Hh. injection Hh as <-. exact Hsel.
  - destruct (select_book_correct demo_b2b demo_table [97; 98; 99] demo_table_wf) as (hx & Hh & Hsel).
    rewrite hash_abc in Hh. injection Hh as <-.
    destruct Hsel as (st' & Hsel & (xb & _ & _ & Hn & _) & _). exists st'. split; [exact Hsel|exact Hn].
Defined.
