(* ===== verification/Book2bookPrint.v ===== *)
(** * book2book.c: the printers

    What each of the eight output modes writes, as functions of the levels a book
    shows and of what was printed last: no heap, no iterators.  The printers
    compute them on any book that can be looked at. *)

From Stdlib Require Import ZArith Lia.
From stdpp Require Import prelude list gmap.
From stdpp Require Import options.
From S2P Require Import Prelude Decimal Dfp754D64 Btree BtreeLeaf BtreeIter BtreeSide BtreeCursor Books.
From S2P Require Import BooksLoops BooksSpec Xquo Book2book.

Local Open Scope Z_scope.

(** What was printed last: an [xbook_t] less its book. *)
Record last_t := mk_last {
  l_bids : list dec; l_asks : list dec; l_bszs : list dec; l_aszs : list dec;
  l_bid : dec; l_ask : dec; l_bsz : dec; l_asz : dec;
}.

Definition card (b : book_t) (l : last_t) : xbook_t :=
  mk_xbook b (l_bids l) (l_asks l) (l_bszs l) (l_aszs l) (l_bid l) (l_ask l) (l_bsz l) (l_asz l).

(** Lines, and what was printed last behind them. *)
Abbreviation printed := (option (list (list Z) * last_t)).

Section print.
Variable opts : b2b_opts.
Implicit Types (l : last_t) (B : sides) (q r : book_quo).

(** [-1]: the best levels when they are new. *)
Definition report1 l B : printed :=
  let b := top_of BOOK_SIDE_BID (B true) in
  let a := top_of BOOK_SIDE_ASK (B false) in
  if deq (qp b) (l_bid l) && deq (qq b) (l_bsz l) && deq (qp a) (l_ask l) && deq (qq a) (l_asz l)
  then Some ([], l)
  else
    x ← c1_line (dtrue (qq b)) (dtrue (qq a)) (qp b) (qp a) (qq b) (qq a);
    Some ([x], mk_last (l_bids l) (l_asks l) (l_bszs l) (l_aszs l) (qp b) (qp a) (qq b) (qq a)).

(** [-2] and [-3]: the quote itself, as a level or as a change. *)
Definition answer q r : option (list Z) :=
  match prq opts with
  | PRQ3 => level_line (qs q) 51 (qp q) (dsub (qq q) (qq r))
  | _ => level_line (qs q) 50 (qp q) (qq q)
  end.

(** [-N]: the best levels of both sides side by side. *)
Definition reportn l B : printed :=
  let b := tops_of (ntop opts) (B true) in
  let a := tops_of (ntop opts) (B false) in
  let bp := padded (ntop opts) b.*1 in
  let bq := padded (ntop opts) b.*2 in
  let ap := padded (ntop opts) a.*1 in
  let aq := padded (ntop opts) a.*2 in
  if same_bits bq (l_bszs l) && same_bits aq (l_aszs l) && same_bits bp (l_bids l) && same_bits ap (l_asks l)
  then Some ([], l)
  else
    ls ← cn_lines (nlevels (ntop opts) (length b) (length a)) 0 b a;
    Some (ls, mk_last bp ap bq aq (l_bid l) (l_ask l) (l_bsz l) (l_asz l)).

(** [-C]: consolidated prices; [top] consolidates a side. *)
Definition reportc (top : Z -> list level -> option book_quo) l B : printed :=
  b ← top BOOK_SIDE_BID (B true);
  a ← top BOOK_SIDE_ASK (B false);
  if deq (qp b) (l_bid l) && deq (qp a) (l_ask l) then Some ([], l)
  else
    x ← c1_line (dtrue (qq b)) (dtrue (qq a)) (qp b) (qp a) (qq b) (qq a);
    Some ([x], mk_last (l_bids l) (l_asks l) (l_bszs l) (l_aszs l) (qp b) (qp a) (l_bsz l) (l_asz l)).

Definition reportcn (tops : list level -> option (list (dec * dec))) l B : printed :=
  b ← tops (B true);
  a ← tops (B false);
  let bp := padded (ntop opts) b.*1 in
  let ap := padded (ntop opts) a.*1 in
  if same_bits bp (l_bids l) && same_bits ap (l_asks l) then Some ([], l)
  else
    ls ← cn_lines (nlevels (ntop opts) (length b) (length a)) 0 b a;
    Some (ls, mk_last bp ap (l_bszs l) (l_aszs l) (l_bid l) (l_ask l) (l_bsz l) (l_asz l)).

(** Quantities and amounts as limits. *)
Definition ctop64 (s : Z) : list level -> option book_quo := ctop_of px_cast64 quantized64 s (cqty opts).
Definition vtop64 (s : Z) : list level -> option book_quo := vtop_of px_cast64 quantized64 s (cqty opts).
Definition ctops64 (L : list level) : option (list (dec * dec)) :=
  ctops_of px_cast64 quantized64 (ntop opts) L None dzero dzero (cqty opts) (cqty opts).
Definition vtops64 (L : list level) : option (list (dec * dec)) :=
  vtops_of px_cast64 quantized64 (ntop opts) L None dzero dzero (cqty opts) (cqty opts).

(** What is printed behind quote [q], which replaced [r]. *)
Definition report q r l B : printed :=
  match prq opts with
  | PRQ1 => report1 l B
  | PRQ2 | PRQ3 => x ← answer q r; Some ([x], l)
  | PRQN => reportn l B
  | PRQC => reportc ctop64 l B
  | PRQCN => reportcn ctops64 l B
  | PRQV => reportc vtop64 l B
  | PRQVN => reportcn vtops64 l B
  end.

(** ** The printers compute it *)

Section shown.
#[local] Set Default Proof Using "Type*".
Context (ctz0 : nat) {V : bheap -> book_t -> sides -> Prop} `{HV : !Shown ctz0 V}.

(** A printer on the book [b], given what it should print. *)
Definition prints (run : option prq_out) (ref : printed) (b : book_t) (B : sides) : Prop :=
  match ref with
  | Some (ls, l) => ∃ h', run = Some (h', card b l, ls) ∧ V h' b B
  | None => run = None
  end.

Lemma bid_two_sided : two_sided BOOK_SIDE_BID.
Proof. by right. Qed.

Lemma ask_two_sided : two_sided BOOK_SIDE_ASK.
Proof. by left. Qed.

Hint Resolve bid_two_sided ask_two_sided : core.

Lemma prq1_prints h b l B : V h b B -> prints (prq1 ctz0 h (card b l)) (report1 l B) b B.
Proof.
  intros Hb. unfold prq1, report1, prints. cbn [xbk card].
  destruct (book_top_correct ctz0 h b B BOOK_SIDE_BID) as (h1 & H1 & Hb1); [done..|]. brun H1.
  destruct (book_top_correct ctz0 h1 b B BOOK_SIDE_ASK) as (h2 & H2 & Hb2); [done..|]. brun H2.
  change (dir BOOK_SIDE_BID) with true. change (dir BOOK_SIDE_ASK) with false.
  cbn [card xbid xask xbsz xasz xbids xasks xbszs xaszs].
  destruct (_ && deq (qq _) (l_asz l)); [by exists h2|].
  destruct (c1_line _ _ _ _ _ _); bstep; [|done]. by exists h2.
Qed.

Lemma prqn_prints h b l B : V h b B -> prints (prqn ctz0 opts h (card b l)) (reportn l B) b B.
Proof.
  intros Hb. unfold prqn, reportn, prints. cbn [xbk card].
  destruct (book_tops_run ctz0 h b B BOOK_SIDE_BID (ntop opts)) as (h1 & H1 & Hb1); [done..|]. brun H1.
  destruct (book_tops_run ctz0 h1 b B BOOK_SIDE_ASK (ntop opts)) as (h2 & H2 & Hb2); [done..|]. brun H2.
  change (dir BOOK_SIDE_BID) with true. change (dir BOOK_SIDE_ASK) with false.
  cbn [card xbid xask xbsz xasz xbids xasks xbszs xaszs].
  destruct (_ && same_bits _ (l_asks l)); [by exists h2|].
  destruct (cn_lines _ _ _ _); bstep; [|done]. by exists h2.
Qed.

Lemma prqc_prints run top h b l B :
  (∀ h s, two_sided s -> V h b B -> answers (V := V) (run h b s (cqty opts)) (top s (B (dir s))) b B) ->
  V h b B -> prints (prqc_with opts run h (card b l)) (reportc top l B) b B.
Proof.
  intros Hq Hb. unfold prqc_with, reportc, prints. cbn [xbk card].
  pose proof (Hq h BOOK_SIDE_BID bid_two_sided Hb) as H1. change (dir BOOK_SIDE_BID) with true in H1.
  destruct (top BOOK_SIDE_BID (B true)) as [x|]; bstep; [|by rewrite H1].
  destruct H1 as (h1 & H1 & Hb1). brun H1.
  pose proof (Hq h1 BOOK_SIDE_ASK ask_two_sided Hb1) as H2. change (dir BOOK_SIDE_ASK) with false in H2.
  destruct (top BOOK_SIDE_ASK (B false)) as [y|]; bstep; [|by rewrite H2].
  destruct H2 as (h2 & H2 & Hb2). brun H2. cbn [card xbid xask xbsz xasz xbids xasks xbszs xaszs].
  destruct (_ && deq _ (l_ask l)); [by exists h2|].
  destruct (c1_line _ _ _ _ _ _); bstep; [|done]. by exists h2.
Qed.

Lemma prqcn_prints run tops h b l B :
  (∀ h s, two_sided s -> V h b B ->
    answers (V := V) (run h b s (cqty opts) (ntop opts)) (tops (B (dir s))) b B) ->
  V h b B -> prints (prqcn_with opts run h (card b l)) (reportcn tops l B) b B.
Proof.
  intros Hq Hb. unfold prqcn_with, reportcn, prints. cbn [xbk card].
  pose proof (Hq h BOOK_SIDE_BID bid_two_sided Hb) as H1. change (dir BOOK_SIDE_BID) with true in H1.
  destruct (tops (B true)) as [x|]; bstep; [|by rewrite H1].
  destruct H1 as (h1 & H1 & Hb1). brun H1.
  pose proof (Hq h1 BOOK_SIDE_ASK ask_two_sided Hb1) as H2. change (dir BOOK_SIDE_ASK) with false in H2.
  destruct (tops (B false)) as [y|]; bstep; [|by rewrite H2].
  destruct H2 as (h2 & H2 & Hb2). brun H2. cbn [card xbid xask xbsz xasz xbids xasks xbszs xaszs].
  destruct (_ && same_bits _ (l_asks l)); [by exists h2|].
  destruct (cn_lines _ _ _ _); bstep; [|done]. by exists h2.
Qed.

Lemma run_prq_prints h b l B q r :
  V h b B -> prints (run_prq ctz0 opts h (card b l) q r) (report q r l B) b B.
Proof.
  intros Hb. unfold run_prq, report. destruct (prq opts) eqn:Hm.
  - by apply prq1_prints.
  - unfold prints, prq2, answer. rewrite Hm. destruct (level_line _ _ _ _); bstep; [|done]. by exists h.
  - unfold prints, prq3, answer. rewrite Hm. destruct (level_line _ _ _ _); bstep; [|done]. by exists h.
  - by apply prqn_prints.
  - apply prqc_prints; [|done]. intros h0 s Hs Hb0. exact (book_ctop_run ctz0 px_cast64 quantized64 h0 b B s (cqty opts) Hs Hb0).
  - apply prqcn_prints; [|done]. intros h0 s Hs Hb0. exact (book_ctops_run ctz0 px_cast64 quantized64 h0 b B s (cqty opts) (ntop opts) Hs Hb0).
  - apply prqc_prints; [|done]. intros h0 s Hs Hb0. exact (book_vtop_correct ctz0 px_cast64 quantized64 h0 b B s (cqty opts) Hs Hb0).
  - apply prqcn_prints; [|done]. intros h0 s Hs Hb0. exact (book_vtops_run ctz0 px_cast64 quantized64 h0 b B s (cqty opts) (ntop opts) Hs Hb0).
Qed.
End shown.
End print.
