(* ===== verification/Book2bookUnwind.v ===== *)
(** * book2book.c: unwinding a side

    Under [-2] and [-3] a top-of-book quote first takes the better levels off its
    side, and a clearing quote takes all levels off both, one at a time so that
    every step is printed.  The tool does it by setting levels to zero while it
    iterates over them.  [Unwinds] is what that needs of a book; sides that were
    never split grant it. *)

From Stdlib Require Import ZArith Lia.
From stdpp Require Import prelude list gmap.
From stdpp Require Import options.
From S2P Require Import Prelude Decimal Dfp754D64 Btree BtreeLeaf BtreeIter BtreeSide BtreeCursor Books.
From S2P Require Import BtreeStates BooksLoops BooksSpec BooksAny Xquo Book2book Book2bookPrint.

Local Open Scope Z_scope.

(** Lines behind a prefix. *)
Definition behind (prfx : list Z) (ls : list (list Z)) : list Z := concat (map (fun l => prfx ++ l) ls).

Lemma behind_app prfx ls ls' : behind prfx (ls ++ ls') = behind prfx ls ++ behind prfx ls'.
Proof. unfold behind. by rewrite map_app, concat_app. Qed.

(** A book of which the side in direction [d] can be unwound: the level that its
    iterator shows is where [btree_put] finds it. *)
Class Unwinds (ctz0 : nat) (V : bheap -> book_t -> sides -> Prop) (d : bool) : Prop :=
  un_open h b B :
    V h b B ->
    ∃ R F A, Cursor ctz0 R F ∧ A.*2 = B d ∧ NoDup A.*1 ∧ (length A < cells_fuel h)%nat ∧
      R h A (iter (root b d)) A ∧
      (∀ h' A' it L', F h h' -> R h' A' it L' -> V h' b (upd d A'.*2 B)) ∧
      (∀ h' A' it L' vp e, R h' A' it L' -> (vp, e) ∈ A' -> btree_put h' (root b d) e.1 = Some (h', vp)).

Section unwind.
Variable ctz0 : nat.
Variable opts : b2b_opts.
Hypothesis H23 : is_prq23 opts = true.
#[local] Set Default Proof Using "Type*".

(** What is printed for the levels from the top on that satisfy [cond], and the
    levels that are left. *)
Fixpoint unwound (s : Z) (cond : dec -> bool) (L : list level) : option (list (list Z) * list level) :=
  match L with
  | [] => Some ([], [])
  | e :: L' =>
    if cond e.1 then
      l ← answer opts (mk_quo s BOOK_LVL_2 e.1 dzero 0) (mk_quo s BOOK_LVL_2 e.1 (vq e.2) (vt e.2));
      '(ls, R) ← unwound s cond L';
      Some (l :: ls, R)
    else Some ([], L)
  end.

Lemma run_prq23 h xb q r :
  run_prq ctz0 opts h xb q r = l ← answer opts q r; Some (h, xb, [l]).
Proof. revert H23. unfold is_prq23, run_prq, answer. by destruct (prq opts). Qed.

(** Output, and a heap, that a state gains. *)
Definition gains (st : b2b_state) (h : bheap) (o : list Z) : b2b_state :=
  mk_b2b h (conx st) (books st) (nbook st) (zbook st) (nctch st) (out st ++ o).

(** A level is set to zero. *)
Lemma add_print_zero st prfx k b l s vp e h2 :
  books st !! k = Some (card b l) -> two_sided s ->
  btree_put (heap_ st) (root b (dir s)) e.1 = Some (heap_ st, vp) ->
  load (heap_ st) vp = Some e.2 -> poke vp (mk_val dzero 0) (heap_ st) = Some h2 ->
  add_print ctz0 opts st prfx k (mk_quo s BOOK_LVL_2 e.1 dzero 0) =
  (x ← answer opts (mk_quo s BOOK_LVL_2 e.1 dzero 0) (mk_quo s BOOK_LVL_2 e.1 (vq e.2) (vt e.2));
   Some (gains st h2 (prfx ++ x))).
Proof.
  intros Hk Hs Hput Hload Hpoke. unfold add_print. brun Hk. cbn [xbk card].
  assert (book_add ctz0 (heap_ st) b (mk_quo s BOOK_LVL_2 e.1 dzero 0) =
          Some (h2, mk_quo s BOOK_LVL_2 e.1 (vq e.2) (vt e.2))) as Hadd.
  { unfold book_add. cbn [qs qf qp]. assert ((s =? BOOK_SIDE_BID) || (s =? BOOK_SIDE_ASK) = true) as ->
      by by destruct Hs as [-> | ->].
    rewrite (BOOK_root b s Hs). bstep. cbn [Z.eqb BOOK_LVL_2 BOOK_LVL_3 Pos.eqb]. brun Hput.
    unfold swap_cell. brun Hload. cbn [qs qf qp qq qt]. by brun Hpoke. }
  brun Hadd. rewrite run_prq23. destruct (answer _ _ _) as [x|]; bstep; [|done].
  unfold set_heap_book. rewrite store_lt by (by eapply lookup_lt_Some). bstep.
  rewrite list_insert_id by done. unfold gains. simpl. by rewrite app_nil_r.
Qed.

Lemma NoDup_without (A L : list (vptr * level)) x : NoDup (A ++ x :: L).*1 -> NoDup (A ++ L).*1.
Proof.
  intros Hd. eapply sublist_NoDup; [exact Hd|]. apply fmap_sublist, sublist_app; [done|]. by constructor.
Qed.

Lemma unwind_loop_run {R F} `{HC : !Cursor ctz0 R F} b l k prfx s cond :
  two_sided s ->
  (∀ h' A' it L' vp e, R h' A' it L' -> (vp, e) ∈ A' -> btree_put h' (root b (dir s)) e.1 = Some (h', vp)) ->
  ∀ fuel st A it L, R (heap_ st) (A ++ L) it L -> NoDup (A ++ L).*1 -> (length L < fuel)%nat ->
  books st !! k = Some (card b l) ->
  match unwound s cond L.*2 with
  | Some (ls, rest) => ∃ h' A' it' L',
      unwind_loop ctz0 opts fuel st prfx k s cond it = Some (gains st h' (behind prfx ls)) ∧
      F (heap_ st) h' ∧ R h' A' it' L' ∧ A'.*2 = A.*2 ++ rest
  | None => unwind_loop ctz0 opts fuel st prfx k s cond it = None
  end.
Proof.
  intros Hs Hput fuel. induction fuel as [|fuel IH]; intros st A it L HR Hd Hf Hk; [lia|].
  cbn [unwind_loop]. unfold book_iter_next. destruct L as [|[vp e] L]; cbn [fmap list_fmap snd unwound].
  - destruct (cur_end (ctz0 := ctz0) _ _ _ HR) as (h' & it' & Hstep & HF & HR'). brun Hstep.
    exists h', (A ++ []), it', []. split_and!; [unfold gains; by rewrite app_nil_r|done..|by rewrite fmap_app].
  - destruct (cur_next (ctz0 := ctz0) _ _ _ _ _ _ HR)
      as (h' & it' & Hstep & Hv & Hit & Hload & Hlive & HF & HR' & Hpoke).
    brun Hstep. brun Hv. brun Hload. rewrite Hit. destruct (cond e.1).
    2: { exists h', (A ++ (vp, e) :: L), it', L.
         split_and!; [unfold gains; by rewrite app_nil_r|done..|by rewrite fmap_app]. }
    set (st1 := mk_b2b h' _ _ _ _ _ _).
    assert ((vp, e) ∈ A ++ (vp, e) :: L) as Hin by (apply elem_of_app; right; left).
    destruct (Hpoke (mk_val dzero 0)) as (h2 & Hp2 & HF2 & HR2).
    rewrite (add_print_zero st1 prfx k b l s vp e h2 Hk Hs (Hput _ _ _ _ _ _ HR' Hin) Hload Hp2).
    destruct (answer opts _ _) as [x|]; bstep; [|done].
    rewrite revalue_split in HR2 by done. simpl in HR2. simpl in Hf.
    specialize (IH (gains st1 h2 (prfx ++ x)) A it' L HR2 (NoDup_without _ _ _ Hd) ltac:(lia) Hk).
    destruct (unwound s cond L.*2) as [[ls rest]|]; bstep; [|exact IH].
    destruct IH as (h3 & A3 & it3 & L3 & Hrun & HF3 & HR3 & HA3).
    exists h3, A3, it3, L3. split_and!; [|exact (transitivity HF (transitivity HF2 HF3))|done|done].
    rewrite Hrun. unfold gains. cbn. by rewrite <- !app_assoc.
Qed.

(** A side is unwound: the lines, and the levels that are left are shown. *)
Lemma unwind_run {V} d `{HU : !Unwinds ctz0 V d} st k prfx s cond b l B :
  two_sided s -> dir s = d -> books st !! k = Some (card b l) -> V (heap_ st) b B ->
  match unwound s cond (B d) with
  | Some (ls, rest) => ∃ h', unwind ctz0 opts st prfx k s cond = Some (gains st h' (behind prfx ls)) ∧
                             V h' b (upd d rest B)
  | None => unwind ctz0 opts st prfx k s cond = None
  end.
Proof.
  intros Hs <- Hk Hb. destruct (un_open (heap_ st) b B Hb) as (R & F & A & HC & HA & Hd & Hf & Ho & Hback & Hput).
  unfold unwind, book_iter. brun Hk. cbn [xbk card]. rewrite (BOOK_root b s Hs). bstep.
  pose proof (unwind_loop_run b l k prfx s cond Hs Hput (cells_fuel (heap_ st)) st [] _ A Ho Hd Hf Hk) as Hrun.
  rewrite HA in Hrun. destruct (unwound _ _ _) as [[ls rest]|]; [|done].
  destruct Hrun as (h' & A' & it' & L' & Hrun & HF & HR & HA'). exists h'. split; [done|].
  simpl in HA'. rewrite <- HA'. by eapply Hback.
Qed.
End unwind.
