(* ===== verification/Book2bookRun.v ===== *)
(** * book2book.c: whole runs

    The converter implements a machine on the table of instruments ([desk]), with the
    levels each book stores and shows and what was printed of it last: each quote is
    a step of its book, and is answered by the lines the output mode makes of it.
    [conv] is that machine over the lines of the input; it stops where an output line
    does not fit its buffer.  Any [--instr] arguments, all output modes and all quotes
    are covered, up to the first time that [-2] or [-3] unwinds a side that may have
    been split: from there on nothing is claimed ([lost]). *)

From Stdlib Require Import ZArith Lia.
From stdpp Require Import prelude list gmap fin_maps.
From stdpp Require Import options.
From S2P Require Import Prelude Decimal Dfp754D64 Hash Btree BtreeLeaf BtreeUsed BtreeIter.
From S2P Require Import BtreeSide BtreeCursor BtreeOps BtreeMap BtreeTree BtreeKids BtreeGrow BtreeSplit BtreePut.
From S2P Require Import BtreeGrown BtreeLively BtreeStates BtreeStateOps.
From S2P Require Import Books BooksLoops BooksSpec BooksAdd BooksGrown BooksAny BooksHistory BooksStock.
From S2P Require Import Xquo XquoSpec Book2book Desks Book2bookSpec Book2bookPrint Book2bookUnwind.

Local Open Scope Z_scope.

(** ** The machine *)

(** What a line of the input says. *)
Inductive input :=
  | In_skip
  | In_quote (hx : Z) (prfx : list Z) (q : book_quo).

(** A quote of the instrument with hash [hx]; [prfx] is the line up to the
    side column. *)
Definition reads (addr : Z) (line : list Z) (i : input) : Prop :=
  ∃ x, read_xquo addr line (length line) = Some x ∧
  match i with
  | In_skip => NOT_A_XQUO_P x = true
  | In_quote hx prfx q =>
    NOT_A_XQUO_P x = false ∧ xq x = q ∧ hash (take (inz x) (drop (ins x) line)) = Some hx ∧
    prfx = take (ins x + inz x + (if (inz x =? 0)%nat then 0 else 1)) line
  end.

Section run.
Variable ctz0 : nat.
Variable opts : b2b_opts.

(** Quotes that change one level are handled by the tree alone. *)
Definition level_input (i : input) : Prop :=
  match i with In_skip => True | In_quote _ _ q => level_quote q end.

Definition priced_input (i : input) : Prop :=
  match i with In_skip => True | In_quote _ _ q => priced q end.

(** What there is of an instrument: the levels stored and shown, and what was
    printed last. *)
Record acct := mk_acct { a_book : abook; a_last : last_t }.

Definition fresh_last : last_t :=
  let z := if (1 <? ntop opts)%nat then replicate (ntop opts) dzeroed else [] in
  mk_last z z z z dzeroed dzeroed dzeroed dzeroed.

Definition fresh_acct : acct := mk_acct empty_abook fresh_last.

(** A quote's better levels. *)
Definition better (q : book_quo) (p : dec) : bool :=
  (qs q =? BOOK_SIDE_BID) && dgt p (qp q) || (qs q =? BOOK_SIDE_ASK) && dlt p (qp q).

(** [-2] and [-3] take levels off one by one before such a quote, or in its
    place. *)
Definition unwinds_top (q : book_quo) : Prop := is_prq23 opts = true ∧ qf q = BOOK_LVL_1.
Definition unwinds_clr (q : book_quo) : Prop :=
  is_prq23 opts = true ∧ qf q ≠ BOOK_LVL_1 ∧ qs q = BOOK_SIDE_CLR.

(** A side that may have been split is to be unwound. *)
Definition lost (q : book_quo) (A : abook) : Prop :=
  unwinds_top q ∧ two_sided (qs q) ∧ ab_split A (dir (qs q)) = true ∨
  unwinds_clr q ∧ ∃ d, ab_split A d = true.

(** What is left of a side. *)
Definition left_of (A : abook) (d : bool) (L : list level) : abook := shown_as A (upd d L (ab_sides A)).

(** A quote for a row: the row afterwards and the lines; [None] when one overruns,
    or when a side that is none is unwound. *)
Inductive served (q : book_quo) (a : acct) : option (acct * list (list Z)) -> Prop :=
  | served_plain r B :
    ¬ unwinds_top q -> ¬ unwinds_clr q -> big_step q (a_book a) r B -> shows B ->
    served q a ((λ x, (mk_acct B x.2, x.1)) <$> report opts q r (a_last a) (ab_sides B))
  | served_top ls L r B :
    unwinds_top q -> two_sided (qs q) -> ab_split (a_book a) (dir (qs q)) = false ->
    unwound opts (qs q) (better q) (ab_sides (a_book a) (dir (qs q))) = Some (ls, L) ->
    big_step q (left_of (a_book a) (dir (qs q)) L) r B -> shows B ->
    served q a ((λ x, (mk_acct B x.2, ls ++ x.1)) <$> report opts q r (a_last a) (ab_sides B))
  | served_top_overrun :
    unwinds_top q -> two_sided (qs q) -> ab_split (a_book a) (dir (qs q)) = false ->
    unwound opts (qs q) (better q) (ab_sides (a_book a) (dir (qs q))) = None -> served q a None
  | served_astray : unwinds_top q -> ¬ two_sided (qs q) -> served q a None
  | served_clr :
    unwinds_clr q -> (∀ d, ab_split (a_book a) d = false) ->
    served q a ('(ls, L) ← unwound opts BOOK_SIDE_BID (λ _, true) (ab_sides (a_book a) true);
                '(ls', L') ← unwound opts BOOK_SIDE_ASK (λ _, true) (ab_sides (a_book a) false);
                Some (mk_acct (left_of (left_of (a_book a) true L) false L') (a_last a), ls ++ ls')).

(** The output; [None] when a line overruns, or when the index of a row is read
    that was never assigned.  A side [lost] may lead anywhere. *)
Inductive conv (d : desk acct) : list input -> option (list Z) -> Prop :=
  | conv_end : conv d [] (Some [])
  | conv_skip ins o : conv d ins o -> conv d (In_skip :: ins) o
  | conv_nowhere hx prfx q ins o :
    opens fresh_acct d hx = Some None -> conv d ins o -> conv d (In_quote hx prfx q :: ins) o
  | conv_undefined hx prfx q ins :
    opens fresh_acct d hx = None -> conv d (In_quote hx prfx q :: ins) None
  | conv_quote hx prfx q ins d' k a a' ls o :
    opens fresh_acct d hx = Some (Some (d', k)) -> d_rows d' !! k = Some a ->
    served q a (Some (a', ls)) -> conv (with_rows d' (<[k := a']> (d_rows d'))) ins o ->
    conv d (In_quote hx prfx q :: ins) ((λ x, behind prfx ls ++ x) <$> o)
  | conv_overrun hx prfx q ins d' k a :
    opens fresh_acct d hx = Some (Some (d', k)) -> d_rows d' !! k = Some a ->
    served q a None -> conv d (In_quote hx prfx q :: ins) None
  | conv_lost hx prfx q ins d' k a o :
    opens fresh_acct d hx = Some (Some (d', k)) -> d_rows d' !! k = Some a ->
    lost q (a_book a) -> conv d (In_quote hx prfx q :: ins) o.

(** ** The state and the table it stands for *)

Abbreviation row := (stock * last_t)%type.

Definition row_book (x : row) : xbook_t := card (k_book x.1) x.2.
Definition row_acct (x : row) : acct := mk_acct (k_abs x.1) x.2.

Record serves (st : b2b_state) (d : desk acct) (T : list row) : Prop := {
  sv_table : stocked (heap_ st) T.*1;
  sv_books : books st = row_book <$> T;
  sv_rows : d_rows d = row_acct <$> T;
  sv_tabled : tabled (conx st) (nbook st) (zbook st) (nctch st) d;
}.

(** ** A line *)

(** Iterators need [__builtin_ctzll(0)] to be 63 or more. *)
Definition looks : Prop := (63 <= ctz0)%nat ∨ is_prq23 opts = true.

Definition fit (q : book_quo) : Prop :=
  (63 <= ctz0)%nat ∧ priced q ∨ is_prq23 opts = true ∧ level_quote q.

Lemma fit_looks q : fit q -> looks.
Proof. intros [[H _]|[H _]]; [by left|by right]. Qed.

Lemma level_no_unwind q : level_quote q -> ¬ unwinds_top q ∧ ¬ unwinds_clr q.
Proof.
  intros (H1 & H2 & _). split; [intros [_ H]|intros (_ & _ & H)].
  - rewrite H in H2. by destruct H2.
  - rewrite H in H1. by destruct H1.
Qed.

Lemma add_stock h L s R q :
  stocked h (L ++ s :: R) -> fit q ->
  ∃ h' r B W, book_add ctz0 h (k_book s) q = Some (h', r) ∧
    stocked h' (L ++ mk_stock (k_book s) B W :: R) ∧ big_step q (k_abs s) r B ∧ shows B.
Proof.
  intros HT [[Hctz Hq]|[_ Hq]]; [by apply stock_add|]. pose proof HT as (Hs & _ & _)%stocked_middle.
  destruct (add_level_any ctz0 h _ _ _ q Hs Hq) as (h' & r & B & W & Hrun & Hs' & Hm & Hst).
  exists h', r, B, W. split_and!; [done|by eapply stocked_upd|done|by eapply book_shows].
Qed.

Lemma print_stock h L s R q r l :
  stocked h (L ++ s :: R) -> looks ->
  match report opts q r l (k_shown s) with
  | Some (ls, l') =>
    ∃ h', run_prq ctz0 opts h (card (k_book s) l) q r = Some (h', card (k_book s) l', ls) ∧
          stocked h' (L ++ s :: R)
  | None => run_prq ctz0 opts h (card (k_book s) l) q r = None
  end.
Proof.
  intros HT [Hctz|H23].
  - pose proof (stock_shown ctz0 Hctz h L s R HT) as HV.
    pose proof (run_prq_prints opts ctz0 h (k_book s) l (k_shown s) q r (stock_open h L s R HT)) as Hp.
    unfold prints in Hp. destruct (report _ _ _ _ _) as [[ls l']|]; [|done].
    destruct Hp as (h' & Hrun & HV'). exists h'. split; [done|]. by eapply stock_close.
  - unfold is_prq23, run_prq, report, prq2, prq3, answer in *.
    destruct (prq opts); try done; destruct (level_line _ _ _ _); bstep; [|done| |done]; by exists h.
Qed.

(** The state with the heap, the books and the output of a printer. *)
Definition with_row (st : b2b_state) (h : bheap) (T : list row) (o : list Z) : b2b_state :=
  mk_b2b h (conx st) (row_book <$> T) (nbook st) (zbook st) (nctch st) (out st ++ o).

Lemma serves_row st d L x R h y o :
  serves st d (L ++ x :: R) -> stocked h (L ++ y :: R).*1 ->
  serves (with_row st h (L ++ y :: R) o) (with_rows d (<[length L := row_acct y]> (d_rows d))) (L ++ y :: R).
Proof.
  intros [HT HB HR Ht] Hs. split; cbn; [done|done| |].
  - rewrite HR, !fmap_app, !fmap_cons, insert_app_r_alt by (by rewrite length_fmap).
    by rewrite length_fmap, Nat.sub_diag.
  - apply tabled_rows; [done|]. by rewrite length_insert.
Qed.

(** The row [k] set apart. *)
Lemma row_split st d T k a :
  serves st d T -> d_rows d !! k = Some a ->
  ∃ L s R, T = L ++ (s, a_last a) :: R ∧ length L = k ∧ k_abs s = a_book a ∧
    stocked (heap_ st) (L.*1 ++ s :: R.*1) ∧ books st !! k = Some (card (k_book s) (a_last a)).
Proof.
  intros [HT HB HR _] Hk. rewrite HR in Hk. apply list_lookup_fmap_Some in Hk as ([s l] & -> & Hk).
  pose proof (lookup_lt_Some _ _ _ Hk) as Hlt. exists (take k T), s, (drop (S k) T).
  cbn [a_book a_last row_acct fst snd]. rewrite take_drop_middle, length_take by done.
  split_and!; [done|lia|done| |by rewrite HB, list_lookup_fmap, Hk].
  rewrite <- (take_drop_middle T k _ Hk), fmap_app, fmap_cons in HT. exact HT.
Qed.

Lemma add_print_run st d T k a prfx q :
  serves st d T -> fit q -> d_rows d !! k = Some a ->
  ∃ r B, big_step q (a_book a) r B ∧ shows B ∧
    match report opts q r (a_last a) (ab_sides B) with
    | Some (ls, l) => ∃ st' T', add_print ctz0 opts st prfx k q = Some st' ∧
        serves st' (with_rows d (<[k := mk_acct B l]> (d_rows d))) T' ∧ out st' = out st ++ behind prfx ls
    | None => add_print ctz0 opts st prfx k q = None
    end.
Proof.
  intros Hsv Hq Hk. destruct (row_split st d T k a Hsv Hk) as (L & s & R & -> & <- & Ha & HT & Hb).
  destruct (add_stock _ _ _ _ q HT Hq) as (h1 & r & B & W & Hadd & HT1 & Hst & Hsh). rewrite Ha in Hst.
  exists r, B. split_and!; [done..|].
  pose proof (print_stock h1 _ _ _ q r (a_last a) HT1 (fit_looks q Hq)) as Hp. cbn [k_book k_abs] in Hp.
  unfold add_print. brun Hb. change (xbk (card (k_book s) (a_last a))) with (k_book s). brun Hadd.
  destruct (report opts q r (a_last a) (ab_sides B)) as [[ls l']|]; [|by rewrite Hp].
  destruct Hp as (h2 & Hrun & HT2). brun Hrun. unfold set_heap_book.
  rewrite store_lt by (by eapply lookup_lt_Some). bstep.
  set (y := (mk_stock (k_book s) B W, l') : row).
  exists (with_row st h2 (L ++ y :: R) (behind prfx ls)), (L ++ y :: R). split; [|split; [|done]].
  - unfold with_row. do 2 f_equal. rewrite (sv_books _ _ _ Hsv), !fmap_app, !fmap_cons.
    rewrite insert_app_r_alt by (by rewrite length_fmap). by rewrite length_fmap, Nat.sub_diag.
  - apply (serves_row _ _ _ (s, a_last a) _ _ y); [done|]. by rewrite fmap_app, fmap_cons.
Qed.

Lemma stock_unwinds h L s R d :
  (63 <= ctz0)%nat -> stocked h (L ++ s :: R) -> ab_split (k_abs s) d = false -> Unwinds ctz0 (stock_view L s R) d.
Proof.
  intros Hctz (_ & _ & Hd)%stocked_middle Hg h0 b B Hb.
  destruct (book_hidden_open ctz0 _ _ _ h0 b B d Hctz (λ h1 h2 HT Ha, around_stable _ _ h1 h2 Hd HT Ha) Hb)
    as (Rl & F & A & HC & HA & Hnd & Hf & Ho & Hback & Hput).
  exists Rl, F, A. split_and!; [done..|]. by apply Hput.
Qed.

(** A side of a row is unwound. *)
Lemma unwind_row st d T k a prfx s cond :
  (63 <= ctz0)%nat -> is_prq23 opts = true -> serves st d T -> d_rows d !! k = Some a -> two_sided s ->
  ab_split (a_book a) (dir s) = false ->
  match unwound opts s cond (ab_sides (a_book a) (dir s)) with
  | Some (ls, L) => ∃ st' T', unwind ctz0 opts st prfx k s cond = Some st' ∧
      serves st' (with_rows d (<[k := mk_acct (left_of (a_book a) (dir s) L) (a_last a)]> (d_rows d))) T' ∧
      out st' = out st ++ behind prfx ls
  | None => unwind ctz0 opts st prfx k s cond = None
  end.
Proof.
  intros Hctz H23 Hsv Hk Hs Hg. destruct (row_split st d T k a Hsv Hk) as (L & x & R & -> & <- & Ha & HT & Hb).
  rewrite <- Ha in *. pose proof (stock_unwinds _ _ _ _ (dir s) Hctz HT Hg) as HU.
  pose proof (unwind_run ctz0 opts H23 (dir s) st (length L) prfx s cond _ _ _ Hs eq_refl Hb (stock_open _ _ _ _ HT)) as Hrun.
  destruct (unwound _ _ _ _) as [[ls V]|]; [|exact Hrun]. destruct Hrun as (h & Hrun & HV).
  pose proof (stock_changed _ _ _ _ _ _ HT HV) as HT2.
  set (y := (mk_stock (k_book x) (left_of (k_abs x) (dir s) V) (k_nodes x), a_last a) : row).
  exists (gains st h (behind prfx ls)), (L ++ y :: R). split_and!; [exact Hrun| |done].
  assert (gains st h (behind prfx ls) = with_row st h (L ++ y :: R) (behind prfx ls)) as ->.
  { unfold gains, with_row. f_equal. rewrite (sv_books _ _ _ Hsv). by rewrite !fmap_app, !fmap_cons. }
  apply (serves_row _ _ _ (x, a_last a) _ _ y); [done|]. by rewrite fmap_app, fmap_cons.
Qed.

Lemma rows_again (d : desk acct) k x y :
  with_rows (with_rows d (<[k := x]> (d_rows d))) (<[k := y]> (d_rows (with_rows d (<[k := x]> (d_rows d))))) =
  with_rows d (<[k := y]> (d_rows d)).
Proof. unfold with_rows. cbn. by rewrite list_insert_insert_eq. Qed.

Lemma row_there (d : desk acct) k a x :
  d_rows d !! k = Some a -> d_rows (with_rows d (<[k := x]> (d_rows d))) !! k = Some x.
Proof. intros Hk%lookup_lt_Some. cbn. by apply list_lookup_insert_eq. Qed.

(** What a quote for a row comes to. *)
Definition comes_to st d k prfx (run : option b2b_state) (x : option (acct * list (list Z))) : Prop :=
  match x with
  | Some (a', ls) => ∃ st' T', run = Some st' ∧
      serves st' (with_rows d (<[k := a']> (d_rows d))) T' ∧ out st' = out st ++ behind prfx ls
  | None => run = None
  end.

Lemma top_run st d T k a prfx q :
  (63 <= ctz0)%nat -> serves st d T -> priced q -> unwinds_top q -> d_rows d !! k = Some a ->
  lost q (a_book a) ∨
  ∃ x, served q a x ∧
    comes_to st d k prfx (st ← unwind ctz0 opts st prfx k (qs q) (better q); add_print ctz0 opts st prfx k q) x.
Proof.
  intros Hctz Hsv Hq Htop Hk. pose proof Htop as [H23 _].
  assert (two_sided (qs q) ∨ ¬ two_sided (qs q)) as [Hs|Hs] by (unfold two_sided; lia).
  2: { right. exists None. split; [by apply served_astray|]. cbn.
       destruct (row_split st d T k a Hsv Hk) as (L & s & R & _ & _ & _ & _ & Hb).
       unfold unwind, book_iter, BOOK. brun Hb. unfold two_sided in Hs.
       destruct (Z.eqb_spec (qs q) BOOK_SIDE_ASK); [tauto|]. by destruct (Z.eqb_spec (qs q) BOOK_SIDE_BID); [tauto|]. }
  destruct (ab_split (a_book a) (dir (qs q))) eqn:Hg; [left; by left|right].
  pose proof (unwind_row st d T k a prfx (qs q) (better q) Hctz H23 Hsv Hk Hs Hg) as Hun.
  destruct (unwound opts (qs q) (better q) _) as [[ls L]|] eqn:HL.
  2: { exists None. split; [by apply served_top_overrun|]. cbn. by rewrite Hun. }
  destruct Hun as (st1 & T1 & Hrun & Hsv1 & Hout1).
  destruct (add_print_run st1 _ T1 k _ prfx q Hsv1 (or_introl (conj Hctz Hq)) (row_there _ _ _ _ Hk))
    as (r & B & Hst & Hsh & Hadd). cbn [a_book a_last] in *.
  eexists. split; [by eapply served_top|]. brun Hrun.
  destruct (report opts q r (a_last a) (ab_sides B)) as [[ls' l']|]; [|exact Hadd].
  destruct Hadd as (st2 & T2 & Hrun2 & Hsv2 & Hout2). exists st2, T2. rewrite rows_again in Hsv2.
  split_and!; [done..|]. cbn. by rewrite Hout2, Hout1, behind_app, <- app_assoc.
Qed.

Lemma clr_run st d T k a prfx q :
  (63 <= ctz0)%nat -> serves st d T -> unwinds_clr q -> d_rows d !! k = Some a ->
  lost q (a_book a) ∨
  ∃ x, served q a x ∧
    comes_to st d k prfx (st ← unwind ctz0 opts st prfx k BOOK_SIDE_BID (λ _, true);
                          unwind ctz0 opts st prfx k BOOK_SIDE_ASK (λ _, true)) x.
Proof.
  intros Hctz Hsv Hclr Hk. pose proof Hclr as [H23 _].
  destruct (ab_split (a_book a) true) eqn:Hg1; [left; right; eauto|].
  destruct (ab_split (a_book a) false) eqn:Hg2; [left; right; eauto|right].
  assert (∀ d, ab_split (a_book a) d = false) as Hg by by intros [].
  eexists. split; [by apply served_clr|].
  pose proof (unwind_row st d T k a prfx BOOK_SIDE_BID (λ _, true) Hctz H23 Hsv Hk (or_intror eq_refl) Hg1) as H1.
  change (dir BOOK_SIDE_BID) with true in H1.
  destruct (unwound opts BOOK_SIDE_BID _ _) as [[ls L]|]; bstep; [|by rewrite H1].
  destruct H1 as (st1 & T1 & Hrun1 & Hsv1 & Hout1). brun Hrun1.
  pose proof (unwind_row st1 _ T1 k _ prfx BOOK_SIDE_ASK (λ _, true) Hctz H23 Hsv1 (row_there _ _ _ _ Hk)
                (or_introl eq_refl) Hg2) as H2.
  change (dir BOOK_SIDE_ASK) with false in H2. cbn [a_book a_last] in H2.
  change (ab_sides (left_of (a_book a) true L) false) with (ab_sides (a_book a) false) in H2.
  destruct (unwound opts BOOK_SIDE_ASK _ _) as [[ls' L']|]; bstep; [|exact H2].
  destruct H2 as (st2 & T2 & Hrun2 & Hsv2 & Hout2). rewrite rows_again in Hsv2.
  exists st2, T2. split_and!; [done..|]. by rewrite Hout2, Hout1, behind_app, <- app_assoc.
Qed.

Lemma process_run st d T k a prfx q :
  serves st d T -> fit q -> d_rows d !! k = Some a ->
  lost q (a_book a) ∨ ∃ x, served q a x ∧ comes_to st d k prfx (process ctz0 opts st prfx k q) x.
Proof.
  intros Hsv Hq Hk. unfold process. fold (better q).
  destruct ((qf q =? BOOK_LVL_1) && is_prq23 opts) eqn:Htop.
  { apply andb_prop in Htop as [Hf%Z.eqb_eq H23]. assert (unwinds_top q) as Hu by done.
    destruct Hq as [[Hctz Hq]|[_ Hq]]; [by eapply top_run|]. by apply level_no_unwind in Hq as [? _]. }
  assert (¬ unwinds_top q) as Hnt.
  { intros [H1 H2]. by rewrite H1, H2 in Htop. }
  destruct ((qs q =? BOOK_SIDE_CLR) && is_prq23 opts) eqn:Hclr.
  { apply andb_prop in Hclr as [Hf%Z.eqb_eq H23].
    assert (unwinds_clr q) as Hu by (split_and!; [done| |done]; intros Hx; by apply Hnt).
    destruct Hq as [[Hctz Hq]|[_ Hq]]; [by eapply clr_run|]. by apply level_no_unwind in Hq as [_ ?]. }
  assert (¬ unwinds_clr q) as Hnc.
  { intros (H1 & _ & H2). by rewrite H1, H2 in Hclr. }
  right. destruct (add_print_run st d T k a prfx q Hsv Hq Hk) as (r & B & Hst & Hsh & Hrun).
  eexists. split; [by eapply served_plain|].
  destruct (report opts q r (a_last a) (ab_sides B)) as [[ls l]|]; exact Hrun.
Qed.

(** Looking up an instrument: afterwards its row is there. *)
Lemma select_choice st name hx :
  hash name = Some hx ->
  select_book opts st name =
  (r ← choice (conx st) (nbook st) (zbook st) (nctch st) hx;
   match r with
   | None => Some (st, None)
   | Some (k, false) => Some (st, Some k)
   | Some (k, true) =>
     let '(h, b) := make_book (heap_ st) in
     Some (mk_b2b h (conx st ++ [hx]) (books st ++ [card b fresh_last]) (nbook st + 1)
             (grown_room (nbook st) (zbook st)) (nctch st) (out st), Some k)
   end).
Proof.
  intros Hh. unfold select_book, choice, grown_room, make_xbook. brun Hh. fold (find_book st hx).
  destruct ((0 <? nbook st)%nat || _); cbn [andb].
  - destruct (find_book st hx) as [k|]; bstep; [|done]. destruct (k <? nbook st)%nat; [done|].
    destruct (0 <? nctch st)%nat; [done|]. destruct (zbook st =? 0)%nat; [done|]. bstep. by destruct (make_book _).
  - bstep. destruct (0 <? nctch st)%nat; [done|]. destruct (zbook st =? 0)%nat; [done|]. bstep. by destruct (make_book _).
Qed.

Lemma select_run st d T name hx :
  serves st d T -> hash name = Some hx ->
  match opens fresh_acct d hx with
  | None => select_book opts st name = None
  | Some None => select_book opts st name = Some (st, None)
  | Some (Some (d', k)) => ∃ st' T', select_book opts st name = Some (st', Some k) ∧ serves st' d' T' ∧ out st' = out st
  end.
Proof.
  intros Hs Hh. rewrite (select_choice st name hx Hh).
  pose proof (choice_opens fresh_acct _ _ _ _ _ hx (sv_tabled _ _ _ Hs)) as Hc.
  destruct (opens fresh_acct d hx) as [[[d' k]|]|]; [|by rewrite Hc..].
  destruct Hc as [[-> ->]|(-> & _ & Hr & Ht)]; bstep; [by exists st, T|].
  destruct (make_book (heap_ st)) as [h b] eqn:Hm. destruct Hs as [HT Hb Hrw _].
  eexists _, (T ++ [(new_stock b, fresh_last)]). split; [done|]. split; [|done].
  split; cbn; rewrite ?fmap_app; cbn; [by eapply stocked_make|by rewrite Hb| |done]. by rewrite Hr, Hrw.
Qed.

Lemma line_run addr st d T line hx prfx q :
  serves st d T -> reads addr line (In_quote hx prfx q) -> fit q ->
  match opens fresh_acct d hx with
  | None => b2b_line ctz0 opts addr st line = None
  | Some None => b2b_line ctz0 opts addr st line = Some st
  | Some (Some (d', k)) => ∃ a, d_rows d' !! k = Some a ∧
    (lost q (a_book a) ∨ ∃ x, served q a x ∧ comes_to st d' k prfx (b2b_line ctz0 opts addr st line) x)
  end.
Proof.
  intros Hsv (x & Hx & Hok & <- & Hh & ->) Hq. unfold b2b_line. brun Hx. rewrite Hok. cbv zeta.
  pose proof (select_run st d T _ hx Hsv Hh) as Hsel.
  destruct (opens fresh_acct d hx) as [[[d' k]|]|] eqn:Ho; [|by rewrite Hsel..].
  destruct Hsel as (st1 & T1 & Hsel & Hsv1 & Hout). brun Hsel.
  destruct (opens_ok _ _ _ _ _ (tb_desk _ _ _ _ _ (sv_tabled _ _ _ Hsv)) Ho) as [_ Hk].
  destruct (lookup_lt_is_Some_2 _ _ Hk) as [a Ha]. exists a. split; [done|].
  destruct (process_run st1 d' T1 k a (take (ins x + inz x + (if (inz x =? 0)%nat then 0 else 1)) line) (xq x) Hsv1 Hq Ha)
    as [Hl|(y & Hy & Hrun)]; [by left|right]. exists y. split; [done|].
  unfold comes_to in *. by rewrite Hout in Hrun.
Qed.

Lemma skip_run addr st line : reads addr line In_skip -> b2b_line ctz0 opts addr st line = Some st.
Proof. intros (x & Hx & Hok). unfold b2b_line. brun Hx. by rewrite Hok. Qed.

(** ** What was printed stays *)

Definition extends (st st' : b2b_state) : Prop := ∃ o, out st' = out st ++ o.

#[local] Instance extends_preorder : PreOrder extends.
Proof.
  split; [intros st; exists []; by rewrite app_nil_r|].
  intros st1 st2 st3 [o Ho] [o' Ho']. exists (o ++ o'). by rewrite Ho', Ho, app_assoc.
Qed.

Lemma add_print_extends st prfx k r st' : add_print ctz0 opts st prfx k r = Some st' -> extends st st'.
Proof.
  unfold add_print, set_heap_book. destruct (books st !! k) as [xb|]; bstep; [|done].
  destruct (book_add _ _ _ _) as [[h o]|]; bstep; [|done].
  destruct (run_prq _ _ _ _ _ _) as [[[h' xb'] ls]|]; bstep; [|done].
  destruct (store _ _ _); bstep; [|done]. intros [= <-]. by eexists.
Qed.

Lemma unwind_loop_extends fuel st prfx k s cond i st' :
  unwind_loop ctz0 opts fuel st prfx k s cond i = Some st' -> extends st st'.
Proof.
  revert st i. induction fuel as [|fuel IH]; intros st i; [done|]. cbn [unwind_loop].
  destruct (book_iter_next _ _ _) as [[[h i'] [v|]]|]; bstep; [| |done].
  - assert (extends st (mk_b2b h (conx st) (books st) (nbook st) (zbook st) (nctch st) (out st))) as H0
      by (exists []; by rewrite app_nil_r).
    destruct (cond _); [|by intros [= <-]]. destruct (add_print _ _ _ _ _ _) as [st1|] eqn:Ha; bstep; [|done].
    intros Hrun%IH. apply add_print_extends in Ha. by etrans; [exact H0|etrans].
  - intros [= <-]. exists []. by rewrite app_nil_r.
Qed.

Lemma unwind_extends st prfx k s cond st' : unwind ctz0 opts st prfx k s cond = Some st' -> extends st st'.
Proof.
  unfold unwind. destruct (books st !! k) as [xb|]; bstep; [|done].
  destruct (book_iter _ _) as [i|]; bstep; [|done]. apply unwind_loop_extends.
Qed.

Lemma process_extends st prfx k q st' : process ctz0 opts st prfx k q = Some st' -> extends st st'.
Proof.
  unfold process. destruct (_ && is_prq23 opts); [|destruct (_ && is_prq23 opts)].
  - destruct (unwind _ _ _ _ _ _ _) as [st1|] eqn:H1; bstep; [|done].
    intros H2%add_print_extends. apply unwind_extends in H1. by etrans.
  - destruct (unwind _ _ _ _ _ _ _) as [st1|] eqn:H1; bstep; [|done].
    intros H2%unwind_extends. apply unwind_extends in H1. by etrans.
  - apply add_print_extends.
Qed.

Lemma line_extends addr st line st' : b2b_line ctz0 opts addr st line = Some st' -> extends st st'.
Proof.
  unfold b2b_line. destruct (read_xquo _ _ _) as [x|]; bstep; [|done].
  destruct (NOT_A_XQUO_P x); [by intros [= <-]|]. cbv zeta.
  unfold select_book. destruct (hash _) as [hx|]; bstep; [|done].
  set (searched := (0 <? nbook st)%nat || (0 <? zbook st)%nat).
  destruct (if searched then find_book st hx else Some O) as [k|]; bstep; [|done].
  destruct (searched && _); [bstep; apply process_extends|].
  destruct (0 <? nctch st)%nat; [destruct searched; bstep; [apply process_extends|done]|].
  destruct (zbook st =? 0)%nat; bstep; [by intros [= <-]|].
  destruct (make_xbook _ _) as [h xb]. bstep. by intros [o Ho]%process_extends; exists o.
Qed.

Lemma lines_extends addr st ls st' : b2b_lines ctz0 opts addr st ls = Some st' -> extends st st'.
Proof.
  revert st. induction ls as [|l ls IH]; intros st; cbn [b2b_lines]; [by intros [= <-]|].
  destruct (b2b_line _ _ _ _ _) as [st1|] eqn:H1; bstep; [|done]. intros H2%IH.
  apply line_extends in H1. by etrans.
Qed.

(** ** All lines *)

Definition fit_input (i : input) : Prop := match i with In_skip => True | In_quote _ _ q => fit q end.

(** The rest of a run: lines, and freeing the books. *)
Definition run_on (addr : Z) (st : b2b_state) (ls : list (list Z)) : option (list Z) :=
  st ← b2b_lines ctz0 opts addr st ls;
  h ← free_books (heap_ st) (books st);
  Some (out st).

Lemma run_on_extends addr st ls : ∃ o, run_on addr st ls = (λ x, out st ++ x) <$> o.
Proof.
  unfold run_on. destruct (b2b_lines _ _ _ _ _) as [st'|] eqn:Hl; bstep; [|by exists None].
  destruct (free_books _ _); bstep; [|by exists None].
  apply lines_extends in Hl as [o Ho]. exists (Some o). by rewrite Ho.
Qed.

Lemma free_books_run st d T :
  serves st d T -> is_Some (free_books (heap_ st) (books st)).
Proof.
  intros [HT HB _ _]. revert HT HB. generalize (heap_ st), (books st). clear.
  intros h bs. revert h T. induction bs as [|xb bs IH]; intros h T HT HB; cbn [free_books]; [done|].
  destruct T as [|x T]; [done|]. injection HB as Hb HB. cbn [fmap list_fmap] in HT.
  destruct (stocked_free h x.1 T.*1 HT) as (h' & Hrun & HT'). unfold free_xbook. rewrite Hb.
  change (xbk (row_book x)) with (k_book x.1). brun Hrun. by eapply IH.
Qed.

Lemma lines_run addr st d T ls ins :
  serves st d T -> Forall2 (reads addr) ls ins -> Forall fit_input ins ->
  ∃ o, conv d ins o ∧ run_on addr st ls = (λ x, out st ++ x) <$> o.
Proof.
  intros Hsv Hr. revert st d T Hsv. induction Hr as [|line i ls ins Hl Hr IH]; intros st d T Hsv Hq.
  - exists (Some []). split; [constructor|]. unfold run_on. cbn [b2b_lines]. bstep.
    destruct (free_books_run st d T Hsv) as [h Hh]. brun Hh. cbn. by rewrite app_nil_r.
  - apply Forall_cons in Hq as [Hi Hq]. destruct i as [|hx prfx q].
    + destruct (IH st d T Hsv Hq) as (o & Ho & Hrun). exists o. split; [by constructor|].
      unfold run_on. cbn [b2b_lines]. by rewrite (skip_run _ _ _ Hl).
    + pose proof (line_run addr st d T line hx prfx q Hsv Hl Hi) as Hrun.
      destruct (opens fresh_acct d hx) as [[[d' k]|]|] eqn:Hop.
      2: { destruct (IH st d T Hsv Hq) as (o & Ho & Hrest). exists o. split; [by apply conv_nowhere|].
           unfold run_on. cbn [b2b_lines]. by rewrite Hrun. }
      2: { exists None. split; [by apply conv_undefined|]. unfold run_on. cbn [b2b_lines]. by rewrite Hrun. }
      destruct Hrun as (a & Ha & [Hlost|([[a' bs]|] & Hx & Hrun)]).
      * destruct (run_on_extends addr st (line :: ls)) as (o & Ho). exists o. split; [by eapply conv_lost|done].
      * destruct Hrun as (st1 & T1 & Hrun & Hsv1 & Ho1).
        destruct (IH st1 _ T1 Hsv1 Hq) as (o & Ho & Hrest).
        eexists. split; [by eapply conv_quote|]. unfold run_on in *. cbn [b2b_lines]. brun Hrun.
        rewrite Hrest, Ho1. destruct o as [o|]; cbn; [|done]. by rewrite <- app_assoc.
      * exists None. split; [by eapply conv_overrun|]. unfold run_on. cbn [b2b_lines]. cbn in Hrun. by rewrite Hrun.
Qed.

(** ** The beginning *)

Definition first_desk (instr : list (list Z)) : option (desk acct) :=
  desk0 (λ _, fresh_acct) (λ _, fresh_acct) instr.

(** The books of the named instruments are made one by one. *)
Lemma init_books_run args st T :
  stocked (heap_ st) T.*1 -> books st = row_book <$> T ->
  match mapM hash (named args) with
  | None => init_books opts args st = None
  | Some C => ∃ h T',
      init_books opts args st = Some (mk_b2b h (conx st ++ C) (books st ++ (row_book <$> T'))
        (nbook st + length C) (zbook st) (nctch st) (out st)) ∧
      stocked h (T ++ T').*1 ∧ row_acct <$> T' = (λ _, fresh_acct) <$> named args
  end.
Proof.
  revert st T. induction args as [|nm args IH]; intros st T HT Hb; cbn [init_books].
  { cbn. exists (heap_ st), []. rewrite !app_nil_r, Nat.add_0_r. split_and!; [by destruct st|done|done]. }
  unfold named in *. destruct (catchall_p nm) eqn:Hcp.
  { rewrite filter_cons_False by (by rewrite Hcp). by apply IH. }
  rewrite filter_cons_True by done. cbn [mapM]. destruct (hash nm) as [hx|]; bstep; [|done].
  unfold make_xbook. destruct (make_book (heap_ st)) as [h b] eqn:Hm. cbv zeta.
  fold fresh_last. fold (card b fresh_last). set (st1 := mk_b2b _ _ _ _ _ _ _).
  specialize (IH st1 (T ++ [(new_stock b, fresh_last)])).
  destruct (mapM hash (filter _ args)) as [C|]; bstep.
  - destruct IH as (h' & T' & Hrun & HT' & Hs); cbn; rewrite ?fmap_app; cbn; [by eapply stocked_make|by rewrite Hb|].
    exists h', ((new_stock b, fresh_last) :: T'). split_and!.
    + rewrite Hrun. cbn. by rewrite <- !app_assoc, <- Nat.add_assoc.
    + rewrite <- app_assoc in HT'. exact HT'.
    + cbn [fmap list_fmap]. by rewrite Hs.
  - apply IH; cbn; rewrite ?fmap_app; cbn; [by eapply stocked_make|by rewrite Hb].
Qed.

Lemma init_run instr :
  match first_desk instr with
  | None => b2b_init opts instr = None
  | Some d => ∃ st T, b2b_init opts instr = Some st ∧ out st = [] ∧ serves st d T
  end.
Proof.
  assert (stocked empty_heap []) as H0 by apply stocked_nil, empty_heap_wf.
  destruct instr as [|nm instr].
  { unfold first_desk, desk0, b2b_init. eexists _, []. split; [reflexivity|]. split; [done|].
    split; [done..|exact open_tabled]. }
  pose proof (init_books_run (nm :: instr) (mk_b2b empty_heap [] [] 0 0 0 []) []) as Hi.
  unfold first_desk, b2b_init. destruct (mapM hash (named (nm :: instr))) as [C|] eqn:HC.
  2: { unfold desk0. rewrite HC. bstep. rewrite Hi; done. }
  destruct (desk0_tabled (λ _ : list Z, fresh_acct) (λ _, fresh_acct) nm instr C HC) as (d & Hd & Hr & Ht).
  rewrite Hd. destruct Hi as (h & T & Hrun & HT & Hs); [done..|].
  brun Hrun. cbn [nbook heap_ app conx books zbook nctch out Nat.add] in *.
  rewrite <- Hs in Hr. destruct (length C <? length (nm :: instr))%nat.
  - unfold make_xbook. destruct (make_book h) as [h1 b] eqn:Hm. cbv zeta. fold fresh_last. fold (card b fresh_last).
    eexists _, (T ++ [(new_stock b, fresh_last)]). split; [reflexivity|]. split; [done|].
    split; cbn [heap_ books conx nbook zbook nctch]; rewrite ?fmap_app;
      [by eapply stocked_make|done|exact Hr|exact Ht].
  - rewrite app_nil_r in Hr, Ht. eexists _, T. split; [reflexivity|]. split; [done|]. by split.
Qed.

(** C4: a whole run of book2book, for any number of lines and instruments, any
    [--instr] arguments and all eight output modes.  Conditions: [read_xquo] returns
    on every line (its number parser hangs on some malformed numbers); and either
    level quotes (L2, L3) have a price and [__builtin_ctzll(0)], whose value its documentation
    leaves open, is 63 or more (64 where it is the instruction TZCNT), or the mode is [-2] or
    [-3] and all quotes are level quotes.  Then the tool prints exactly what the machine
    over the table of instruments does - per quote the lines its output
    mode makes of what the book then shows, if that is new, each behind the
    quote's own time and instrument - and returns, freeing each book; lines it rejects
    are skipped.  In [-2] and [-3] a clearing quote prints the end of every level, one by
    one; a top-of-book quote that of the levels better than it only: the
    rest of its side is cleared without a line.  The run fails only where an output line
    overruns its buffer (or a consolidation limit is no number), where [-2] and [-3]
    unwind a side that is none, and, when only catch-alls are named, on the first
    quote.  Nothing is claimed from where a side is unwound that may have been
    split. *)
Theorem b2b_run_correct addr instr ls ins :
  Forall2 (reads addr) ls ins ->
  (63 <= ctz0)%nat ∧ Forall priced_input ins ∨ is_prq23 opts = true ∧ Forall level_input ins ->
  match first_desk instr with
  | Some d => ∃ o, conv d ins o ∧ b2b_run ctz0 opts addr instr ls = o
  | None => b2b_run ctz0 opts addr instr ls = None
  end.
Proof.
  intros Hr Hq. pose proof (init_run instr) as Hi. unfold b2b_run.
  destruct (first_desk instr) as [d|]; [|by rewrite Hi].
  destruct Hi as (st & T & Hi & Hout & Hs). brun Hi.
  destruct (lines_run addr st d T ls ins Hs Hr) as (o & Ho & Hrun).
  { destruct Hq as [[H1 Hq]|[H1 Hq]]; (eapply Forall_impl; [exact Hq|]); intros [|hx prfx q] H2;
      [done|by left|done|by right]. }
  exists o. split; [done|]. unfold run_on in Hrun. rewrite Hrun, Hout. by destruct o.
Qed.
End run.

(** ** Lines that fit *)

Definition level_text (s f : Z) (p q : list Z) : list Z := Z.lxor s 64 :: f :: 9 :: p ++ 9 :: q ++ [10].

(** A line fits when price and quantity together have at most 251 characters. *)
Lemma level_line_fits s f p q :
  let ps := d64tostr 253 p in
  let qs := d64tostr (252 - length ps) q in
  (length ps + length qs <= 251)%nat -> level_line s f p q = Some (level_text s f ps qs).
Proof.
  intros ps qs Hl. unfold level_line, bputc, bputd, BUFSZ, level_text.
  cbn [length app Nat.ltb Nat.leb mbind option_bind Nat.sub]. fold ps. bstep.
  rewrite (proj2 (Nat.leb_le _ _)) by lia. bstep.
  replace (256 - _)%nat with (252 - length ps)%nat by (simpl; rewrite length_app; simpl; lia). fold qs.
  rewrite (proj2 (Nat.leb_le _ _)) by (simpl; rewrite !length_app; simpl; lia).
  simpl. by rewrite <- !app_assoc.
Qed.

(** [1.500 EUR B2 1.13 100] and a line that is no quote. *)
Definition eur_quote : book_quo :=
  mk_quo BOOK_SIDE_BID BOOK_LVL_2 (DFin false 113 (-2)) (DFin false 100 0) 1500000000.
Definition eur_prefix : list Z := [49; 46; 53; 48; 48; 9; 69; 85; 82; 9].

Lemma eur_reads : ∃ hx, reads 5 quote_line (In_quote hx eur_prefix eur_quote).
Proof.
  destruct (hash_word [69; 85; 82]) as (hx & Hh & _). exists hx, (mk_xquo eur_quote 6 3).
  split; [vm_compute; reflexivity|]. split_and!; try reflexivity. exact Hh.
Qed.

Lemma junk_reads : reads 5 [120] In_skip.
Proof. eexists. split; [vm_compute; reflexivity|reflexivity]. Qed.

(** Printed as a level, and as the best levels. *)
Definition demo_tob : b2b_opts := mk_opts PRQ1 0 dzeroed.

Lemma b2b_run_correct_witness :
  ∃ hx, conv demo_b2b (mk_desk true false [] []) [In_quote hx eur_prefix eur_quote; In_skip]
          (Some (eur_prefix ++ [66; 50; 9; 49; 46; 49; 51; 9; 49; 48; 48; 10])) ∧
        conv demo_tob (mk_desk true false [] []) [In_quote hx eur_prefix eur_quote; In_skip]
          (Some (eur_prefix ++ [99; 49; 9; 49; 46; 49; 51; 9; 9; 49; 48; 48; 9; 10])).
Proof.
  destruct eur_reads as (hx & Hx). exists hx.
  assert (Forall2 (reads 5) [quote_line; [120]] [In_quote hx eur_prefix eur_quote; In_skip]) as Hr.
  { repeat constructor; [exact Hx|exact junk_reads]. }
  destruct (b2b_run_correct 0 demo_b2b 5 [] _ _ Hr) as (o & Ho & Hrun).
  { right. split; [reflexivity|]. apply Forall_cons; split; [|by repeat constructor].
    split; [by right|]. split; [by left|reflexivity]. }
  destruct (b2b_run_correct 64 demo_tob 5 [] _ _ Hr) as (o' & Ho' & Hrun').
  { left. split; [lia|]. apply Forall_cons; split; [|by repeat constructor]. intros _ _; reflexivity. }
  assert (o = Some (eur_prefix ++ [66; 50; 9; 49; 46; 49; 51; 9; 49; 48; 48; 10])) as <-
    by (rewrite <- Hrun; vm_compute; reflexivity).
  assert (o' = Some (eur_prefix ++ [99; 49; 9; 49; 46; 49; 51; 9; 9; 49; 48; 48; 9; 10])) as <-
    by (rewrite <- Hrun'; vm_compute; reflexivity).
  split; [exact Ho|exact Ho'].
Defined.
