(* ===== verification/Booksnap.v ===== *)
(** * booksnap.c: snapshots of books at regular times

    As in the model of book2book.c the tool is a step function on lines; its
    state also holds the metronome [metr], the static variable of [_next_intv],
    the stamps that are left and, for [-3], the copies of the last snapshot.
    [None] is undefined behaviour or a call that does not return. *)

From Stdlib Require Import ZArith Lia.
From stdpp Require Import prelude list gmap.
From stdpp Require Import options.
From S2P Require Import Prelude Decimal Dfp754D64 Memrchr Hash Btree Books Xquo Book2book.

Local Open Scope Z_scope.

(** ** Suffixes of times *)

(** [sufstrtotv]: the unit a suffix denotes, [0] for none, [NATV] for an
    invalid one; [None] when the character behind the terminator is read. *)
Definition sufstrtotv (str : list Z) : option Z :=
  let finish (r : Z) (str : list Z) : option Z :=
    match str with
    | [] => None
    | _ :: str => Some (if negb (peek str =? 0) then NATV else r)
    end in
  let c := peek str in
  if c =? 0 then Some 0
  else if (c =? 115) || (c =? 83) then finish NSECS str
  else if (c =? 109) || (c =? 77) then
    let d := peek (tl str) in
    if d =? 0 then Some (60 * NSECS)
    else if (d =? 115) || (d =? 83) then finish USECS (tl str)
    else Some NATV
  else if (c =? 104) || (c =? 72) then finish (60 * 60 * MSECS) str
  else if (c =? 117) || (c =? 85) then finish MSECS (tl str)
  else if (c =? 110) || (c =? 78) then finish 1 (tl str)
  else Some NATV.

(** [strtol(s, &on, 10)]. *)
Definition strtol (s : list Z) : Z * list Z :=
  let p := skip_space s in
  let '(neg, p) :=
    if peek p =? 45 then (true, tl p) else if peek p =? 43 then (false, tl p) else (false, p) in
  if is_digit (peek p) then
    let '(v, r) := read_digits p 0 in
    (if neg then Z.max (- 2 ^ 63) (- v) else Z.min (2 ^ 63 - 1) v, r)
  else (0, s).

Definition s64 (x : Z) : Z :=
  let y := u64 x in if y <? 2 ^ 63 then y else y - 2 ^ 64.

(** ** Modes and options *)

Inductive snap_mode :=
  SNAP1 | SNAP12 | SNAP2 | SNAP3 | SNAPN | SNAPC | SNAPCN | SNAPV | SNAPVN.
#[export] Instance snap_mode_eq_dec : EqDecision snap_mode.
Proof. solve_decision. Defined.

Record snap_opts := mk_sopts {
  snap : snap_mode;
  intv : Z;
  offs : Z;
  inva : Z;
  by_stamps : bool;
  sntop : nat;
  scqty : dec;
}.

(** [memncpy] into the line buffer. *)
Definition bputs (s : list Z) (buf : list Z) : option (list Z) :=
  if (length buf + length s <=? BUFSZ)%nat then Some (buf ++ s) else None.

(** The time of the snapshot and the instrument, every line's beginning. *)
Definition snap_prefix (metr : Z) (cont : option (list Z)) : option (list Z) :=
  let buf := tvtostr BUFSZ metr in
  buf ← match cont with
        | Some c => buf ← bputc 9 buf; bputs c buf
        | None => Some buf
        end;
  bputc 9 buf.

(** The copies [snap3] keeps of one book. *)
Record snap3_aux_t := mk_aux {
  bn : nat; an : nat;
  ab : list dec; aa : list dec; aB : list dec; aA : list dec;
}.
Definition aux0 : snap3_aux_t := mk_aux 0 0 [] [] [] [].

(** What [realloc] leaves uninitialised: the cell at an index of an array that
    grows may hold anything. *)
Abbreviation leftover := (list dec -> nat -> dec).
Definition zero_cells : leftover := λ _ _, dzeroed.

Section snap.
Variable ctz0 : nat.
Variable garbage : leftover.
Variable opts : snap_opts.

(** ** The metronome *)

(** [_next_intv]: the time and the new value of its static [oldm]. *)
Definition next_intv (metr oldm newm : Z) : option (Z * Z) :=
  let m := u64 (metr + inva opts) in
  let '(newm, oldm) :=
    if negb (inva opts =? 0) && negb (metr =? 0) && (oldm <? m) && (m <? newm)
    then (m, newm) else (newm, oldm) in
  if intv opts =? 0 then None
  else
    let newm := u64 (newm - 1) in
    let newm := u64 (newm - offs opts) in
    let newm := newm / intv opts in
    let newm := u64 (newm + 1) in
    let newm := u64 (newm * intv opts) in
    Some (u64 (newm + offs opts), oldm).

(** [_next_stmp]: the next stamp of the file and the lines left. *)
Definition next_stmp (stamps : list (list Z)) : Z * list (list Z) :=
  match stamps with
  | [] => (NATV, [])
  | l :: ls => ((strtotv l).1, ls)
  end.

(** ** Snappers: the heap and the lines written *)

Definition snap_out : Type := bheap * list (list Z).

(** [.. TAB c1 TAB BID TAB ASK TAB BSZ TAB ASZ NL] *)
Definition snap_c1 (metr : Z) (cont : option (list Z)) (bp ap bq aq : bool)
    (b a : book_quo) : option (list Z) :=
  buf ← snap_prefix metr cont;
  buf ← bputc 99 buf;
  buf ← bputc 49 buf;
  buf ← bputc 9 buf;
  buf ← bput_if bp (qp b) buf;
  buf ← bputc 9 buf;
  buf ← bput_if ap (qp a) buf;
  buf ← bputc 9 buf;
  buf ← bput_if bq (qq b) buf;
  buf ← bputc 9 buf;
  buf ← bput_if aq (qq a) buf;
  bputc 10 buf.

Definition snap1 (h : bheap) (bk : book_t) (metr : Z) (cont : option (list Z)) :
    option snap_out :=
  '(h, b) ← book_top ctz0 h bk BOOK_SIDE_BID;
  '(h, a) ← book_top ctz0 h bk BOOK_SIDE_ASK;
  l ← snap_c1 metr cont (dtrue (qq b)) (dtrue (qq a)) true true b a;
  Some (h, [l]).

(** The line up to [buf[prfz]], for the bids: [.. TAB B FLAVOUR TAB]. *)
Definition level_prefix (metr : Z) (cont : option (list Z)) (flavour : Z) :
    option (list Z) :=
  buf ← snap_prefix metr cont;
  buf ← bputc 66 buf;
  buf ← bputc flavour buf;
  bputc 9 buf.

(** [buf[prfz - 3] = 'A'] *)
Definition to_asks (pfx : list Z) : list Z := <[(length pfx - 3)%nat := 65]> pfx.

(** [PRICE TAB QUANTITY NL] behind the prefix. *)
Definition snap_level (pfx : list Z) (p q : dec) : option (list Z) :=
  buf ← bputd p pfx;
  buf ← bputc 9 buf;
  buf ← bputd q buf;
  bputc 10 buf.

Definition snap12 (h : bheap) (bk : book_t) (metr : Z) (cont : option (list Z)) :
    option snap_out :=
  pfx ← level_prefix metr cont 49;
  '(h, b) ← book_top ctz0 h bk BOOK_SIDE_BID;
  bl ← if dgt (qq b) dzero
       then l ← snap_level pfx (qp b) (qq b); Some [l] else Some [];
  let pfx := to_asks pfx in
  '(h, a) ← book_top ctz0 h bk BOOK_SIDE_ASK;
  al ← if dgt (qq a) dzero
       then l ← snap_level pfx (qp a) (qq a); Some [l] else Some [];
  Some (h, bl ++ al).

Fixpoint snap2_loop (fuel : nat) (h : bheap) (i : biter) (pfx : list Z)
    (acc : list (list Z)) : option snap_out :=
  match fuel with
  | O => None
  | S fuel =>
    '(h, i, r) ← book_iter_next ctz0 h i;
    match r with
    | Some v =>
      l ← snap_level pfx (it_k i) (vq v);
      snap2_loop fuel h i pfx (acc ++ [l])
    | None => Some (h, acc)
    end
  end.

Definition snap2 (h : bheap) (bk : book_t) (metr : Z) (cont : option (list Z)) :
    option snap_out :=
  pfx ← level_prefix metr cont 50;
  i ← book_iter bk BOOK_SIDE_BID;
  '(h, bl) ← snap2_loop (cells_fuel h) h i pfx [];
  i ← book_iter bk BOOK_SIDE_ASK;
  '(h, al) ← snap2_loop (cells_fuel h) h i (to_asks pfx) [];
  Some (h, bl ++ al).

(** *** Incremental snapshots *)

(** Store into a pair of arrays that double, from 32 cells on, when full. *)
Definition grow_store (bi : nat) (p q : dec) (P Q : list dec) : option (list dec * list dec) :=
  let z := length P in
  let nz := if (z * 2 =? 0)%nat then 32%nat else (z * 2)%nat in
  let '(P, Q) := if (z <=? bi)%nat
                 then (P ++ (garbage P <$> seq z (nz - z)), Q ++ (garbage Q <$> seq z (nz - z)))
                 else (P, Q) in
  P ← store bi p P;
  Q ← store bi q Q;
  Some (P, Q).

Fixpoint snap3_copy (fuel : nat) (h : bheap) (i : biter) (bi : nat) (P Q : list dec) :
    option (bheap * nat * list dec * list dec) :=
  match fuel with
  | O => None
  | S fuel =>
    '(h, i, r) ← book_iter_next ctz0 h i;
    match r with
    | Some v =>
      '(P, Q) ← grow_store bi (it_k i) (vq v) P Q;
      snap3_copy fuel h i (S bi) P Q
    | None => Some (h, bi, P, Q)
    end
  end.

Definition snap3_book (h : bheap) (bk : book_t) (x : snap3_aux_t) :
    option (bheap * snap3_aux_t) :=
  i ← book_iter bk BOOK_SIDE_BID;
  '(h, n, P, Q) ← snap3_copy (cells_fuel h) h i 0 (ab x) (aB x);
  i ← book_iter bk BOOK_SIDE_ASK;
  '(h, m, P', Q') ← snap3_copy (cells_fuel h) h i 0 (aa x) (aA x);
  Some (h, mk_aux n m P P' Q Q').

(** One level [(ip, iq)] of the book against the copy, from label [again]
    on; [better] orders prices towards the top of the book.  The index into
    the copy and the lines written. *)
Fixpoint snap3_again (fuel : nat) (better : dec -> dec -> bool) (pfx : list Z)
    (ip iq : dec) (pp qp : list dec) (bi bn : nat) (acc : list (list Z)) : option (nat * list (list Z)) :=
  match fuel with
  | O => None
  | S fuel =>
    r ← if (bn <=? bi)%nat then Some (Some (ip, iq))
        else
          x ← pp !! bi;
          y ← qp !! bi;
          if deq ip x then Some (Some (ip, dsub iq y))
          else if better ip x then Some (Some (ip, iq))
          else if better x ip then Some (Some (x, dneg y))
          else Some None;
    match r with
    | None => Some (bi, acc)
    | Some (p, q) =>
      l ← snap_level pfx p q;
      let acc := acc ++ [l] in
      if (bi <? bn)%nat then
        x ← pp !! bi;
        if deq ip x || better x ip then
          let bi := S bi in
          x ← pp !! bi;
          if better x ip
          then snap3_again fuel better pfx ip iq pp qp bi bn acc
          else Some (bi, acc)
        else Some (bi, acc)
      else Some (bi, acc)
    end
  end.

Fixpoint snap3_loop (fuel : nat) (better : dec -> dec -> bool) (h : bheap) (i : biter)
    (pfx : list Z) (pp qp : list dec) (bi bn : nat) (acc : list (list Z)) :
    option snap_out :=
  match fuel with
  | O => None
  | S fuel =>
    '(h, i, r) ← book_iter_next ctz0 h i;
    match r with
    | Some v =>
      '(bi, acc) ← snap3_again (S (S bn)) better pfx (it_k i) (vq v) pp qp bi bn acc;
      snap3_loop fuel better h i pfx pp qp bi bn acc
    | None => Some (h, acc)
    end
  end.

Definition snap3 (h : bheap) (bk : book_t) (metr : Z) (cont : option (list Z))
    (x : snap3_aux_t) : option (bheap * list (list Z) * snap3_aux_t) :=
  pfx ← level_prefix metr cont 50;
  i ← book_iter bk BOOK_SIDE_BID;
  '(h, bl) ← snap3_loop (cells_fuel h) dgt h i pfx (ab x) (aB x) 0 (bn x) [];
  i ← book_iter bk BOOK_SIDE_ASK;
  '(h, al) ← snap3_loop (cells_fuel h) dlt h i (to_asks pfx) (aa x) (aA x) 0 (an x) [];
  '(h, x) ← snap3_book h bk x;
  Some (h, bl ++ al, x).

(** [while ((zbk *= 2) < ibk);] *)
Fixpoint grow_zbk (fuel : nat) (zbk ibk : nat) : option nat :=
  match fuel with
  | O => None
  | S fuel => let z := (zbk * 2)%nat in
              if (z <? ibk)%nat then grow_zbk fuel z ibk else Some z
  end.

(** The resize at the head of [snap3]: the array is allocated afresh. *)
Definition snap3_resize (ibk : nat) (aux : list snap3_aux_t) : option (list snap3_aux_t) :=
  if (length aux <=? ibk)%nat
  then z ← grow_zbk (S ibk) (length aux) ibk; Some (replicate z aux0)
  else Some aux.

(** *** Top-N and consolidated snapshots *)

(** [pfx] is the line up to the level number. *)
Definition snap_cn (pfx : list Z) (i : nat) (b a : list (dec * dec)) :
    option (list Z) :=
  let put (l : list (dec * dec)) (f : dec * dec -> dec) (buf : list Z) :=
    match l !! i with Some x => bputd (f x) buf | None => Some buf end in
  let buf := pfx ++ zu (i + 1) in
  buf ← bputc 9 buf;
  buf ← put b fst buf;
  buf ← bputc 9 buf;
  buf ← put a fst buf;
  buf ← bputc 9 buf;
  buf ← put b snd buf;
  buf ← bputc 9 buf;
  buf ← put a snd buf;
  bputc 10 buf.

Fixpoint snap_cns (cnt i : nat) (pfx : list Z) (b a : list (dec * dec)) :
    option (list (list Z)) :=
  match cnt with
  | O => Some []
  | S cnt => l ← snap_cn pfx i b a; ls ← snap_cns cnt (S i) pfx b a; Some (l :: ls)
  end.

Definition cn_prefix (metr : Z) (cont : option (list Z)) : option (list Z) :=
  buf ← snap_prefix metr cont; bputc 99 buf.

Definition snapn (h : bheap) (bk : book_t) (metr : Z) (cont : option (list Z)) :
    option snap_out :=
  '(h, b) ← book_tops ctz0 h bk BOOK_SIDE_BID (sntop opts);
  '(h, a) ← book_tops ctz0 h bk BOOK_SIDE_ASK (sntop opts);
  pfx ← cn_prefix metr cont;
  ls ← snap_cns (nlevels (sntop opts) (length b) (length a)) 0 pfx b a;
  Some (h, ls).

Definition snapc_with
    (ctop : bheap -> book_t -> Z -> dec -> option (bheap * book_quo))
    (h : bheap) (bk : book_t) (metr : Z) (cont : option (list Z)) : option snap_out :=
  '(h, b) ← ctop h bk BOOK_SIDE_BID (scqty opts);
  '(h, a) ← ctop h bk BOOK_SIDE_ASK (scqty opts);
  let bt := dtrue (qq b) in
  let at_ := dtrue (qq a) in
  l ← snap_c1 metr cont bt at_ bt at_ b a;
  Some (h, [l]).

Definition snapc : bheap -> book_t -> Z -> option (list Z) -> option snap_out :=
  snapc_with (bookd64_ctop ctz0).
Definition snapv : bheap -> book_t -> Z -> option (list Z) -> option snap_out :=
  snapc_with (bookd64_vtop ctz0).

Definition snapcn_with
    (ctops : bheap -> book_t -> Z -> dec -> nat -> option (bheap * list (dec * dec)))
    (h : bheap) (bk : book_t) (metr : Z) (cont : option (list Z)) : option snap_out :=
  '(h, b) ← ctops h bk BOOK_SIDE_BID (scqty opts) (sntop opts);
  '(h, a) ← ctops h bk BOOK_SIDE_ASK (scqty opts) (sntop opts);
  pfx ← cn_prefix metr cont;
  ls ← snap_cns (nlevels (sntop opts) (length b) (length a)) 0 pfx b a;
  Some (h, ls).

Definition snapcn : bheap -> book_t -> Z -> option (list Z) -> option snap_out :=
  snapcn_with (bookd64_ctops ctz0).
Definition snapvn : bheap -> book_t -> Z -> option (list Z) -> option snap_out :=
  snapcn_with (bookd64_vtops ctz0).

(** ** The processor *)

Record snap_state := mk_snap {
  sheap : bheap;
  sconx : list Z;
  scont : list (option (list Z));
  sbooks : list book_t;
  snbook : nat;
  szbook : nat;
  snctch : nat;
  metr : Z;
  oldm : Z;
  stamps : list (list Z);
  aux : list snap3_aux_t;
  sout : list Z;
}.

(** [metr = next(t)]. *)
Definition do_next (st : snap_state) (t : Z) : option snap_state :=
  if by_stamps opts then
    let '(m, ls) := next_stmp (stamps st) in
    Some (mk_snap (sheap st) (sconx st) (scont st) (sbooks st) (snbook st) (szbook st)
                  (snctch st) m (oldm st) ls (aux st) (sout st))
  else
    '(m, o) ← next_intv (metr st) (oldm st) t;
    Some (mk_snap (sheap st) (sconx st) (scont st) (sbooks st) (snbook st) (szbook st)
                  (snctch st) m o (stamps st) (aux st) (sout st)).

(** Calls of [next] in a row: one per stamp that is left, and at most two
    for intervals. *)
Definition next_fuel (st : snap_state) : nat := (3 + length (stamps st))%nat.

(** [while ((metr = next(t)) < t);] *)
Fixpoint advance (fuel : nat) (st : snap_state) (t : Z) : option snap_state :=
  match fuel with
  | O => None
  | S fuel =>
    st ← do_next st t;
    if metr st <? t then advance fuel st t else Some st
  end.

(** [snap(book[ibk], cont[ibk])] behind [book_exp]. *)
Definition snap_book (st : snap_state) (ibk : nat) : option snap_state :=
  bk ← sbooks st !! ibk;
  cont ← scont st !! ibk;
  let m := metr st in
  h ← book_exp ctz0 (sheap st) bk (if inva opts =? 0 then 0 else m);
  '(h, ls, ax) ←
    match snap opts with
    | SNAP1 => '(h, ls) ← snap1 h bk m cont; Some (h, ls, aux st)
    | SNAP12 => '(h, ls) ← snap12 h bk m cont; Some (h, ls, aux st)
    | SNAP2 => '(h, ls) ← snap2 h bk m cont; Some (h, ls, aux st)
    | SNAPN => '(h, ls) ← snapn h bk m cont; Some (h, ls, aux st)
    | SNAPC => '(h, ls) ← snapc h bk m cont; Some (h, ls, aux st)
    | SNAPCN => '(h, ls) ← snapcn h bk m cont; Some (h, ls, aux st)
    | SNAPV => '(h, ls) ← snapv h bk m cont; Some (h, ls, aux st)
    | SNAPVN => '(h, ls) ← snapvn h bk m cont; Some (h, ls, aux st)
    | SNAP3 =>
      ax ← snap3_resize ibk (aux st);
      x ← ax !! ibk;
      '(h, ls, x) ← snap3 h bk m cont x;
      ax ← store ibk x ax;
      Some (h, ls, ax)
    end;
  Some (mk_snap h (sconx st) (scont st) (sbooks st) (snbook st) (szbook st) (snctch st)
                (metr st) (oldm st) (stamps st) ax (sout st ++ concat ls)).

(** All books, one after the other. *)
Definition snap_all (st : snap_state) : option snap_state :=
  foldl (fun o i => st ← o; snap_book st i) (Some st) (seq 0 (snbook st + snctch st)).

(** [do { snap all } while ((metr = next(t)) < t);] *)
Fixpoint snap_until (fuel : nat) (st : snap_state) (t : Z) : option snap_state :=
  match fuel with
  | O => None
  | S fuel =>
    st ← snap_all st;
    st ← do_next st t;
    if metr st <? t then snap_until fuel st t else Some st
  end.

Definition sfind_book (st : snap_state) (hx : Z) : option nat :=
  scan_up (snbook st) (fun k => c ← sconx st !! k; Some (negb (c =? hx))) 0.

(** As in book2book.c; the new book remembers the instrument's name, up to
    its first NUL ([strndup]). *)
Definition sselect_book (st : snap_state) (name : list Z) :
    option (snap_state * option nat) :=
  hx ← hash name;
  let searched := (0 <? snbook st)%nat || (0 <? szbook st)%nat in
  k ← if searched then sfind_book st hx else Some O;
  if searched && (k <? snbook st)%nat then Some (st, Some k)
  else if (0 <? snctch st)%nat then
    if searched then Some (st, Some k) else None
  else if (szbook st =? 0)%nat then Some (st, None)
  else
    let z := if (szbook st <=? snbook st)%nat then (szbook st * 2)%nat else szbook st in
    let '(h, b) := make_book (sheap st) in
    let nm := (fix upto (l : list Z) := match l with
                 | [] => [] | c :: l => if c =? 0 then [] else c :: upto l end) name in
    Some (mk_snap h (sconx st ++ [hx]) (scont st ++ [Some nm]) (sbooks st ++ [b])
                  (snbook st + 1) z (snctch st) (metr st) (oldm st) (stamps st)
                  (aux st) (sout st), Some k).

(** From label [snap] on. *)
Definition sprocess (st : snap_state) (k : nat) (q : book_quo) : option snap_state :=
  st ← if qt q <=? metr st then Some st else snap_until (next_fuel st) st (qt q);
  bk ← sbooks st !! k;
  let q := mk_quo (qs q) (qf q) (qp q) (qq q) (u64 (qt q + inva opts)) in
  '(h, _) ← book_add ctz0 (sheap st) bk q;
  Some (mk_snap h (sconx st) (scont st) (sbooks st) (snbook st) (szbook st) (snctch st)
                (metr st) (oldm st) (stamps st) (aux st) (sout st)).

Definition snap_line (addr : Z) (st : snap_state) (line : list Z) : option snap_state :=
  q ← read_xquo addr line (length line);
  if NOT_A_XQUO_P q then Some st
  else if qt (xq q) =? NATV then Some st
  else
    st ← if metr st =? 0 then advance (next_fuel st) st (qt (xq q)) else Some st;
    '(st, k) ← sselect_book st (take (inz q) (drop (ins q) line));
    match k with
    | None => Some st
    | Some k => sprocess st k (xq q)
    end.

Fixpoint snap_lines (addr : Z) (st : snap_state) (ls : list (list Z)) : option snap_state :=
  match ls with
  | [] => Some st
  | l :: ls => st ← snap_line addr st l; snap_lines addr st ls
  end.

Fixpoint sinit_books (args : list (list Z)) (st : snap_state) : option snap_state :=
  match args with
  | [] => Some st
  | c :: args =>
    if catchall_p c then sinit_books args st
    else
      hx ← hash c;
      let '(h, b) := make_book (sheap st) in
      sinit_books args
        (mk_snap h (sconx st ++ [hx]) (scont st ++ [Some c]) (sbooks st ++ [b])
                 (snbook st + 1) (szbook st) (snctch st) (metr st) (oldm st)
                 (stamps st) (aux st) (sout st))
  end.

Definition snap_init (instr : list (list Z)) (stmps : list (list Z)) : option snap_state :=
  st ← match instr with
       | [] => Some (mk_snap empty_heap [] [] [] 0 8 0 0 0 stmps [] [])
       | _ =>
         st ← sinit_books instr (mk_snap empty_heap [] [] [] 0 0 0 0 0 stmps [] []);
         if (snbook st <? length instr)%nat then
           let '(h, b) := make_book (sheap st) in
           let c := if (0 <? snbook st)%nat then Some [65; 76; 76] else None in
           Some (mk_snap h (sconx st ++ [HX_CATCHALL]) (scont st ++ [c]) (sbooks st ++ [b])
                         (snbook st) (szbook st) 1 (metr st) (oldm st) (stamps st)
                         (aux st) (sout st))
         else Some st
       end;
  let z := (Nat.lor (snbook st + snctch st) 7 + 1)%nat in
  let ax := if decide (snap opts = SNAP3) then replicate z aux0 else [] in
  Some (mk_snap (sheap st) (sconx st) (scont st) (sbooks st) (snbook st) (szbook st)
                (snctch st) (metr st) (oldm st) (stamps st) ax (sout st)).

Fixpoint sfree_books (h : bheap) (bs : list book_t) : option bheap :=
  match bs with
  | [] => Some h
  | b :: bs => h ← free_book h b; sfree_books h bs
  end.

(** A whole run: what it prints, the final snapshot included. *)
Definition snap_run (addr : Z) (instr stmps ls : list (list Z)) : option (list Z) :=
  st ← snap_init instr stmps;
  st ← snap_lines addr st ls;
  st ← if metr st <? NATV then snap_all st else Some st;
  h ← sfree_books (sheap st) (sbooks st);
  Some (sout st).
End snap.

(** ** Command line *)

Record snap_args := mk_sargs {
  interval : option (list Z);
  offset : option (list Z);
  invalidate : option (list Z);
  stamps_arg : bool;
  sdash1 : bool; sdash2 : bool; sdash3 : bool;
  sdashN : option (list Z); sdashC : option (list Z);
}.

Definition or_else (x y : Z) : Z := if x =? 0 then y else x.

(** [--interval]. *)
Definition interval_opt (a : option (list Z)) : option Z :=
  match a with
  | None => Some (1 * NSECS)
  | Some s =>
    let '(i, on) := strtoul s in
    if i =? 0 then None
    else
      mult ← sufstrtotv on;
      if mult =? NATV then None else Some (u64 (i * or_else mult NSECS))
  end.

(** [--offset], canonicalised to the interval unless stamps are used. *)
Definition offset_opt (a : option (list Z)) (stamps : bool) (intv : Z) : option Z :=
  match a with
  | None => Some 0
  | Some s =>
    let '(o, on) := strtol s in
    mult ← sufstrtotv on;
    if negb (o =? 0) && (mult =? NATV) then None
    else
      let o := s64 (o * or_else mult NSECS) in
      if stamps then Some (u64 o)
      else if intv =? 0 then None
      else if 0 <? o then Some (o mod intv)
      else if o <? 0 then Some (u64 (intv - (- o) mod intv))
      else Some 0
  end.

(** [--invalidate]; a number without suffix counts intervals. *)
Definition invalidate_opt (a : option (list Z)) (intv : Z) : option Z :=
  match a with
  | None => Some 0
  | Some s =>
    let '(i, on) := strtoul s in
    x ← sufstrtotv on;
    if x =? NATV then None else Some (u64 (i * or_else x intv))
  end.

(** The snapper chosen by the flags, [-N] and [-C]. *)
Definition snap_mode_opt (a : snap_args) : option (snap_mode * nat * dec) :=
  let m := SNAP2 in
  let m := if sdash1 a then SNAP1 else m in
  let m := if sdash3 a then SNAP3 else m in
  let m := if sdash1 a && sdash2 a then SNAP12 else if sdash2 a then SNAP2 else m in
  '(m, nt) ←
    match sdashN a with
    | None => Some (m, 0)
    | Some s =>
      let '(nt, _) := strtoul s in
      if nt =? 0 then None else Some (if 1 <? nt then SNAPN else SNAP1, nt)
    end;
  '(m, c) ←
    match sdashC a with
    | None => Some (m, dzeroed)
    | Some s =>
      let m := if negb (peek s =? 47) then (if 1 <? nt then SNAPCN else SNAPC)
               else (if 1 <? nt then SNAPVN else SNAPV) in
      let s := if peek s =? 47 then tl s else s in
      '(c, _) ← strtod64 s;
      if dle c dzero then None else Some (m, c)
    end;
  Some (m, Z.to_nat nt, c).

(** [None]: the tool reports an error and exits. *)
Definition snap_options (a : snap_args) : option snap_opts :=
  i ← interval_opt (interval a);
  o ← offset_opt (offset a) (stamps_arg a) i;
  let i := if stamps_arg a then 1 else i in
  v ← invalidate_opt (invalidate a) i;
  '(m, nt, c) ← snap_mode_opt a;
  Some (mk_sopts m i o v (stamps_arg a) nt c).
