(* ===== verification/BooksnapSpec.v ===== *)
(** * booksnap.c: when snapshots are taken and what they show

    The metronome: [while ((metr = next(t)) < t);] ends, on the first point of
    the grid [offs + i * intv] that is not before [t].  The snapshot: what
    [snap2] prints for a book is a function of the levels that have not
    expired. *)

From Stdlib Require Import ZArith Lia.
From stdpp Require Import prelude list gmap.
From stdpp Require Import options.
From S2P Require Import Prelude Decimal Dfp754D64 Btree BtreeLeaf BtreeIter BtreeSide Books.
From S2P Require Import Xquo BooksLoops BooksSpec BooksAdd BooksExamples Book2book Booksnap.

Local Open Scope Z_scope.

(** ** The metronome *)

(** The points of the grid, and the first one at or after [t]. *)
Definition on_grid (offs intv m : Z) : Prop := (m - offs) mod intv = 0.
Definition next_tick (offs intv t : Z) : Z := offs + ((t - 1 - offs) / intv + 1) * intv.

Lemma next_tick_spec offs intv t :
  0 < intv ->
  on_grid offs intv (next_tick offs intv t) ∧ t <= next_tick offs intv t < t + intv.
Proof.
  intros Hi. unfold on_grid, next_tick. split.
  - replace (_ - offs) with (((t - 1 - offs) / intv + 1) * intv) by lia. by apply Z_mod_mult.
  - pose proof (Z.div_mod (t - 1 - offs) intv). pose proof (Z.mod_pos_bound (t - 1 - offs) intv).
    lia.
Qed.

(** Fields of the state other than the metronome. *)
Definition metro (st : snap_state) (m o : Z) : snap_state :=
  mk_snap (sheap st) (sconx st) (scont st) (sbooks st) (snbook st) (szbook st)
          (snctch st) m o (stamps st) (aux st) (sout st).

Section metronome.
Variable opts : snap_opts.
Hypothesis Hint : 0 < intv opts.
Hypothesis Hoff : 0 <= offs opts.
#[local] Set Default Proof Using "Type*".

(** The arithmetic of [_next_intv] does not wrap around for times behind the
    offset. *)
Lemma next_intv_round t :
  offs opts < t -> t + intv opts < 2 ^ 64 ->
  u64 (u64 (u64 (u64 (u64 (t - 1) - offs opts) / intv opts + 1) * intv opts) + offs opts) =
  next_tick (offs opts) (intv opts) t.
Proof.
  intros Ht Hb. destruct (next_tick_spec (offs opts) (intv opts) t Hint) as [_ Hn].
  unfold next_tick in *. unfold u64. set (o := offs opts) in *. set (i := intv opts) in *.
  rewrite (Z.mod_small (t - 1)) by lia. rewrite (Z.mod_small (t - 1 - o)) by lia.
  assert (0 <= (t - 1 - o) / i) by (apply Z.div_pos; lia).
  set (q := (t - 1 - o) / i) in *.
  assert (q + 1 <= (q + 1) * i) by nia.
  rewrite (Z.mod_small (q + 1)) by lia. rewrite (Z.mod_small ((q + 1) * i)) by lia.
  rewrite Z.mod_small by lia. lia.
Qed.

(** One call: the next tick, or an expiry that comes earlier, once. *)
Lemma next_intv_plain m o t :
  offs opts < t -> t + intv opts < 2 ^ 64 ->
  (o < u64 (m + inva opts) < t -> inva opts = 0 ∨ m = 0) ->
  next_intv opts m o t = Some (next_tick (offs opts) (intv opts) t, o).
Proof.
  intros Ht Hb Hno. unfold next_intv.
  replace (_ && _ && _ && _) with false; [|symmetry].
  - rewrite (proj2 (Z.eqb_neq (intv opts) 0)) by lia. by rewrite next_intv_round.
  - destruct (inva opts =? 0) eqn:E1; [done|]. destruct (m =? 0) eqn:E2; [done|].
    destruct (o <? _) eqn:E3; [|done]. destruct (u64 _ <? t) eqn:E4; [|done].
    apply Z.eqb_neq in E1, E2. apply Z.ltb_lt in E3, E4. naive_solver lia.
Qed.

Lemma next_intv_expiry m o t :
  inva opts ≠ 0 -> m ≠ 0 -> o < u64 (m + inva opts) < t -> offs opts < u64 (m + inva opts) ->
  t + intv opts < 2 ^ 64 ->
  next_intv opts m o t =
  Some (next_tick (offs opts) (intv opts) (u64 (m + inva opts)), t).
Proof.
  intros H1 H2 H3 H4 H5. unfold next_intv.
  rewrite (proj2 (Z.eqb_neq (inva opts) 0)), (proj2 (Z.eqb_neq m 0)) by done.
  rewrite (proj2 (Z.ltb_lt o _)), (proj2 (Z.ltb_lt _ t)) by lia. cbn [negb andb].
  rewrite (proj2 (Z.eqb_neq (intv opts) 0)) by lia. by rewrite next_intv_round by lia.
Qed.

Hypothesis Hmode : by_stamps opts = false.

Lemma do_next_run st t m o :
  next_intv opts (metr st) (oldm st) t = Some (m, o) -> do_next opts st t = Some (metro st m o).
Proof. intros H. unfold do_next. rewrite Hmode. by rewrite H. Qed.

(** A call of [next]: a point of the grid; it is before [t] only when it follows
    an expiry, which counts once. *)
Lemma tick_run st t :
  offs opts < t -> t + intv opts < 2 ^ 64 -> oldm st <= t ->
  (oldm st < t -> metr st ≠ 0 -> inva opts ≠ 0 -> offs opts < u64 (metr st + inva opts)) ->
  ∃ m o, do_next opts st t = Some (metro st m o) ∧ o <= t ∧
         on_grid (offs opts) (intv opts) m ∧ m < t + intv opts ∧ offs opts < m ∧
         (m < t -> o = t ∧ oldm st < t).
Proof.
  intros Ht Hb Hold Hm.
  destruct (next_tick_spec (offs opts) (intv opts) t Hint) as [Hg Hr].
  set (e := u64 (metr st + inva opts)) in *.
  destruct (decide (inva opts ≠ 0 ∧ metr st ≠ 0 ∧ oldm st < e < t)) as [(H1 & H2 & H3)|Hno].
  - destruct (next_tick_spec (offs opts) (intv opts) e Hint) as [Hg1 Hr1].
    exists (next_tick (offs opts) (intv opts) e), t. specialize (Hm ltac:(lia) H2 H1).
    split_and!; [|lia|done|lia|lia|lia]. by apply do_next_run, next_intv_expiry.
  - exists (next_tick (offs opts) (intv opts) t), (oldm st). split_and!; [|done|done|lia|lia|lia].
    apply do_next_run, next_intv_plain; [done..|]. unfold e in Hno. lia.
Qed.

(** Waiting for a quote at time [t] ends with the metronome at a point of
    the grid no earlier than [t] and less than one interval behind it (after
    at most two calls of [next], expiry times included), and changes nothing
    but the metronome. *)
Theorem advance_correct st t :
  offs opts < t -> t + intv opts < 2 ^ 64 -> oldm st <= t ->
  (metr st ≠ 0 -> inva opts ≠ 0 -> offs opts < u64 (metr st + inva opts)) ->
  ∃ m o, advance opts (next_fuel st) st t = Some (metro st m o) ∧ o <= t ∧
         on_grid (offs opts) (intv opts) m ∧ t <= m < t + intv opts.
Proof.
  intros Ht Hb Hold Hm. unfold next_fuel. cbn [Nat.add advance].
  destruct (tick_run st t Ht Hb Hold) as (m & o & H1 & Ho & Hg & Hr & _ & Hagain); [by intros _|].
  brun H1. cbn [metr metro]. destruct (Z.ltb_spec m t) as [Hlt|Hge]; [|by exists m, o].
  destruct (Hagain Hlt) as [-> _].
  destruct (tick_run (metro st m t) t Ht Hb) as (m2 & o2 & H2 & Ho2 & Hg2 & Hr2 & _ & Hagain2);
    [done|cbn; lia|].
  brun H2. cbn [metr metro oldm] in *. destruct (Z.ltb_spec m2 t); [lia|].
  exists m2, o2. split_and!; done.
Qed.
End metronome.

(** A grid of 10 with offset 3. *)
Definition demo_opts : snap_opts := mk_sopts SNAP2 10 3 25 false 0 dzeroed.
Definition demo_state (h : bheap) (bs : list book_t) (m : Z) : snap_state :=
  mk_snap h [] [Some [88]] bs 1 8 0 m 0 [] [] [].

(** At time 103 with levels that live for 25, a quote at 200 first takes the
    metronome to 133, then to 203. *)
Lemma advance_correct_witness :
  ∃ m o, advance demo_opts 3 (demo_state empty_heap [] 103) 200 =
         Some (metro (demo_state empty_heap [] 103) m o) ∧ m = 203.
Proof.
  destruct (advance_correct demo_opts ltac:(done) ltac:(done) eq_refl
              (demo_state empty_heap [] 103) 200) as (m & o & Hrun & _ & Hg & Hm);
    [vm_compute; congruence..|].
  exists m, o. split; [exact Hrun|]. vm_compute in Hrun. congruence.
Defined.

(** ** The snapshot *)

(** The lines of one side behind prefix [pfx]; [None] when one does not fit its
    buffer. *)
Definition side_lines (pfx : list Z) (L : list level) : option (list (list Z)) :=
  mapM (λ e, snap_level pfx e.1 (vq e.2)) L.

(** What [-2] prints of a book: bids, then asks. *)
Definition snap2_lines (metr : Z) (cont : option (list Z)) (B : sides) : option (list (list Z)) :=
  pfx ← level_prefix metr cont 50;
  bl ← side_lines pfx (B true);
  al ← side_lines (to_asks pfx) (B false);
  Some (bl ++ al).

Section snapshot.
Variable ctz0 : nat.
Variable garbage : leftover.
Variable opts : snap_opts.
#[local] Set Default Proof Using "Type*".

Lemma snap2_loop_drain fuel h i pfx acc h' L :
  drain ctz0 fuel h i = Some (h', L) ->
  snap2_loop ctz0 fuel h i pfx acc = ls ← side_lines pfx L; Some (h', acc ++ ls).
Proof.
  unfold side_lines. revert h i acc L.
  induction fuel as [|fuel IH]; intros h i acc L; cbn [drain snap2_loop]; [done|].
  destruct (book_iter_next ctz0 h i) as [[[h1 i1] [v|]]|]; bstep; [| |done].
  - destruct (drain ctz0 fuel h1 i1) as [[h2 L2]|] eqn:E; bstep; [|done].
    intros [= <- <-]. cbn [mapM fst snd].
    destruct (snap_level pfx (it_k i1) (vq v)) as [l|]; bstep; [|done].
    rewrite (IH _ _ _ _ E). destruct (mapM _ L2) as [ls|]; bstep; [|done].
    by rewrite <- app_assoc.
  - intros [= <- <-]. simpl. by rewrite app_nil_r.
Qed.

Lemma snap2_lines_run {V} `{HV : !Shown ctz0 V} h b B m cont :
  V h b B ->
  ∃ h', snap2 ctz0 h b m cont = (ls ← snap2_lines m cont B; Some (h', ls)) ∧ V h' b B.
Proof.
  intros Hb. unfold snap2, snap2_lines.
  destruct (book_drain ctz0 h b B BOOK_SIDE_BID (or_intror eq_refl) Hb) as (i1 & h1 & Hi1 & Hd1 & Hb1).
  destruct (book_drain ctz0 h1 b B BOOK_SIDE_ASK (or_introl eq_refl) Hb1) as (i2 & h2 & Hi2 & Hd2 & Hb2).
  exists h2. split; [|done].
  destruct (level_prefix m cont 50) as [pfx|]; bstep; [|done]. brun Hi1.
  rewrite (snap2_loop_drain _ _ _ pfx [] _ _ Hd1). unfold dir. cbn [Z.eqb BOOK_SIDE_BID Pos.eqb].
  destruct (side_lines pfx (B true)) as [bl|]; bstep; [|done]. brun Hi2.
  rewrite (snap2_loop_drain _ _ _ (to_asks pfx) [] _ _ Hd2). unfold dir.
  cbn [Z.eqb BOOK_SIDE_ASK BOOK_SIDE_BID Pos.eqb].
  by destruct (side_lines (to_asks pfx) (B false)) as [al|].
Qed.

(** Time 0 stands for no expiry. *)
Definition expiry (m : Z) : Z := if inva opts =? 0 then 0 else m.

Definition shown (st : snap_state) (h : bheap) (o : list Z) : snap_state :=
  mk_snap h (sconx st) (scont st) (sbooks st) (snbook st) (szbook st)
          (snctch st) (metr st) (oldm st) (stamps st) (aux st) (sout st ++ o).

Lemma snap_book_run {V} `{HV : !Shown ctz0 V, HC : !Clearable V} st k bk cont B :
  snap opts = SNAP2 -> sbooks st !! k = Some bk -> scont st !! k = Some cont ->
  V (sheap st) bk B ->
  let B' := expired (expiry (metr st)) B in
  ∃ h', snap_book ctz0 garbage opts st k =
          (ls ← snap2_lines (metr st) cont B'; Some (shown st h' (concat ls))) ∧ V h' bk B'.
Proof.
  intros Hm Hk Hc Hb B'. unfold snap_book. brun Hk. brun Hc.
  destruct (book_exp_run ctz0 (sheap st) bk B (expiry (metr st)) Hb) as (h1 & H1 & Hb1).
  unfold expiry in H1. brun H1. rewrite Hm.
  destruct (snap2_lines_run h1 bk B' (metr st) cont Hb1) as (h2 & H2 & Hb2).
  exists h2. split; [|done]. rewrite H2. by destruct (snap2_lines _ _ _).
Qed.

(** A snapshot of one book under [-2]: the levels that have expired by the
    metronome's time are removed from the book, every other level is printed,
    once, bids before asks and best price first, and the run is undefined
    exactly when a line overruns its buffer. *)
Theorem snap_book_correct {V} `{HV : !Shown ctz0 V, HC : !Clearable V} st k bk cont B :
  snap opts = SNAP2 -> sbooks st !! k = Some bk -> scont st !! k = Some cont ->
  V (sheap st) bk B ->
  let B' := expired (if inva opts =? 0 then 0 else metr st) B in
  ∃ h', snap_book ctz0 garbage opts st k =
          (ls ← snap2_lines (metr st) cont B';
           Some (mk_snap h' (sconx st) (scont st) (sbooks st) (snbook st) (szbook st)
                   (snctch st) (metr st) (oldm st) (stamps st) (aux st)
                   (sout st ++ concat ls))) ∧
        V h' bk B'.
Proof. apply snap_book_run. Qed.
End snapshot.

(** The example book at time 2: of five levels only one bid and one ask are
    younger; the lines are [0.000000002 X B2 9 4] and [0.000000002 X A2 12 3]. *)
Definition demo_lines : list (list Z) :=
  [[48; 46; 48; 48; 48; 48; 48; 48; 48; 48; 50; 9; 88; 9; 66; 50; 9; 57; 9; 52; 10];
   [48; 46; 48; 48; 48; 48; 48; 48; 48; 48; 50; 9; 88; 9; 65; 50; 9; 49; 50; 9; 51; 10]].

Lemma demo_lines_ok : snap2_lines 2 (Some [88]) (expired 2 demo_sides) = Some demo_lines.
Proof. vm_compute. reflexivity. Qed.

Lemma snap_book_correct_witness :
  ∃ h', snap_book 64 zero_cells demo_opts (demo_state demo [demo_book] 2) 0 =
        Some (mk_snap h' [] [Some [88]] [demo_book] 1 8 0 2 0 [] [] (concat demo_lines)).
Proof.
  destruct (snap_book_correct 64 zero_cells demo_opts (demo_state demo [demo_book] 2) 0 demo_book
              (Some [88]) demo_sides eq_refl eq_refl eq_refl demo_at) as (h' & Hrun & _).
  exists h'. rewrite Hrun.
  change (snap2_lines _ _ _) with (snap2_lines 2 (Some [88]) (expired 2 demo_sides)).
  rewrite demo_lines_ok. reflexivity.
Defined.
