(* ===== verification/BooksnapPrint.v ===== *)
(** * booksnap.c: the snappers

    What the nine snappers write, as functions of the levels a book shows: no heap,
    no iterators.  [-3] compares with its copies of the last snapshot, which it
    updates.  The snappers compute these functions on any book that can be looked
    at. *)

From Stdlib Require Import ZArith Lia.
From stdpp Require Import prelude list gmap.
From stdpp Require Import options.
From S2P Require Import Prelude Decimal Dfp754D64 Btree BtreeLeaf BtreeIter BtreeSide BtreeCursor Books.
From S2P Require Import BooksLoops BooksSpec Xquo Book2book Booksnap BooksnapSpec.

Local Open Scope Z_scope.

Abbreviation snapped := (option (list (list Z))).

Section snap.
Variable garbage : leftover.
Variable opts : snap_opts.
Implicit Types (B : sides) (m : Z) (cont : option (list Z)).

(** [-1]: the best levels in one line, or one line each. *)
Definition snap1_lines m cont B : snapped :=
  let b := top_of BOOK_SIDE_BID (B true) in
  let a := top_of BOOK_SIDE_ASK (B false) in
  l ← snap_c1 m cont (dtrue (qq b)) (dtrue (qq a)) true true b a;
  Some [l].

Definition top_lines (pfx : list Z) (q : book_quo) : snapped :=
  if dgt (qq q) dzero then l ← snap_level pfx (qp q) (qq q); Some [l] else Some [].

Definition snap12_lines m cont B : snapped :=
  pfx ← level_prefix m cont 49;
  bl ← top_lines pfx (top_of BOOK_SIDE_BID (B true));
  al ← top_lines (to_asks pfx) (top_of BOOK_SIDE_ASK (B false));
  Some (bl ++ al).

(** [-N]: levels of both sides side by side. *)
Definition cns_lines m cont (b a : list (dec * dec)) : snapped :=
  pfx ← cn_prefix m cont; snap_cns (nlevels (sntop opts) (length b) (length a)) 0 pfx b a.

Definition snapn_lines m cont B : snapped :=
  cns_lines m cont (tops_of (sntop opts) (B true)) (tops_of (sntop opts) (B false)).

(** [-C]: consolidated sides. *)
Definition snapc_lines (top : Z -> list level -> option book_quo) m cont B : snapped :=
  b ← top BOOK_SIDE_BID (B true);
  a ← top BOOK_SIDE_ASK (B false);
  l ← snap_c1 m cont (dtrue (qq b)) (dtrue (qq a)) (dtrue (qq b)) (dtrue (qq a)) b a;
  Some [l].

Definition snapcn_lines (tops : list level -> option (list (dec * dec))) m cont B : snapped :=
  b ← tops (B true);
  a ← tops (B false);
  cns_lines m cont b a.

Definition sctop (s : Z) : list level -> option book_quo := ctop_of px_cast64 quantized64 s (scqty opts).
Definition svtop (s : Z) : list level -> option book_quo := vtop_of px_cast64 quantized64 s (scqty opts).
Definition sctops (L : list level) : option (list (dec * dec)) :=
  ctops_of px_cast64 quantized64 (sntop opts) L None dzero dzero (scqty opts) (scqty opts).
Definition svtops (L : list level) : option (list (dec * dec)) :=
  vtops_of px_cast64 quantized64 (sntop opts) L None dzero dzero (scqty opts) (scqty opts).

(** [-3]: the levels against those of the last snapshot; the arrays [pp], [qp] hold
    [bn] of them. *)
Fixpoint diff_lines (better : dec -> dec -> bool) (pfx : list Z) (L : list level)
    (pp qp : list dec) (bi bn : nat) (acc : list (list Z)) : snapped :=
  match L with
  | [] => Some acc
  | e :: L =>
    '(bi, acc) ← snap3_again (S (S bn)) better pfx e.1 (vq e.2) pp qp bi bn acc;
    diff_lines better pfx L pp qp bi bn acc
  end.

(** A side is copied. *)
Fixpoint copied (L : list level) (bi : nat) (P Q : list dec) : option (nat * list dec * list dec) :=
  match L with
  | [] => Some (bi, P, Q)
  | e :: L => '(P, Q) ← grow_store garbage bi e.1 (vq e.2) P Q; copied L (S bi) P Q
  end.

Definition copied_book (x : snap3_aux_t) B : option snap3_aux_t :=
  '(n, P, Q) ← copied (B true) 0 (ab x) (aB x);
  '(m, P', Q') ← copied (B false) 0 (aa x) (aA x);
  Some (mk_aux n m P P' Q Q').

Definition snap3_lines m cont (x : snap3_aux_t) B : option (list (list Z) * snap3_aux_t) :=
  pfx ← level_prefix m cont 50;
  bl ← diff_lines dgt pfx (B true) (ab x) (aB x) 0 (bn x) [];
  al ← diff_lines dlt (to_asks pfx) (B false) (aa x) (aA x) 0 (an x) [];
  x ← copied_book x B;
  Some (bl ++ al, x).

(** The lines of a book at time [m], [-3] apart. *)
Definition lines_of m cont B : snapped :=
  match snap opts with
  | SNAP1 => snap1_lines m cont B
  | SNAP12 => snap12_lines m cont B
  | SNAP2 => snap2_lines m cont B
  | SNAP3 => None
  | SNAPN => snapn_lines m cont B
  | SNAPC => snapc_lines sctop m cont B
  | SNAPCN => snapcn_lines sctops m cont B
  | SNAPV => snapc_lines svtop m cont B
  | SNAPVN => snapcn_lines svtops m cont B
  end.

(** The lines of the book in row [k], and the copies kept. *)
Definition shot m cont (k : nat) (X : list snap3_aux_t) B : option (list (list Z) * list snap3_aux_t) :=
  match snap opts with
  | SNAP3 =>
    X ← snap3_resize k X;
    x ← X !! k;
    '(ls, x) ← snap3_lines m cont x B;
    X ← store k x X;
    Some (ls, X)
  | _ => ls ← lines_of m cont B; Some (ls, X)
  end.

(** ** The snappers compute it *)

Section shown.
#[local] Set Default Proof Using "Type*".
Context (ctz0 : nat) {V : bheap -> book_t -> sides -> Prop} `{HV : !Shown ctz0 V}.

Definition snaps (run : option snap_out) (ref : snapped) (b : book_t) (B : sides) : Prop :=
  match ref with
  | Some ls => ∃ h', run = Some (h', ls) ∧ V h' b B
  | None => run = None
  end.

(** Both sides are asked, then lines are written. *)
Lemma snap_two {T} (run : bheap -> Z -> option (bheap * T)) (ref : Z -> list level -> option T)
    (out : T -> T -> snapped) h b B :
  (∀ h s, two_sided s -> V h b B -> answers (V := V) (run h s) (ref s (B (dir s))) b B) -> V h b B ->
  snaps ('(h, x) ← run h BOOK_SIDE_BID; '(h, y) ← run h BOOK_SIDE_ASK; ls ← out x y; Some (h, ls))
        (x ← ref BOOK_SIDE_BID (B true); y ← ref BOOK_SIDE_ASK (B false); out x y) b B.
Proof.
  intros Hq Hb. unfold snaps. pose proof (Hq h BOOK_SIDE_BID (or_intror eq_refl) Hb) as H1.
  change (dir BOOK_SIDE_BID) with true in H1.
  destruct (ref BOOK_SIDE_BID (B true)) as [x|]; bstep; [|by rewrite H1].
  destruct H1 as (h1 & H1 & Hb1). brun H1.
  pose proof (Hq h1 BOOK_SIDE_ASK (or_introl eq_refl) Hb1) as H2. change (dir BOOK_SIDE_ASK) with false in H2.
  destruct (ref BOOK_SIDE_ASK (B false)) as [y|]; bstep; [|by rewrite H2].
  destruct H2 as (h2 & H2 & Hb2). brun H2. destruct (out x y); bstep; [|done]. by exists h2.
Qed.

Lemma ask_top b B h s : two_sided s -> V h b B -> answers (V := V) (book_top ctz0 h b s) (Some (top_of s (B (dir s)))) b B.
Proof. intros Hs Hb. by apply book_top_correct. Qed.

Lemma ask_tops n b B h s :
  two_sided s -> V h b B -> answers (V := V) (book_tops ctz0 h b s n) (Some (tops_of n (B (dir s)))) b B.
Proof. intros Hs Hb. by apply book_tops_run. Qed.

(** The same result through another way to write it. *)
Lemma snaps_eq run run' ref ref' b B : snaps run ref b B -> run' = run -> ref' = ref -> snaps run' ref' b B.
Proof. by intros ? -> ->. Qed.

Lemma snap1_snaps h b m cont B : V h b B -> snaps (snap1 ctz0 h b m cont) (snap1_lines m cont B) b B.
Proof.
  intros Hb. eapply snaps_eq.
  - apply (snap_two (λ h s, book_top ctz0 h b s) (λ s L, Some (top_of s L))
      (λ x y, l ← snap_c1 m cont (dtrue (qq x)) (dtrue (qq y)) true true x y; Some [l])); [|exact Hb].
    intros h0 s. apply ask_top.
  - unfold snap1. destruct (book_top _ h _ _) as [[h1 x]|]; bstep; [|done].
    destruct (book_top _ h1 _ _) as [[h2 y]|]; bstep; [|done]. by destruct (snap_c1 _ _ _ _ _ _ _ _).
  - done.
Qed.

Lemma snapn_snaps h b m cont B : V h b B -> snaps (snapn ctz0 opts h b m cont) (snapn_lines m cont B) b B.
Proof.
  intros Hb. eapply snaps_eq.
  - apply (snap_two (λ h s, book_tops ctz0 h b s (sntop opts)) (λ _ L, Some (tops_of (sntop opts) L))
      (cns_lines m cont)); [|exact Hb]. intros h0 s. apply ask_tops.
  - unfold snapn, cns_lines. destruct (book_tops _ h _ _ _) as [[h1 x]|]; bstep; [|done].
    destruct (book_tops _ h1 _ _ _) as [[h2 y]|]; bstep; [|done]. by destruct (cn_prefix m cont).
  - done.
Qed.

Lemma snapc_snaps run top h b m cont B :
  (∀ h s, two_sided s -> V h b B -> answers (V := V) (run h b s (scqty opts)) (top s (B (dir s))) b B) ->
  V h b B -> snaps (snapc_with opts run h b m cont) (snapc_lines top m cont B) b B.
Proof.
  intros Hq Hb. eapply snaps_eq.
  - apply (snap_two (λ h s, run h b s (scqty opts)) top (λ x y, l ← snap_c1 m cont (dtrue (qq x))
      (dtrue (qq y)) (dtrue (qq x)) (dtrue (qq y)) x y; Some [l])); [exact Hq|exact Hb].
  - unfold snapc_with. destruct (run h _ _ _) as [[h1 x]|]; bstep; [|done].
    destruct (run h1 _ _ _) as [[h2 y]|]; bstep; [|done]. by destruct (snap_c1 _ _ _ _ _ _ _ _).
  - done.
Qed.

Lemma snapcn_snaps run tops h b m cont B :
  (∀ h s, two_sided s -> V h b B ->
    answers (V := V) (run h b s (scqty opts) (sntop opts)) (tops (B (dir s))) b B) ->
  V h b B -> snaps (snapcn_with opts run h b m cont) (snapcn_lines tops m cont B) b B.
Proof.
  intros Hq Hb. eapply snaps_eq.
  - apply (snap_two (λ h s, run h b s (scqty opts) (sntop opts)) (λ _, tops) (cns_lines m cont));
      [exact Hq|exact Hb].
  - unfold snapcn_with, cns_lines. destruct (run h _ _ _ _) as [[h1 x]|]; bstep; [|done].
    destruct (run h1 _ _ _ _) as [[h2 y]|]; bstep; [|done]. by destruct (cn_prefix m cont).
  - done.
Qed.

Lemma snap12_snaps h b m cont B : V h b B -> snaps (snap12 ctz0 h b m cont) (snap12_lines m cont B) b B.
Proof.
  intros Hb. unfold snaps, snap12, snap12_lines. destruct (level_prefix m cont 49) as [pfx|]; bstep; [|done].
  destruct (book_top_correct ctz0 h b B BOOK_SIDE_BID) as (h1 & H1 & Hb1); [by right|done|]. brun H1.
  change (dir BOOK_SIDE_BID) with true. fold (top_lines pfx (top_of BOOK_SIDE_BID (B true))).
  destruct (top_lines pfx _) as [bl|]; bstep; [|done].
  destruct (book_top_correct ctz0 h1 b B BOOK_SIDE_ASK) as (h2 & H2 & Hb2); [by left|done|]. brun H2.
  change (dir BOOK_SIDE_ASK) with false. fold (top_lines (to_asks pfx) (top_of BOOK_SIDE_ASK (B false))).
  destruct (top_lines (to_asks pfx) _) as [al|]; bstep; [|done]. by exists h2.
Qed.

Lemma snap2_snaps h b m cont B : V h b B -> snaps (snap2 ctz0 h b m cont) (snap2_lines m cont B) b B.
Proof.
  intros Hb. unfold snaps. destruct (snap2_lines_run ctz0 h b B m cont Hb) as (h' & -> & Hb').
  destruct (snap2_lines m cont B); bstep; [|done]. by exists h'.
Qed.

Lemma snap3_loop_drain fuel h i better pfx pp qp bi bn acc h' L :
  drain ctz0 fuel h i = Some (h', L) ->
  snap3_loop ctz0 fuel better h i pfx pp qp bi bn acc = ls ← diff_lines better pfx L pp qp bi bn acc; Some (h', ls).
Proof.
  revert h i bi acc L. induction fuel as [|fuel IH]; intros h i bi acc L; cbn [drain snap3_loop]; [done|].
  destruct (book_iter_next ctz0 h i) as [[[h1 i1] [v|]]|]; bstep; [| |done].
  - destruct (drain ctz0 fuel h1 i1) as [[h2 L2]|] eqn:E; bstep; [|done].
    intros [= <- <-]. cbn [diff_lines fst snd].
    destruct (snap3_again _ _ _ _ _ _ _ _ _ _) as [[bi' acc']|]; bstep; [|done]. by apply IH.
  - by intros [= <- <-].
Qed.

Lemma snap3_copy_drain fuel h i bi P Q h' L :
  drain ctz0 fuel h i = Some (h', L) ->
  snap3_copy ctz0 garbage fuel h i bi P Q = '(n, P, Q) ← copied L bi P Q; Some (h', n, P, Q).
Proof.
  revert h i bi P Q L. induction fuel as [|fuel IH]; intros h i bi P Q L; cbn [drain snap3_copy]; [done|].
  destruct (book_iter_next ctz0 h i) as [[[h1 i1] [v|]]|]; bstep; [| |done].
  - destruct (drain ctz0 fuel h1 i1) as [[h2 L2]|] eqn:E; bstep; [|done].
    intros [= <- <-]. cbn [copied fst snd].
    destruct (grow_store _ _ _ _ _ _) as [[P' Q']|]; bstep; [|done]. by apply IH.
  - by intros [= <- <-].
Qed.

Lemma snap3_run h b m cont x B :
  V h b B ->
  match snap3_lines m cont x B with
  | Some (ls, x') => ∃ h', snap3 ctz0 garbage h b m cont x = Some (h', ls, x') ∧ V h' b B
  | None => snap3 ctz0 garbage h b m cont x = None
  end.
Proof.
  intros Hb. unfold snap3, snap3_lines, snap3_book, copied_book.
  destruct (level_prefix m cont 50) as [pfx|]; bstep; [|done].
  destruct (book_drain ctz0 h b B BOOK_SIDE_BID (or_intror eq_refl) Hb) as (i1 & h1 & Hi1 & Hd1 & Hb1).
  destruct (book_drain ctz0 h1 b B BOOK_SIDE_ASK (or_introl eq_refl) Hb1) as (i2 & h2 & Hi2 & Hd2 & Hb2).
  destruct (book_drain ctz0 h2 b B BOOK_SIDE_BID (or_intror eq_refl) Hb2) as (i3 & h3 & Hi3 & Hd3 & Hb3).
  destruct (book_drain ctz0 h3 b B BOOK_SIDE_ASK (or_introl eq_refl) Hb3) as (i4 & h4 & Hi4 & Hd4 & Hb4).
  assert (i3 = i1) as -> by congruence. assert (i4 = i2) as -> by congruence.
  change (dir BOOK_SIDE_BID) with true in *. change (dir BOOK_SIDE_ASK) with false in *.
  brun Hi1. rewrite (snap3_loop_drain _ _ _ _ _ _ _ _ _ _ _ _ Hd1).
  destruct (diff_lines dgt _ _ _ _ _ _ _) as [bl|]; bstep; [|done].
  brun Hi2. rewrite (snap3_loop_drain _ _ _ _ _ _ _ _ _ _ _ _ Hd2).
  destruct (diff_lines dlt _ _ _ _ _ _ _) as [al|]; bstep; [|done].
  rewrite (snap3_copy_drain _ _ _ _ _ _ _ _ Hd3).
  destruct (copied (B true) _ _ _) as [[[n P] Q]|]; bstep; [|done].
  rewrite (snap3_copy_drain _ _ _ _ _ _ _ _ Hd4).
  destruct (copied (B false) _ _ _) as [[[n' P'] Q']|]; bstep; [|done]. by exists h4.
Qed.
End shown.

(** The snapper of a mode. *)
Definition snapper (ctz0 : nat) (h : bheap) (b : book_t) m cont : option snap_out :=
  match snap opts with
  | SNAP1 => snap1 ctz0 h b m cont
  | SNAP12 => snap12 ctz0 h b m cont
  | SNAP2 => snap2 ctz0 h b m cont
  | SNAP3 => None
  | SNAPN => snapn ctz0 opts h b m cont
  | SNAPC => snapc ctz0 opts h b m cont
  | SNAPCN => snapcn ctz0 opts h b m cont
  | SNAPV => snapv ctz0 opts h b m cont
  | SNAPVN => snapvn ctz0 opts h b m cont
  end.

Lemma snapper_snaps ctz0 {V} `{HV : !Shown ctz0 V} h b m cont B :
  V h b B -> snaps (V := V) (snapper ctz0 h b m cont) (lines_of m cont B) b B.
Proof.
  intros Hb. unfold snapper, lines_of. destruct (snap opts).
  - by apply snap1_snaps.
  - by apply snap12_snaps.
  - by apply snap2_snaps.
  - done.
  - by apply snapn_snaps.
  - apply (snapc_snaps ctz0); [|done]. intros h0 s Hs Hb0.
    exact (book_ctop_run ctz0 px_cast64 quantized64 h0 b B s (scqty opts) Hs Hb0).
  - apply (snapcn_snaps ctz0); [|done]. intros h0 s Hs Hb0.
    exact (book_ctops_run ctz0 px_cast64 quantized64 h0 b B s (scqty opts) (sntop opts) Hs Hb0).
  - apply (snapc_snaps ctz0); [|done]. intros h0 s Hs Hb0.
    exact (book_vtop_correct ctz0 px_cast64 quantized64 h0 b B s (scqty opts) Hs Hb0).
  - apply (snapcn_snaps ctz0); [|done]. intros h0 s Hs Hb0.
    exact (book_vtops_run ctz0 px_cast64 quantized64 h0 b B s (scqty opts) (sntop opts) Hs Hb0).
Qed.

(** [snap_book]: expiry, then the lines. *)
Definition shot_taken (st : snap_state) (h : bheap) (X : list snap3_aux_t) (o : list Z) : snap_state :=
  mk_snap h (sconx st) (scont st) (sbooks st) (snbook st) (szbook st)
          (snctch st) (metr st) (oldm st) (stamps st) X (sout st ++ o).

Lemma snap_book_shot ctz0 {V} `{HV : !Shown ctz0 V} st k b cont h B :
  sbooks st !! k = Some b -> scont st !! k = Some cont ->
  book_exp ctz0 (sheap st) b (expiry opts (metr st)) = Some h -> V h b B ->
  match shot (metr st) cont k (aux st) B with
  | Some (ls, X) => ∃ h', snap_book ctz0 garbage opts st k = Some (shot_taken st h' X (concat ls)) ∧ V h' b B
  | None => snap_book ctz0 garbage opts st k = None
  end.
Proof.
  intros Hk Hc Hexp HVb. unfold snap_book, shot. brun Hk. brun Hc. unfold expiry in Hexp. brun Hexp.
  pose proof (snapper_snaps ctz0 h b (metr st) cont B HVb) as Hs. unfold snaps, snapper in Hs.
  destruct (snap opts); try (destruct (lines_of (metr st) cont B) as [ls|]; bstep;
    [destruct Hs as (h' & Hrun & HV'); brun Hrun; by exists h'|by rewrite Hs]).
  destruct (snap3_resize k (aux st)) as [X|]; bstep; [|done].
  destruct (X !! k) as [x|]; bstep; [|done].
  pose proof (snap3_run ctz0 h b (metr st) cont x B HVb) as H3.
  destruct (snap3_lines _ _ x B) as [[ls x']|]; bstep; [|by rewrite H3].
  destruct H3 as (h' & Hrun & HV'). brun Hrun. destruct (store k x' X); bstep; [by exists h'|done].
Qed.
End snap.
