(* ===== verification/BooksnapDiff.v ===== *)
(** * booksnap.c: what [-3] writes

    The levels of a book against the copies of the last snapshot.  While no level
    has vanished, each level is written once, with the change of its quantity; the
    copies are the levels of the book afterwards.  A level right behind one that has
    vanished is not written. *)

From Stdlib Require Import ZArith Lia.
From stdpp Require Import prelude list gmap.
From stdpp Require Import options.
From S2P Require Import Prelude Decimal Dfp754D64 Btree BtreeLeaf BtreeIter BtreeSide BtreeCursor Books.
From S2P Require Import BtreeTheorems BooksLoops BooksSpec BooksExamples Xquo Book2book Booksnap BooksnapSpec BooksnapPrint.

Local Open Scope Z_scope.

(** ** Reference definitions *)

(** A price and a quantity. *)
Abbreviation pq := (dec * dec)%type.

Definition pq_of (e : level) : pq := (e.1, vq e.2).

(** The quantity that was there at a price. *)
Fixpoint was (p : dec) (C : list pq) : option dec :=
  match C with [] => None | x :: C => if deq p x.1 then Some x.2 else was p C end.

(** A level is written with its change, or whole if it is new. *)
Definition change (C : list pq) (e : level) : pq :=
  (e.1, match was e.1 C with Some q => dsub (vq e.2) q | None => vq e.2 end).

Definition change_lines (pfx : list Z) (L : list level) (C : list pq) : snapped :=
  mapM (λ e, snap_level pfx (change C e).1 (change C e).2) L.

(** The arrays [P], [Q] hold the [k] levels [C], with room behind them. *)
Definition copy_of (P Q : list dec) (k : nat) (C : list pq) : Prop :=
  k = length C ∧ length P = length Q ∧ C.*1 `prefix_of` P ∧ C.*2 `prefix_of` Q.

(** No copied level has vanished, and what lies behind the copies beats no level. *)
Definition all_kept (d : bool) (L : list level) (P : list dec) (C : list pq) : Prop :=
  C = [] ∨ Forall (λ x : pq, ∃ e, e ∈ L ∧ deq e.1 x.1 = true) C ∧
  ∃ z, P !! length C = Some z ∧ Forall (λ e, before d z e.1 = false) L.

(** ** One side *)

Section side.
Variable d : bool.
Implicit Types (e : level) (x : pq) (L : list level) (C : list pq) (P Q : list dec) (pfx : list Z).

(** Where the keys of levels are on the number line. *)
Lemma sorted_beyond {B} (y : Z) (M : list (dec * B)) :
  ksorted d (Some y) M.*1 -> Forall (λ m, ∃ a, ord d m.1 = Some a ∧ y < a) M.
Proof.
  intros Hs. apply Forall_forall. intros m Hm. apply (list_elem_of_fmap_2 fst) in Hm as [i Hi]%list_elem_of_lookup.
  destruct (ksorted_lookup _ _ _ _ _ Hs Hi) as (a & Ha & Hlt). exists a. split; [done|by apply Hlt].
Qed.

Lemma ord_deq (p p' : dec) a b : ord d p = Some a -> ord d p' = Some b -> deq p p' = (a =? b).
Proof. intros Hp Hx. exact (keq_spec d p p' b a Hx Hp). Qed.

(** Prices with their places: those of a sorted side that are not behind [y]. *)
Lemma was_skip e x C y z :
  ord d x.1 = Some y -> ord d e.1 = Some z -> y < z -> was e.1 (x :: C) = was e.1 C.
Proof.
  intros Hx He Hlt. cbn [was]. rewrite (ord_deq _ _ _ _ He Hx). by rewrite (proj2 (Z.eqb_neq _ _)) by lia.
Qed.

Lemma was_ahead e C y z :
  ord d e.1 = Some z -> ksorted d (Some y) C.*1 -> z <= y -> was e.1 C = None.
Proof.
  revert y. induction C as [|x C IH]; intros y He Hs Hle; [done|].
  cbn [fmap list_fmap] in Hs. inversion_clear Hs as [|? ? a ? Ha Hlt Hs']. specialize (Hlt _ eq_refl).
  cbn [was]. rewrite (ord_deq _ _ _ _ He Ha), (proj2 (Z.eqb_neq _ _)) by lia. apply (IH a); [done..|lia].
Qed.

(** A level that is not behind the copies keeps none of them. *)
Lemma kept_behind e L C y z :
  ord d e.1 = Some z -> ksorted d (Some y) C.*1 -> z <= y ->
  Forall (λ x, ∃ e', e' ∈ e :: L ∧ deq e'.1 x.1 = true) C -> Forall (λ x, ∃ e', e' ∈ L ∧ deq e'.1 x.1 = true) C.
Proof.
  intros Hz Hs Hle Hk. apply sorted_beyond in Hs. rewrite Forall_forall in Hs, Hk |- *. intros x Hx.
  destruct (Hs _ Hx) as (a & Ha & Hlt), (Hk _ Hx) as (e' & He & Hd). apply elem_of_cons in He as [->|He]; [|by exists e'].
  rewrite (ord_deq _ _ _ _ Hz Ha) in Hd. lia.
Qed.

(** What is left of the copies behind a level. *)
Definition rest e C : list pq :=
  match C with x :: C' => if deq e.1 x.1 then C' else C | [] => [] end.

(** Where the loop stands: at the [bi]th of [bn] copies, [C] to come, and
    behind them a cell that beats no level. *)
Definition stands (pp qp : list dec) (bi bn : nat) C L : Prop :=
  bn = (bi + length C)%nat ∧
  (C = [] ∨ ∃ z P Q, drop bi pp = C.*1 ++ z :: P ∧ drop bi qp = C.*2 ++ Q ∧
                     Forall (λ e, before d z e.1 = false) L).

Lemma again_kept fuel pfx pp qp bi bn acc e L C b b' :
  ksorted d b (e :: L).*1 -> ksorted d b' C.*1 ->
  Forall (λ x, ∃ e', e' ∈ e :: L ∧ deq e'.1 x.1 = true) C -> stands pp qp bi bn C (e :: L) ->
  snap3_again (S fuel) (before d) pfx e.1 (vq e.2) pp qp bi bn acc =
    (l ← snap_level pfx (change C e).1 (change C e).2; Some ((bn - length (rest e C))%nat, acc ++ [l])) ∧
  stands pp qp (bn - length (rest e C)) bn (rest e C) L ∧
  Forall (λ x, ∃ e', e' ∈ L ∧ deq e'.1 x.1 = true) (rest e C) ∧
  Forall (λ e', was e'.1 C = was e'.1 (rest e C)) L.
Proof.
  intros HL HC Hkept [-> Hst]. cbn [fmap list_fmap] in HL. inversion_clear HL as [|? ? z ? Hz _ HL'].
  destruct C as [|x C].
  { cbn [rest length]. rewrite Nat.add_0_r, Nat.sub_0_r. cbn [snap3_again]. rewrite Nat.leb_refl, Nat.ltb_irrefl.
    unfold change. cbn [was fst snd]. split; [|split; [split; [cbn; lia|by left]|split; [done|by apply Forall_true]]].
    bstep. by destruct (snap_level _ _ _). }
  destruct Hst as [|(w & P & Q & Hp & Hq & Hw)]; [done|]. apply Forall_cons in Hw as [Hwe Hw].
  cbn [fmap list_fmap] in HC. inversion_clear HC as [|? ? y ? Hy _ HC'].
  assert (ksorted d (Some (y - 1)) (x :: C).*1) as HC1.
  { cbn [fmap list_fmap]. econstructor; [done| |done]. intros ? [= <-]. lia. }
  assert (pp !! bi = Some x.1) as Hpp by (by rewrite <- (Nat.add_0_r bi), <- lookup_drop, Hp).
  assert (qp !! bi = Some x.2) as Hqp by (by rewrite <- (Nat.add_0_r bi), <- lookup_drop, Hq).
  assert (bi <? bi + length (x :: C) = true)%nat as Hlt by (apply Nat.ltb_lt; cbn; lia).
  assert (bi + length (x :: C) <=? bi = false)%nat as Hle by (apply Nat.leb_gt; cbn; lia).
  cbn [snap3_again]. rewrite Hlt, Hle, Hpp, Hqp. bstep. unfold change. cbn [rest fst snd].
  rewrite (ord_deq _ _ _ _ Hz Hy). destruct (Z.eqb_spec z y) as [->|Hne]; cbn [fst snd orb].
  - assert (∃ p, pp !! S bi = Some p ∧ before d p e.1 = false) as (p & Hx1 & Hb1).
    { rewrite <- (Nat.add_1_r bi), <- lookup_drop, Hp. destruct C as [|x1 C]; [by exists w|].
      exists x1.1. split; [done|]. cbn [fmap list_fmap] in HC'. inversion_clear HC' as [|? ? a ? Ha Hya _].
      rewrite (before_spec _ _ _ _ _ Ha Hz). specialize (Hya _ eq_refl). lia. }
    assert (was e.1 (x :: C) = Some x.2) as -> by (cbn [was]; by rewrite (ord_deq _ _ _ _ Hz Hy), Z.eqb_refl).
    replace (bi + length (x :: C) - length C)%nat with (S bi) by (cbn; lia).
    split; [bstep; destruct (snap_level _ _ _); bstep; [by rewrite Hx1; bstep; rewrite Hb1|done]|]. split_and!.
    + split; [cbn; lia|]. right. exists w, P, Q. split_and!; [| |done].
      * by rewrite <- (Nat.add_1_r bi), <- drop_drop, Hp.
      * by rewrite <- (Nat.add_1_r bi), <- drop_drop, Hq.
    + apply Forall_cons in Hkept as [_ Hkept]. by eapply kept_behind.
    + apply sorted_beyond in HL'. eapply Forall_impl; [exact HL'|]. intros e' (a & Ha & Hya).
      by eapply was_skip.
  - assert (z < y) as Hzy.
    { apply Forall_cons in Hkept as [(e' & He & Hd) _]. apply sorted_beyond in HL'.
      apply elem_of_cons in He as [->|He]; [rewrite (ord_deq _ _ _ _ Hz Hy) in Hd; lia|].
      rewrite Forall_forall in HL'. destruct (HL' _ He) as (a & Ha & Hza).
      rewrite (ord_deq _ _ _ _ Ha Hy) in Hd. lia. }
    rewrite (before_spec _ _ _ _ _ Hz Hy), (before_spec _ _ _ _ _ Hy Hz).
    rewrite (proj2 (Z.ltb_lt z y)), (proj2 (Z.ltb_ge y z)) by lia.
    replace (bi + length (x :: C) - length (x :: C))%nat with bi by lia.
    rewrite (was_ahead e (x :: C) (y - 1) z) by (done || lia).
    split; [bstep; by destruct (snap_level _ _ _)|]. split_and!.
    + split; [done|]. right. by exists w, P, Q.
    + eapply kept_behind; [exact Hz|exact HC1|lia|done].
    + by apply Forall_true.
Qed.

Lemma change_lines_ext pfx L C C' :
  Forall (λ e, was e.1 C = was e.1 C') L -> change_lines pfx L C = change_lines pfx L C'.
Proof.
  induction 1 as [|e L He _ IH]; [done|]. unfold change_lines in *. cbn [mapM]. rewrite IH.
  unfold change. by rewrite He.
Qed.

Lemma diff_kept pfx pp qp bi bn acc L C b b' :
  ksorted d b L.*1 -> ksorted d b' C.*1 ->
  Forall (λ x, ∃ e, e ∈ L ∧ deq e.1 x.1 = true) C -> stands pp qp bi bn C L ->
  diff_lines (before d) pfx L pp qp bi bn acc = ls ← change_lines pfx L C; Some (acc ++ ls).
Proof.
  revert bi acc C b b'. induction L as [|e L IH]; intros bi acc C b b' HL HC Hk Hst.
  { cbn. by rewrite app_nil_r. }
  cbn [diff_lines]. destruct (again_kept (S bn) pfx pp qp bi bn acc e L C b b' HL HC Hk Hst) as (Hrun & Hst' & Hk' & Hw).
  unfold change_lines in *. cbn [mapM]. rewrite Hrun. destruct (snap_level _ _ _) as [l|]; bstep; [|done].
  assert (∃ b1, ksorted d b1 (rest e C).*1) as [b1 HC'].
  { exists None. destruct C as [|x C]; [constructor|]. cbn [rest]. destruct (deq e.1 x.1); [|by eapply ksorted_None].
    cbn [fmap list_fmap] in HC. inversion_clear HC. by eapply ksorted_None. }
  assert (∃ b2, ksorted d b2 L.*1) as [b2 HL'].
  { cbn [fmap list_fmap] in HL. inversion_clear HL. by eexists. }
  rewrite (IH _ _ _ _ _ HL' HC' Hk' Hst'). fold (change_lines pfx L (rest e C)) (change_lines pfx L C).
  rewrite <- (change_lines_ext pfx L C (rest e C)) by done.
  destruct (change_lines pfx L C); bstep; [|done]. by rewrite <- app_assoc.
Qed.

(** A side against its copies. *)
Lemma side_kept pfx P Q n L C :
  ksorted d None L.*1 -> ksorted d None C.*1 -> copy_of P Q n C -> all_kept d L P C ->
  diff_lines (before d) pfx L P Q 0 n [] = change_lines pfx L C.
Proof.
  intros HL HC (-> & Hl & [P' ->] & [Q' ->]) Hk.
  rewrite (diff_kept pfx _ _ 0 (length C) [] L C None None HL HC).
  - by destruct (change_lines pfx L C).
  - by destruct Hk as [->|[Hk _]].
  - split; [done|]. destruct Hk as [Hk|(_ & z & Hz & Hb)]; [by left|right].
    rewrite lookup_app_r, length_fmap, Nat.sub_diag in Hz by (by rewrite length_fmap).
    destruct P' as [|? P']; [done|]. injection Hz as ->. by exists z, P', Q'.
Qed.

(** ** Where it goes wrong *)

(** Behind a level that has vanished, a level that the next copy does not beat
    is not written. *)
Lemma again_skips fuel pfx (ip iq : dec) pp qp bi bn acc (p q p' : dec) :
  (bi < bn)%nat -> pp !! bi = Some p -> qp !! bi = Some q -> pp !! S bi = Some p' ->
  before d p ip = true -> before d p' ip = false ->
  snap3_again (S fuel) (before d) pfx ip iq pp qp bi bn acc =
    l ← snap_level pfx p (dneg q); Some (S bi, acc ++ [l]).
Proof.
  intros Hlt Hp Hq Hp' Hv Hb. cbn [snap3_again].
  assert (deq ip p = false ∧ before d ip p = false) as [Hd Hi].
  { revert Hv. unfold deq, before, kgt, klt. cbn. destruct (drank ip), (drank p), d; try done; lia. }
  rewrite (proj2 (Nat.ltb_lt _ _) Hlt), (proj2 (Nat.leb_gt _ _) Hlt), Hp, Hq. bstep. rewrite Hd, Hi, Hv. bstep.
  destruct (snap_level pfx p (dneg q)); bstep; [|done]. cbn [orb]. by rewrite Hp'; bstep; rewrite Hb.
Qed.
End side.

(** ** The copies *)

Lemma grow_store_copy garbage k p q P Q (C : list pq) :
  copy_of P Q k C ->
  ∃ P' Q', grow_store garbage k p q P Q = Some (P', Q') ∧ copy_of P' Q' (S k) (C ++ [(p, q)]).
Proof.
  intros (-> & Hl & [P0 ->] & [Q0 ->]). rewrite !length_app, !length_fmap in Hl.
  pose (nz := λ z : nat, if (z * 2 =? 0)%nat then 32%nat else (z * 2)%nat).
  assert (∃ n, nz (length C) - length C = S n)%nat as [n Hn].
  { exists (nz (length C) - length C - 1)%nat. subst nz. cbn beta. destruct (Nat.eqb_spec (length C * 2) 0); lia. }
  assert (∃ a b P1 Q1, length P1 = length Q1 ∧
    (if (length (C.*1 ++ P0) <=? length C)%nat
     then ((C.*1 ++ P0) ++ (garbage (C.*1 ++ P0) <$> seq (length (C.*1 ++ P0)) (nz (length (C.*1 ++ P0)) - length (C.*1 ++ P0))),
           (C.*2 ++ Q0) ++ (garbage (C.*2 ++ Q0) <$> seq (length (C.*1 ++ P0)) (nz (length (C.*1 ++ P0)) - length (C.*1 ++ P0))))
     else (C.*1 ++ P0, C.*2 ++ Q0)) = (C.*1 ++ a :: P1, C.*2 ++ b :: Q1)) as (a & b & P1 & Q1 & Hl1 & Hg).
  { rewrite !length_app, !length_fmap. destruct P0 as [|a P0], Q0 as [|b Q0]; cbn [length] in *; try lia.
    - rewrite (proj2 (Nat.leb_le _ _)), Nat.add_0_r, !app_nil_r, Hn by lia. cbn [seq fmap list_fmap]. eexists _, _, _, _. split; [|done]. by rewrite !length_fmap.
    - rewrite (proj2 (Nat.leb_gt _ _)) by lia. exists a, b, P0, Q0. split; [lia|done]. }
  unfold grow_store. cbv zeta. unfold nz in Hg. rewrite Hg. unfold store.
  rewrite !decide_True by (rewrite length_app, length_fmap; cbn; lia). bstep.
  rewrite !insert_app_r_alt by (by rewrite length_fmap). rewrite !length_fmap, Nat.sub_diag. cbn [insert list_insert].
  eexists _, _. split; [done|]. unfold copy_of. rewrite !length_app, !fmap_app, !length_fmap. cbn.
  split_and!; [lia|lia|by exists P1; rewrite <- app_assoc|by exists Q1; rewrite <- app_assoc].
Qed.

Lemma copied_copy garbage (L : list level) k P Q (C : list pq) :
  copy_of P Q k C ->
  ∃ P' Q' n, copied garbage L k P Q = Some (n, P', Q') ∧ copy_of P' Q' n (C ++ (pq_of <$> L)).
Proof.
  revert k P Q C. induction L as [|e L IH]; intros k P Q C HC; cbn [copied fmap list_fmap].
  { eexists _, _, _. split; [done|]. by rewrite app_nil_r. }
  destruct (grow_store_copy garbage k e.1 (vq e.2) P Q C HC) as (P1 & Q1 & Hrun & HC1). brun Hrun.
  destruct (IH _ _ _ _ HC1) as (P2 & Q2 & n & Hrun2 & HC2). eexists _, _, _. split; [exact Hrun2|].
  by rewrite <- app_assoc in HC2.
Qed.

(** The copies of a book. *)
Definition prices (x : snap3_aux_t) (d : bool) : list dec := if d then ab x else aa x.
Definition quantities (x : snap3_aux_t) (d : bool) : list dec := if d then aB x else aA x.
Definition count (x : snap3_aux_t) (d : bool) : nat := if d then bn x else an x.

Definition copies_of (x : snap3_aux_t) (C : bool -> list pq) : Prop :=
  ∀ d, copy_of (prices x d) (quantities x d) (count x d) (C d).

Lemma no_copies : copies_of aux0 (λ _, []).
Proof. intros []; (split; [done|]); (split; [done|]); split; apply prefix_nil. Qed.

Lemma copies_sizes x C d : copies_of x C -> copy_of (prices x d) (quantities x d) 0 [].
Proof. intros HC. destruct (HC d) as (_ & Hl & _). split; [done|]. split; [done|]. split; apply prefix_nil. Qed.

Lemma copied_book_copies garbage x C (B : sides) :
  copies_of x C ->
  ∃ x', copied_book garbage x B = Some x' ∧ copies_of x' (λ d, pq_of <$> B d).
Proof.
  intros HC. unfold copied_book.
  destruct (copied_copy garbage (B true) 0 (ab x) (aB x) [] (copies_sizes x C true HC)) as (P & Q & n & H1 & HC1).
  destruct (copied_copy garbage (B false) 0 (aa x) (aA x) [] (copies_sizes x C false HC)) as (P' & Q' & m & H2 & HC2).
  brun H1. brun H2. eexists. split; [done|]. by intros [].
Qed.

(** ** A snapshot *)

(** The changes of a book, bids before asks. *)
Definition changes (m : Z) (cont : option (list Z)) (B : sides) (C : bool -> list pq) : snapped :=
  pfx ← level_prefix m cont 50;
  bl ← change_lines pfx (B true) (C true);
  al ← change_lines (to_asks pfx) (B false) (C false);
  Some (bl ++ al).

Section snapshot.
Variable ctz0 : nat.
Variable garbage : leftover.
#[local] Set Default Proof Using "Type*".
Context {V : bheap -> book_t -> sides -> Prop} `{HV : !Shown ctz0 V}.

(** C13: a snapshot under [-3], on any book that can be looked at: if no level of
    the copies has vanished, and what lies behind them beats no level, every level is
    written, once, bids before asks and best price first, with the change of its
    quantity - all of it if the level is new, so that without copies the whole book
    is written - and the copies are the levels of the book afterwards.  The run is
    undefined exactly when a line overruns its buffer. *)
Theorem snap3_correct h b B m cont x C :
  V h b B -> copies_of x C ->
  (∀ d, ksorted d None (B d).*1 ∧ ksorted d None (C d).*1 ∧ all_kept d (B d) (prices x d) (C d)) ->
  match changes m cont B C with
  | Some ls => ∃ h' x', snap3 ctz0 garbage h b m cont x = Some (h', ls, x') ∧ V h' b B ∧
                        copies_of x' (λ d, pq_of <$> B d)
  | None => snap3 ctz0 garbage h b m cont x = None
  end.
Proof.
  intros Hb HC Hs. pose proof (snap3_run garbage ctz0 h b m cont x B Hb) as Hrun.
  destruct (copied_book_copies garbage x C B HC) as (x' & Hx & HC').
  unfold snap3_lines in Hrun. rewrite Hx in Hrun. unfold changes. revert Hrun.
  destruct (Hs true) as (HBb & HCb & Hkb), (Hs false) as (HBa & HCa & Hka).
  destruct (level_prefix m cont 50) as [pfx|]; bstep; [|done].
  pose proof (side_kept true pfx _ _ _ _ (C true) HBb HCb (HC true) Hkb) as H1.
  pose proof (side_kept false (to_asks pfx) _ _ _ _ (C false) HBa HCa (HC false) Hka) as H2.
  change (before true) with dgt in H1. change (before false) with dlt in H2.
  cbn [prices quantities count] in H1, H2. rewrite <- H1, <- H2. clear H1 H2.
  destruct (diff_lines dgt _ _ _ _ _ _ _) as [bl|]; bstep; [|done].
  destruct (diff_lines dlt _ _ _ _ _ _ _) as [al|]; bstep; [|done].
  intros (h' & Hrun & Hb'). by exists h', x'.
Qed.
End snapshot.

(** Bids 9 and 8, asks 10, 11 and 12 at time 2; of them 9 (with 1) and 11 (with 9)
    were there before: [B2 9 3], [B2 8 6], [A2 10 5], [A2 11 -2], [A2 12 3]. *)
Definition demo_before : bool -> list pq := λ d, if d then [(px 9, px 1)] else [(px 11, px 9)].
Definition demo_copies : snap3_aux_t :=
  mk_aux 1 1 [px 9; DNan] [px 11; DNan] [px 1; DNan] [px 9; DNan].

Definition change_line (s : Z) (p q : list Z) : list Z :=
  [48; 46; 48; 48; 48; 48; 48; 48; 48; 48; 50; 9; 88; 9] ++ [s; 50; 9] ++ p ++ [9] ++ q ++ [10].

Lemma demo_kept d :
  ksorted d None (demo_sides d).*1 ∧ ksorted d None (demo_before d).*1 ∧
  all_kept d (demo_sides d) (prices demo_copies d) (demo_before d).
Proof.
  split; [apply ksortedb_ok; by destruct d|]. split; [apply ksortedb_ok; by destruct d|].
  right. split; [|exists DNan; split; [by destruct d|by destruct d; repeat constructor]].
  destruct d; apply Forall_singleton; eexists.
  - split; [by apply (list_elem_of_lookup_2 _ 0)|reflexivity].
  - split; [by apply (list_elem_of_lookup_2 _ 1)|reflexivity].
Qed.

Lemma snap3_correct_witness :
  ∃ h' x', snap3 64 zero_cells demo demo_book 2 (Some [88]) demo_copies =
    Some (h', [change_line 66 [57] [51]; change_line 66 [56] [54]; change_line 65 [49; 48] [53];
               change_line 65 [49; 49] [45; 50]; change_line 65 [49; 50] [51]], x').
Proof.
  pose proof (snap3_correct 64 zero_cells demo demo_book demo_sides 2 (Some [88]) demo_copies demo_before demo_at) as H.
  assert (changes 2 (Some [88]) demo_sides demo_before =
    Some [change_line 66 [57] [51]; change_line 66 [56] [54]; change_line 65 [49; 48] [53];
          change_line 65 [49; 49] [45; 50]; change_line 65 [49; 50] [51]]) as Hc by (vm_compute; reflexivity).
  rewrite Hc in H. destruct H as (h' & x' & Hrun & _).
  - intros []; vm_compute; repeat split; by eexists.
  - exact demo_kept.
  - exists h', x'. exact Hrun.
Defined.

(** Two bids before, one now, between them or at the second: the first is reported
    to be gone, the one there is now is not reported. *)
Lemma snap3_skips pfx (p p' q : dec) (e : level) P Q :
  dgt p e.1 = true -> dgt p' e.1 = false ->
  diff_lines dgt pfx [e] (p :: p' :: P) (q :: Q) 0 2 [] = l ← snap_level pfx p (dneg q); Some [l].
Proof.
  intros Hp Hp'. cbn [diff_lines]. change dgt with (before true) in *.
  rewrite (again_skips true 3 pfx e.1 (vq e.2) (p :: p' :: P) (q :: Q) 0 2 [] p q p') by (done || lia).
  by destruct (snap_level _ _ _).
Qed.

(** Bids at 15 and 13 before, at 13 and 11 now, 13 unchanged: 15 and 13 are
    reported to be gone, and 11 is not reported. *)
Example snap3_misreports :
  diff_lines dgt [] [lv 13 5 2; lv 11 4 2] [px 15; px 13; dzeroed] [px 1; px 5; dzeroed] 0 2 [] =
  Some [[49; 53; 9; 45; 49; 10]; [49; 51; 9; 45; 53; 10]].
Proof. vm_compute. reflexivity. Qed.
