(* ===== verification/BooksnapClock.v ===== *)
(** * booksnap.c: the clock of a run

    The time of the next snapshot, what [_next_intv] remembers and the stamps that
    are left, as a value of its own.  [wakes] and [starts] say how it moves; with
    quotes at sane times it always gets there. *)

From Stdlib Require Import ZArith Lia.
From stdpp Require Import prelude list.
From stdpp Require Import options.
From S2P Require Import Prelude Decimal Btree Books Xquo XquoSpec Book2book Booksnap BooksnapSpec.

Local Open Scope Z_scope.

Record clock := mk_clock { c_metr : Z; c_oldm : Z; c_left : list (list Z) }.

Section clock.
Variable opts : snap_opts.
Implicit Types (c : clock) (t : Z) (st : snap_state).

(** [next(t)]. *)
Definition tick c t : option clock :=
  if by_stamps opts then
    let '(m, ls) := next_stmp (c_left c) in Some (mk_clock m (c_oldm c) ls)
  else
    '(m, o) ← next_intv opts (c_metr c) (c_oldm c) t;
    Some (mk_clock m o (c_left c)).

(** Called until the time has come. *)
Inductive wakes t : clock -> clock -> Prop :=
  | wakes_last c c' : tick c t = Some c' -> t <= c_metr c' -> wakes t c c'
  | wakes_more c c1 c' : tick c t = Some c1 -> c_metr c1 < t -> wakes t c1 c' -> wakes t c c'.

(** The first quote starts the clock. *)
Inductive starts t c : clock -> Prop :=
  | starts_now : c_metr c ≠ 0 -> starts t c c
  | starts_wakes c' : c_metr c = 0 -> wakes t c c' -> starts t c c'.

Definition clock_of st : clock := mk_clock (metr st) (oldm st) (stamps st).

Definition with_clock st c : snap_state :=
  mk_snap (sheap st) (sconx st) (scont st) (sbooks st) (snbook st) (szbook st)
          (snctch st) (c_metr c) (c_oldm c) (c_left c) (aux st) (sout st).

Lemma do_next_tick st t : do_next opts st t = with_clock st <$> tick (clock_of st) t.
Proof.
  unfold do_next, tick. cbn [clock_of c_metr c_oldm c_left].
  destruct (by_stamps opts); [by destruct (next_stmp _)|]. by destruct (next_intv _ _ _ _) as [[m o]|].
Qed.

(** ** It gets there *)

(** Within [n] more calls. *)
Inductive winds t : nat -> clock -> Prop :=
  | winds_last n c c' : tick c t = Some c' -> t <= c_metr c' -> winds t n c
  | winds_more n c c' : tick c t = Some c' -> c_metr c' < t -> winds t n c' -> winds t (S n) c.

Lemma winds_wakes t n c : winds t n c -> ∃ c', wakes t c c'.
Proof.
  induction 1 as [n c c' H1 H2|n c c' H1 H2 _ [c'' Hw]]; [by exists c'; apply wakes_last|].
  exists c''. by eapply wakes_more.
Qed.

Lemma wakes_reached t c c' : wakes t c c' -> t <= c_metr c'.
Proof. by induction 1. Qed.

Lemma advance_wakes t n fuel st :
  winds t n (clock_of st) -> (n < fuel)%nat ->
  ∃ c, wakes t (clock_of st) c ∧ advance opts fuel st t = Some (with_clock st c).
Proof.
  intros Hw. remember (clock_of st) as c0 eqn:Hc. revert fuel st Hc.
  induction Hw as [n c c' H1 H2|n c c' H1 H2 _ IH]; intros [|fuel] st -> Hn; try lia;
    cbn [advance]; rewrite do_next_tick, H1; cbn [fmap option_fmap option_map]; bstep; cbn [metr with_clock].
  - rewrite (proj2 (Z.ltb_ge _ _)) by lia. exists c'. split; [by apply wakes_last|done].
  - rewrite (proj2 (Z.ltb_lt _ _)) by lia.
    destruct (IH fuel (with_clock st c')) as (c & Hw & Hrun); [by destruct c'|lia|].
    exists c. split; [by eapply wakes_more|done].
Qed.

(** Intervals: times behind the offset that do not wrap around, expiry included. *)
Definition on_time c : Prop :=
  by_stamps opts = true ∨
  c_metr c = 0 ∧ c_oldm c = 0 ∨
  offs opts < c_metr c ∧ c_metr c + inva opts < 2 ^ 64 ∧ c_oldm c <= c_metr c.

Definition timely t : Prop :=
  t <= NATV ∧ (by_stamps opts = false -> offs opts < t ∧ t + intv opts + inva opts < 2 ^ 64).

Definition sane_opts : Prop :=
  by_stamps opts = false -> 0 < intv opts ∧ 0 <= offs opts ∧ 0 <= inva opts.

Hypothesis Hopts : sane_opts.
#[local] Set Default Proof Using "Type*".

(** A call when intervals are used. *)
Lemma tick_intv c t :
  by_stamps opts = false -> timely t -> c_oldm c <= t ->
  (c_oldm c < t -> c_metr c ≠ 0 -> inva opts ≠ 0 -> offs opts < u64 (c_metr c + inva opts)) ->
  ∃ c', tick c t = Some c' ∧ c_oldm c' <= t ∧ offs opts < c_metr c' < t + intv opts ∧
        (c_metr c' < t -> c_oldm c' = t ∧ c_oldm c < t).
Proof.
  intros Hby [_ Ht] Hold Hm. destruct (Ht Hby) as [Ho Hb]. destruct (Hopts Hby) as (Hi & Hoff & Hv).
  set (st := mk_snap empty_heap [] [] [] 0 0 0 (c_metr c) (c_oldm c) (c_left c) [] []).
  destruct (tick_run opts Hi Hoff Hby st t) as (m & o & Hdo & Hot & _ & Hmt & Hom & Hlt); [done|lia|done..|].
  rewrite do_next_tick in Hdo. replace (clock_of st) with c in Hdo by (by destruct c).
  destruct (tick c t) as [c'|]; [|done]. injection Hdo as Hm' Ho' _.
  exists c'. rewrite Hm', Ho'. split_and!; [done|done|lia|lia|exact Hlt].
Qed.

Lemma on_time_winds c t :
  on_time c -> timely t -> (c_metr c = 0 ∨ c_metr c < t) -> winds t (2 + length (c_left c)) c.
Proof.
  intros Hc Ht Hlt. destruct (by_stamps opts) eqn:Hby.
  - clear Hc Hlt. destruct Ht as [Ht _]. destruct c as [m o l]. cbn [c_left].
    assert (winds t (length l) (mk_clock m o l)) as Hw.
    2: { clear -Hw. remember (length l) as n eqn:Hn. clear Hn. induction Hw; [by eapply winds_last|].
         cbn [Nat.add]. eapply winds_more; [done..|]. done. }
    revert m. induction l as [|x l IH]; intros m.
    + eapply winds_last; [unfold tick; by rewrite Hby|done].
    + destruct (Z.lt_ge_cases (strtotv x).1 t) as [Hx|Hx].
      * eapply winds_more; [unfold tick; by rewrite Hby|done|]. apply IH.
      * eapply winds_last; [unfold tick; by rewrite Hby|done].
  - destruct Hc as [Hc|Hc]; [congruence|]. destruct (Hopts Hby) as (Hi & Hoff & Hv).
    destruct (proj2 Ht Hby) as [Ho Hb].
    destruct (tick_intv c t Hby Ht) as (c1 & H1 & Ho1 & Hm1 & Hag); [lia| |].
    { intros _ H0 Hx. unfold u64. rewrite Z.mod_small; lia. }
    destruct (Z.lt_ge_cases (c_metr c1) t) as [Hl|Hl]; [|by eapply winds_last].
    cbn [Nat.add]. eapply winds_more; [done..|]. destruct (Hag Hl) as [He _].
    destruct (tick_intv c1 t Hby Ht) as (c2 & H2 & Ho2 & Hm2 & Hag2); [lia|lia|].
    destruct (Z.lt_ge_cases (c_metr c2) t) as [Hl2|Hl2]; [destruct (Hag2 Hl2); lia|].
    by eapply winds_last.
Qed.

(** Where it is then. *)
Lemma wakes_on_time t c c' :
  wakes t c c' -> timely t ->
  (by_stamps opts = false -> c_oldm c <= t ∧
    (c_oldm c < t -> c_metr c ≠ 0 -> inva opts ≠ 0 -> offs opts < u64 (c_metr c + inva opts))) ->
  on_time c'.
Proof.
  intros Hw Ht. destruct (by_stamps opts) eqn:Hby; [by left|].
  destruct (Hopts Hby) as (Hi & Hoff & Hv). destruct (proj2 Ht Hby) as [Ho Hb].
  induction Hw as [c c' H1 H2|c c1 c' H1 H2 _ IH]; intros Hc; destruct (Hc eq_refl) as [Hold Hx];
    destruct (tick_intv c t Hby Ht Hold Hx) as (c2 & H3 & Ho2 & Hm2 & Hag); rewrite H1 in H3; injection H3 as <-.
  - right. right. lia.
  - apply IH. intros _. destruct (Hag H2) as [He _]. split; lia.
Qed.

Lemma on_time_wakes t c c' :
  on_time c -> timely t -> (c_metr c = 0 ∨ c_metr c < t) -> wakes t c c' -> on_time c'.
Proof.
  intros Hc Ht Hlt Hw. apply (wakes_on_time t c c' Hw Ht). intros Hby.
  destruct Hc as [Hc|Hc]; [congruence|]. destruct (Hopts Hby) as (Hi & Hoff & Hv).
  destruct (proj2 Ht Hby) as [Ho Hb]. split; [lia|]. intros _ H0 Hx. unfold u64. rewrite Z.mod_small; lia.
Qed.

Lemma on_time_starts t c c' : on_time c -> timely t -> starts t c c' -> on_time c'.
Proof. intros Hc Ht [H0|c1 H0 Hw]; [done|]. eapply on_time_wakes; eauto. Qed.
End clock.
