(* ===== verification/BooksnapAny.v ===== *)
(** * booksnap.c: whole runs

    The tool implements a machine on the table of instruments ([desk]) and the
    [clock]: books lose what has expired and are written when the clock says so,
    quotes are steps of their books.  [day] is that machine over the lines of the
    input, any [--instr] arguments, intervals or stamps, and any snapper; for [-3]
    it carries the copies that the next snapshot is compared with. *)

From Stdlib Require Import ZArith Lia.
From stdpp Require Import prelude list gmap fin_maps.
From stdpp Require Import options.
From S2P Require Import Prelude Decimal Dfp754D64 Memrchr Hash Btree BtreeLeaf BtreeUsed BtreeIter.
From S2P Require Import BtreeSide BtreeOps BtreeLively BtreeStates BtreeStateOps.
From S2P Require Import Books BooksLoops BooksSpec BooksAdd BooksGrown BooksAny BooksHistory BooksStock.
From S2P Require Import Xquo XquoSpec Book2book Desks Booksnap BooksnapSpec BooksnapPrint BooksnapClock.

Local Open Scope Z_scope.

(** ** The machine *)

(** What is kept of an instrument: the levels of its book, and its name. *)
Abbreviation seat := (abook * option (list Z))%type.
Abbreviation seats := (list seat).
Abbreviation copies := (list snap3_aux_t).

(** A line: no quote, or one for an instrument. *)
Inductive tick_line :=
  | Line_skip
  | Line_quote (name : list Z) (hx : Z) (q : book_quo).

Definition line_reads (addr : Z) (line : list Z) (i : tick_line) : Prop :=
  ∃ x, read_xquo addr line (length line) = Some x ∧
  match i with
  | Line_skip => NOT_A_XQUO_P x = true
  | Line_quote name hx q =>
    NOT_A_XQUO_P x = false ∧ xq x = q ∧ name = take (inz x) (drop (ins x) line) ∧ hash name = Some hx
  end.

(** The name up to its first NUL. *)
Fixpoint upto_nul (l : list Z) : list Z :=
  match l with [] => [] | c :: l => if c =? 0 then [] else c :: upto_nul l end.

Definition new_seat (name : list Z) : seat := (empty_abook, Some (upto_nul name)).

(** The table at the beginning. *)
Definition first_desk (instr : list (list Z)) : option (desk seat) :=
  desk0 (λ c, (empty_abook, Some c)) (λ n, (empty_abook, if (0 <? n)%nat then Some [65; 76; 76] else None)) instr.

(** The copies at the beginning: [zbk] of them, all empty. *)
Definition first_copies (opts : snap_opts) (d : desk seat) : copies :=
  if decide (snap opts = SNAP3) then replicate (Nat.lor (length (d_rows d)) 7 + 1) aux0 else [].

Section machine.
Variable garbage : leftover.
Variable opts : snap_opts.

(** Book after book, [k] being the next: what has expired goes, the rest is
    written; [None] when a line does not fit its buffer or the copies their room. *)
Inductive takes (m : Z) : nat -> copies -> seats -> option (copies * seats * list Z) -> Prop :=
  | takes_nil k X : takes m k X [] (Some (X, [], []))
  | takes_seat k X a cont R A ls X' o :
    ages (expiry opts m) a A -> shows A -> shot garbage opts m cont k X (ab_sides A) = Some (ls, X') ->
    takes m (S k) X' R o ->
    takes m k X ((a, cont) :: R) ((λ x, (x.1.1, (A, cont) :: x.1.2, concat ls ++ x.2)) <$> o)
  | takes_overrun k X a cont R A :
    ages (expiry opts m) a A -> shows A -> shot garbage opts m cont k X (ab_sides A) = None ->
    takes m k X ((a, cont) :: R) None.

(** Snapshots until the time of a quote has come. *)
Inductive waits (t : Z) : clock -> copies -> seats -> option (clock * copies * seats * list Z) -> Prop :=
  | waits_last c c' X X' R R' o :
    takes (c_metr c) 0 X R (Some (X', R', o)) -> tick opts c t = Some c' -> t <= c_metr c' ->
    waits t c X R (Some (c', X', R', o))
  | waits_more c c' X X' R R' o x :
    takes (c_metr c) 0 X R (Some (X', R', o)) -> tick opts c t = Some c' -> c_metr c' < t ->
    waits t c' X' R' x ->
    waits t c X R ((λ y, (y.1, o ++ y.2)) <$> x)
  | waits_overrun c X R :
    takes (c_metr c) 0 X R None -> waits t c X R None.

Inductive passes (t : Z) (c : clock) (X : copies) (R : seats) :
    option (clock * copies * seats * list Z) -> Prop :=
  | passes_now : t <= c_metr c -> passes t c X R (Some (c, X, R, []))
  | passes_waits x : c_metr c < t -> waits t c X R x -> passes t c X R x.

(** The quote as it is added: with the time it expires at. *)
Definition lasting (q : book_quo) : book_quo :=
  mk_quo (qs q) (qf q) (qp q) (qq q) (u64 (qt q + inva opts)).

(** A quote: clock, copies, table and output afterwards. *)
Inductive quoted (c : clock) (X : copies) (d : desk seat) (name : list Z) (hx : Z) (q : book_quo) :
    option (clock * copies * desk seat * list Z) -> Prop :=
  | quoted_late : qt q = NATV -> quoted c X d name hx q (Some (c, X, d, []))
  | quoted_nowhere c1 :
    qt q ≠ NATV -> starts opts (qt q) c c1 -> opens (new_seat name) d hx = Some None ->
    quoted c X d name hx q (Some (c1, X, d, []))
  | quoted_undefined c1 :
    qt q ≠ NATV -> starts opts (qt q) c c1 -> opens (new_seat name) d hx = None ->
    quoted c X d name hx q None
  | quoted_overrun c1 d1 k :
    qt q ≠ NATV -> starts opts (qt q) c c1 -> opens (new_seat name) d hx = Some (Some (d1, k)) ->
    passes (qt q) c1 X (d_rows d1) None -> quoted c X d name hx q None
  | quoted_placed c1 d1 k c2 X' R o a cont r A :
    qt q ≠ NATV -> starts opts (qt q) c c1 -> opens (new_seat name) d hx = Some (Some (d1, k)) ->
    passes (qt q) c1 X (d_rows d1) (Some (c2, X', R, o)) -> R !! k = Some (a, cont) ->
    big_step (lasting q) a r A -> shows A ->
    quoted c X d name hx q (Some (c2, X', with_rows d1 (<[k := (A, cont)]> R), o)).

(** All lines, and the snapshot at the end: what is printed. *)
Inductive day (c : clock) (X : copies) (d : desk seat) : list tick_line -> option (list Z) -> Prop :=
  | day_end x : c_metr c < NATV -> takes (c_metr c) 0 X (d_rows d) x -> day c X d [] (snd <$> x)
  | day_over : NATV <= c_metr c -> day c X d [] (Some [])
  | day_skip ins o : day c X d ins o -> day c X d (Line_skip :: ins) o
  | day_fails name hx q ins : quoted c X d name hx q None -> day c X d (Line_quote name hx q :: ins) None
  | day_quote name hx q ins c' X' d' o1 o :
    quoted c X d name hx q (Some (c', X', d', o1)) -> day c' X' d' ins o ->
    day c X d (Line_quote name hx q :: ins) ((λ x, o1 ++ x) <$> o).

(** A clock that has reached a time was woken for it. *)
Lemma waits_wakes t c X R c' X' R' o : waits t c X R (Some (c', X', R', o)) -> wakes opts t c c'.
Proof.
  intros Hw. remember (Some (c', X', R', o)) as x eqn:Hx. revert c' X' R' o Hx.
  induction Hw as [c c1 X X1 R R1 o1 _ H1 H2|c c1 X X1 R R1 o1 x _ H1 H2 _ IH|c X R _]; intros c' X' R' o Hx; [| |done].
  - injection Hx as <- <- <- <-. by apply wakes_last.
  - destruct x as [[[[c2 X2] R2] o2]|]; [|done]. injection Hx as <- <- <- <-.
    eapply wakes_more; [done..|]. by eapply IH.
Qed.
End machine.

(** ** The state and what it stands for *)

Abbreviation row := (stock * option (list Z))%type.

Definition seat_of (x : row) : seat := (k_abs x.1, x.2).

Record seated (st : snap_state) (c : clock) (X : copies) (d : desk seat) (T : list row) : Prop := {
  se_table : stocked (sheap st) T.*1;
  se_books : sbooks st = (λ x : row, k_book x.1) <$> T;
  se_cont : scont st = T.*2;
  se_rows : d_rows d = seat_of <$> T;
  se_tabled : tabled (sconx st) (snbook st) (szbook st) (snctch st) d;
  se_clock : clock_of st = c;
  se_copies : aux st = X;
}.

Implicit Types (st : snap_state) (c : clock) (X : copies) (d : desk seat) (T L R : list row).

Lemma seated_length st c X d T : seated st c X d T -> length T = (snbook st + snctch st)%nat.
Proof.
  intros Hs. rewrite <- (tabled_length _ _ _ _ _ (se_tabled _ _ _ _ _ Hs)).
  by rewrite (se_rows _ _ _ _ _ Hs), length_fmap.
Qed.

(** Rows and copies change, and output is written. *)
Lemma seated_rows st c X d T h X' T' o :
  seated st c X d T -> stocked h T'.*1 -> (λ x : row, k_book x.1) <$> T' = (λ x : row, k_book x.1) <$> T ->
  T'.*2 = T.*2 -> seated (shot_taken st h X' o) c X' (with_rows d (seat_of <$> T')) T'.
Proof.
  intros Hs HT HB HC. assert (length T' = length T) as Hl.
  { apply (f_equal length) in HB. by rewrite !length_fmap in HB. }
  destruct Hs as [_ Hb Hc Hr Ht Hcl _]. split; cbn; [done|by rewrite Hb|by rewrite Hc|done| |done..].
  apply tabled_rows; [done|]. by rewrite Hr, !length_fmap.
Qed.

Lemma seated_clock st c X d T c' : seated st c X d T -> seated (with_clock st c') c' X d T.
Proof. intros []. split; try done. by destruct c'. Qed.

Lemma shot_taken_id st : shot_taken st (sheap st) (aux st) [] = st.
Proof. unfold shot_taken. rewrite app_nil_r. by destruct st. Qed.

Lemma shot_taken_twice st h X o h' X' o' :
  shot_taken (shot_taken st h X o) h' X' o' = shot_taken st h' X' (o ++ o').
Proof. unfold shot_taken. cbn. by rewrite app_assoc. Qed.

(** ** Finding the book *)

Lemma new_name name :
  (fix upto (l : list Z) := match l with [] => [] | c :: l => if c =? 0 then [] else c :: upto l end) name =
  upto_nul name.
Proof. induction name as [|c l IH]; cbn [upto_nul]; [done|]. by rewrite IH. Qed.

Lemma sselect_choice st name hx :
  hash name = Some hx ->
  sselect_book st name =
  (r ← choice (sconx st) (snbook st) (szbook st) (snctch st) hx;
   match r with
   | None => Some (st, None)
   | Some (k, false) => Some (st, Some k)
   | Some (k, true) =>
     let '(h, b) := make_book (sheap st) in
     Some (mk_snap h (sconx st ++ [hx]) (scont st ++ [Some (upto_nul name)]) (sbooks st ++ [b])
             (snbook st + 1) (grown_room (snbook st) (szbook st)) (snctch st) (metr st) (oldm st)
             (stamps st) (aux st) (sout st), Some k)
   end).
Proof.
  intros Hh. unfold sselect_book, choice, grown_room. brun Hh. rewrite new_name. fold (sfind_book st hx).
  destruct ((0 <? snbook st)%nat || _); cbn [andb].
  - destruct (sfind_book st hx) as [k|]; bstep; [|done]. destruct (k <? snbook st)%nat; [done|].
    destruct (0 <? snctch st)%nat; [done|]. destruct (szbook st =? 0)%nat; [done|]. bstep. by destruct (make_book _).
  - bstep. destruct (0 <? snctch st)%nat; [done|]. destruct (szbook st =? 0)%nat; [done|]. bstep. by destruct (make_book _).
Qed.

Lemma sselect_run st c X d T name hx :
  seated st c X d T -> hash name = Some hx ->
  match opens (new_seat name) d hx with
  | None => sselect_book st name = None
  | Some None => sselect_book st name = Some (st, None)
  | Some (Some (d', k)) => ∃ st' T', sselect_book st name = Some (st', Some k) ∧ seated st' c X d' T' ∧
      sout st' = sout st
  end.
Proof.
  intros Hs Hh. rewrite (sselect_choice st name hx Hh).
  pose proof (choice_opens (new_seat name) _ _ _ _ _ hx (se_tabled _ _ _ _ _ Hs)) as Hc.
  destruct (opens (new_seat name) d hx) as [[[d' k]|]|]; [|by rewrite Hc..].
  destruct Hc as [[-> ->]|(-> & _ & Hr & Ht)]; bstep; [by exists st, T|].
  destruct (make_book (sheap st)) as [h b] eqn:Hm. destruct Hs as [HT Hb Hcn Hrw _ Hcl Hx].
  eexists _, (T ++ [(new_stock b, Some (upto_nul name))]). split; [done|]. split; [|done].
  split; cbn; rewrite ?fmap_app; cbn; [by eapply stocked_make|by rewrite Hb|by rewrite Hcn| |done..].
  by rewrite Hr, Hrw.
Qed.

(** ** The beginning *)

Definition start_clock (stmps : list (list Z)) : clock := mk_clock 0 0 stmps.

(** The books of the named instruments are made one by one. *)
Lemma sinit_run args st T :
  stocked (sheap st) T.*1 -> sbooks st = (λ x : row, k_book x.1) <$> T -> scont st = T.*2 ->
  length (sconx st) = length T -> snbook st = length T ->
  match mapM hash (named args) with
  | None => sinit_books args st = None
  | Some C => ∃ h T', length T' = length C ∧
      sinit_books args st = Some (mk_snap h (sconx st ++ C) (scont st ++ T'.*2)
        (sbooks st ++ ((λ x : row, k_book x.1) <$> T')) (snbook st + length C) (szbook st) (snctch st)
        (metr st) (oldm st) (stamps st) (aux st) (sout st)) ∧
      stocked h (T ++ T').*1 ∧ seat_of <$> T' = (λ nm : list Z, (empty_abook, Some nm)) <$> named args
  end.
Proof.
  revert st T. induction args as [|nm args IH]; intros st T HT Hb Hc Hx Hn; cbn [sinit_books].
  { cbn. exists (sheap st), []. rewrite !app_nil_r, Nat.add_0_r. split_and!; [done|by destruct st|done|done]. }
  unfold named in *. destruct (catchall_p nm) eqn:Hcp.
  { rewrite filter_cons_False by (by rewrite Hcp). by apply IH. }
  rewrite filter_cons_True by done. cbn [mapM]. destruct (hash nm) as [hx|]; bstep; [|done].
  destruct (make_book (sheap st)) as [h b] eqn:Hm.
  set (st1 := mk_snap _ _ _ _ _ _ _ _ _ _ _ _).
  specialize (IH st1 (T ++ [(new_stock b, Some nm)])).
  destruct (mapM hash (filter _ args)) as [C|]; bstep.
  - destruct IH as (h' & T' & Hl & Hrun & HT' & Hs); cbn; rewrite ?length_app, ?fmap_app; cbn; try lia.
    { by eapply stocked_make. }
    { by rewrite Hb. }
    { by rewrite Hc. }
    exists h', ((new_stock b, Some nm) :: T'). cbn [length]. split; [by rewrite Hl|]. split_and!.
    + rewrite Hrun. cbn. by rewrite <- !app_assoc, <- Nat.add_assoc.
    + rewrite <- app_assoc in HT'. exact HT'.
    + cbn [fmap list_fmap]. by rewrite Hs.
  - apply IH; cbn; rewrite ?length_app, ?fmap_app; cbn; try lia.
    + by eapply stocked_make.
    + by rewrite Hb.
    + by rewrite Hc.
Qed.

Lemma empty_stocked : stocked empty_heap [].
Proof. apply stocked_nil, empty_heap_wf. Qed.

(** A state with no copies yet gets them. *)
Definition with_copies st X : snap_state :=
  mk_snap (sheap st) (sconx st) (scont st) (sbooks st) (snbook st) (szbook st)
          (snctch st) (metr st) (oldm st) (stamps st) X (sout st).

Lemma seated_copies opts st c X d T :
  seated st c X d T ->
  seated (with_copies st (if decide (snap opts = SNAP3)
    then replicate (Nat.lor (snbook st + snctch st) 7 + 1) aux0 else [])) c (first_copies opts d) d T.
Proof.
  intros Hs. assert (length (d_rows d) = (snbook st + snctch st)%nat) as Hl.
  { rewrite (se_rows _ _ _ _ _ Hs), length_fmap. by eapply seated_length. }
  destruct Hs. split; try done. cbn. unfold first_copies. by rewrite Hl.
Qed.

Lemma snap_init_run opts instr stmps :
  match first_desk instr with
  | None => snap_init opts instr stmps = None
  | Some d => ∃ st T, snap_init opts instr stmps = Some st ∧ sout st = [] ∧
                      seated st (start_clock stmps) (first_copies opts d) d T
  end.
Proof.
  destruct instr as [|nm instr].
  { unfold first_desk, desk0, snap_init. eexists _, []. split; [bstep; reflexivity|]. split; [done|].
    apply (seated_copies opts (mk_snap empty_heap [] [] [] 0 8 0 0 0 stmps [] []) _ []).
    split; [exact empty_stocked|done..|exact open_tabled|done|done]. }
  pose proof (sinit_run (nm :: instr) (mk_snap empty_heap [] [] [] 0 0 0 0 0 stmps [] []) []) as Hi.
  unfold first_desk, snap_init. destruct (mapM hash (named (nm :: instr))) as [C|] eqn:HC.
  2: { unfold desk0. rewrite HC. bstep. rewrite Hi; [done|exact empty_stocked|done..]. }
  destruct (desk0_tabled (λ c : list Z, (empty_abook, Some c))
    (λ n, (empty_abook, if (0 <? n)%nat then Some [65; 76; 76] else None)) nm instr C HC) as (d & Hd & Hr & Ht).
  rewrite Hd. destruct Hi as (h & T & Hl & Hrun & HT & Hs); [exact empty_stocked|done..|].
  brun Hrun. cbn [snbook sheap app sconx scont sbooks szbook snctch metr oldm stamps aux sout Nat.add] in *.
  rewrite <- Hs in Hr. destruct (length C <? length (nm :: instr))%nat.
  - destruct (make_book h) as [h1 b] eqn:Hm. bstep.
    eexists _, (T ++ [(new_stock b, if (0 <? length C)%nat then Some [65; 76; 76] else None)]).
    split; [reflexivity|]. split; [done|]. refine (seated_copies opts (mk_snap _ _ _ _ _ _ _ _ _ _ [] _) _ [] d _ _).
    split; cbn [sheap sbooks scont sconx snbook szbook snctch]; rewrite ?fmap_app;
      [by eapply stocked_make|done|done|exact Hr|exact Ht|done|done].
  - bstep. rewrite app_nil_r in Hr, Ht. eexists _, T. split; [reflexivity|]. split; [done|].
    refine (seated_copies opts (mk_snap _ _ _ _ _ _ _ _ _ _ [] _) _ [] d _ _). by split.
Qed.

Section run.
Variable ctz0 : nat.
Hypothesis Hctz : (63 <= ctz0)%nat.
Variable garbage : leftover.
Variable opts : snap_opts.
#[local] Set Default Proof Using "Type*".

(** ** Snapshots *)

(** The rows from [L] on are still to do. *)
Lemma take_rest st c X d L R :
  seated st c X d (L ++ R) ->
  let run := foldl (fun o i => st ← o; snap_book ctz0 garbage opts st i) (Some st) (seq (length L) (length R)) in
  ∃ x, takes garbage opts (c_metr c) (length L) X (seat_of <$> R) x ∧
    match x with
    | Some (X', G, o) => ∃ h R', G = seat_of <$> R' ∧ run = Some (shot_taken st h X' o) ∧
        seated (shot_taken st h X' o) c X' (with_rows d (seat_of <$> L ++ R')) (L ++ R')
    | None => run = None
    end.
Proof.
  revert st X d L. induction R as [|[s cont] R IH]; intros st X d L Hs run.
  { exists (Some (X, [], [])). split; [constructor|]. exists (sheap st), []. split; [done|].
    pose proof (shot_taken_id st) as He. rewrite (se_copies _ _ _ _ _ Hs) in He. rewrite He. split; [done|].
    rewrite <- He. rewrite app_nil_r in *. apply (seated_rows st c X d L); [done| |done..].
    apply (se_table _ _ _ _ _ Hs). }
  pose proof (se_clock _ _ _ _ _ Hs) as Hc. assert (c_metr c = metr st) as Hm by by rewrite <- Hc.
  assert (sbooks st !! length L = Some (k_book s)) as Hbk.
  { rewrite (se_books _ _ _ _ _ Hs), fmap_app, fmap_cons. apply list_lookup_middle. by rewrite length_fmap. }
  assert (scont st !! length L = Some cont) as Hct.
  { rewrite (se_cont _ _ _ _ _ Hs), fmap_app, fmap_cons. apply list_lookup_middle. by rewrite length_fmap. }
  pose proof (se_table _ _ _ _ _ Hs) as HT. rewrite fmap_app, fmap_cons in HT. cbn [fst] in HT.
  destruct (stock_exp ctz0 Hctz _ _ _ _ (expiry opts (metr st)) HT) as (h1 & A & Hexp & HT1 & Hag & Hsh).
  pose proof (stock_shown ctz0 Hctz h1 _ _ _ HT1) as HV.
  pose proof (snap_book_shot garbage opts ctz0 st _ _ _ h1 (ab_sides A) Hbk Hct Hexp (stock_open h1 _ _ _ HT1)) as Hp.
  rewrite (se_copies _ _ _ _ _ Hs) in Hp. unfold run. cbn [length seq foldl]. bstep. clear run.
  destruct (shot garbage opts (metr st) cont (length L) X (ab_sides A)) as [[ls X1]|] eqn:Hls.
  2: { rewrite Hp. exists None. split; [cbn; eapply takes_overrun; rewrite ?Hm; eauto|].
    generalize (seq (S (length L)) (length R)). intros l. by induction l. }
  destruct Hp as (h2 & Hrun & HV2). rewrite Hrun. pose proof (stock_close _ _ _ _ _ HT1 HV2) as HT2.
  set (y := (mk_stock (k_book s) A (k_nodes s), cont) : row).
  assert (seated (shot_taken st h2 X1 (concat ls)) c X1 (with_rows d (seat_of <$> (L ++ [y]) ++ R)) ((L ++ [y]) ++ R)) as Hs2.
  { rewrite <- app_assoc. apply (seated_rows st c X d (L ++ (s, cont) :: R)); [done| |by rewrite !fmap_app..].
    rewrite fmap_app. exact HT2. }
  destruct (IH _ _ _ _ Hs2) as (x & Hx & Hrest). rewrite length_app in Hx, Hrest. cbn [length] in Hx, Hrest.
  rewrite Nat.add_1_r in Hx, Hrest.
  eexists. split.
  { cbn [fmap list_fmap]. unfold seat_of at 1. cbn [fst snd]. eapply takes_seat; rewrite ?Hm in *; eauto. }
  destruct x as [[[X2 G] o]|]; [|exact Hrest]. cbn [fmap option_fmap option_map fst snd].
  destruct Hrest as (h3 & R' & -> & Hrun3 & Hs3). exists h3, (y :: R'). split; [done|].
  rewrite <- (app_assoc L [y] R') in Hs3. cbn [app] in Hs3. rewrite shot_taken_twice in Hrun3, Hs3. by split.
Qed.

Lemma take_all st c X d T :
  seated st c X d T ->
  ∃ x, takes garbage opts (c_metr c) 0 X (d_rows d) x ∧
    match x with
    | Some (X', G, o) => ∃ h T', G = seat_of <$> T' ∧
        snap_all ctz0 garbage opts st = Some (shot_taken st h X' o) ∧
        seated (shot_taken st h X' o) c X' (with_rows d G) T'
    | None => snap_all ctz0 garbage opts st = None
    end.
Proof.
  intros Hs. destruct (take_rest st c X d [] T Hs) as (x & Hx & Hrest). rewrite (se_rows _ _ _ _ _ Hs).
  exists x. split; [done|]. unfold snap_all. rewrite <- (seated_length _ _ _ _ _ Hs).
  destruct x as [[[X' G] o]|]; [|done]. destruct Hrest as (h & T' & -> & Hrun & Hs'). by exists h, T'.
Qed.

Lemma wait_run t n fuel st c X d T :
  winds opts t n c -> (n < fuel)%nat -> seated st c X d T ->
  ∃ x, waits garbage opts t c X (d_rows d) x ∧
    match x with
    | Some (c', X', G, o) => ∃ h T', G = seat_of <$> T' ∧
        snap_until ctz0 garbage opts fuel st t = Some (shot_taken (with_clock st c') h X' o) ∧
        seated (shot_taken (with_clock st c') h X' o) c' X' (with_rows d G) T'
    | None => snap_until ctz0 garbage opts fuel st t = None
    end.
Proof.
  intros Hw. revert fuel st X d T. induction Hw as [n c c' H1 H2|n c c' H1 H2 Hw IH];
    intros [|fuel] st X d T Hn Hs; try lia; cbn [snap_until];
    destruct (take_all st c X d T Hs) as (x & Hx & Hrest).
  - destruct x as [[[X' G] o]|]; [|exists None; split; [by apply waits_overrun|by rewrite Hrest]].
    exists (Some (c', X', G, o)). split; [by eapply waits_last|].
    destruct Hrest as (h & T' & -> & Hrun & Hs'). exists h, T'. split; [done|].
    rewrite Hrun. bstep. rewrite do_next_tick, (se_clock _ _ _ _ _ Hs'), H1.
    cbn [fmap option_fmap option_map]. bstep. cbn [metr with_clock]. rewrite (proj2 (Z.ltb_ge _ _)) by lia.
    split; [done|]. apply (seated_clock _ _ _ _ _ c' Hs').
  - destruct x as [[[X' G] o]|]; [|exists None; split; [by apply waits_overrun|by rewrite Hrest]].
    destruct Hrest as (h & T' & -> & Hrun & Hs'). pose proof (seated_clock _ _ _ _ _ c' Hs') as Hs1.
    destruct (IH fuel _ _ _ _ ltac:(lia) Hs1) as (x & Hx' & Hrest'). cbn [d_rows with_rows] in Hx'.
    eexists. split; [by eapply waits_more|].
    rewrite Hrun. bstep. rewrite do_next_tick, (se_clock _ _ _ _ _ Hs'), H1.
    cbn [fmap option_fmap option_map]. bstep. cbn [metr with_clock]. rewrite (proj2 (Z.ltb_lt _ _)) by lia.
    destruct x as [[[[c2 X2] G2] o2]|]; [|exact Hrest'].
    destruct Hrest' as (h2 & T2 & -> & Hrun2 & Hs2). cbn [fmap option_fmap option_map fst snd].
    exists h2, T2. split; [done|]. rewrite Hrun2.
    change (with_clock (with_clock (shot_taken st h X' o) c') c2) with (shot_taken (with_clock st c2) h X' o) in *.
    rewrite shot_taken_twice in *. split; [done|exact Hs2].
Qed.

(** ** Lines *)

Lemma pass_run t st c X d T :
  sane_opts opts -> on_time opts c -> timely opts t -> seated st c X d T ->
  ∃ x, passes garbage opts t c X (d_rows d) x ∧
    let run := if t <=? metr st then Some st else snap_until ctz0 garbage opts (next_fuel st) st t in
    match x with
    | Some (c', X', G, o) => ∃ st' T', G = seat_of <$> T' ∧ run = Some st' ∧ sout st' = sout st ++ o ∧
        seated st' c' X' (with_rows d G) T' ∧ on_time opts c'
    | None => run = None
    end.
Proof.
  intros Ho Hc Ht Hs. pose proof (se_clock _ _ _ _ _ Hs) as Hcl.
  assert (c_metr c = metr st ∧ c_left c = stamps st) as [Hm Hlf] by by rewrite <- Hcl. rewrite <- Hm.
  destruct (Z.leb_spec t (c_metr c)) as [Hle|Hlt].
  - exists (Some (c, X, d_rows d, [])). split; [by apply passes_now|]. exists st, T. rewrite app_nil_r.
    pose proof (se_rows _ _ _ _ _ Hs) as Hr. split_and!; try done. by destruct d.
  - pose proof (on_time_winds opts Ho c t Hc Ht (or_intror Hlt)) as Hw.
    destruct (wait_run t _ (next_fuel st) st c X d T Hw) as (x & Hx & Hrest); [unfold next_fuel; rewrite Hlf; lia|done|].
    exists x. split; [by apply passes_waits|]. destruct x as [[[[c' X'] G] o]|]; [|exact Hrest].
    destruct Hrest as (h & T' & HG & Hrun & Hs'). eexists _, T'. split_and!; [done..|exact Hs'|].
    eapply on_time_wakes; [done|exact Hc|exact Ht|by right|by eapply waits_wakes].
Qed.

(** A quote comes at a time that the clock can count. *)
Definition timed (q : book_quo) : Prop :=
  qt q = NATV ∨ timely opts (qt q).

Lemma quote_run st c X d T k a cont q :
  seated st c X d T -> priced q -> d_rows d !! k = Some (a, cont) ->
  ∃ h r A T', big_step (lasting opts q) a r A ∧ shows A ∧
    (bk ← sbooks st !! k; '(h, _) ← book_add ctz0 (sheap st) bk (lasting opts q);
     Some (shown st h [])) = Some (shown st h []) ∧
    seated (shown st h []) c X (with_rows d (<[k := (A, cont)]> (d_rows d))) T'.
Proof.
  intros Hs Hq Hk. rewrite (se_rows _ _ _ _ _ Hs) in Hk. apply list_lookup_fmap_Some in Hk as ([s cn] & He & Hk).
  injection He as -> ->. pose proof (lookup_lt_Some _ _ _ Hk) as Hlt.
  assert (∃ L R, T = L ++ (s, cn) :: R ∧ length L = k) as (L & R & -> & <-).
  { exists (take k T), (drop (S k) T). rewrite take_drop_middle, length_take by done. split; [done|lia]. }
  clear Hk Hlt. pose proof (se_table _ _ _ _ _ Hs) as HT. rewrite fmap_app, fmap_cons in HT. cbn [fst] in HT.
  destruct (stock_add ctz0 Hctz _ _ _ _ (lasting opts q) HT) as (h & r & A & W & Hadd & HT' & Hst & Hsh); [exact Hq|].
  set (y := (mk_stock (k_book s) A W, cn) : row). exists h, r, A, (L ++ y :: R).
  split_and!; [exact Hst|done| |].
  - rewrite (se_books _ _ _ _ _ Hs), fmap_app, fmap_cons. rewrite list_lookup_middle by (by rewrite length_fmap).
    bstep. by rewrite Hadd.
  - assert (<[length L := (A, cn)]> (d_rows d) = seat_of <$> L ++ y :: R) as ->.
    { rewrite (se_rows _ _ _ _ _ Hs), !fmap_app, !fmap_cons. rewrite insert_app_r_alt by (by rewrite length_fmap).
      by rewrite length_fmap, Nat.sub_diag. }
    replace (shown st h []) with (shot_taken st h X []) by (unfold shot_taken; by rewrite <- (se_copies _ _ _ _ _ Hs)).
    eapply seated_rows; [exact Hs| |by rewrite !fmap_app..]. rewrite fmap_app. exact HT'.
Qed.

(** The kept hypotheses of a run: the options make sense, and so does the clock. *)
Hypothesis Hopts : sane_opts opts.

Lemma sprocess_run st c X d T k q :
  seated st c X d T -> on_time opts c -> timely opts (qt q) -> priced q -> (k < length (d_rows d))%nat ->
  ∃ x, passes garbage opts (qt q) c X (d_rows d) x ∧
    match x with
    | Some (c', X', G, o) => ∃ st' T' a cont r A, G !! k = Some (a, cont) ∧
        big_step (lasting opts q) a r A ∧ shows A ∧
        sprocess ctz0 garbage opts st k q = Some st' ∧ sout st' = sout st ++ o ∧
        seated st' c' X' (with_rows d (<[k := (A, cont)]> G)) T' ∧ on_time opts c'
    | None => sprocess ctz0 garbage opts st k q = None
    end.
Proof.
  intros Hs Hc Ht Hq Hk. destruct (pass_run (qt q) st c X d T Hopts Hc Ht Hs) as (x & Hx & Hrun).
  exists x. split; [done|]. cbv zeta in Hrun. unfold sprocess.
  destruct x as [[[[c' X'] G] o]|]; [|by rewrite Hrun].
  destruct Hrun as (st1 & T1 & -> & Hrun & Ho & Hs1 & Hc1). brun Hrun. cbv zeta.
  destruct (lookup_lt_is_Some_2 (seat_of <$> T1) k) as [[a cont] Ha].
  { pose proof (dk_rows _ (tb_desk _ _ _ _ _ (se_tabled _ _ _ _ _ Hs))) as H1. pose proof (dk_rows _ (tb_desk _ _ _ _ _ (se_tabled _ _ _ _ _ Hs1))) as H2.
    cbn in H2. rewrite H2. by rewrite H1 in Hk. }
  destruct (quote_run st1 c' X' _ T1 k a cont q Hs1 Hq Ha) as (h & r & A & T2 & Hst & Hsh & Hadd & Hs2).
  exists (shown st1 h []), T2, a, cont, r, A. split_and!; try done.
  - revert Hadd. fold (lasting opts q). destruct (sbooks st1 !! k) as [bk|]; bstep; [|done].
    destruct (book_add _ _ _ _) as [[h1 r1]|]; bstep; [|done]. unfold shown. rewrite app_nil_r. intros [= <-]. done.
  - cbn. by rewrite app_nil_r.
Qed.

Lemma snap_line_run addr st c X d T line name hx q :
  seated st c X d T -> on_time opts c -> line_reads addr line (Line_quote name hx q) -> timed q -> priced q ->
  ∃ x, quoted garbage opts c X d name hx q x ∧
    match x with
    | Some (c', X', d', o) => ∃ st' T', snap_line ctz0 garbage opts addr st line = Some st' ∧
        sout st' = sout st ++ o ∧ seated st' c' X' d' T' ∧ on_time opts c'
    | None => snap_line ctz0 garbage opts addr st line = None
    end.
Proof.
  intros Hs Hc (y & Hy & Hok & Hqy & Hnm & Hh) Ht Hq. unfold snap_line. brun Hy. rewrite Hok, Hqy, <- Hnm.
  destruct (Z.eqb_spec (qt q) NATV) as [Hn|Hn].
  { exists (Some (c, X, d, [])). split; [by apply quoted_late|]. exists st, T. by rewrite app_nil_r. }
  destruct Ht as [Ht|Ht]; [done|].
  pose proof (se_clock _ _ _ _ _ Hs) as Hcl. assert (c_metr c = metr st ∧ c_left c = stamps st) as [Hm Hlf] by by rewrite <- Hcl.
  assert (∃ c1, starts opts (qt q) c c1 ∧
    (if metr st =? 0 then advance opts (next_fuel st) st (qt q) else Some st) = Some (with_clock st c1)) as (c1 & Hst & Hrun).
  { destruct (Z.eqb_spec (metr st) 0) as [H0|H0].
    - rewrite <- Hcl in Hc. destruct (advance_wakes opts (qt q) _ (next_fuel st) st
        (on_time_winds opts Hopts _ _ Hc Ht (or_introl H0))) as (c1 & Hw & Hrun); [unfold next_fuel; cbn; lia|].
      exists c1. rewrite Hcl in Hw. split; [by apply starts_wakes; [congruence|]|done].
    - exists c. split; [apply starts_now; congruence|]. rewrite <- Hcl. by destruct st. }
  brun Hrun. pose proof (seated_clock _ _ _ _ _ c1 Hs) as Hs1.
  pose proof (on_time_starts opts Hopts _ _ _ Hc Ht Hst) as Hc1.
  pose proof (sselect_run _ _ _ _ _ name hx Hs1 Hh) as Hsel.
  destruct (opens (new_seat name) d hx) as [[[d1 k]|]|] eqn:Ho.
  - destruct Hsel as (st2 & T2 & Hsel & Hs2 & Hout). brun Hsel.
    destruct (opens_ok _ _ _ _ _ (tb_desk _ _ _ _ _ (se_tabled _ _ _ _ _ Hs)) Ho) as [_ Hk].
    destruct (sprocess_run st2 c1 X d1 T2 k q Hs2 Hc1 Ht Hq Hk) as (x & Hx & Hp).
    destruct x as [[[[c2 X2] G] o]|].
    + destruct Hp as (st3 & T3 & a & cont & r & A & HG & Hstep & Hsh & Hp & Hout3 & Hs3 & Hc3).
      exists (Some (c2, X2, with_rows d1 (<[k := (A, cont)]> G), o)). split; [by eapply quoted_placed|].
      exists st3, T3. split_and!; try done. by rewrite Hout3, Hout.
    + exists None. split; [by eapply quoted_overrun|done].
  - brun Hsel. exists (Some (c1, X, d, [])). split; [by apply quoted_nowhere|].
    exists (with_clock st c1), T. split_and!; [done|by rewrite app_nil_r|done|done].
  - rewrite Hsel. exists None. split; [by eapply quoted_undefined|done].
Qed.

(** What is asked of the lines. *)
Definition sane_line (i : tick_line) : Prop :=
  match i with Line_skip => True | Line_quote _ _ q => timed q ∧ priced q end.

Lemma sfree_run h (K : list stock) :
  stocked h K -> is_Some (sfree_books h (k_book <$> K)).
Proof.
  revert h. induction K as [|s K IH]; intros h HK; cbn [fmap list_fmap sfree_books]; [done|].
  destruct (stocked_free h s K HK) as (h' & Hrun & HK'). brun Hrun. by apply IH.
Qed.

(** From a state on: the lines, the snapshot at the end, and freeing. *)
Definition rest_of_day (addr : Z) st (ls : list (list Z)) : option (list Z) :=
  st ← snap_lines ctz0 garbage opts addr st ls;
  st ← if metr st <? NATV then snap_all ctz0 garbage opts st else Some st;
  h ← sfree_books (sheap st) (sbooks st);
  Some (sout st).

Lemma freed_out st c X d T :
  seated st c X d T -> (h ← sfree_books (sheap st) (sbooks st); Some (sout st)) = Some (sout st).
Proof.
  intros Hs. destruct (sfree_run _ _ (se_table _ _ _ _ _ Hs)) as [h Hh].
  rewrite <- list_fmap_compose in Hh. rewrite (se_books _ _ _ _ _ Hs). unfold compose in Hh. by brun Hh.
Qed.

Lemma day_run addr st c X d T ls ins :
  seated st c X d T -> on_time opts c -> Forall2 (line_reads addr) ls ins -> Forall sane_line ins ->
  ∃ o, day garbage opts c X d ins o ∧ rest_of_day addr st ls = (λ x, sout st ++ x) <$> o.
Proof.
  intros Hs Hc Hr. revert st c X d T Hs Hc.
  induction Hr as [|line i ls ins Hl Hr IH]; intros st c X d T Hs Hc Hq; unfold rest_of_day; cbn [snap_lines].
  - bstep. pose proof (se_clock _ _ _ _ _ Hs) as Hcl. assert (c_metr c = metr st) as Hm by by rewrite <- Hcl.
    rewrite <- Hm. destruct (Z.ltb_spec (c_metr c) NATV) as [Hn|Hn].
    + destruct (take_all st c X d T Hs) as (x & Hx & Hrun). exists (snd <$> x). split; [by apply day_end|].
      destruct x as [[[X' G] o]|]; [|by rewrite Hrun]. destruct Hrun as (h & T' & _ & Hrun & Hs'). brun Hrun.
      by rewrite (freed_out _ _ _ _ _ Hs').
    + exists (Some []). split; [by apply day_over|]. bstep. rewrite (freed_out _ _ _ _ _ Hs). cbn. by rewrite app_nil_r.
  - apply Forall_cons in Hq as [Hi Hq]. destruct i as [|name hx q].
    + destruct Hl as (y & Hy & Hok). unfold snap_line at 1. brun Hy. rewrite Hok. bstep.
      destruct (IH st c X d T Hs Hc Hq) as (o & Ho & Hrun). exists o. split; [by apply day_skip|exact Hrun].
    + destruct Hi as [Ht Hp]. destruct (snap_line_run addr st c X d T line name hx q Hs Hc Hl Ht Hp) as (x & Hx & Hrun).
      destruct x as [[[[c' X'] d'] o1]|].
      2: { exists None. split; [by apply day_fails|]. by rewrite Hrun. }
      destruct Hrun as (st' & T' & Hrun & Hout & Hs' & Hc'). brun Hrun.
      destruct (IH st' c' X' d' T' Hs' Hc' Hq) as (o & Ho & Hrest). exists ((λ x, o1 ++ x) <$> o).
      split; [by eapply day_quote|]. unfold rest_of_day in Hrest. rewrite Hrest, Hout.
      destruct o as [o|]; cbn; [|done]. by rewrite app_assoc.
Qed.

(** ** The run *)

(** C10: a whole run of booksnap, for any number of lines, any [--instr]
    arguments, intervals or stamps, and every snapper.  Conditions: [read_xquo] returns on every
    line (its number parser hangs on some malformed numbers); level quotes (L2, L3) have a
    price; no quote is later than [NATV]; with intervals, these are positive, offset and expiry
    are not negative, and every quote with a time is later than the offset and so early
    that adding interval and expiry does not wrap around; [__builtin_ctzll(0)], whose
    value its documentation leaves open, is 63 or more (64 where it is the instruction
    TZCNT).  Then the tool prints exactly what the machine over the table of instruments and
    the clock does - before a quote that is later than the clock, and once more at the
    end, each book loses what has expired and is written in full - and returns, freeing
    each book.  Under [-3] the lines compare with the copies of the snapshot before.  It
    fails only where an output line overruns its buffer, a consolidation limit is no
    number or [-3] looks beyond its copies, and, when only catch-alls are named, on
    the first quote. *)
Theorem snap_run_correct addr instr stmps ls ins :
  Forall2 (line_reads addr) ls ins -> Forall sane_line ins ->
  match first_desk instr with
  | Some d => ∃ o, day garbage opts (start_clock stmps) (first_copies opts d) d ins o ∧
                   snap_run ctz0 garbage opts addr instr stmps ls = o
  | None => snap_run ctz0 garbage opts addr instr stmps ls = None
  end.
Proof.
  intros Hr Hq. pose proof (snap_init_run opts instr stmps) as Hi. unfold snap_run.
  destruct (first_desk instr) as [d|]; [|by rewrite Hi].
  destruct Hi as (st & T & Hi & Hout & Hs). brun Hi.
  destruct (day_run addr st _ _ d T ls ins Hs) as (o & Ho & Hrun); [|done..|].
  { right. left. done. }
  exists o. split; [done|]. unfold rest_of_day in Hrun. rewrite Hrun, Hout. by destruct o.
Qed.
End run.

(** ** An example *)

(** Every second under [-3]: [1.500 EUR B2 1.13 100] is written at 2; after
    [2.500 EUR B2 1.14 200] the new level is, at 3, with no change to the first. *)
Definition second_opts : snap_opts := mk_sopts SNAP3 NSECS 0 0 false 0 dzeroed.
Definition second_line : list Z :=
  [50; 46; 53; 48; 48] ++ 9 :: [69; 85; 82] ++ 9 :: [66; 50] ++ 9 :: [49; 46; 49; 52] ++ 9 :: [50; 48; 48].
Definition first_quote : book_quo :=
  mk_quo BOOK_SIDE_BID BOOK_LVL_2 (DFin false 113 (-2)) (DFin false 100 0) 1500000000.
Definition second_quote : book_quo :=
  mk_quo BOOK_SIDE_BID BOOK_LVL_2 (DFin false 114 (-2)) (DFin false 200 0) 2500000000.
Definition second_pfx (c : Z) : list Z :=
  [c; 46; 48; 48; 48; 48; 48; 48; 48; 48; 48; 9; 69; 85; 82; 9; 66; 50; 9].
Definition second_out : list Z :=
  second_pfx 50 ++ [49; 46; 49; 51; 9; 49; 48; 48; 10] ++
  second_pfx 51 ++ [49; 46; 49; 52; 9; 50; 48; 48; 10] ++
  second_pfx 51 ++ [49; 46; 49; 51; 9; 48; 10].

Lemma second_reads hx :
  hash [69; 85; 82] = Some hx ->
  Forall2 (line_reads 5) [quote_line; second_line; [120]]
    [Line_quote [69; 85; 82] hx first_quote; Line_quote [69; 85; 82] hx second_quote; Line_skip].
Proof.
  intros Hh. repeat constructor.
  - exists (mk_xquo first_quote 6 3). split; [vm_compute; reflexivity|]. split_and!; try reflexivity. exact Hh.
  - exists (mk_xquo second_quote 6 3). split; [vm_compute; reflexivity|]. split_and!; try reflexivity. exact Hh.
  - eexists. split; [vm_compute; reflexivity|reflexivity].
Qed.

Lemma snap_run_correct_witness :
  ∃ hx, day zero_cells second_opts (start_clock []) (replicate 8 aux0) (mk_desk true false [] [])
          [Line_quote [69; 85; 82] hx first_quote; Line_quote [69; 85; 82] hx second_quote; Line_skip]
          (Some second_out).
Proof.
  destruct (hash [69; 85; 82]) as [hx|] eqn:Hh; [|exfalso; vm_compute in Hh; discriminate].
  exists hx.
  destruct (snap_run_correct 64 ltac:(lia) zero_cells second_opts
    ltac:(intros _; split_and!; done || (unfold second_opts; cbn; lia)) 5 [] [] [quote_line; second_line; [120]]
    [Line_quote [69; 85; 82] hx first_quote; Line_quote [69; 85; 82] hx second_quote; Line_skip]) as (o & Ho & Hrun).
  - by apply second_reads.
  - repeat apply Forall_cons_2; [| |done|constructor]; (split; [|intros _ _; reflexivity]); right;
      (split; [vm_compute; discriminate|]); intros _; vm_compute; split; reflexivity.
  - assert (o = Some second_out) as <- by (rewrite <- Hrun; vm_compute; reflexivity). exact Ho.
Defined.
