(* ===== verification/BooksnapRun.v ===== *)
(** * booksnap.c: all books, and quotes that are waited for

    The books of a heap that do not share leaves; a snapshot takes them one by
    one.  [snap_until] repeats that up to the time of a quote, and ends.  Lines
    that the parser rejects leave both tools where they are. *)

From Stdlib Require Import ZArith Lia.
From stdpp Require Import prelude list gmap.
From stdpp Require Import options.
From S2P Require Import Prelude Decimal Dfp754D64 Memrchr Btree BtreeLeaf BtreeIter BtreeSide Books.
From S2P Require Import Xquo XquoSpec BooksLoops BooksSpec BooksAdd BooksExamples.
From S2P Require Import XquoLines Book2book Book2bookSpec Booksnap BooksnapSpec BooksnapClock.

Local Open Scope Z_scope.

(** ** Books side by side *)

Record copy := mk_copy { c_book : book_t; c_leaves : bool -> list positive; c_sides : sides }.

Definition c_all (c : copy) : list positive := both (c_leaves c).

Definition stands (h : bheap) (c : copy) : Prop := book_on h (c_book c) (c_leaves c) (c_sides c).

Record shelf (h : bheap) (S : list copy) : Prop := {
  sh_books : ∀ k c, S !! k = Some c -> stands h c;
  sh_apart : ∀ i j c c', S !! i = Some c -> S !! j = Some c' -> i ≠ j -> c_all c ## c_all c';
}.

Lemma stands_keep h h' c X : stands h c -> keeps X h h' -> c_all c ## X -> stands h' c.
Proof.
  intros (Hx & Hs) Hk Hd. split; [done|]. intros d. destruct (Hs d) as (C & HC & HX & HB).
  exists C. split; [|done]. apply Hk; [done|]. rewrite HX. revert Hd. unfold c_all, both.
  destruct d; set_solver.
Qed.

(** One book changes what it shows. *)
Definition with_sides (c : copy) (B : sides) : copy := mk_copy (c_book c) (c_leaves c) B.

Lemma shelf_upd h h' S1 c S2 B :
  shelf h (S1 ++ c :: S2) -> stands h' (with_sides c B) -> keeps (c_all c) h h' ->
  shelf h' (S1 ++ with_sides c B :: S2).
Proof.
  intros [HB HA] Hc Hk. assert ((S1 ++ c :: S2) !! length S1 = Some c) as Hm by by apply list_lookup_middle.
  assert (∀ k c', (S1 ++ with_sides c B :: S2) !! k = Some c' ->
    (k = length S1 ∧ c' = with_sides c B) ∨ k ≠ length S1 ∧ (S1 ++ c :: S2) !! k = Some c') as Hl.
  { intros k c' Hk'. destruct (decide (k = length S1)) as [->|Hne].
    - left. rewrite list_lookup_middle in Hk' by done. by simplify_eq.
    - right. split; [done|]. destruct (decide (k < length S1)%nat).
      + rewrite lookup_app_l in * by done. done.
      + rewrite lookup_app_r in * by lia. by destruct (k - length S1)%nat eqn:E; [lia|]. }
  split.
  - intros k c' [[_ ->]|[Hne Hk']]%Hl; [done|].
    eapply stands_keep; [by eapply HB|exact Hk|by eapply HA].
  - intros i j ci cj [[-> ->]|[Hi Hi']]%Hl [[-> ->]|[Hj Hj']]%Hl Hij; [done|..].
    + by apply (HA _ j c cj Hm).
    + by apply (HA i _ ci c Hi' Hm).
    + by apply (HA i j).
Qed.

Section snap.
Variable ctz0 : nat.
Variable garbage : leftover.
Variable opts : snap_opts.
Hypothesis Hmode : snap opts = SNAP2.
#[local] Set Default Proof Using "Type*".

(** ** A snapshot of all books *)

Record showing (st : snap_state) (S : list copy) : Prop := {
  sg_shelf : shelf (sheap st) S;
  sg_books : sbooks st = c_book <$> S;
  sg_cont : length (scont st) = length S;
  sg_n : (snbook st + snctch st)%nat = length S;
}.

(** The books at time [m], and their lines. *)
Definition aged (m : Z) (c : copy) : copy := with_sides c (expired (expiry opts m) (c_sides c)).

Definition shelf_lines (m : Z) (cs : list (option (list Z) * copy)) : option (list (list (list Z))) :=
  mapM (λ x, snap2_lines m x.1 (c_sides (aged m x.2))) cs.

Lemma foldl_none {A B} (f : A -> B -> option A) l :
  foldl (λ o x, a ← o; f a x) None l = None.
Proof. by induction l. Qed.

Lemma foldl_some {A B} (f : A -> B -> option A) a x l :
  foldl (λ o x, a ← o; f a x) (Some a) (x :: l) =
  (b ← f a x; foldl (λ o x, a ← o; f a x) (Some b) l).
Proof. cbn [foldl]. bstep. destruct (f a x); [done|]. apply foldl_none. Qed.

Lemma showing_next st S1 c S2 h o :
  showing st (S1 ++ c :: S2) -> stands h (aged (metr st) c) -> keeps (c_all c) (sheap st) h ->
  showing (shown st h o) ((S1 ++ [aged (metr st) c]) ++ S2).
Proof.
  intros [Hs HB Hl Hn] Hc Hk. rewrite <- app_assoc. split; cbn.
  - by eapply shelf_upd.
  - by rewrite HB, !fmap_app.
  - rewrite Hl, !length_app. done.
  - rewrite Hn, !length_app. done.
Qed.

Lemma snap_rest st S1 S2 C1 C2 :
  showing st (S1 ++ S2) -> scont st = C1 ++ C2 -> length C1 = length S1 ->
  let run := foldl (λ o i, st ← o; snap_book ctz0 garbage opts st i) (Some st)
                   (seq (length S1) (length S2)) in
  match shelf_lines (metr st) (zip C2 S2) with
  | Some ls => ∃ h, run = Some (shown st h (concat (concat ls))) ∧
                    shelf h (S1 ++ (aged (metr st) <$> S2))
  | None => run = None
  end.
Proof.
  revert st S1 C1 C2. induction S2 as [|c S2 IH]; intros st S1 C1 C2 Hsh HC HlC; cbv zeta.
  - assert (C2 = []) as ->.
    { pose proof (sg_cont _ _ Hsh) as Hl. rewrite HC, !length_app in Hl. simpl in Hl.
      destruct C2; [done|simpl in Hl; lia]. }
    exists (sheap st). split; [|apply (sg_shelf _ _ Hsh)].
    simpl. unfold shown. rewrite app_nil_r. by destruct st.
  - pose proof Hsh as [Hs HB Hl Hn]. destruct C2 as [|cont C2].
    { rewrite HC, !length_app in Hl. simpl in Hl. lia. }
    assert (stands (sheap st) c) as Hc by (eapply (sh_books _ _ Hs (length S1)); by apply list_lookup_middle).
    destruct (snap_book_run ctz0 garbage opts (V := book_framed (sheap st) (c_leaves c))
                st (length S1) (c_book c) cont (c_sides c)) as (h & Hrun & Hc' & Hk); [done| | |done|].
    { rewrite HB, fmap_app. rewrite <- (length_fmap c_book). by apply list_lookup_middle. }
    { rewrite HC. by apply list_lookup_middle. }
    change (seq _ (length (c :: S2))) with (length S1 :: seq (S (length S1)) (length S2)).
    rewrite foldl_some, Hrun. clear Hrun. unfold shelf_lines. cbn [mapM zip_with fst snd].
    change (expired _ (c_sides c)) with (c_sides (aged (metr st) c)) in *.
    destruct (snap2_lines _ _ _) as [l|]; bstep; [|done].
    pose proof (IH (shown st h (concat l)) (S1 ++ [aged (metr st) c]) (C1 ++ [cont]) C2) as Hrest.
    cbv zeta in Hrest.
    assert (length (S1 ++ [aged (metr st) c]) = S (length S1)) as Hlen by (rewrite length_app; simpl; lia).
    rewrite Hlen in Hrest. cbn [metr shown scont] in Hrest.
    fold (shelf_lines (metr st) (zip C2 S2)).
    destruct (shelf_lines (metr st) (zip C2 S2)) as [ls|]; bstep.
    + destruct Hrest as (h2 & Hrun & Hs2).
      * by apply showing_next.
      * by rewrite HC, <- app_assoc.
      * rewrite length_app. simpl. lia.
      * exists h2. rewrite <- app_assoc in Hs2. split; [|exact Hs2].
        rewrite Hrun. unfold shown. simpl. by rewrite concat_app, <- app_assoc.
    + apply Hrest; [by apply showing_next|by rewrite HC, <- app_assoc|].
      rewrite length_app. simpl. lia.
Qed.

(** A snapshot of any number of books that share no nodes: in the order of
    the table each book loses what has expired, and is printed in full; a
    snapshot of one book leaves the others as they are.  It fails only where a
    line overruns its buffer. *)
Theorem snap_all_correct st S :
  showing st S ->
  match shelf_lines (metr st) (zip (scont st) S) with
  | Some ls => ∃ h, snap_all ctz0 garbage opts st = Some (shown st h (concat (concat ls))) ∧
                    showing (shown st h (concat (concat ls))) (aged (metr st) <$> S)
  | None => snap_all ctz0 garbage opts st = None
  end.
Proof.
  intros Hsh. pose proof (snap_rest st [] S [] (scont st) Hsh eq_refl eq_refl) as Hr.
  cbv zeta in Hr. unfold snap_all. rewrite (sg_n _ _ Hsh).
  destruct (shelf_lines _ _) as [ls|]; [|done]. destruct Hr as (h & Hrun & Hs).
  exists h. split; [exact Hrun|]. destruct Hsh as [_ HB Hl Hn]. split; cbn; [done| | |].
  - rewrite HB, <- list_fmap_compose. done.
  - by rewrite length_fmap.
  - by rewrite length_fmap.
Qed.

(** ** Snapshots until a quote *)

(** What snapshots at the times [ms] print, and the books behind them. *)
Fixpoint history (ms : list Z) (cs : list (option (list Z))) (S : list copy) : option (list Z) :=
  match ms with
  | [] => Some []
  | m :: ms =>
    ls ← shelf_lines m (zip cs S);
    o ← history ms cs (aged m <$> S);
    Some (concat (concat ls) ++ o)
  end.

Definition aged_by (ms : list Z) (S : list copy) : list copy := foldl (λ S m, aged m <$> S) S ms.

(** Calls of [next] from clock [c]: the times [ms] come before [t], clock [c'] has
    come to [t]. *)
Inductive strikes (t : Z) : clock -> list Z -> clock -> Prop :=
  | strikes_last c c' : tick opts c t = Some c' -> t <= c_metr c' -> strikes t c [] c'
  | strikes_more c c1 ms c' :
    tick opts c t = Some c1 -> c_metr c1 < t -> strikes t c1 ms c' -> strikes t c (c_metr c1 :: ms) c'.

Lemma until_strikes t c ms c' :
  strikes t c ms c' -> ∀ fuel st S,
  clock_of st = c -> (length ms < fuel)%nat -> showing st S ->
  match history (metr st :: ms) (scont st) S with
  | Some o => ∃ h, snap_until ctz0 garbage opts fuel st t = Some (with_clock (shown st h o) c') ∧
                   showing (shown st h o) (aged_by (metr st :: ms) S)
  | None => snap_until ctz0 garbage opts fuel st t = None
  end.
Proof.
  induction 1 as [c c' H1 H2|c c1 ms c' H1 H2 _ IH]; intros [|fuel] st S <- Hf Hsh; cbn [length] in Hf; try lia;
    cbn [snap_until]; pose proof (snap_all_correct st S Hsh) as Hall; cbn [history];
    (destruct (shelf_lines (metr st) (zip (scont st) S)) as [ls|]; bstep; [|by rewrite Hall]);
    destruct Hall as (h & Hrun & Hsh1); rewrite Hrun; bstep; rewrite do_next_tick;
    change (clock_of (shown _ _ _)) with (clock_of st); rewrite H1; cbn [fmap option_fmap option_map];
    bstep; cbn [metr with_clock].
  - rewrite (proj2 (Z.ltb_ge _ _)), app_nil_r by lia. by exists h.
  - rewrite (proj2 (Z.ltb_lt _ _)) by lia.
    pose proof (IH fuel (with_clock (shown st h (concat (concat ls))) c1) (aged (metr st) <$> S)) as Hr.
    cbn [metr with_clock scont shown history] in Hr.
    specialize (Hr ltac:(by destruct c1) ltac:(lia) ltac:(by destruct Hsh1)).
    destruct (ls1 ← shelf_lines (c_metr c1) _; _) as [o|]; bstep; [|exact Hr].
    destruct Hr as (h2 & Hu & Hs2). exists h2. rewrite Hu. unfold shown, with_clock. cbn.
    rewrite <- app_assoc. split; [done|]. by destruct Hs2.
Qed.

(** *** The schedule *)

(** Stamps: those before [t], in order, and where the file is then. *)
Fixpoint stamps_until (t o : Z) (l : list (list Z)) : list Z * clock :=
  match l with
  | [] => ([], mk_clock NATV o [])
  | x :: l =>
    let m := (strtotv x).1 in
    if m <? t then let '(ms, c) := stamps_until t o l in (m :: ms, c) else ([], mk_clock m o l)
  end.

(** Intervals: the point of the grid behind the expiry of what was put at time [m],
    when both are before [t] and the expiry has not been waited for; then the
    first point of the grid at [t] or later. *)
Definition expires (m o t : Z) : bool :=
  bool_decide (inva opts ≠ 0 ∧ m ≠ 0 ∧ o < u64 (m + inva opts) < t).

Definition intervals_until (c : clock) (t : Z) : list Z * clock :=
  let tk := next_tick (offs opts) (intv opts) in
  let x := expires (c_metr c) (c_oldm c) t in
  let e := tk (u64 (c_metr c + inva opts)) in
  (if x && (e <? t) then [e] else [], mk_clock (tk t) (if x then t else c_oldm c) (c_left c)).

Definition schedule (c : clock) (t : Z) : list Z * clock :=
  if by_stamps opts then stamps_until t (c_oldm c) (c_left c) else intervals_until c t.

(** The clock works up to [t]: stamps come to an end; intervals need times
    behind the offset that do not wrap around. *)
Definition clock_ok (c : clock) (t : Z) : Prop :=
  t <= NATV ∧
  if by_stamps opts then True
  else 0 < intv opts ∧ 0 <= offs opts < t ∧ t + intv opts < 2 ^ 64 ∧
       (c_metr c ≠ 0 -> inva opts ≠ 0 -> offs opts < u64 (c_metr c + inva opts)).

Lemma stamps_strike t o l m :
  by_stamps opts = true -> t <= NATV ->
  strikes t (mk_clock m o l) (stamps_until t o l).1 (stamps_until t o l).2 ∧
  (length (stamps_until t o l).1 <= length l)%nat.
Proof.
  intros Hby Ht. revert m. induction l as [|x l IH]; intros m; cbn [stamps_until].
  - split; [|done]. apply strikes_last; [unfold tick; by rewrite Hby|done].
  - destruct (Z.ltb_spec (strtotv x).1 t) as [Hx|Hx].
    + destruct (IH (strtotv x).1) as [Hs Hl]. destruct (stamps_until t o l) as [ms c].
      split; [|cbn in *; lia]. apply (strikes_more t _ (mk_clock (strtotv x).1 o l)); [|done..].
      unfold tick. by rewrite Hby.
    + split; [|cbn; lia]. apply strikes_last; [unfold tick; by rewrite Hby|done].
Qed.

(** One point of a grid in every interval. *)
Lemma next_tick_same off i e t :
  0 < i -> e <= t -> t <= next_tick off i e -> next_tick off i t = next_tick off i e.
Proof.
  intros Hi Het Ht. unfold next_tick in *. do 3 f_equal.
  set (q := (e - 1 - off) / i) in *.
  assert (q = (t - 1 - off) / i) as ->; [|done].
  apply (Z.div_unique_pos _ _ _ (t - 1 - off - i * q)); [|lia].
  pose proof (Z.div_mod (e - 1 - off) i). pose proof (Z.mod_pos_bound (e - 1 - off) i). fold q in H. nia.
Qed.

Lemma intervals_strike t c :
  by_stamps opts = false -> clock_ok c t ->
  strikes t c (intervals_until c t).1 (intervals_until c t).2.
Proof.
  intros Hby [_ Hc]. rewrite Hby in Hc. destruct Hc as (Hi & Ho & Hb & Hx).
  destruct (next_tick_spec (offs opts) (intv opts) t Hi) as [_ Ht].
  unfold intervals_until, expires. case_bool_decide as He; cbn [fst snd andb].
  - destruct He as (H1 & H2 & H3). specialize (Hx H2 H1).
    set (e := u64 (c_metr c + inva opts)) in *. set (m := next_tick _ _ e).
    assert (tick opts c t = Some (mk_clock m t (c_left c))) as Hs.
    { unfold tick. rewrite Hby, (next_intv_expiry opts Hi (proj1 Ho)) by (done || (fold e; lia)). done. }
    destruct (Z.ltb_spec m t) as [Hlt|Hge].
    + apply (strikes_more t c (mk_clock m t (c_left c))); [done..|]. apply strikes_last; [|cbn; lia].
      unfold tick. rewrite Hby, (next_intv_plain opts Hi (proj1 Ho)) by (cbn; lia). done.
    + rewrite (next_tick_same _ _ e) by (done || lia). fold m. by apply strikes_last.
  - apply strikes_last; [|cbn; lia]. unfold tick.
    rewrite Hby, (next_intv_plain opts Hi (proj1 Ho)) by lia. done.
Qed.

Lemma schedule_strikes c t :
  clock_ok c t ->
  strikes t c (schedule c t).1 (schedule c t).2 ∧ (length (schedule c t).1 <= 1 + length (c_left c))%nat.
Proof.
  intros Hc. unfold schedule. destruct (by_stamps opts) eqn:Hby.
  - destruct c as [m o l]. destruct (stamps_strike t o l m Hby (proj1 Hc)) as [Hs Hl]. split; [done|cbn; lia].
  - split; [by apply intervals_strike|]. unfold intervals_until. destruct (_ && _); cbn; lia.
Qed.

Lemma strikes_reached t c ms c' : strikes t c ms c' -> t <= c_metr c' ∧ Forall (λ m, m < t) ms.
Proof.
  induction 1 as [|c c1 ms c' _ Hlt _ [IH1 IH2]]; [by split|]. split; [done|]. by constructor.
Qed.

End snap.

(** ** Rejected lines *)

(** C31: a line that is rejected - it has no tab; or a single one; or its side column
    is not empty and begins with a character that gives no side (its
    low four bits are zero, as in NUL, a blank, a zero or a P) - is reported as no quote by [read_xquo],
    and both tools go on in the very state they were in: nothing is printed, no book
    is made, no clock moves.  Columns may be as long as they like and need not hold
    numbers, but where [read_xquo] parses price and quantity before it looks at the side, the
    number parser has to return (it hangs on some malformed numbers). *)
Theorem rejected_line_ignored ctz0 garbage bopts sopts addr line bst sst :
  Forall byte line -> rejected line ->
  read_xquo addr line (length line) = Some NOT_A_XQUO ∧
  b2b_line ctz0 bopts addr bst line = Some bst ∧
  snap_line ctz0 garbage sopts addr sst line = Some sst.
Proof.
  intros Hb Hr. pose proof (read_xquo_rejected addr line Hb Hr) as Hrun.
  unfold b2b_line, snap_line. by rewrite Hrun.
Qed.

(** ** Instances *)

(** "1.5 TAB 100": one tab. *)
Lemma rejected_line_ignored_witness :
  b2b_line 64 demo_b2b 5 demo_table [49; 46; 53; 9; 49; 48; 48] = Some demo_table ∧
  snap_line 64 zero_cells demo_opts 5 (demo_state demo [demo_book] 2) [49; 46; 53; 9; 49; 48; 48] =
    Some (demo_state demo [demo_book] 2).
Proof.
  apply (rejected_line_ignored 64 zero_cells demo_b2b demo_opts 5 ([49; 46; 53] ++ 9 :: [49; 48; 48])
           demo_table (demo_state demo [demo_book] 2)).
  - repeat (constructor; [unfold byte; lia|]). constructor.
  - eapply rej_one_tab.
    + rewrite !not_elem_of_cons. split_and!; try lia. apply not_elem_of_nil.
    + rewrite !not_elem_of_cons. split_and!; try lia. apply not_elem_of_nil.
    + vm_compute. reflexivity.
Defined.

Lemma demo_showing m : ∃ X, showing (demo_state demo [demo_book] m) [mk_copy demo_book X demo_sides].
Proof.
  destruct demo_at as (X & Hb). exists X. split; [|done..]. split.
  - intros [|k] c Hk; [|done]. injection Hk as <-. exact Hb.
  - intros [|i] [|j] c c' Hi Hj Hij; done.
Qed.

Lemma snap_all_correct_witness :
  ∃ h, snap_all 64 zero_cells demo_opts (demo_state demo [demo_book] 2) =
       Some (mk_snap h [] [Some [88]] [demo_book] 1 8 0 2 0 [] [] (concat demo_lines)).
Proof.
  destruct (demo_showing 2) as (X & Hsh).
  pose proof (snap_all_correct 64 zero_cells demo_opts eq_refl _ _ Hsh) as Hall.
  assert (shelf_lines demo_opts 2 [(Some [88], mk_copy demo_book X demo_sides)] = Some [demo_lines]) as Hl.
  { unfold shelf_lines. cbn [mapM fst snd].
    change (c_sides (aged demo_opts 2 _)) with (expired 2 demo_sides). by rewrite demo_lines_ok. }
  cbn [metr demo_state scont zip zip_with] in Hall. rewrite Hl in Hall.
  destruct Hall as (h & Hrun & _). exists h. exact Hrun.
Defined.

