(* ===== verification/Tests.v ===== *)
(** * The project's own tests

    Runs of the two tools from test/*.clit: the output of the models is the
    output the tests expect, byte by byte. *)

From Stdlib Require Import ZArith String Ascii.
From stdpp Require Import prelude list.
From stdpp Require Import options.
From S2P Require Import Prelude Decimal Dfp754D64 Btree Books Xquo Book2book Booksnap.

Local Open Scope string_scope.
Local Open Scope Z_scope.

Definition bytes (s : string) : list Z :=
  map (fun c => Z.of_N (N_of_ascii c)) (list_ascii_of_string s).

Definition text (l : list Z) : string :=
  string_of_list_ascii (map (fun z => ascii_of_N (Z.to_N z)) l).

(** The lines [getline] returns. *)
Fixpoint lines (l cur : list Z) : list (list Z) :=
  match l with
  | [] => match cur with [] => [] | _ => [rev cur] end
  | c :: l => if c =? 10 then rev (c :: cur) :: lines l [] else lines l (c :: cur)
  end.

Definition book2book (a : b2b_args) (input : string) : option string :=
  o ← b2b_options a;
  r ← b2b_run 64 o 0 [] (lines (bytes input) []);
  Some (text r).

Definition booksnap (a : snap_args) (stamps input : string) : option string :=
  o ← snap_options a;
  r ← snap_run 64 (λ _ _, DNan) o 0 [] (lines (bytes stamps) []) (lines (bytes input) []);
  Some (text r).

Definition xmpl_01_b : string := "## example book
100000000.000000000	X	ASK2	100.00	1.00
100000000.000000000	X	ASK2	110.00	2.00
100000000.000000000	X	ASK2	120.00	4.00
100000000.000000000	X	ASK2	140.00	10.00
100000000.000000000	X	BID2	95.00	1.00
100000000.000000000	X	BID2	90.00	3.00
100000000.000000000	X	BID2	85.00	5.00
100000000.000000000	X	BID2	80.00	10.00
".

Example book2book_02 :
  book2book (mk_args false false false None None) xmpl_01_b = Some
"100000000.000000000	X	A2	100.00	1.00
100000000.000000000	X	A2	110.00	2.00
100000000.000000000	X	A2	120.00	4.00
100000000.000000000	X	A2	140.00	10.00
100000000.000000000	X	B2	95.00	1.00
100000000.000000000	X	B2	90.00	3.00
100000000.000000000	X	B2	85.00	5.00
100000000.000000000	X	B2	80.00	10.00
".
Proof. vm_compute. reflexivity. Qed.

Example book2book_07 :
  book2book (mk_args false false true None None) xmpl_01_b = Some
"100000000.000000000	X	A3	100.00	1.00
100000000.000000000	X	A3	110.00	2.00
100000000.000000000	X	A3	120.00	4.00
100000000.000000000	X	A3	140.00	10.00
100000000.000000000	X	B3	95.00	1.00
100000000.000000000	X	B3	90.00	3.00
100000000.000000000	X	B3	85.00	5.00
100000000.000000000	X	B3	80.00	10.00
".
Proof. vm_compute. reflexivity. Qed.

Definition xmpl_05_b : string := "## example top level book
100000000.000000000	X	ASK1	100.00	1.00
100000000.000000000	X	BID1	95.00	1.00
100000001.000000000	X	ASK1	140.00	10.00
100000001.000000000	X	BID1		0
100000002.000000000	X	ASK1	110.00	2.00
100000002.000000000	X	BID1	80.00	2.00
".

Example booksnap_03 :
  booksnap (mk_sargs None None None false false false false None None)
    EmptyString xmpl_05_b = Some
"100000000.000000000	X	B2	95.00	1.00
100000000.000000000	X	A2	100.00	1.00
100000001.000000000	X	A2	140.00	10.00
100000002.000000000	X	B2	80.00	2.00
100000002.000000000	X	A2	110.00	2.00
".
Proof. vm_compute. reflexivity. Qed.
